(** * Agora uplink demodulation stage ([DoDemul::Launch])

    A shallow embedding of the equalization, phase-tracking and
    soft-demodulation stage of the Agora massive-MIMO baseband, together
    with the older Millipede variant of the same stage and the client-side
    [UeWorker::DoDemul].

    Conventions.
    - [size_t] values are integers in [Z]; the subtractions of the source
      that can wrap ([frame_id - 1], [OfdmDataNum - base_sc_id], ...) and the
      cycle counts are written with their reduction modulo [2^64], and so
      is an offset computed from a value that can have wrapped (the row
      [offset] of [UeWorker::DoDemul]).  The other offsets into allocated
      buffers are far below [2^64] and are computed in [Z].
    - A buffer is a total map from element offsets to values; reading or
      writing outside an allocation is undefined behaviour in C++ and is not
      given a meaning of its own here.
    - Single-precision arithmetic is kept abstract behind the classes
      [FloatArith] and [FloatOps]; every statement proved for all instances
      holds whatever the rounding is.  The instance over the real numbers is
      the exact arithmetic the rounding approximates.
    - Constants declared in headers that are not part of the sources at hand
      ([kFrameWnd], [kTransposeBlockSize], the [CommsLib] modulation codes,
      ...) are fields of the record [Symbols]; collaborators (tag decoding,
      cycle counter, demodulation kernels) are fields of [Inputs].
    - Debug printing ([kDebugPrintInTask] and the like) is left out; the
      message printed for an unsupported modulation is kept. *)

From Stdlib Require Import String ZArith List Lia Bool.
From Stdlib Require Import Reals Lra.
Import ListNotations.
Local Open Scope Z_scope.

(** ** Results, state-and-error monad, loops *)

Inductive error : Type :=
| AssertFail    (* a failed [assert] *)
| Misaligned    (* an aligned vector store to a misaligned address *)
| Diverge       (* a [for] loop whose counter does not advance *)
| RtAssertFail. (* a failed [RtAssert] *)

Inductive result (A : Type) : Type :=
| Ok (a : A)
| Err (e : error).
Arguments Ok {A} a.
Arguments Err {A} e.

Definition M (St A : Type) : Type := St -> result (A * St).

Definition ret {St A} (a : A) : M St A := fun s => Ok (a, s).

Definition bind {St A B} (m : M St A) (k : A -> M St B) : M St B :=
  fun s => match m s with
           | Ok (a, s') => k a s'
           | Err e => Err e
           end.

Definition get {St} : M St St := fun s => Ok (s, s).
Definition gets {St A} (f : St -> A) : M St A := fun s => Ok (f s, s).
Definition modify {St} (f : St -> St) : M St unit := fun s => Ok (tt, f s).
Definition raise {St A} (e : error) : M St A := fun _ => Err e.

Definition assert_ {St} (b : bool) : M St unit :=
  if b then ret tt else raise AssertFail.

Declare Scope monad_scope.
Delimit Scope monad_scope with monad.
Notation "x <- m ;; k" := (bind m (fun x => k))
  (at level 61, m at next level, right associativity) : monad_scope.
Notation "m ;; k" := (bind m (fun _ => k))
  (at level 61, right associativity) : monad_scope.
Local Open Scope monad_scope.

(** [for (i = start; i < stop; i += step) body(i)].  The fuel bounds the
    number of iterations; it runs out only when [step] is not positive. *)
Fixpoint for_up {St} (fuel : nat) (i stop step : Z) (body : Z -> M St unit)
  : M St unit :=
  if i <? stop then
    match fuel with
    | O => raise Diverge
    | S fuel' => body i ;; for_up fuel' (i + step) stop step body
    end
  else ret tt.

Definition for_ {St} (start stop step : Z) (body : Z -> M St unit) : M St unit :=
  for_up (Z.to_nat (stop - start)) start stop step body.

(** The body run at [f 0], [f 1], ..., [f (n-1)]. *)
Fixpoint repeat_m {St} (n : nat) (f : nat -> M St unit) : M St unit :=
  match n with
  | O => ret tt
  | S n' => f O ;; repeat_m n' (fun k => f (S k))
  end.

(** Number of iterations of [for (i = start; i < stop; i += step)]. *)
Definition iterations (start stop step : Z) : nat :=
  Z.to_nat ((stop - start + step - 1) / step).

(** ** Buffers *)

Definition buf (T : Type) : Type := Z -> T.

Definition upd {T} (b : buf T) (k : Z) (v : T) : buf T :=
  fun i => if i =? k then v else b i.

(** [n] consecutive elements starting at [off]. *)
Fixpoint read_n {T} (b : buf T) (off : Z) (n : nat) : list T :=
  match n with
  | O => []
  | S n' => b off :: read_n b (off + 1) n'
  end.

(** [l] written at consecutive offsets from [off]. *)
Fixpoint write_list {T} (b : buf T) (off : Z) (l : list T) : buf T :=
  match l with
  | [] => b
  | v :: l' => write_list (upd b off v) (off + 1) l'
  end.

(** Elements at [off], [off + stride], ..., one per vector lane. *)
Fixpoint read_strided {T} (b : buf T) (off stride : Z) (n : nat) : list T :=
  match n with
  | O => []
  | S n' => b off :: read_strided b (off + stride) stride n'
  end.

Definition wrap64 (x : Z) : Z := x mod 2 ^ 64.

(** ** Constants and configuration *)

(** dodemul.cc:9 *)
Definition kUseSIMDGather : bool := true.

(** Complex samples per 64-byte cache line.  The constant lives in a header
    outside the sources; its value is the one the sources rely on
    ("8 subcarriers in the same cache line", dodemul.cc:119, and the literal
    8 of the Millipede loops). *)
Definition kSCsPerCacheline : Z := 8.

Record Symbols : Type := {
  kFrameWnd : Z;
  kTransposeBlockSize : Z;
  kUsePartialTrans : bool;
  kExportConstellation : bool;
  kPrintPhyStats : bool;
  AVX512F : bool;            (* whether [__AVX512F__] is defined *)
  NDEBUG : bool;             (* whether [assert] is compiled out *)
  kQpsk : Z;                 (* CommsLib::kQpsk *)
  kQaM16 : Z;                (* CommsLib::kQaM16 *)
  kQaM64 : Z                 (* CommsLib::kQaM64 *)
}.

Record Config : Type := {
  BsAntNum : Z;
  UeNum : Z;
  OfdmDataNum : Z;
  DemulBlockSize : Z;
  ClientUlPilotSymbols : Z;  (* cfg_->Frame().ClientUlPilotSymbols() *)
  ModOrderBits : Z;
  Modulation : string;
  GetULSymbolIdx : Z -> Z;   (* cfg_->Frame().GetULSymbolIdx *)
  GetTotalDataSymbolIdxUl : Z -> Z -> Z;
  GetZfScId : Z -> Z
}.

(** ** Task size and the alignment assertion (dodemul.cc:100-102) *)

Definition max_sc_ite (cfg : Config) (base_sc_id : Z) : Z :=
  Z.min (DemulBlockSize cfg) (wrap64 (OfdmDataNum cfg - base_sc_id)).

Definition launch_assertion (cfg : Config) (base_sc_id : Z) : bool :=
  max_sc_ite cfg base_sc_id mod kSCsPerCacheline =? 0.

(** ** Gather/transpose unit (dodemul.cc:107-176)

    Offsets are counted in complex samples.  The vector index registers of
    the source address pairs of floats [(2kT, 2kT+1)]: lane [k] of a gather
    is the complex sample [k * kTransposeBlockSize] places after the base. *)

Record gather_locals (T : Type) : Type := {
  g_src : Z;        (* [src], relative to [data_buf] *)
  g_dst : Z;        (* [dst], relative to [data_gather_buffer_] *)
  g_buf : buf T     (* contents of [data_gather_buffer_] *)
}.
Arguments g_src {T} _.
Arguments g_dst {T} _.
Arguments g_buf {T} _.

Section GatherKernels.
Context {T : Type}.
Variable transpose_block_size : Z.
Variable bs_ant_num : Z.
Variable data_buf : buf T.

(** [_mm256_store_ps] / [_mm512_store_ps]: [lanes] complex samples stored
    at offset [off] of the 64-byte aligned gather buffer; the address has
    to be a multiple of the register size, which is [lanes] samples. *)
Definition store_ps (lanes off : Z) (v : list T) : M (gather_locals T) unit :=
  fun s =>
    if off mod lanes =? 0 then
      Ok (tt, {| g_src := g_src s; g_dst := g_dst s;
                 g_buf := write_list (g_buf s) off v |})
    else Err Misaligned.

(** [src += ant_num_per_simd * kTransposeBlockSize * 2;
     dst += ant_num_per_simd * 2;] in floats. *)
Definition advance (lanes : Z) : M (gather_locals T) unit :=
  modify (fun s => {| g_src := g_src s + lanes * transpose_block_size;
                      g_dst := g_dst s + lanes;
                      g_buf := g_buf s |}).

(** The shape the two vector loops share: [lanes] antennas per register,
    [rx src j] the register loaded for row [j]. *)
Definition simd_pass (lanes : Z) (rx : Z -> Z -> list T)
  : M (gather_locals T) unit :=
  for_ 0 bs_ant_num lanes (fun ant_i =>
    for_ 0 kSCsPerCacheline 1 (fun j =>
      s <- get ;;
      store_ps lanes (g_dst s + j * bs_ant_num) (rx (g_src s) j)) ;;
    advance lanes).

(** The [#ifdef __AVX512F__] branch: 8 antennas per register. *)
Definition gather_avx512 : M (gather_locals T) unit :=
  let ant_num_per_simd := 8 in
  for_ 0 bs_ant_num ant_num_per_simd (fun ant_i =>
    for_ 0 kSCsPerCacheline 1 (fun j =>
      s <- get ;;
      let data_rx :=
        if transpose_block_size =? 1
        then read_n data_buf (g_src s + j * bs_ant_num) 8
        else read_strided data_buf (g_src s + j) transpose_block_size 8 in
      store_ps 8 (g_dst s + j * bs_ant_num) data_rx) ;;
    advance ant_num_per_simd).

(** The [#else] branch: 4 antennas per register.  The gather loop of the
    Millipede variant (dodemul.cpp:83-92) is the same loop. *)
Definition gather_avx2 : M (gather_locals T) unit :=
  let ant_num_per_simd := 4 in
  for_ 0 bs_ant_num ant_num_per_simd (fun ant_i =>
    for_ 0 kSCsPerCacheline 1 (fun j =>
      s <- get ;;
      let data_rx :=
        read_strided data_buf (g_src s + j) transpose_block_size 4 in
      store_ps 4 (g_dst s + j * bs_ant_num) data_rx) ;;
    advance ant_num_per_simd).
End GatherKernels.

Section Gather.
Context {T : Type}.
Variable sym : Symbols.
Variable cfg : Config.
Variable data_buf : buf T.

Definition partial_transpose_block_base (base_sc_id i : Z) : Z :=
  ((base_sc_id + i) / kTransposeBlockSize sym) *
  (kTransposeBlockSize sym * BsAntNum cfg).

(** The scalar loop of the [else] branch, [*dst++ = ...]. *)
Definition gather_scalar (base_sc_id i ant_start : Z)
  : M (gather_locals T) unit :=
  for_ 0 kSCsPerCacheline 1 (fun j =>
    for_ ant_start (BsAntNum cfg) 1 (fun ant_i =>
      modify (fun s =>
        {| g_src := g_src s;
           g_dst := g_dst s + 1;
           g_buf := upd (g_buf s) (g_dst s)
                      (if kUsePartialTrans sym
                       then data_buf (partial_transpose_block_base base_sc_id i
                                      + ant_i * kTransposeBlockSize sym
                                      + (base_sc_id + i + j)
                                          mod kTransposeBlockSize sym)
                       else data_buf (ant_i * OfdmDataNum cfg
                                      + base_sc_id + i + j)) |}))).

Definition simd_guard : bool :=
  kUseSIMDGather && (BsAntNum cfg mod 4 =? 0) && kUsePartialTrans sym.

(** Step 1 of the cache-line iteration.  [ant_start] is 0 where the scalar
    loop reads it; the value assigned to it after the vector pass
    ([BsAntNum % 4]) is not read again and is left out of the result. *)
Definition gather_stage (base_sc_id i : Z) (gbuf : buf T) : result (buf T) :=
  let ant_start := 0 in
  let run :=
    if simd_guard then
      let cur_sc_offset :=
        partial_transpose_block_base base_sc_id i
        + (base_sc_id + i) mod kTransposeBlockSize sym in
      (if AVX512F sym
       then gather_avx512 (kTransposeBlockSize sym) (BsAntNum cfg) data_buf
       else gather_avx2 (kTransposeBlockSize sym) (BsAntNum cfg) data_buf)
        {| g_src := cur_sc_offset; g_dst := 0; g_buf := gbuf |}
    else
      gather_scalar base_sc_id i ant_start
        {| g_src := 0; g_dst := ant_start; g_buf := gbuf |} in
  match run with
  | Ok (_, s) => Ok (g_buf s)
  | Err e => Err e
  end.

(** The layout the gather is meant to realise (spec 4.2): row [j] of the
    gathered buffer holds, for each antenna [a], the sample of subcarrier
    [s = base_sc_id + i + j]. *)
Definition layout_offset (s a : Z) : Z :=
  if kUsePartialTrans sym
  then (s / kTransposeBlockSize sym)
         * (kTransposeBlockSize sym * BsAntNum cfg)
       + a * kTransposeBlockSize sym + s mod kTransposeBlockSize sym
  else a * OfdmDataNum cfg + s.

Definition reference_gather (base_sc_id i : Z) (gbuf : buf T) : buf T :=
  fun k =>
    if (0 <=? k) && (k <? kSCsPerCacheline * BsAntNum cfg) then
      data_buf (layout_offset (base_sc_id + i + k / BsAntNum cfg)
                              (k mod BsAntNum cfg))
    else gbuf k.
End Gather.

(** ** Single-precision arithmetic and complex samples *)

(** What the matrix product needs. *)
Class FloatArith (F : Type) : Type := {
  f_zero : F;
  f_add : F -> F -> F;
  f_sub : F -> F -> F;
  f_mul : F -> F -> F;
  f_neg : F -> F
}.

(** What the phase tracker needs on top of it. *)
Class FloatOps (F : Type) : Type := {
  float_arith :: FloatArith F;
  f_div : F -> F -> F;
  f_sqrt : F -> F;
  f_cos : F -> F;
  f_sin : F -> F;
  f_atan2 : F -> F -> F;     (* [atan2 y x] *)
  f_of_Z : Z -> F;           (* conversion of an integer to [float] *)
  f_is_zero : F -> bool      (* comparison with [0.0f] *)
}.

(** [struct complex_float { float re; float im; }], also read as
    [arma::cx_float]. *)
Record complex_float (F : Type) : Type := mk_cx { re : F; im : F }.
Arguments mk_cx {F} re im.
Arguments re {F} _.
Arguments im {F} _.

Fixpoint map2 {A B C} (f : A -> B -> C) (l : list A) (l' : list B) : list C :=
  match l, l' with
  | a :: t, b :: t' => f a b :: map2 f t t'
  | _, _ => []
  end.

(** The integers [lo], [lo + 1], ..., [hi - 1]. *)
Definition zrange (lo hi : Z) : list Z :=
  map (fun k => lo + Z.of_nat k) (seq 0 (Z.to_nat (hi - lo))).

(** [static_cast<int>] of a [size_t]. *)
Definition to_int (x : Z) : Z := (x + 2 ^ 31) mod 2 ^ 32 - 2 ^ 31.

Section ComplexArith.
Context {F : Type} {arith : FloatArith F}.

Definition cx_zero : complex_float F := mk_cx f_zero f_zero.

Definition cx_add (a b : complex_float F) : complex_float F :=
  mk_cx (f_add (re a) (re b)) (f_add (im a) (im b)).

Definition cx_mul (a b : complex_float F) : complex_float F :=
  mk_cx (f_sub (f_mul (re a) (re b)) (f_mul (im a) (im b)))
        (f_add (f_mul (re a) (im b)) (f_mul (im a) (re b))).

Definition cx_conj (a : complex_float F) : complex_float F :=
  mk_cx (re a) (f_neg (im a)).

(** [A * x] for a column-major [rows] x [cols] matrix at [A] and the
    vector of [cols] entries at offset [xoff] of [x]; each entry is
    accumulated from zero over the columns in increasing order. *)
Definition mat_vec (A : buf (complex_float F)) (x : buf (complex_float F))
           (xoff rows cols : Z) : list (complex_float F) :=
  map (fun u =>
         fold_left (fun acc a => cx_add acc (cx_mul (A (a * rows + u))
                                                    (x (xoff + a))))
                   (zrange 0 cols) cx_zero)
      (zrange 0 rows).
End ComplexArith.

Section Complex.
Context {F : Type} {ops : FloatOps F}.

Definition cx_abs (a : complex_float F) : F :=
  f_sqrt (f_add (f_mul (re a) (re a)) (f_mul (im a) (im a))).

(** [std::arg] *)
Definition cx_arg (a : complex_float F) : F := f_atan2 (im a) (re a).

(** Armadillo's [sign] on a complex number: [x / |x|], and [x] itself
    when [|x|] is zero. *)
Definition cx_sign (a : complex_float F) : complex_float F :=
  let r := cx_abs a in
  if f_is_zero r then a else mk_cx (f_div (re a) r) (f_div (im a) r).
End Complex.

(** ** State of a [DoDemul] worker and its collaborators *)

Record DurationStat : Type := {
  task_duration_ : buf Z;
  task_count_ : Z
}.

(** A call of [std::printf]: the format string and its arguments. *)
Inductive printf_arg : Type :=
| ArgStr (s : string)
| ArgZu (n : Z).

Record printf_call : Type := { fmt_ : string; args_ : list printf_arg }.

Inductive phy_stats_call (F : Type) : Type :=
| UpdateEvmStats (frame_id cur_sc_id : Z) (mat_equaled : list (complex_float F))
| PrintEvmStats (frame_id : Z).
Arguments UpdateEvmStats {F} _ _ _.
Arguments PrintEvmStats {F} _.

Record DoDemul (F : Type) : Type := {
  data_gather_buffer_ : buf (complex_float F);
  equaled_buffer_temp_ : buf (complex_float F);
  equaled_buffer_temp_transposed_ : buf (complex_float F);
  ue_spec_pilot_buffer_ : Z -> buf (complex_float F);
  equal_buffer_ : Z -> buf (complex_float F);
  demod_buffers_ : Z -> Z -> Z -> buf Z;   (* slot, symbol, UE, byte offset *)
  duration_stat_ : DurationStat;
  phy_stats_ : list (phy_stats_call F);    (* calls made, latest first *)
  stdout_ : list printf_call;              (* calls of printf, latest first *)
  tsc_reads_ : nat                         (* cycle-counter reads so far *)
}.
Arguments data_gather_buffer_ {F} _.
Arguments equaled_buffer_temp_ {F} _.
Arguments equaled_buffer_temp_transposed_ {F} _.
Arguments ue_spec_pilot_buffer_ {F} _.
Arguments equal_buffer_ {F} _.
Arguments demod_buffers_ {F} _.
Arguments duration_stat_ {F} _.
Arguments phy_stats_ {F} _.
Arguments stdout_ {F} _.
Arguments tsc_reads_ {F} _.

Inductive EventType : Type := kDemul | kFFTPilot.

Record EventData : Type := { event_type_ : EventType; tags_ : Z }.

(** What a worker is given and only reads: the fields of [gen_tag_t], the
    received samples, the zero-forcing matrices, the known pilots
    ([ue_pilot_data_ u sc], row [u], column [sc]), the successive values of
    the cycle counter, and the three soft-demodulation kernels (input
    vector, number of subcarriers; result: the LLR bytes they store). *)
Record Inputs (F : Type) : Type := {
  frame_id_ : Z -> Z;
  symbol_id_ : Z -> Z;
  sc_id_ : Z -> Z;
  data_buffer_ : Z -> buf (complex_float F);
  ul_zf_matrices_ : Z -> Z -> buf (complex_float F);
  ue_pilot_data_ : Z -> Z -> complex_float F;
  WorkerRdtsc : nat -> Z;
  DemodQpskSoftSse : buf (complex_float F) -> Z -> list Z;
  Demod16qamSoftAvx2 : buf (complex_float F) -> Z -> list Z;
  Demod64qamSoftAvx2 : buf (complex_float F) -> Z -> list Z
}.
Arguments frame_id_ {F} _ _.
Arguments symbol_id_ {F} _ _.
Arguments sc_id_ {F} _ _.
Arguments data_buffer_ {F} _ _.
Arguments ul_zf_matrices_ {F} _ _ _.
Arguments ue_pilot_data_ {F} _ _ _.
Arguments WorkerRdtsc {F} _ _.
Arguments DemodQpskSoftSse {F} _ _ _.
Arguments Demod16qamSoftAvx2 {F} _ _ _.
Arguments Demod64qamSoftAvx2 {F} _ _ _.

Section Setters.
Context {F : Type}.
Implicit Type st : DoDemul F.

Definition set_data_gather_buffer_ (v : buf (complex_float F)) st : DoDemul F :=
  {| data_gather_buffer_ := v;
     equaled_buffer_temp_ := equaled_buffer_temp_ st;
     equaled_buffer_temp_transposed_ := equaled_buffer_temp_transposed_ st;
     ue_spec_pilot_buffer_ := ue_spec_pilot_buffer_ st;
     equal_buffer_ := equal_buffer_ st;
     demod_buffers_ := demod_buffers_ st;
     duration_stat_ := duration_stat_ st;
     phy_stats_ := phy_stats_ st;
     stdout_ := stdout_ st;
     tsc_reads_ := tsc_reads_ st |}.

Definition set_equaled_buffer_temp_ (v : buf (complex_float F)) st : DoDemul F :=
  {| data_gather_buffer_ := data_gather_buffer_ st;
     equaled_buffer_temp_ := v;
     equaled_buffer_temp_transposed_ := equaled_buffer_temp_transposed_ st;
     ue_spec_pilot_buffer_ := ue_spec_pilot_buffer_ st;
     equal_buffer_ := equal_buffer_ st;
     demod_buffers_ := demod_buffers_ st;
     duration_stat_ := duration_stat_ st;
     phy_stats_ := phy_stats_ st;
     stdout_ := stdout_ st;
     tsc_reads_ := tsc_reads_ st |}.

Definition set_equaled_buffer_temp_transposed_ (v : buf (complex_float F)) st
  : DoDemul F :=
  {| data_gather_buffer_ := data_gather_buffer_ st;
     equaled_buffer_temp_ := equaled_buffer_temp_ st;
     equaled_buffer_temp_transposed_ := v;
     ue_spec_pilot_buffer_ := ue_spec_pilot_buffer_ st;
     equal_buffer_ := equal_buffer_ st;
     demod_buffers_ := demod_buffers_ st;
     duration_stat_ := duration_stat_ st;
     phy_stats_ := phy_stats_ st;
     stdout_ := stdout_ st;
     tsc_reads_ := tsc_reads_ st |}.

Definition set_ue_spec_pilot_buffer_ (v : Z -> buf (complex_float F)) st
  : DoDemul F :=
  {| data_gather_buffer_ := data_gather_buffer_ st;
     equaled_buffer_temp_ := equaled_buffer_temp_ st;
     equaled_buffer_temp_transposed_ := equaled_buffer_temp_transposed_ st;
     ue_spec_pilot_buffer_ := v;
     equal_buffer_ := equal_buffer_ st;
     demod_buffers_ := demod_buffers_ st;
     duration_stat_ := duration_stat_ st;
     phy_stats_ := phy_stats_ st;
     stdout_ := stdout_ st;
     tsc_reads_ := tsc_reads_ st |}.

Definition set_equal_buffer_ (v : Z -> buf (complex_float F)) st : DoDemul F :=
  {| data_gather_buffer_ := data_gather_buffer_ st;
     equaled_buffer_temp_ := equaled_buffer_temp_ st;
     equaled_buffer_temp_transposed_ := equaled_buffer_temp_transposed_ st;
     ue_spec_pilot_buffer_ := ue_spec_pilot_buffer_ st;
     equal_buffer_ := v;
     demod_buffers_ := demod_buffers_ st;
     duration_stat_ := duration_stat_ st;
     phy_stats_ := phy_stats_ st;
     stdout_ := stdout_ st;
     tsc_reads_ := tsc_reads_ st |}.

Definition set_demod_buffers_ (v : Z -> Z -> Z -> buf Z) st : DoDemul F :=
  {| data_gather_buffer_ := data_gather_buffer_ st;
     equaled_buffer_temp_ := equaled_buffer_temp_ st;
     equaled_buffer_temp_transposed_ := equaled_buffer_temp_transposed_ st;
     ue_spec_pilot_buffer_ := ue_spec_pilot_buffer_ st;
     equal_buffer_ := equal_buffer_ st;
     demod_buffers_ := v;
     duration_stat_ := duration_stat_ st;
     phy_stats_ := phy_stats_ st;
     stdout_ := stdout_ st;
     tsc_reads_ := tsc_reads_ st |}.

Definition set_duration_stat_ (v : DurationStat) st : DoDemul F :=
  {| data_gather_buffer_ := data_gather_buffer_ st;
     equaled_buffer_temp_ := equaled_buffer_temp_ st;
     equaled_buffer_temp_transposed_ := equaled_buffer_temp_transposed_ st;
     ue_spec_pilot_buffer_ := ue_spec_pilot_buffer_ st;
     equal_buffer_ := equal_buffer_ st;
     demod_buffers_ := demod_buffers_ st;
     duration_stat_ := v;
     phy_stats_ := phy_stats_ st;
     stdout_ := stdout_ st;
     tsc_reads_ := tsc_reads_ st |}.

Definition set_phy_stats_ (v : list (phy_stats_call F)) st : DoDemul F :=
  {| data_gather_buffer_ := data_gather_buffer_ st;
     equaled_buffer_temp_ := equaled_buffer_temp_ st;
     equaled_buffer_temp_transposed_ := equaled_buffer_temp_transposed_ st;
     ue_spec_pilot_buffer_ := ue_spec_pilot_buffer_ st;
     equal_buffer_ := equal_buffer_ st;
     demod_buffers_ := demod_buffers_ st;
     duration_stat_ := duration_stat_ st;
     phy_stats_ := v;
     stdout_ := stdout_ st;
     tsc_reads_ := tsc_reads_ st |}.

Definition set_stdout_ (v : list printf_call) st : DoDemul F :=
  {| data_gather_buffer_ := data_gather_buffer_ st;
     equaled_buffer_temp_ := equaled_buffer_temp_ st;
     equaled_buffer_temp_transposed_ := equaled_buffer_temp_transposed_ st;
     ue_spec_pilot_buffer_ := ue_spec_pilot_buffer_ st;
     equal_buffer_ := equal_buffer_ st;
     demod_buffers_ := demod_buffers_ st;
     duration_stat_ := duration_stat_ st;
     phy_stats_ := phy_stats_ st;
     stdout_ := v;
     tsc_reads_ := tsc_reads_ st |}.

Definition set_tsc_reads_ (v : nat) st : DoDemul F :=
  {| data_gather_buffer_ := data_gather_buffer_ st;
     equaled_buffer_temp_ := equaled_buffer_temp_ st;
     equaled_buffer_temp_transposed_ := equaled_buffer_temp_transposed_ st;
     ue_spec_pilot_buffer_ := ue_spec_pilot_buffer_ st;
     equal_buffer_ := equal_buffer_ st;
     demod_buffers_ := demod_buffers_ st;
     duration_stat_ := duration_stat_ st;
     phy_stats_ := phy_stats_ st;
     stdout_ := stdout_ st;
     tsc_reads_ := v |}.
End Setters.

(** ** Phase tracker, pure part (dodemul.cc:214-253) *)

Record transpose_locals (T : Type) : Type := {
  t_equal_t_ptr : Z;   (* [equal_t_ptr], relative to the transposed buffer *)
  t_equal_ptr : Z;     (* [equal_ptr], relative to the buffer it reads *)
  t_buf : buf T        (* contents of [equaled_buffer_temp_transposed_] *)
}.
Arguments t_equal_t_ptr {T} _.
Arguments t_equal_ptr {T} _.
Arguments t_buf {T} _.


Section PhaseTracker.
Context {F : Type} {ops : FloatOps F}.
Variable sym : Symbols.
Variable cfg : Config.
Variable inp : Inputs F.

(** [ue_pilot_data_.col(cur_sc_id)] *)
Definition ue_pilot_col (cur_sc_id : Z) : list (complex_float F) :=
  map (fun u => ue_pilot_data_ inp u cur_sc_id) (zrange 0 (UeNum cfg)).

(** [sign(mat_equaled % conj(ue_pilot_data_.col(cur_sc_id)))] *)
Definition shift_sc (cur_sc_id : Z) (mat_equaled : list (complex_float F))
  : list (complex_float F) :=
  map cx_sign (map2 cx_mul mat_equaled (map cx_conj (ue_pilot_col cur_sc_id))).

(** "Reset previous frame": the [UeNum] x [ClientUlPilotSymbols] matrix of
    slot [(frame_id - 1) % kFrameWnd] is filled with zeros. *)
Definition reset_previous_frame (frame_id : Z)
           (pilot : Z -> buf (complex_float F)) : Z -> buf (complex_float F) :=
  let slot := wrap64 (frame_id - 1) mod kFrameWnd sym in
  upd pilot slot
      (write_list (pilot slot) 0
         (repeat cx_zero (Z.to_nat (UeNum cfg * ClientUlPilotSymbols cfg)))).

(** The branch [symbol_idx_ul < ClientUlPilotSymbols] (lines 216-231), as
    a function of the pilot-phase table. *)
Definition calc_phase_shift (frame_id symbol_idx_ul cur_sc_id : Z)
           (mat_equaled : list (complex_float F))
           (pilot : Z -> buf (complex_float F)) : Z -> buf (complex_float F) :=
  let pilot1 :=
    if (symbol_idx_ul =? 0) && (cur_sc_id =? 0)
    then reset_previous_frame frame_id pilot
    else pilot in
  let slot := frame_id mod kFrameWnd sym in
  let off := symbol_idx_ul * UeNum cfg in
  let mat_phase_shift := read_n (pilot1 slot) off (Z.to_nat (UeNum cfg)) in
  upd pilot1 slot
      (write_list (pilot1 slot) off
         (map2 cx_add mat_phase_shift (shift_sc cur_sc_id mat_equaled))).

(** Column [s] of [theta_mat = arg(pilot_corr_mat)]. *)
Definition theta_col (pilot_corr : buf (complex_float F)) (s : Z) : list F :=
  map cx_arg (read_n pilot_corr (s * UeNum cfg) (Z.to_nat (UeNum cfg))).

(** [theta_inc] after the loop over [s] and the division (lines 241-247). *)
Definition theta_inc (pilot_corr : buf (complex_float F)) : list F :=
  let sum :=
    fold_left (fun acc s =>
                 map2 f_add acc
                      (map2 f_sub (theta_col pilot_corr s)
                                  (theta_col pilot_corr (s - 1))))
              (zrange 1 (ClientUlPilotSymbols cfg))
              (repeat f_zero (Z.to_nat (UeNum cfg))) in
  let d := f_of_Z (Z.max 1 (to_int (wrap64 (ClientUlPilotSymbols cfg - 1)))) in
  map (fun x => f_div x d) sum.

Definition cur_theta (symbol_idx_ul : Z) (pilot_corr : buf (complex_float F))
  : list F :=
  map2 f_add (theta_col pilot_corr 0)
       (map (f_mul (f_of_Z symbol_idx_ul)) (theta_inc pilot_corr)).

(** The value of [mat_equaled] after [mat_equaled %= mat_phase_correct]
    (lines 248-253). *)
Definition phase_correct (symbol_idx_ul : Z)
           (pilot_corr : buf (complex_float F))
           (mat_equaled : list (complex_float F)) : list (complex_float F) :=
  let mat_phase_correct :=
    map (fun t => mk_cx (f_cos (f_neg t)) (f_sin (f_neg t)))
        (cur_theta symbol_idx_ul pilot_corr) in
  map2 cx_mul mat_equaled mat_phase_correct.
End PhaseTracker.

(** ** [DoDemul::Launch] (dodemul.cc:79-320) *)

Section Launch.
Context {F : Type} {ops : FloatOps F}.
Variable sym : Symbols.
Variable cfg : Config.
Variable inp : Inputs F.

Definition GetTime_WorkerRdtsc : M (DoDemul F) Z :=
  fun st => Ok (WorkerRdtsc inp (tsc_reads_ st),
                set_tsc_reads_ (S (tsc_reads_ st)) st).

(** [duration_stat_->task_duration_[k] += d] *)
Definition add_task_duration (k d : Z) : M (DoDemul F) unit :=
  modify (fun st =>
    let ds := duration_stat_ st in
    set_duration_stat_
      {| task_duration_ :=
           upd (task_duration_ ds) k (wrap64 (task_duration_ ds k + d));
         task_count_ := task_count_ ds |} st).

(** [duration_stat_->task_count_++] *)
Definition incr_task_count : M (DoDemul F) unit :=
  modify (fun st =>
    let ds := duration_stat_ st in
    set_duration_stat_
      {| task_duration_ := task_duration_ ds;
         task_count_ := wrap64 (task_count_ ds + 1) |} st).

(** Where [equal_ptr] points for subcarrier [cur_sc_id] (lines 184-193). *)
Definition equal_off (cur_sc_id base_sc_id : Z) : Z :=
  if kExportConstellation sym
  then cur_sc_id * UeNum cfg
  else (cur_sc_id - base_sc_id) * UeNum cfg.

(** [mat_equaled], the [UeNum] x 1 view at [equal_ptr]. *)
Definition read_mat_equaled (total off : Z) (st : DoDemul F)
  : list (complex_float F) :=
  read_n (if kExportConstellation sym
          then equal_buffer_ st total
          else equaled_buffer_temp_ st) off (Z.to_nat (UeNum cfg)).

Definition write_mat_equaled (total off : Z) (v : list (complex_float F))
  : M (DoDemul F) unit :=
  modify (fun st =>
    if kExportConstellation sym
    then set_equal_buffer_
           (upd (equal_buffer_ st) total
                (write_list (equal_buffer_ st total) off v)) st
    else set_equaled_buffer_temp_
           (write_list (equaled_buffer_temp_ st) off v) st).

(** Lines 214-262. *)
Definition phase_track (frame_id symbol_idx_ul cur_sc_id total off : Z)
  : M (DoDemul F) unit :=
  if symbol_idx_ul <? ClientUlPilotSymbols cfg then
    mat_equaled <- gets (read_mat_equaled total off) ;;
    modify (fun st =>
      set_ue_spec_pilot_buffer_
        (calc_phase_shift sym cfg inp frame_id symbol_idx_ul cur_sc_id
                          mat_equaled (ue_spec_pilot_buffer_ st)) st)
  else if 0 <? ClientUlPilotSymbols cfg then
    st <- get ;;
    let mat_equaled :=
      phase_correct cfg symbol_idx_ul
        (ue_spec_pilot_buffer_ st (frame_id mod kFrameWnd sym))
        (read_mat_equaled total off st) in
    write_mat_equaled total off mat_equaled ;;
    if symbol_idx_ul =? ClientUlPilotSymbols cfg then
      modify (fun st =>
        set_phy_stats_
          (UpdateEvmStats frame_id cur_sc_id mat_equaled :: phy_stats_ st) st) ;;
      if kPrintPhyStats sym && (cur_sc_id =? 0) then
        modify (fun st =>
          set_phy_stats_
            (PrintEvmStats (wrap64 (frame_id - 1)) :: phy_stats_ st) st)
      else ret tt
    else ret tt
  else ret tt.

(** Step 2 for one subcarrier (the body of the loop at line 181).  The
    product is the Armadillo one; the [USE_MKL_JIT] build calls a kernel
    generated by MKL for the same product. *)
Definition equalize_sc
           (frame_id symbol_idx_ul total frame_slot base_sc_id i j : Z)
  : M (DoDemul F) unit :=
  let cur_sc_id := base_sc_id + i + j in
  let off := equal_off cur_sc_id base_sc_id in
  start_tsc2 <- GetTime_WorkerRdtsc ;;
  st <- get ;;
  write_mat_equaled total off
    (mat_vec (ul_zf_matrices_ inp frame_slot (GetZfScId cfg cur_sc_id))
             (data_gather_buffer_ st) (j * BsAntNum cfg)
             (UeNum cfg) (BsAntNum cfg)) ;;
  phase_track frame_id symbol_idx_ul cur_sc_id total off ;;
  start_tsc3 <- GetTime_WorkerRdtsc ;;
  add_task_duration 2 (wrap64 (start_tsc3 - start_tsc2)) ;;
  incr_task_count.

(** Step 1 for the cache line starting at [base_sc_id + i]. *)
Definition gather_step (total base_sc_id i : Z) : M (DoDemul F) unit :=
  start_tsc0 <- GetTime_WorkerRdtsc ;;
  st <- get ;;
  match gather_stage sym cfg (data_buffer_ inp total) base_sc_id i
                     (data_gather_buffer_ st) with
  | Ok g =>
      modify (set_data_gather_buffer_ g) ;;
      t <- GetTime_WorkerRdtsc ;;
      add_task_duration 1 (wrap64 (t - start_tsc0))
  | Err e => raise e
  end.

(** The loop over cache lines (lines 104-267). *)
Definition equalize_block
           (frame_id symbol_idx_ul total frame_slot base_sc_id : Z)
  : M (DoDemul F) unit :=
  for_ 0 (max_sc_ite cfg base_sc_id) kSCsPerCacheline (fun i =>
    gather_step total base_sc_id i ;;
    for_ 0 kSCsPerCacheline 1 (fun j =>
      equalize_sc frame_id symbol_idx_ul total frame_slot base_sc_id i j)).

(** The inner loop at lines 284-289: four subcarriers of one UE per
    iteration, gathered with stride [UeNum] and stored contiguously. *)
Definition transpose_loop (src : buf (complex_float F)) (max_sc : Z)
  : M (transpose_locals (complex_float F)) unit :=
  let k_num_double_in_sim_d256 := 4 in
  for_ 0 (max_sc / k_num_double_in_sim_d256) 1 (fun j =>
    modify (fun l =>
      {| t_equal_t_ptr := t_equal_t_ptr l + 4;
         t_equal_ptr := t_equal_ptr l + UeNum cfg * k_num_double_in_sim_d256;
         t_buf := write_list (t_buf l) (t_equal_t_ptr l)
                    (read_strided src (t_equal_ptr l) (UeNum cfg) 4) |})).

Definition write_demod (frame_slot symbol_idx_ul i off : Z) (llr : list Z)
  : M (DoDemul F) unit :=
  modify (fun st =>
    let cube := demod_buffers_ st in
    set_demod_buffers_
      (upd cube frame_slot
         (upd (cube frame_slot) symbol_idx_ul
            (upd (cube frame_slot symbol_idx_ul) i
               (write_list (cube frame_slot symbol_idx_ul i) off llr)))) st).

Definition unsupported_message : printf_call :=
  {| fmt_ := "Demodulation: modulation type %s not supported!\n";
     args_ := [ArgStr (Modulation cfg)] |}.

(** The body of the loop over UEs (lines 274-315).  [equal_t_ptr] points
    to the start of the transposed buffer whenever the body is entered:
    it is initialised so at line 273 and set back at line 290. *)
Definition demod_ue (frame_slot symbol_idx_ul total base_sc_id max_sc i : Z)
  : M (DoDemul F) unit :=
  st <- get ;;
  let src := if kExportConstellation sym
             then equal_buffer_ st total
             else equaled_buffer_temp_ st in
  let equal_ptr := if kExportConstellation sym
                   then base_sc_id * UeNum cfg + i
                   else i in
  match transpose_loop src max_sc
          {| t_equal_t_ptr := 0; t_equal_ptr := equal_ptr;
             t_buf := equaled_buffer_temp_transposed_ st |} with
  | Err e => raise e
  | Ok (_, l) =>
      modify (set_equaled_buffer_temp_transposed_ (t_buf l)) ;;
      let demod_off := ModOrderBits cfg * base_sc_id in
      if ModOrderBits cfg =? kQpsk sym then
        write_demod frame_slot symbol_idx_ul i demod_off
                    (DemodQpskSoftSse inp (t_buf l) max_sc)
      else if ModOrderBits cfg =? kQaM16 sym then
        write_demod frame_slot symbol_idx_ul i demod_off
                    (Demod16qamSoftAvx2 inp (t_buf l) max_sc)
      else if ModOrderBits cfg =? kQaM64 sym then
        write_demod frame_slot symbol_idx_ul i demod_off
                    (Demod64qamSoftAvx2 inp (t_buf l) max_sc)
      else
        modify (fun st => set_stdout_ (unsupported_message :: stdout_ st) st)
  end.

Definition demod_block (frame_slot symbol_idx_ul total base_sc_id : Z)
  : M (DoDemul F) unit :=
  for_ 0 (UeNum cfg) 1
       (demod_ue frame_slot symbol_idx_ul total base_sc_id
                 (max_sc_ite cfg base_sc_id)).

Definition Launch (tag : Z) : M (DoDemul F) EventData :=
  let frame_id := frame_id_ inp tag in
  let symbol_id := symbol_id_ inp tag in
  let base_sc_id := sc_id_ inp tag in
  let symbol_idx_ul := GetULSymbolIdx cfg symbol_id in
  let total_data_symbol_idx_ul :=
    GetTotalDataSymbolIdxUl cfg frame_id symbol_idx_ul in
  let frame_slot := frame_id mod kFrameWnd sym in
  start_tsc <- GetTime_WorkerRdtsc ;;
  (if NDEBUG sym then ret tt
   else assert_ (launch_assertion cfg base_sc_id)) ;;
  equalize_block frame_id symbol_idx_ul total_data_symbol_idx_ul frame_slot
                 base_sc_id ;;
  start_tsc3 <- GetTime_WorkerRdtsc ;;
  demod_block frame_slot symbol_idx_ul total_data_symbol_idx_ul base_sc_id ;;
  t3 <- GetTime_WorkerRdtsc ;;
  add_task_duration 3 (wrap64 (t3 - start_tsc3)) ;;
  t0 <- GetTime_WorkerRdtsc ;;
  add_task_duration 0 (wrap64 (t0 - start_tsc)) ;;
  ret {| event_type_ := kDemul; tags_ := tag |}.
End Launch.

(** ** [UeWorker::DoDemul] (ue_worker.cc:383-442) *)

Module UeWorker.
Record Env (F : Type) : Type := {
  frame_id_ : Z -> Z;
  symbol_id_ : Z -> Z;
  ant_id_ : Z -> Z;
  GetDLSymbolIdx : Z -> Z;
  NumDlDataSyms : Z;
  ClientDlPilotSymbols : Z;
  UeAntNum : Z;
  equal_buffer_ : Z -> buf (complex_float F);
  enqueue_succeeds : bool;   (* the result of [notify_queue_.enqueue] *)
  DemodQpskSoftSse : buf (complex_float F) -> Z -> list Z;
  Demod16qamSoftAvx2 : buf (complex_float F) -> Z -> list Z;
  Demod64qamSoftAvx2 : buf (complex_float F) -> Z -> list Z
}.
Arguments frame_id_ {F} _ _.
Arguments symbol_id_ {F} _ _.
Arguments ant_id_ {F} _ _.
Arguments GetDLSymbolIdx {F} _ _.
Arguments NumDlDataSyms {F} _.
Arguments ClientDlPilotSymbols {F} _.
Arguments UeAntNum {F} _.
Arguments equal_buffer_ {F} _ _.
Arguments enqueue_succeeds {F} _.
Arguments DemodQpskSoftSse {F} _ _ _.
Arguments Demod16qamSoftAvx2 {F} _ _ _.
Arguments Demod64qamSoftAvx2 {F} _ _ _.

Record State : Type := {
  demod_buffer_ : Z -> Z -> Z -> buf Z;
  notify_queue_ : list EventData;      (* latest first *)
  stdout_ : list printf_call           (* latest first *)
}.

Section DoDemul.
Context {F : Type}.
Variable sym : Symbols.
Variable config_ : Config.
Variable env : Env F.
Variable tid_ : Z.

Definition write_demod (frame_slot dl_symbol_id ant_id off : Z)
           (llr : list Z) : M State unit :=
  modify (fun st =>
    let cube := demod_buffer_ st in
    {| demod_buffer_ :=
         upd cube frame_slot
           (upd (cube frame_slot) dl_symbol_id
              (upd (cube frame_slot dl_symbol_id) ant_id
                 (write_list (cube frame_slot dl_symbol_id ant_id) off llr)));
       notify_queue_ := notify_queue_ st;
       stdout_ := stdout_ st |}).

Definition unsupported_message : printf_call :=
  {| fmt_ := "UeWorker[%zu]: Demul - modulation type %s not supported!\n";
     args_ := [ArgZu tid_; ArgStr (Modulation config_)] |}.

Definition DoDemul (tag : Z) : M State unit :=
  let frame_id := frame_id_ env tag in
  let symbol_id := symbol_id_ env tag in
  let ant_id := ant_id_ env tag in
  let frame_slot := frame_id mod kFrameWnd sym in
  let dl_symbol_id := GetDLSymbolIdx env symbol_id in
  let dl_data_symbol_perframe := NumDlDataSyms env in
  let total_dl_symbol_id :=
    wrap64 (frame_slot * dl_data_symbol_perframe + dl_symbol_id
            - ClientDlPilotSymbols env) in
  let offset := wrap64 (total_dl_symbol_id * UeAntNum env + ant_id) in
  let equal_ptr := equal_buffer_ env offset in
  let base_sc_id := 0 in
  let demod_off := ModOrderBits config_ * base_sc_id in
  (if ModOrderBits config_ =? kQpsk sym then
     write_demod frame_slot dl_symbol_id ant_id demod_off
                 (DemodQpskSoftSse env equal_ptr (OfdmDataNum config_))
   else if ModOrderBits config_ =? kQaM16 sym then
     write_demod frame_slot dl_symbol_id ant_id demod_off
                 (Demod16qamSoftAvx2 env equal_ptr (OfdmDataNum config_))
   else if ModOrderBits config_ =? kQaM64 sym then
     write_demod frame_slot dl_symbol_id ant_id demod_off
                 (Demod64qamSoftAvx2 env equal_ptr (OfdmDataNum config_))
   else
     modify (fun st =>
       {| demod_buffer_ := demod_buffer_ st;
          notify_queue_ := notify_queue_ st;
          stdout_ := unsupported_message :: stdout_ st |})) ;;
  if enqueue_succeeds env then
    modify (fun st =>
      {| demod_buffer_ := demod_buffer_ st;
         notify_queue_ :=
           {| event_type_ := kDemul; tags_ := tag |} :: notify_queue_ st;
         stdout_ := stdout_ st |})
  else raise RtAssertFail.
End DoDemul.
End UeWorker.

(** ** The Millipede variant, [DoDemul::launch] (dodemul.cpp:45-193)

    [int] quantities are divided with truncation ([Z.quot], [Z.rem]).  The
    pointer [equal_T_ptr], which lives across the iterations of the loop over
    UEs, is kept in the state. *)

Module Millipede.
Record Config : Type := {
  BS_ANT_NUM : Z;
  UE_NUM : Z;
  OFDM_DATA_NUM : Z;
  demul_block_size : Z;
  transpose_block_size : Z;
  freq_orthogonal_pilot : bool;
  mod_type : Z;
  get_total_data_symbol_idx_ul : Z -> Z -> Z
}.

Record Flags : Type := {
  EXPORT_CONSTELLATION : bool;
  USE_LDPC : bool;
  TASK_BUFFER_FRAME_NUM : Z
}.

Record Inputs (F : Type) : Type := {
  frame_id : Z -> Z;
  symbol_id : Z -> Z;
  sc_id : Z -> Z;
  data_buffer_ : Z -> buf (complex_float F);
  precoder_buffer_ : Z -> buf (complex_float F);
  worker_rdtsc : nat -> Z;
  (* [UE_NUM] equalized values to as many hard decisions *)
  demod_16qam_hard_avx2 : list (complex_float F) -> list Z;
  (* buffer, offset of the first value, number of subcarriers *)
  demod_16qam_soft_avx2 : buf (complex_float F) -> Z -> Z -> list Z;
  demod_16qam_soft_sse : buf (complex_float F) -> Z -> Z -> list Z
}.
Arguments frame_id {F} _ _.
Arguments symbol_id {F} _ _.
Arguments sc_id {F} _ _.
Arguments data_buffer_ {F} _ _.
Arguments precoder_buffer_ {F} _ _.
Arguments worker_rdtsc {F} _ _.
Arguments demod_16qam_hard_avx2 {F} _ _.
Arguments demod_16qam_soft_avx2 {F} _ _ _ _.
Arguments demod_16qam_soft_sse {F} _ _ _ _.

Record DoDemul (F : Type) : Type := {
  spm_buffer : buf (complex_float F);
  equaled_buffer_temp : buf (complex_float F);
  equaled_buffer_temp_transposed : buf (complex_float F);
  equal_buffer_ : Z -> buf (complex_float F);
  demod_hard_buffer_ : Z -> buf Z;
  demod_soft_buffer_ : Z -> buf Z;
  duration_stat : DurationStat;
  tsc_reads : nat;
  equal_T_ptr : Z    (* relative to [equaled_buffer_temp_transposed] *)
}.
Arguments spm_buffer {F} _.
Arguments equaled_buffer_temp {F} _.
Arguments equaled_buffer_temp_transposed {F} _.
Arguments equal_buffer_ {F} _.
Arguments demod_hard_buffer_ {F} _.
Arguments demod_soft_buffer_ {F} _.
Arguments duration_stat {F} _.
Arguments tsc_reads {F} _.
Arguments equal_T_ptr {F} _.

Section Setters.
Context {F : Type}.
Implicit Type st : DoDemul F.

Definition set_spm_buffer (v : buf (complex_float F)) st : DoDemul F :=
  {| spm_buffer := v;
     equaled_buffer_temp := equaled_buffer_temp st;
     equaled_buffer_temp_transposed := equaled_buffer_temp_transposed st;
     equal_buffer_ := equal_buffer_ st;
     demod_hard_buffer_ := demod_hard_buffer_ st;
     demod_soft_buffer_ := demod_soft_buffer_ st;
     duration_stat := duration_stat st;
     tsc_reads := tsc_reads st;
     equal_T_ptr := equal_T_ptr st |}.

Definition set_equaled_buffer_temp (v : buf (complex_float F)) st
  : DoDemul F :=
  {| spm_buffer := spm_buffer st;
     equaled_buffer_temp := v;
     equaled_buffer_temp_transposed := equaled_buffer_temp_transposed st;
     equal_buffer_ := equal_buffer_ st;
     demod_hard_buffer_ := demod_hard_buffer_ st;
     demod_soft_buffer_ := demod_soft_buffer_ st;
     duration_stat := duration_stat st;
     tsc_reads := tsc_reads st;
     equal_T_ptr := equal_T_ptr st |}.

Definition set_transposed (v : buf (complex_float F)) (p : Z) st
  : DoDemul F :=
  {| spm_buffer := spm_buffer st;
     equaled_buffer_temp := equaled_buffer_temp st;
     equaled_buffer_temp_transposed := v;
     equal_buffer_ := equal_buffer_ st;
     demod_hard_buffer_ := demod_hard_buffer_ st;
     demod_soft_buffer_ := demod_soft_buffer_ st;
     duration_stat := duration_stat st;
     tsc_reads := tsc_reads st;
     equal_T_ptr := p |}.

Definition set_equal_buffer_ (v : Z -> buf (complex_float F)) st
  : DoDemul F :=
  {| spm_buffer := spm_buffer st;
     equaled_buffer_temp := equaled_buffer_temp st;
     equaled_buffer_temp_transposed := equaled_buffer_temp_transposed st;
     equal_buffer_ := v;
     demod_hard_buffer_ := demod_hard_buffer_ st;
     demod_soft_buffer_ := demod_soft_buffer_ st;
     duration_stat := duration_stat st;
     tsc_reads := tsc_reads st;
     equal_T_ptr := equal_T_ptr st |}.

Definition set_demod_hard_buffer_ (v : Z -> buf Z) st : DoDemul F :=
  {| spm_buffer := spm_buffer st;
     equaled_buffer_temp := equaled_buffer_temp st;
     equaled_buffer_temp_transposed := equaled_buffer_temp_transposed st;
     equal_buffer_ := equal_buffer_ st;
     demod_hard_buffer_ := v;
     demod_soft_buffer_ := demod_soft_buffer_ st;
     duration_stat := duration_stat st;
     tsc_reads := tsc_reads st;
     equal_T_ptr := equal_T_ptr st |}.

Definition set_demod_soft_buffer_ (v : Z -> buf Z) st : DoDemul F :=
  {| spm_buffer := spm_buffer st;
     equaled_buffer_temp := equaled_buffer_temp st;
     equaled_buffer_temp_transposed := equaled_buffer_temp_transposed st;
     equal_buffer_ := equal_buffer_ st;
     demod_hard_buffer_ := demod_hard_buffer_ st;
     demod_soft_buffer_ := v;
     duration_stat := duration_stat st;
     tsc_reads := tsc_reads st;
     equal_T_ptr := equal_T_ptr st |}.

Definition set_duration_stat (v : DurationStat) st : DoDemul F :=
  {| spm_buffer := spm_buffer st;
     equaled_buffer_temp := equaled_buffer_temp st;
     equaled_buffer_temp_transposed := equaled_buffer_temp_transposed st;
     equal_buffer_ := equal_buffer_ st;
     demod_hard_buffer_ := demod_hard_buffer_ st;
     demod_soft_buffer_ := demod_soft_buffer_ st;
     duration_stat := v;
     tsc_reads := tsc_reads st;
     equal_T_ptr := equal_T_ptr st |}.

Definition set_tsc_reads (v : nat) st : DoDemul F :=
  {| spm_buffer := spm_buffer st;
     equaled_buffer_temp := equaled_buffer_temp st;
     equaled_buffer_temp_transposed := equaled_buffer_temp_transposed st;
     equal_buffer_ := equal_buffer_ st;
     demod_hard_buffer_ := demod_hard_buffer_ st;
     demod_soft_buffer_ := demod_soft_buffer_ st;
     duration_stat := duration_stat st;
     tsc_reads := v;
     equal_T_ptr := equal_T_ptr st |}.
End Setters.

Section Launch.
Context {F : Type} {arith : FloatArith F}.
Variable flags : Flags.
Variable cfg : Config.
Variable inp : Inputs F.

Definition rdtsc : M (DoDemul F) Z :=
  fun st => Ok (worker_rdtsc inp (tsc_reads st),
                set_tsc_reads (S (tsc_reads st)) st).

Definition add_task_duration (k d : Z) : M (DoDemul F) unit :=
  modify (fun st =>
    let ds := duration_stat st in
    set_duration_stat
      {| task_duration_ :=
           upd (task_duration_ ds) k (wrap64 (task_duration_ ds k + d));
         task_count_ := task_count_ ds |} st).

Definition incr_task_count : M (DoDemul F) unit :=
  modify (fun st =>
    let ds := duration_stat st in
    set_duration_stat
      {| task_duration_ := task_duration_ ds;
         task_count_ := wrap64 (task_count_ ds + 1) |} st).

Definition max_sc_ite (base_sc_id : Z) : Z :=
  to_int (Z.min (demul_block_size cfg)
                (wrap64 (OFDM_DATA_NUM cfg - base_sc_id))).

(** Lines 75-92: the gather of one cache line into [spm_buffer]. *)
Definition gather_step (total base_sc_id i : Z) : M (DoDemul F) unit :=
  let cur_block_id := (base_sc_id + i * 8) / transpose_block_size cfg in
  let sc_inblock_idx := (base_sc_id + i * 8) mod transpose_block_size cfg in
  let cur_sc_offset :=
    cur_block_id * transpose_block_size cfg * BS_ANT_NUM cfg
    + sc_inblock_idx in
  st <- get ;;
  match gather_avx2 (transpose_block_size cfg) (BS_ANT_NUM cfg)
                    (data_buffer_ inp total)
                    {| g_src := cur_sc_offset; g_dst := 0;
                       g_buf := spm_buffer st |} with
  | Ok (_, l) => modify (set_spm_buffer (g_buf l))
  | Err e => raise e
  end.

(** Lines 96-149: one subcarrier. *)
Definition equalize_sc (frame total base_sc_id i j : Z)
  : M (DoDemul F) unit :=
  let cur_sc_id := i * 8 + j + base_sc_id in
  let precoder_offset :=
    (frame mod TASK_BUFFER_FRAME_NUM flags) * OFDM_DATA_NUM cfg
    + cur_sc_id in
  let precoder_offset :=
    if freq_orthogonal_pilot cfg
    then precoder_offset - cur_sc_id mod UE_NUM cfg
    else precoder_offset in
  start_tsc2 <- rdtsc ;;
  st <- get ;;
  let mat_equaled :=
    mat_vec (precoder_buffer_ inp precoder_offset) (spm_buffer st)
            (j * BS_ANT_NUM cfg) (UE_NUM cfg) (BS_ANT_NUM cfg) in
  (if EXPORT_CONSTELLATION flags then
     modify (set_equal_buffer_
               (upd (equal_buffer_ st) total
                  (write_list (equal_buffer_ st total)
                              (cur_sc_id * UE_NUM cfg) mat_equaled)))
   else
     modify (set_equaled_buffer_temp
               (write_list (equaled_buffer_temp st)
                           ((cur_sc_id - base_sc_id) * UE_NUM cfg)
                           mat_equaled))) ;;
  start_tsc3 <- rdtsc ;;
  add_task_duration 2 (wrap64 (start_tsc3 - start_tsc2)) ;;
  (if USE_LDPC flags then ret tt
   else
     modify (fun st =>
       set_demod_hard_buffer_
         (upd (demod_hard_buffer_ st) total
            (write_list (demod_hard_buffer_ st total)
                        (cur_sc_id * UE_NUM cfg)
                        (demod_16qam_hard_avx2 inp mat_equaled))) st)) ;;
  t <- rdtsc ;;
  add_task_duration 3 (wrap64 (t - start_tsc3)) ;;
  incr_task_count.

(** Lines 163-168, for the UE whose values start at [equal_ptr]. *)
Definition transpose_loop (src : buf (complex_float F)) (max_sc : Z)
  : M (transpose_locals (complex_float F)) unit :=
  let double_num_in_simd256 := 4 in
  for_ 0 (Z.quot max_sc double_num_in_simd256) 1 (fun j =>
    modify (fun l =>
      {| t_equal_t_ptr := t_equal_t_ptr l + 4;
         t_equal_ptr := t_equal_ptr l + UE_NUM cfg * double_num_in_simd256;
         t_buf := write_list (t_buf l) (t_equal_t_ptr l)
                    (read_strided src (t_equal_ptr l) (UE_NUM cfg) 4) |})).

(** Lines 157-185: soft demodulation of UE [i].  The values are read
    from [equaled_buffer_temp], whatever [EXPORT_CONSTELLATION] is. *)
Definition soft_demod_ue (total base_sc_id max_sc i : Z)
  : M (DoDemul F) unit :=
  st <- get ;;
  match transpose_loop (equaled_buffer_temp st) max_sc
          {| t_equal_t_ptr := equal_T_ptr st; t_equal_ptr := i;
             t_buf := equaled_buffer_temp_transposed st |} with
  | Err e => raise e
  | Ok (_, l) =>
      modify (set_transposed (t_buf l) (t_equal_t_ptr l)) ;;
      let demul_off :=
        (OFDM_DATA_NUM cfg * i + base_sc_id) * mod_type cfg in
      let num_sc_avx2 := Z.quot max_sc 16 * 16 in
      let rest := Z.rem max_sc 16 in
      let first := t_equal_t_ptr l - max_sc in
      modify (fun st =>
        set_demod_soft_buffer_
          (upd (demod_soft_buffer_ st) total
             (write_list (demod_soft_buffer_ st total) demul_off
                (demod_16qam_soft_avx2 inp (t_buf l) first num_sc_avx2)))
          st) ;;
      if 0 <? rest then
        modify (fun st =>
          set_demod_soft_buffer_
            (upd (demod_soft_buffer_ st) total
               (write_list (demod_soft_buffer_ st total)
                  (demul_off + mod_type cfg * num_sc_avx2)
                  (demod_16qam_soft_sse inp (t_buf l)
                                        (first + num_sc_avx2) rest)))
            st)
      else ret tt
  end.

Definition equalize_block (frame total base_sc_id : Z)
  : M (DoDemul F) unit :=
  for_ 0 (Z.quot (max_sc_ite base_sc_id) 8) 1 (fun i =>
    start_tsc1 <- rdtsc ;;
    gather_step total base_sc_id i ;;
    t <- rdtsc ;;
    add_task_duration 1 (wrap64 (t - start_tsc1)) ;;
    for_ 0 8 1 (equalize_sc frame total base_sc_id i)).

Definition soft_demod_block (total base_sc_id : Z) : M (DoDemul F) unit :=
  if USE_LDPC flags then
    modify (fun st =>
      set_transposed (equaled_buffer_temp_transposed st) 0 st) ;;
    for_ 0 (UE_NUM cfg) 1
         (soft_demod_ue total base_sc_id (max_sc_ite base_sc_id))
  else ret tt.

Definition launch (tag : Z) : M (DoDemul F) EventData :=
  let frame := frame_id inp tag in
  let symbol := symbol_id inp tag in
  let total_data_symbol_idx :=
    get_total_data_symbol_idx_ul cfg frame symbol in
  let base_sc_id := sc_id inp tag in
  start_tsc <- rdtsc ;;
  equalize_block frame total_data_symbol_idx base_sc_id ;;
  soft_demod_block total_data_symbol_idx base_sc_id ;;
  t <- rdtsc ;;
  add_task_duration 0 (wrap64 (t - start_tsc)) ;;
  ret {| event_type_ := kDemul; tags_ := tag |}.
End Launch.

(** *** [DoDemul::DemulSingleSC] (dodemul.cpp:196-274), "currently unused"

    The fields [demul_events_per_symbol] and [data_symbol_num_perframe] of
    the configuration, the kernel [demod_16qam_hard_loop] and the thread
    index are given on their own.  What the function prints is kept, in the
    order it is printed.  Division by a zero field is undefined behaviour in
    C++ and is not given a meaning of its own here. *)

Inductive out_item : Type :=
| OutPrintf (fmt : string) (args : list Z)   (* [printf] with [%d] arguments *)
| OutStr (s : string)                        (* [cout << s] *)
| OutByte (c : Z)                            (* [cout << c] for a [uint8_t] *)
| OutEndl.                                   (* [cout << endl] *)

Record SingleSC (F : Type) : Type := {
  worker : DoDemul F;
  printed : list out_item      (* latest first *)
}.
Arguments worker {F} _.
Arguments printed {F} _.

Section DemulSingleSC.
Context {F : Type} {arith : FloatArith F}.
Variable cfg : Config.
Variable inp : Inputs F.
Variable demul_events_per_symbol : Z.
Variable data_symbol_num_perframe : Z.
Variable demod_16qam_hard_loop : list (complex_float F) -> list Z.
Variable tid : Z.

(** A step of the worker, taken inside [DemulSingleSC]. *)
Definition on_worker {A} (m : M (DoDemul F) A) : M (SingleSC F) A :=
  fun s => match m (worker s) with
           | Ok (a, w) => Ok (a, {| worker := w; printed := printed s |})
           | Err e => Err e
           end.

Definition print (items : list out_item) : M (SingleSC F) unit :=
  modify (fun s => {| worker := worker s;
                      printed := rev items ++ printed s |}).

Definition single_sc_id (offset : Z) : Z :=
  to_int (wrap64 ((offset mod demul_events_per_symbol) * demul_block_size cfg)).

Definition single_total_data_symbol_id (offset : Z) : Z :=
  to_int (offset / demul_events_per_symbol).

Definition single_cur_sc_offset (offset : Z) : Z :=
  let sc_id := single_sc_id offset in
  let cur_block_id := Z.quot sc_id (transpose_block_size cfg) in
  let sc_inblock_idx := Z.rem sc_id (transpose_block_size cfg) in
  cur_block_id * transpose_block_size cfg * BS_ANT_NUM cfg + sc_inblock_idx.

(** Lines 228-233: one register of 4 antennas per iteration, stored at
    [tar_data_ptr], which advances by one register. *)
Definition gather_single (data_buf : buf (complex_float F))
  : M (gather_locals (complex_float F)) unit :=
  for_ 0 (BS_ANT_NUM cfg) 4 (fun ant_idx =>
    s <- get ;;
    store_ps 4 (g_dst s)
             (read_strided data_buf (g_src s) (transpose_block_size cfg) 4) ;;
    advance (transpose_block_size cfg) 4).

Definition DemulSingleSC (offset : Z) : M (SingleSC F) EventData :=
  start_tsc <- on_worker (rdtsc inp) ;;
  let sc_id := single_sc_id offset in
  let total_data_symbol_id := single_total_data_symbol_id offset in
  let frame_id := Z.quot total_data_symbol_id data_symbol_num_perframe in
  let current_data_symbol_id :=
    Z.rem total_data_symbol_id data_symbol_num_perframe in
  let cur_sc_offset := single_cur_sc_offset offset in
  s <- get ;;
  match gather_single (data_buffer_ inp total_data_symbol_id)
          {| g_src := cur_sc_offset; g_dst := 0;
             g_buf := spm_buffer (worker s) |} with
  | Err e => raise e
  | Ok (_, l) =>
      on_worker (modify (set_spm_buffer (g_buf l))) ;;
      let precoder_offset := frame_id * OFDM_DATA_NUM cfg + sc_id in
      let mat_equaled :=
        mat_vec (precoder_buffer_ inp precoder_offset) (g_buf l) 0
                (UE_NUM cfg) (BS_ANT_NUM cfg) in
      on_worker (modify (fun st =>
        set_equal_buffer_
          (upd (equal_buffer_ st) total_data_symbol_id
             (write_list (equal_buffer_ st total_data_symbol_id)
                         (sc_id * UE_NUM cfg) mat_equaled)) st)) ;;
      on_worker (modify (fun st =>
        set_demod_hard_buffer_
          (upd (demod_hard_buffer_ st) total_data_symbol_id
             (write_list (demod_hard_buffer_ st total_data_symbol_id)
                         (sc_id * UE_NUM cfg)
                         (demod_16qam_hard_loop mat_equaled))) st)) ;;
      print [OutPrintf
               "In doDemul thread %d: frame: %d, symbol: %d, subcarrier: %d \n"
               [tid; frame_id; current_data_symbol_id; sc_id];
             OutStr "Demuled data: "] ;;
      for_ 0 (UE_NUM cfg) 1 (fun ue_idx =>
        s <- get ;;
        print [OutByte (demod_hard_buffer_ (worker s) total_data_symbol_id
                                           (sc_id * UE_NUM cfg + ue_idx));
               OutStr "  "]) ;;
      print [OutEndl] ;;
      t1 <- on_worker (rdtsc inp) ;;
      on_worker (add_task_duration 1 (wrap64 (t1 - start_tsc))) ;;
      t0 <- on_worker (rdtsc inp) ;;
      on_worker (add_task_duration 0 (wrap64 (t0 - start_tsc))) ;;
      on_worker incr_task_count ;;
      ret {| event_type_ := kDemul; tags_ := offset |}
  end.
End DemulSingleSC.

(** The same collaborators with other received samples and other
    precoders. *)
Definition with_data {F : Type} (inp : Inputs F)
           (data precoder : Z -> buf (complex_float F)) : Inputs F := {|
  frame_id := frame_id inp;
  symbol_id := symbol_id inp;
  sc_id := sc_id inp;
  data_buffer_ := data;
  precoder_buffer_ := precoder;
  worker_rdtsc := worker_rdtsc inp;
  demod_16qam_hard_avx2 := demod_16qam_hard_avx2 inp;
  demod_16qam_soft_avx2 := demod_16qam_soft_avx2 inp;
  demod_16qam_soft_sse := demod_16qam_soft_sse inp
|}.

(** Two states that agree on everything but the gathered samples and the
    export buffer. *)
Definition same_scratch {F : Type} (st1 st2 : DoDemul F) : Prop :=
  equaled_buffer_temp st1 = equaled_buffer_temp st2
  /\ equaled_buffer_temp_transposed st1 = equaled_buffer_temp_transposed st2
  /\ demod_hard_buffer_ st1 = demod_hard_buffer_ st2
  /\ demod_soft_buffer_ st1 = demod_soft_buffer_ st2
  /\ duration_stat st1 = duration_stat st2
  /\ tsc_reads st1 = tsc_reads st2
  /\ equal_T_ptr st1 = equal_T_ptr st2.

(** The first [n] LLR bytes of row [total], from offset [off], of the soft
    buffer a run ends with. *)
Definition soft_llr {F : Type} (r : result (EventData * DoDemul F))
           (total off : Z) (n : nat) : result (list Z) :=
  match r with
  | Ok (_, st) => Ok (read_n (demod_soft_buffer_ st total) off n)
  | Err e => Err e
  end.

(** The equalized symbols of row [total] that a run leaves in the export
    buffer. *)
Definition exported {F : Type} (r : result (EventData * DoDemul F))
           (total off : Z) (n : nat) : result (list (complex_float F)) :=
  match r with
  | Ok (_, st) => Ok (read_n (equal_buffer_ st total) off n)
  | Err e => Err e
  end.
End Millipede.

(** ** Exact arithmetic: the instance over the real numbers *)

Definition Ratan2 (y x : R) : R :=
  if Rlt_dec 0 x then atan (y / x)
  else if Rlt_dec x 0 then
    (if Rle_dec 0 y then atan (y / x) + PI else atan (y / x) - PI)%R
  else if Rlt_dec 0 y then (PI / 2)%R
  else if Rlt_dec y 0 then (- (PI / 2))%R
  else 0%R.

#[export] Instance R_FloatArith : FloatArith R | 20 := {|
  f_zero := 0%R;
  f_add := Rplus;
  f_sub := Rminus;
  f_mul := Rmult;
  f_neg := Ropp
|}.

#[export] Instance R_FloatOps : FloatOps R | 20 := {|
  float_arith := R_FloatArith;
  f_div := Rdiv;
  f_sqrt := sqrt;
  f_cos := cos;
  f_sin := sin;
  f_atan2 := Ratan2;
  f_of_Z := IZR;
  f_is_zero := fun x => if Req_dec_T x 0 then true else false
|}.

(** ** Small integers

    Single-precision addition, subtraction and multiplication are exact on
    integers of small magnitude: on such inputs the matrix product can be
    evaluated. *)

#[export] Instance Z_FloatArith : FloatArith Z | 20 := {|
  f_zero := 0;
  f_add := Z.add;
  f_sub := Z.sub;
  f_mul := Z.mul;
  f_neg := Z.opp
|}.

(** ** The phase correction in the words of the specification (4.4)

    For one UE with pilot accumulators [acc 0], ..., [acc (P - 1)]:
    [theta[s]] is the phase angle of accumulator [s]; the average increment
    is the sum of the successive differences divided by [max(1, P - 1)];
    the angle at a symbol is [theta[0] + symbol_idx * avg_increment]; the
    equalized value is multiplied by [e^{-j theta}]. *)

Section PhaseSpec.
Context {F : Type} {ops : FloatOps F}.
Variable P : Z.
Variable acc : Z -> complex_float F.

Definition spec_theta (s : Z) : F := cx_arg (acc s).

Definition spec_avg_increment : F :=
  f_div (fold_left (fun sum s =>
                      f_add sum (f_sub (spec_theta s) (spec_theta (s - 1))))
                   (zrange 1 P) f_zero)
        (f_of_Z (Z.max 1 (P - 1))).

Definition spec_theta_at (symbol_idx : Z) : F :=
  f_add (spec_theta 0) (f_mul (f_of_Z symbol_idx) spec_avg_increment).
End PhaseSpec.

(** [x * e^{-j theta}] *)
Definition spec_rotate {F : Type} {ops : FloatOps F}
           (x : complex_float F) (theta : F) : complex_float F :=
  cx_mul x (mk_cx (f_cos (f_neg theta)) (f_sin (f_neg theta))).

(** ** Sequences of pilot-symbol tasks

    What the tasks of pilot symbols do to the pilot-phase table, one
    subcarrier after the other: each step is the branch at lines 214-232 for
    one subcarrier, given the equalized vector of that subcarrier. *)

Record pilot_task (F : Type) : Type := {
  pt_symbol_idx_ul : Z;
  pt_cur_sc_id : Z;
  pt_mat_equaled : list (complex_float F)
}.
Arguments pt_symbol_idx_ul {F} _.
Arguments pt_cur_sc_id {F} _.
Arguments pt_mat_equaled {F} _.

Section PilotTrace.
Context {F : Type} {ops : FloatOps F}.
Variable sym : Symbols.
Variable cfg : Config.
Variable inp : Inputs F.

Definition run_pilot_task (frame_id : Z) (pilot : Z -> buf (complex_float F))
           (t : pilot_task F) : Z -> buf (complex_float F) :=
  calc_phase_shift sym cfg inp frame_id (pt_symbol_idx_ul t) (pt_cur_sc_id t)
                   (pt_mat_equaled t) pilot.

(** The pilot subcarriers of one frame, in the order they are processed. *)
Definition run_pilot_tasks (frame_id : Z) (tasks : list (pilot_task F))
           (pilot : Z -> buf (complex_float F)) : Z -> buf (complex_float F) :=
  fold_left (run_pilot_task frame_id) tasks pilot.

(** Consecutive frames [frame_id], [frame_id + 1], ..., one after the
    other. *)
Fixpoint run_frames (frame_id : Z) (passes : list (list (pilot_task F)))
         (pilot : Z -> buf (complex_float F)) : Z -> buf (complex_float F) :=
  match passes with
  | [] => pilot
  | p :: rest => run_frames (frame_id + 1) rest (run_pilot_tasks frame_id p pilot)
  end.

(** The contribution of one pilot subcarrier to the accumulator of UE [u]. *)
Definition contribution (t : pilot_task F) (u : Z) : complex_float F :=
  nth (Z.to_nat u) (shift_sc cfg inp (pt_cur_sc_id t) (pt_mat_equaled t)) cx_zero.

(** The accumulator of pilot symbol [s] and UE [u] after the contributions
    of [tasks] are added, in order, to [init]. *)
Definition accumulate (tasks : list (pilot_task F)) (s u : Z)
           (init : complex_float F) : complex_float F :=
  fold_left (fun a t =>
               if pt_symbol_idx_ul t =? s then cx_add a (contribution t u) else a)
            tasks init.

Definition is_reset_task (t : pilot_task F) : bool :=
  (pt_symbol_idx_ul t =? 0) && (pt_cur_sc_id t =? 0).

Definition pilot_task_ok (t : pilot_task F) : Prop :=
  0 <= pt_symbol_idx_ul t < ClientUlPilotSymbols cfg
  /\ length (pt_mat_equaled t) = Z.to_nat (UeNum cfg).

(** The pilot tasks of a frame, the one of symbol 0 and subcarrier 0
    first. *)
Definition pilot_pass_ok (tasks : list (pilot_task F)) : Prop :=
  match tasks with
  | [] => False
  | t :: rest =>
      is_reset_task t = true
      /\ Forall (fun t' => is_reset_task t' = false) rest
  end
  /\ Forall pilot_task_ok tasks.
End PilotTrace.

(** ** Sample configuration

    The end-to-end scenario of the specification: 4 antennas, 2 UEs, 16
    data subcarriers, blocks of 8 subcarriers.  The constants are sample
    values for the headers that are not at hand. *)

Definition sample_symbols : Symbols := {|
  kFrameWnd := 40;
  kTransposeBlockSize := 8;
  kUsePartialTrans := true;
  kExportConstellation := false;
  kPrintPhyStats := false;
  AVX512F := false;
  NDEBUG := false;
  kQpsk := 2;
  kQaM16 := 4;
  kQaM64 := 6
|}.

Definition sample_symbols_avx512 : Symbols := {|
  kFrameWnd := 40;
  kTransposeBlockSize := 8;
  kUsePartialTrans := true;
  kExportConstellation := false;
  kPrintPhyStats := false;
  AVX512F := true;
  NDEBUG := false;
  kQpsk := 2;
  kQaM16 := 4;
  kQaM64 := 6
|}.

(** [ants] antennas, [ues] UEs, [pilots] pilot symbols, modulation order
    [bits]. *)
Definition sample_config (ants ues pilots bits : Z) : Config := {|
  BsAntNum := ants;
  UeNum := ues;
  OfdmDataNum := 16;
  DemulBlockSize := 8;
  ClientUlPilotSymbols := pilots;
  ModOrderBits := bits;
  Modulation := "custom";
  GetULSymbolIdx := fun s => s;
  GetTotalDataSymbolIdxUl := fun f s => f * 4 + s;
  GetZfScId := fun s => s
|}.

(** Collaborators and an initial worker state for the samples: the
    received samples, the zero-forcing matrices and the known pilots all
    hold the value [v], the worker's buffers hold zeros, the cycle counter
    counts its reads, and the kernels return one byte per bit. *)
Definition sample_inputs {F : Type} {arith : FloatArith F} (v : complex_float F)
  : Inputs F := {|
  frame_id_ := fun tag => tag / 2 ^ 32;
  symbol_id_ := fun tag => (tag / 2 ^ 16) mod 2 ^ 16;
  sc_id_ := fun tag => tag mod 2 ^ 16;
  data_buffer_ := fun _ _ => v;
  ul_zf_matrices_ := fun _ _ _ => v;
  ue_pilot_data_ := fun _ _ => v;
  WorkerRdtsc := fun n => Z.of_nat n;
  DemodQpskSoftSse := fun _ n => repeat 1 (Z.to_nat n);
  Demod16qamSoftAvx2 := fun _ n => repeat 1 (Z.to_nat (4 * n));
  Demod64qamSoftAvx2 := fun _ n => repeat 1 (Z.to_nat (6 * n))
|}.

Definition sample_state {F : Type} {arith : FloatArith F} : DoDemul F := {|
  data_gather_buffer_ := fun _ => cx_zero;
  equaled_buffer_temp_ := fun _ => cx_zero;
  equaled_buffer_temp_transposed_ := fun _ => cx_zero;
  ue_spec_pilot_buffer_ := fun _ _ => cx_zero;
  equal_buffer_ := fun _ _ => cx_zero;
  demod_buffers_ := fun _ _ _ _ => 0;
  duration_stat_ := {| task_duration_ := fun _ => 0; task_count_ := 0 |};
  phy_stats_ := [];
  stdout_ := [];
  tsc_reads_ := O
|}.

(** ** Total correctness of a computation

    [wp m st Q]: run from [st], [m] returns a value and a state that
    satisfy [Q]. *)
Definition wp {St A} (m : M St A) (st : St) (Q : A -> St -> Prop) : Prop :=
  exists a st', m st = Ok (a, st') /\ Q a st'.

(** ** What a stage leaves as it is *)

(** The LLR buffers and the printed lines are those of [st0]. *)
Definition same_output {F : Type} (st0 st : DoDemul F) : Prop :=
  demod_buffers_ st = demod_buffers_ st0 /\ stdout_ st = stdout_ st0.

(** The effects of gather, equalization and phase tracking are those of
    [st0]: the gathered samples, the equalized symbols in both of their
    stores, the pilot-phase table, the EVM statistics, the task counter and
    the cycle counts of stages 1 and 2. *)
Definition same_equalization {F : Type} (st0 st : DoDemul F) : Prop :=
  data_gather_buffer_ st = data_gather_buffer_ st0
  /\ equaled_buffer_temp_ st = equaled_buffer_temp_ st0
  /\ equal_buffer_ st = equal_buffer_ st0
  /\ ue_spec_pilot_buffer_ st = ue_spec_pilot_buffer_ st0
  /\ phy_stats_ st = phy_stats_ st0
  /\ task_count_ (duration_stat_ st) = task_count_ (duration_stat_ st0)
  /\ task_duration_ (duration_stat_ st) 1 = task_duration_ (duration_stat_ st0) 1
  /\ task_duration_ (duration_stat_ st) 2 = task_duration_ (duration_stat_ st0) 2.

(** The configured modulation order is none of the three the switch
    knows. *)
Definition unsupported_modulation (sym : Symbols) (cfg : Config) : Prop :=
  ModOrderBits cfg <> kQpsk sym
  /\ ModOrderBits cfg <> kQaM16 sym
  /\ ModOrderBits cfg <> kQaM64 sym.

(** A Millipede task on small integers: 4 antennas (or [ants]), 2 UEs,
    blocks of 8 subcarriers, every received sample and every precoder entry
    equal to 1;
    the scratch and export buffers hold zeros.  The stand-in for the soft
    kernels stores, per subcarrier, the real and imaginary parts of its
    input twice (4 bytes per subcarrier). *)
Definition millipede_flags (export : bool) : Millipede.Flags := {|
  Millipede.EXPORT_CONSTELLATION := export;
  Millipede.USE_LDPC := true;
  Millipede.TASK_BUFFER_FRAME_NUM := 40
|}.

Definition millipede_config_with (ants : Z) : Millipede.Config := {|
  Millipede.BS_ANT_NUM := ants;
  Millipede.UE_NUM := 2;
  Millipede.OFDM_DATA_NUM := 16;
  Millipede.demul_block_size := 8;
  Millipede.transpose_block_size := 8;
  Millipede.freq_orthogonal_pilot := false;
  Millipede.mod_type := 4;
  Millipede.get_total_data_symbol_idx_ul := fun f s => f * 4 + s
|}.

Definition millipede_config : Millipede.Config := millipede_config_with 4.

Definition parts_kernel (b : buf (complex_float Z)) (first n : Z) : list Z :=
  flat_map (fun k => [re (b (first + k)); im (b (first + k));
                      re (b (first + k)); im (b (first + k))])
           (zrange 0 n).

Definition millipede_inputs : Millipede.Inputs Z := {|
  Millipede.frame_id := fun tag => tag / 2 ^ 32;
  Millipede.symbol_id := fun tag => (tag / 2 ^ 16) mod 2 ^ 16;
  Millipede.sc_id := fun tag => tag mod 2 ^ 16;
  Millipede.data_buffer_ := fun _ _ => mk_cx 1 0;
  Millipede.precoder_buffer_ := fun _ _ => mk_cx 1 0;
  Millipede.worker_rdtsc := fun n => Z.of_nat n;
  Millipede.demod_16qam_hard_avx2 := map re;
  Millipede.demod_16qam_soft_avx2 := parts_kernel;
  Millipede.demod_16qam_soft_sse := parts_kernel
|}.

Definition millipede_state : Millipede.DoDemul Z := {|
  Millipede.spm_buffer := fun _ => cx_zero;
  Millipede.equaled_buffer_temp := fun _ => cx_zero;
  Millipede.equaled_buffer_temp_transposed := fun _ => cx_zero;
  Millipede.equal_buffer_ := fun _ _ => cx_zero;
  Millipede.demod_hard_buffer_ := fun _ _ => 0;
  Millipede.demod_soft_buffer_ := fun _ _ => 0;
  Millipede.duration_stat := {| task_duration_ := fun _ => 0; task_count_ := 0 |};
  Millipede.tsc_reads := O;
  Millipede.equal_T_ptr := 0
|}.

(** ** Two runs side by side *)

(** Both runs fail with the same error, or both return, with the same
    value and states related by [R]. *)
Definition rel_res {St A} (R : St -> St -> Prop)
           (r1 r2 : result (A * St)) : Prop :=
  match r1, r2 with
  | Ok (a1, s1), Ok (a2, s2) => a1 = a2 /\ R s1 s2
  | Err e1, Err e2 => e1 = e2
  | _, _ => False
  end.

(** The build with [kExportConstellation] set to [b]. *)
Definition with_export (b : bool) (sym : Symbols) : Symbols := {|
  kFrameWnd := kFrameWnd sym;
  kTransposeBlockSize := kTransposeBlockSize sym;
  kUsePartialTrans := kUsePartialTrans sym;
  kExportConstellation := b;
  kPrintPhyStats := kPrintPhyStats sym;
  AVX512F := AVX512F sym;
  NDEBUG := NDEBUG sym;
  kQpsk := kQpsk sym;
  kQaM16 := kQaM16 sym;
  kQaM64 := kQaM64 sym
|}.

(** The state [st_e] of the exporting build and the state [st_t] of the
    build with the scratch buffer hold the same equalized symbols for the
    [K] values equalized so far in the task, row [total] of the export
    buffer from offset [base_sc_id * UeNum] on against the scratch buffer
    from its start, and agree on everything else. *)
Definition export_rel {F : Type} (cfg : Config) (total base_sc_id K : Z)
           (st_e st_t : DoDemul F) : Prop :=
  data_gather_buffer_ st_e = data_gather_buffer_ st_t
  /\ equaled_buffer_temp_transposed_ st_e = equaled_buffer_temp_transposed_ st_t
  /\ ue_spec_pilot_buffer_ st_e = ue_spec_pilot_buffer_ st_t
  /\ demod_buffers_ st_e = demod_buffers_ st_t
  /\ duration_stat_ st_e = duration_stat_ st_t
  /\ phy_stats_ st_e = phy_stats_ st_t
  /\ stdout_ st_e = stdout_ st_t
  /\ tsc_reads_ st_e = tsc_reads_ st_t
  /\ forall z, 0 <= z < K ->
       equal_buffer_ st_e total (base_sc_id * UeNum cfg + z)
       = equaled_buffer_temp_ st_t z.

(** ** Partial correctness and failures

    [hoare P m Q]: from a state that satisfies [P], whenever [m] returns, the
    value and the state satisfy [Q].  [fails_only E m]: every error [m] can
    end with satisfies [E]. *)
Definition hoare {St A} (P : St -> Prop) (m : M St A) (Q : A -> St -> Prop)
  : Prop :=
  forall s a s', P s -> m s = Ok (a, s') -> Q a s'.

Definition fails_only {St A} (E : error -> Prop) (m : M St A) : Prop :=
  forall s e, m s = Err e -> E e.

(** The subcarriers a task works on: [base_sc_id + i + j] for a cache line
    [i = 8 k] below [max_sc_ite] and [j] in the line. *)
Definition in_task (cfg : Config) (base_sc_id c : Z) : Prop :=
  exists k j, 0 <= k /\ kSCsPerCacheline * k < max_sc_ite cfg base_sc_id
              /\ 0 <= j < kSCsPerCacheline
              /\ c = base_sc_id + kSCsPerCacheline * k + j.

(** ** The soft-demodulation stage, as a whole *)

(** The kernel that the switch at dodemul.cc:294-307 calls for the configured
    modulation order, if there is one. *)
Definition selected_kernel {F : Type} (sym : Symbols) (cfg : Config)
           (inp : Inputs F) : option (buf (complex_float F) -> Z -> list Z) :=
  if ModOrderBits cfg =? kQpsk sym then Some (DemodQpskSoftSse inp)
  else if ModOrderBits cfg =? kQaM16 sym then Some (Demod16qamSoftAvx2 inp)
  else if ModOrderBits cfg =? kQaM64 sym then Some (Demod64qamSoftAvx2 inp)
  else None.

(** The equalized symbols of UE [i], one per subcarrier of the task, in the
    order of the subcarriers: entry [z], for [z] below [max_sc] rounded down
    to a multiple of 4, is the symbol of subcarrier [base_sc_id + z]; the
    entries from there on are those of the transposed buffer of [st]. *)
Definition ue_symbols {F : Type} (sym : Symbols) (cfg : Config)
           (total base_sc_id max_sc i : Z) (st : DoDemul F)
  : buf (complex_float F) :=
  fun z =>
    if (0 <=? z) && (z <? 4 * (max_sc / 4)) then
      if kExportConstellation sym
      then equal_buffer_ st total ((base_sc_id + z) * UeNum cfg + i)
      else equaled_buffer_temp_ st (z * UeNum cfg + i)
    else equaled_buffer_temp_transposed_ st z.

(** The state of the loop over UEs after [n] of them, seen from the state
    [st0] it started in: the equalized symbols are where they were, the
    transposed buffer has changed only in its first entries, the LLR rows of
    the UEs still to come are as they were, and those of the UEs done hold
    what the kernel [K] returned for them. *)
Definition demod_inv {F : Type} (sym : Symbols) (cfg : Config)
           (frame_slot symbol_idx_ul total base_sc_id : Z)
           (K : buf (complex_float F) -> Z -> list Z) (st0 : DoDemul F)
           (n : nat) (st : DoDemul F) : Prop :=
  let max_sc := max_sc_ite cfg base_sc_id in
  equal_buffer_ st = equal_buffer_ st0
  /\ equaled_buffer_temp_ st = equaled_buffer_temp_ st0
  /\ (forall z, z < 0 \/ 4 * (max_sc / 4) <= z ->
        equaled_buffer_temp_transposed_ st z
        = equaled_buffer_temp_transposed_ st0 z)
  /\ (forall i, Z.of_nat n <= i ->
        demod_buffers_ st frame_slot symbol_idx_ul i
        = demod_buffers_ st0 frame_slot symbol_idx_ul i)
  /\ (forall i, 0 <= i < Z.of_nat n ->
        exists tb,
          (forall z, tb z = ue_symbols sym cfg total base_sc_id max_sc i st0 z)
          /\ forall z,
               demod_buffers_ st frame_slot symbol_idx_ul i z
               = write_list (demod_buffers_ st0 frame_slot symbol_idx_ul i)
                            (ModOrderBits cfg * base_sc_id) (K tb max_sc) z).

(** ** The uplink tasks of the client worker (ue_worker.cc:444-658)

    [DoDecodeUe], [DoEncodeUe], [DoModul] and [DoIfft].  The encoder and the
    decoder are other classes: a call of their [Launch] is recorded with the
    tag it is given.  [ModSingleUint8], [CommsLib::IFFT] and
    [CommsLib::Ifft2tx] are collaborators; so are the constructors of tags
    ([gen_tag_t::FrmSymCb] and the like), whose bit layout is in a header
    outside the sources.  Debug printing is left out. *)

Module UeTasks.
Inductive EventType : Type :=
| kDecode | kDemul | kIFFT | kEncode | kModul | kFFTPilot | kFFT.

Record EventData : Type := { event_type_ : EventType; tags_ : Z }.

Record Env (F : Type) : Type := {
  (* gen_tag_t *)
  frame_id_ : Z -> Z;
  symbol_id_ : Z -> Z;
  ant_id_ : Z -> Z;
  ue_id_ : Z -> Z;
  FrmSymCb : Z -> Z -> Z -> Z;
  FrmSymUe : Z -> Z -> Z -> Z;
  (* config_ *)
  NumChannels : Z;
  NumBlocksInSymbol : Z;       (* config_.LdpcConfig().NumBlocksInSymbol() *)
  UeAntNum : Z;
  OfdmCaNum : Z;
  OfdmDataNum : Z;
  OfdmDataStart : Z;
  OfdmDataStop : Z;
  OfdmTxZeroPrefix : Z;
  CpLen : Z;
  PacketLength : Z;
  NumULSyms : Z;               (* config_.Frame().NumULSyms() *)
  ClientUlPilotSymbols : Z;
  GetULSymbolIdx : Z -> Z;
  GetTotalDataSymbolIdxUl : Z -> Z -> Z;
  UeSpecificPilot : Z -> buf (complex_float F);
  (* the [int8_t] values at
     [GetEncodedBuf(encoded_buffer_, frame_id, symbol_idx, ant_id, 0)] *)
  GetEncodedBuf : Z -> Z -> Z -> buf Z;
  (* [ModSingleUint8(x, config_.ModTable())] *)
  ModSingleUint8 : Z -> complex_float F;
  (* [CommsLib::IFFT(buf, OfdmCaNum, false)]: the new contents of [buf] *)
  IFFT : buf (complex_float F) -> Z -> buf (complex_float F);
  (* [CommsLib::Ifft2tx(buf, out, OfdmCaNum, OfdmTxZeroPrefix, CpLen, Scale)]:
     the samples stored at [out] *)
  Ifft2tx : buf (complex_float F) -> Z -> Z -> Z -> list (Z * Z);
  enqueue_succeeds : bool      (* the result of [notify_queue_.enqueue] *)
}.
Arguments frame_id_ {F} _ _.
Arguments symbol_id_ {F} _ _.
Arguments ant_id_ {F} _ _.
Arguments ue_id_ {F} _ _.
Arguments FrmSymCb {F} _ _ _ _.
Arguments FrmSymUe {F} _ _ _ _.
Arguments NumChannels {F} _.
Arguments NumBlocksInSymbol {F} _.
Arguments UeAntNum {F} _.
Arguments OfdmCaNum {F} _.
Arguments OfdmDataNum {F} _.
Arguments OfdmDataStart {F} _.
Arguments OfdmDataStop {F} _.
Arguments OfdmTxZeroPrefix {F} _.
Arguments CpLen {F} _.
Arguments PacketLength {F} _.
Arguments NumULSyms {F} _.
Arguments ClientUlPilotSymbols {F} _.
Arguments GetULSymbolIdx {F} _ _.
Arguments GetTotalDataSymbolIdxUl {F} _ _ _.
Arguments UeSpecificPilot {F} _ _.
Arguments GetEncodedBuf {F} _ _ _ _.
Arguments ModSingleUint8 {F} _ _.
Arguments IFFT {F} _ _ _.
Arguments Ifft2tx {F} _ _ _ _ _.
Arguments enqueue_succeeds {F} _.

Record State (F : Type) : Type := {
  modul_buffer_ : Z -> buf (complex_float F);
  ifft_buffer_ : Z -> buf (complex_float F);
  (* the [data_] field of the packet at each byte offset of [tx_buffer_] *)
  tx_data_ : Z -> list (Z * Z);
  encoder_launched : list Z;   (* tags given to [encoder->Launch], latest first *)
  decoder_launched : list Z;   (* tags given to [decoder->Launch], latest first *)
  notify_queue_ : list EventData   (* latest first *)
}.
Arguments modul_buffer_ {F} _.
Arguments ifft_buffer_ {F} _.
Arguments tx_data_ {F} _.
Arguments encoder_launched {F} _.
Arguments decoder_launched {F} _.
Arguments notify_queue_ {F} _.

Section Tasks.
Context {F : Type} {arith : FloatArith F}.
Variable sym : Symbols.
Variable env : Env F.
Implicit Type st : State F.

Definition set_modul_buffer_ (v : Z -> buf (complex_float F)) st : State F :=
  {| modul_buffer_ := v;
     ifft_buffer_ := ifft_buffer_ st;
     tx_data_ := tx_data_ st;
     encoder_launched := encoder_launched st;
     decoder_launched := decoder_launched st;
     notify_queue_ := notify_queue_ st |}.

Definition set_ifft_buffer_ (v : Z -> buf (complex_float F)) st : State F :=
  {| modul_buffer_ := modul_buffer_ st;
     ifft_buffer_ := v;
     tx_data_ := tx_data_ st;
     encoder_launched := encoder_launched st;
     decoder_launched := decoder_launched st;
     notify_queue_ := notify_queue_ st |}.

Definition set_tx_data_ (v : Z -> list (Z * Z)) st : State F :=
  {| modul_buffer_ := modul_buffer_ st;
     ifft_buffer_ := ifft_buffer_ st;
     tx_data_ := v;
     encoder_launched := encoder_launched st;
     decoder_launched := decoder_launched st;
     notify_queue_ := notify_queue_ st |}.

Definition set_encoder_launched (v : list Z) st : State F :=
  {| modul_buffer_ := modul_buffer_ st;
     ifft_buffer_ := ifft_buffer_ st;
     tx_data_ := tx_data_ st;
     encoder_launched := v;
     decoder_launched := decoder_launched st;
     notify_queue_ := notify_queue_ st |}.

Definition set_decoder_launched (v : list Z) st : State F :=
  {| modul_buffer_ := modul_buffer_ st;
     ifft_buffer_ := ifft_buffer_ st;
     tx_data_ := tx_data_ st;
     encoder_launched := encoder_launched st;
     decoder_launched := v;
     notify_queue_ := notify_queue_ st |}.

Definition set_notify_queue_ (v : list EventData) st : State F :=
  {| modul_buffer_ := modul_buffer_ st;
     ifft_buffer_ := ifft_buffer_ st;
     tx_data_ := tx_data_ st;
     encoder_launched := encoder_launched st;
     decoder_launched := decoder_launched st;
     notify_queue_ := v |}.

(** [RtAssert(notify_queue_.enqueue(...), ...)] with the event [ev] *)
Definition post (ev : EventData) : M (State F) unit :=
  if enqueue_succeeds env then
    modify (fun st => set_notify_queue_ (ev :: notify_queue_ st) st)
  else raise RtAssertFail.

(** ue_worker.cc:444-471 *)
Definition DoDecodeUe (tag : Z) : M (State F) unit :=
  let frame_id := frame_id_ env tag in
  let symbol_id := symbol_id_ env tag in
  let ant_id := ant_id_ env tag in
  for_ 0 (NumBlocksInSymbol env) 1 (fun cb_id =>
    modify (fun st =>
      set_decoder_launched
        (FrmSymCb env frame_id symbol_id
                  (cb_id + ant_id * NumBlocksInSymbol env)
         :: decoder_launched st) st)) ;;
  let completion_tag := FrmSymUe env frame_id symbol_id ant_id in
  post {| event_type_ := kDecode; tags_ := completion_tag |}.

(** ue_worker.cc:476-498 *)
Definition DoEncodeUe (tag : Z) : M (State F) unit :=
  let frame_id := frame_id_ env tag in
  let symbol_id := symbol_id_ env tag in
  let ue_id := ue_id_ env tag in
  for_ 0 (NumChannels env) 1 (fun ch =>
    let ant_id := ue_id * NumChannels env + ch in
    for_ 0 (NumBlocksInSymbol env) 1 (fun cb_id =>
      modify (fun st =>
        set_encoder_launched
          (FrmSymCb env frame_id symbol_id
                    (cb_id + ant_id * NumBlocksInSymbol env)
           :: encoder_launched st) st))) ;;
  let completion_tag := FrmSymUe env frame_id symbol_id ue_id in
  post {| event_type_ := kEncode; tags_ := completion_tag |}.

(** [static_cast<uint8_t>] of an [int8_t] *)
Definition to_uint8 (x : Z) : Z := x mod 256.

(** ue_worker.cc:501-555 *)
Definition DoModul (tag : Z) : M (State F) unit :=
  let frame_id := frame_id_ env tag in
  let symbol_id := symbol_id_ env tag in
  let ue_id := ue_id_ env tag in
  for_ 0 (NumChannels env) 1 (fun ch =>
    let ant_id := ue_id * NumChannels env + ch in
    let ul_symbol_idx := GetULSymbolIdx env symbol_id in
    let total_ul_data_symbol_id :=
      GetTotalDataSymbolIdxUl env frame_id ul_symbol_idx in
    let modul_buf := ant_id * OfdmDataNum env in
    let ul_bits := GetEncodedBuf env frame_id ul_symbol_idx ant_id in
    for_ 0 (OfdmDataNum env) 1 (fun sc =>
      modify (fun st =>
        set_modul_buffer_
          (upd (modul_buffer_ st) total_ul_data_symbol_id
             (upd (modul_buffer_ st total_ul_data_symbol_id) (modul_buf + sc)
                  (ModSingleUint8 env (to_uint8 (ul_bits sc))))) st))) ;;
  post {| event_type_ := kModul; tags_ := tag |}.

(** [std::memset(p, 0, sizeof(complex_float) * n)] on the row [b] *)
Definition memset_zero (b : buf (complex_float F)) (p n : Z)
  : buf (complex_float F) :=
  write_list b p (repeat cx_zero (Z.to_nat n)).

(** [std::memcpy(dst, src, n * sizeof(complex_float))] from offset [q] of
    [src] to offset [p] of the row [b] *)
Definition memcpy (b : buf (complex_float F)) (p : Z)
           (src : buf (complex_float F)) (q n : Z) : buf (complex_float F) :=
  write_list b p (read_n src q (Z.to_nat n)).

(** What the body of the loop of [DoIfft] hands to [CommsLib::IFFT] for the
    antenna [ant_id] (lines 618-630). *)
Definition ifft_input (ul_symbol_id total_ul_symbol_id ant_id : Z) st
  : buf (complex_float F) :=
  let buff_offset := total_ul_symbol_id * UeAntNum env + ant_id in
  let ifft_buff := ifft_buffer_ st buff_offset in
  let b1 := memset_zero ifft_buff 0 (OfdmDataStart env) in
  let b2 :=
    if ul_symbol_id <? ClientUlPilotSymbols env then
      memcpy b1 (OfdmDataStart env) (UeSpecificPilot env ant_id) 0
             (OfdmDataNum env)
    else
      memcpy b1 (OfdmDataStart env) (modul_buffer_ st total_ul_symbol_id)
             (ant_id * OfdmDataNum env) (OfdmDataNum env) in
  memset_zero b2 (OfdmDataStop env) (OfdmDataStart env).

(** ue_worker.cc:596-658 *)
Definition DoIfft (tag : Z) : M (State F) unit :=
  let frame_id := frame_id_ env tag in
  let symbol_id := symbol_id_ env tag in
  let user_id := ue_id_ env tag in
  let frame_slot := frame_id mod kFrameWnd sym in
  for_ 0 (NumChannels env) 1 (fun ch =>
    let ul_symbol_perframe := NumULSyms env in
    let ul_symbol_id := GetULSymbolIdx env symbol_id in
    let ant_id := user_id * NumChannels env + ch in
    let total_ul_symbol_id := frame_slot * ul_symbol_perframe + ul_symbol_id in
    let buff_offset := total_ul_symbol_id * UeAntNum env + ant_id in
    st <- get ;;
    let ifft_buff :=
      IFFT env (ifft_input ul_symbol_id total_ul_symbol_id ant_id st)
           (OfdmCaNum env) in
    modify (set_ifft_buffer_ (upd (ifft_buffer_ st) buff_offset ifft_buff)) ;;
    let tx_offset := buff_offset * PacketLength env in
    modify (fun st =>
      set_tx_data_
        (upd (tx_data_ st) tx_offset
             (Ifft2tx env ifft_buff (OfdmCaNum env) (OfdmTxZeroPrefix env)
                      (CpLen env))) st)) ;;
  let completion_tag := FrmSymUe env frame_id symbol_id user_id in
  post {| event_type_ := kIFFT; tags_ := completion_tag |}.
End Tasks.
End UeTasks.

(** What [DoModul] leaves in [modul_buffer_]: in the row of the symbol, the
    entries of the channels of the user hold the constellation points of the
    encoded bytes, subcarrier by subcarrier; everything else is as in
    [st]. *)
Definition modulated {F : Type} (env : UeTasks.Env F) (tag : Z)
           (st : UeTasks.State F) (row z : Z) : complex_float F :=
  let frame_id := UeTasks.frame_id_ env tag in
  let ue_id := UeTasks.ue_id_ env tag in
  let ul_symbol_idx := UeTasks.GetULSymbolIdx env (UeTasks.symbol_id_ env tag) in
  let total := UeTasks.GetTotalDataSymbolIdxUl env frame_id ul_symbol_idx in
  let n := UeTasks.OfdmDataNum env in
  let first := ue_id * UeTasks.NumChannels env * n in
  let last := (ue_id + 1) * UeTasks.NumChannels env * n in
  if (row =? total) && (first <=? z) && (z <? last) then
    UeTasks.ModSingleUint8 env
      (UeTasks.to_uint8
         (UeTasks.GetEncodedBuf env frame_id ul_symbol_idx (z / n) (z mod n)))
  else UeTasks.modul_buffer_ st row z.

(** The other fields of the state are those of [st]. *)
Definition same_but_modul {F : Type} (st st' : UeTasks.State F) : Prop :=
  UeTasks.ifft_buffer_ st' = UeTasks.ifft_buffer_ st
  /\ UeTasks.tx_data_ st' = UeTasks.tx_data_ st
  /\ UeTasks.encoder_launched st' = UeTasks.encoder_launched st
  /\ UeTasks.decoder_launched st' = UeTasks.decoder_launched st
  /\ UeTasks.notify_queue_ st' = UeTasks.notify_queue_ st.

(** A sample client: 2 channels per user, 3 code blocks per symbol, 8 data
    subcarriers in the middle of 16. *)
Definition sample_ue_env : UeTasks.Env Z := {|
  UeTasks.frame_id_ := fun tag => tag / 2 ^ 32;
  UeTasks.symbol_id_ := fun tag => (tag / 2 ^ 16) mod 2 ^ 16;
  UeTasks.ant_id_ := fun tag => tag mod 2 ^ 16;
  UeTasks.ue_id_ := fun tag => tag mod 2 ^ 16;
  UeTasks.FrmSymCb := fun f s c => f * 2 ^ 32 + s * 2 ^ 16 + c;
  UeTasks.FrmSymUe := fun f s u => f * 2 ^ 32 + s * 2 ^ 16 + u;
  UeTasks.NumChannels := 2;
  UeTasks.NumBlocksInSymbol := 3;
  UeTasks.UeAntNum := 4;
  UeTasks.OfdmCaNum := 16;
  UeTasks.OfdmDataNum := 8;
  UeTasks.OfdmDataStart := 4;
  UeTasks.OfdmDataStop := 12;
  UeTasks.OfdmTxZeroPrefix := 0;
  UeTasks.CpLen := 0;
  UeTasks.PacketLength := 64;
  UeTasks.NumULSyms := 2;
  UeTasks.ClientUlPilotSymbols := 1;
  UeTasks.GetULSymbolIdx := fun s => s;
  UeTasks.GetTotalDataSymbolIdxUl := fun f s => (f mod 40) * 2 + s;
  UeTasks.UeSpecificPilot := fun _ _ => mk_cx 1 0;
  UeTasks.GetEncodedBuf := fun _ _ _ _ => 1;
  UeTasks.ModSingleUint8 := fun x => mk_cx x 0;
  UeTasks.IFFT := fun b _ => b;
  UeTasks.Ifft2tx := fun _ _ _ _ => [];
  UeTasks.enqueue_succeeds := true
|}.

Definition sample_ue_state : UeTasks.State Z := {|
  UeTasks.modul_buffer_ := fun _ _ => mk_cx 0 0;
  UeTasks.ifft_buffer_ := fun _ _ => mk_cx 0 0;
  UeTasks.tx_data_ := fun _ => [];
  UeTasks.encoder_launched := [];
  UeTasks.decoder_launched := [];
  UeTasks.notify_queue_ := []
|}.

(** ** The equalization kernel in its two builds (dodemul.cc:47-63, 196-212) *)

Section MklJit.
Context {F : Type} {ops : FloatOps F}.

(** Modelled from the spec: the kernel that [mkl_jit_create_cgemm] generates
    and [mkl_jit_get_cgemm_ptr] returns (dodemul.cc:51-62) is produced by MKL
    at run time; its code is not in the sources.  Section 4.3 of the
    specification takes the batched/JIT-compiled routine and the direct loop
    for "interchangeable implementations of the identical mathematical
    operation".  The operation a [cgemm] kernel is created for is
    [C := alpha * A * B + beta * C] on column-major matrices that are not
    transposed: [A] of [m] x [k], [B] of [k] x [n] and [C] of [m] x [n],
    with the leading dimensions [lda], [ldb] and [ldc].  The entries of
    [A * B] are accumulated like those of [mat_vec].  The result is what
    [C] holds when the kernel returns. *)
Definition cgemm_entry (alpha beta : complex_float F) (k lda ldb ldc : Z)
           (A B C : buf (complex_float F)) (r c : Z) : complex_float F :=
  cx_add
    (cx_mul alpha
       (fold_left (fun acc l => cx_add acc (cx_mul (A (l * lda + r))
                                                   (B (c * ldb + l))))
                  (zrange 0 k) cx_zero))
    (cx_mul beta (C (c * ldc + r))).

(** Modelled from the spec: the kernel as a whole, the same operation
    entry by entry; column [c] of [C] receives the [m] entries
    [cgemm_entry ... r c], computed from the contents of [C] at the call. *)
Definition jit_cgemm (alpha beta : complex_float F) (m n k lda ldb ldc : Z)
           (A B C : buf (complex_float F)) : buf (complex_float F) :=
  fold_left (fun C' c =>
               write_list C' (c * ldc)
                 (map (fun r => cgemm_entry alpha beta k lda ldb ldc A B C r c)
                      (zrange 0 m)))
            (zrange 0 n) C.

(** [mkl_jit_cgemm_], the kernel the constructor asks for (lines 48-54):
    [alpha = {1, 0}], [beta = {0, 0}], [m = UeNum], [n = 1],
    [k = BsAntNum], [lda = UeNum], [ldb = BsAntNum], [ldc = UeNum]. *)
Definition mkl_jit_cgemm_ (cfg : Config) (A B C : buf (complex_float F))
  : buf (complex_float F) :=
  let alpha := mk_cx (f_of_Z 1) (f_of_Z 0) in
  let beta := mk_cx (f_of_Z 0) (f_of_Z 0) in
  jit_cgemm alpha beta (UeNum cfg) 1 (BsAntNum cfg)
            (UeNum cfg) (BsAntNum cfg) (UeNum cfg) A B C.

Variable USE_MKL_JIT : bool.
Variable sym : Symbols.
Variable cfg : Config.
Variable inp : Inputs F.

(** Lines 196-212 for subcarrier [j] of the cache line at [base_sc_id + i]:
    the product, computed by the kernel of MKL in a build with
    [USE_MKL_JIT] and by Armadillo otherwise, and stored at [equal_ptr]. *)
Definition equalize_product (total frame_slot base_sc_id i j : Z)
  : M (DoDemul F) unit :=
  let cur_sc_id := base_sc_id + i + j in
  let off := equal_off sym cfg cur_sc_id base_sc_id in
  st <- get ;;
  let ul_zf_ptr := ul_zf_matrices_ inp frame_slot (GetZfScId cfg cur_sc_id) in
  if USE_MKL_JIT then
    let data_ptr := fun a => data_gather_buffer_ st (j * BsAntNum cfg + a) in
    let equal_ptr :=
      fun z => (if kExportConstellation sym
                then equal_buffer_ st total
                else equaled_buffer_temp_ st) (off + z) in
    write_mat_equaled sym total off
      (read_n (mkl_jit_cgemm_ cfg ul_zf_ptr data_ptr equal_ptr) 0
              (Z.to_nat (UeNum cfg)))
  else
    write_mat_equaled sym total off
      (mat_vec ul_zf_ptr (data_gather_buffer_ st) (j * BsAntNum cfg)
               (UeNum cfg) (BsAntNum cfg)).
End MklJit.

(** The equalized vector after the phase tracker has seen it (lines
    214-262): as it is on a pilot symbol and when no pilot symbol is
    configured, rotated in place on a data symbol. *)
Definition tracked {F : Type} {ops : FloatOps F} (sym : Symbols)
           (cfg : Config) (frame_id symbol_idx_ul : Z)
           (pilot : Z -> buf (complex_float F))
           (mat_equaled : list (complex_float F))
  : list (complex_float F) :=
  if symbol_idx_ul <? ClientUlPilotSymbols cfg then mat_equaled
  else if 0 <? ClientUlPilotSymbols cfg then
    phase_correct cfg symbol_idx_ul (pilot (frame_id mod kFrameWnd sym))
                  mat_equaled
  else mat_equaled.

(** Two complex numbers within the relative error [eps] of the second. *)
Definition rel_err_within (eps : R) (a b : complex_float R) : Prop :=
  (sqrt ((re a - re b) * (re a - re b) + (im a - im b) * (im a - im b))
   <= eps * sqrt (re b * re b + im b * im b))%R.

(** The direct mathematical matrix-vector product of the specification
    (section 8, "Equalization correctness"), over the real numbers: entry
    [u] of [A * x] for the [rows] x [cols] matrix [A], stored column by
    column, and the vector [x] of [cols] entries, written out in real and
    imaginary parts. *)
Definition Rsum (f : Z -> R) (l : list Z) : R :=
  fold_right (fun a s => (f a + s)%R) 0%R l.

Definition spec_product_entry (A x : buf (complex_float R))
           (rows cols u : Z) : complex_float R :=
  mk_cx (Rsum (fun a => (re (A (a * rows + u)%Z) * re (x a)
                         - im (A (a * rows + u)%Z) * im (x a))%R)
              (zrange 0 cols))
        (Rsum (fun a => (re (A (a * rows + u)%Z) * im (x a)
                         + im (A (a * rows + u)%Z) * re (x a))%R)
              (zrange 0 cols)).

(** The equalized vector of subcarrier [c] in terms of what the task is
    given: the zero-forcing matrix of the subcarrier times the received
    samples of the subcarrier, one per antenna, taken from the received
    data where [layout_offset] places them. *)
Definition equalized_of {F : Type} {ops : FloatOps F} (sym : Symbols)
           (cfg : Config) (inp : Inputs F) (frame_slot total c : Z)
  : list (complex_float F) :=
  mat_vec (ul_zf_matrices_ inp frame_slot (GetZfScId cfg c))
          (fun a => data_buffer_ inp total (layout_offset sym cfg c a))
          0 (UeNum cfg) (BsAntNum cfg).

(** ** [UeWorker::DoDemul]: the kernel and a sample worker *)

(** The kernel that the switch at ue_worker.cc:408-421 calls for the
    configured modulation order, if there is one. *)
Definition ue_selected_kernel {F : Type} (sym : Symbols) (config_ : Config)
           (env : UeWorker.Env F)
  : option (buf (complex_float F) -> Z -> list Z) :=
  if ModOrderBits config_ =? kQpsk sym
  then Some (UeWorker.DemodQpskSoftSse env)
  else if ModOrderBits config_ =? kQaM16 sym
  then Some (UeWorker.Demod16qamSoftAvx2 env)
  else if ModOrderBits config_ =? kQaM64 sym
  then Some (UeWorker.Demod64qamSoftAvx2 env)
  else None.

(** A client with 4 antennas and one downlink pilot symbol; every entry of
    row [r] of [equal_buffer_] holds [r], and the kernels return the real
    parts of what they are given. *)
Definition sample_worker_env : UeWorker.Env Z := {|
  UeWorker.frame_id_ := fun tag => tag / 2 ^ 32;
  UeWorker.symbol_id_ := fun tag => (tag / 2 ^ 16) mod 2 ^ 16;
  UeWorker.ant_id_ := fun tag => tag mod 2 ^ 16;
  UeWorker.GetDLSymbolIdx := fun s => s;
  UeWorker.NumDlDataSyms := 2;
  UeWorker.ClientDlPilotSymbols := 1;
  UeWorker.UeAntNum := 4;
  UeWorker.equal_buffer_ := fun r _ => mk_cx r 0;
  UeWorker.enqueue_succeeds := true;
  UeWorker.DemodQpskSoftSse := fun b n => map (fun k => re (b k)) (zrange 0 n);
  UeWorker.Demod16qamSoftAvx2 :=
    fun b n => map (fun k => re (b k)) (zrange 0 n);
  UeWorker.Demod64qamSoftAvx2 :=
    fun b n => map (fun k => re (b k)) (zrange 0 n)
|}.

Definition sample_worker_state : UeWorker.State := {|
  UeWorker.demod_buffer_ := fun _ _ _ _ => 0;
  UeWorker.notify_queue_ := [];
  UeWorker.stdout_ := []
|}.

(** * Properties *)

(** ** The monad and the loops *)

Lemma bind_ok {St A B} (m : M St A) (k : A -> M St B) s a s' :
  m s = Ok (a, s') -> bind m k s = k a s'.
Proof. intros H. unfold bind. now rewrite H. Qed.

Lemma bind_inv {St A B} (m : M St A) (k : A -> M St B) s b s2 :
  bind m k s = Ok (b, s2) ->
  exists a s1, m s = Ok (a, s1) /\ k a s1 = Ok (b, s2).
Proof.
  unfold bind. destruct (m s) as [[a s1]|e]; [eauto | discriminate].
Qed.

Lemma repeat_m_ext {St} (n : nat) (f g : nat -> M St unit) :
  (forall k s, (k < n)%nat -> f k s = g k s) ->
  forall s, repeat_m n f s = repeat_m n g s.
Proof.
  revert f g. induction n as [|n IH]; intros f g E s; [reflexivity|].
  simpl. unfold bind. rewrite (E O s) by lia.
  destruct (g O s) as [[[] s1]|e]; [|reflexivity].
  apply IH. intros k s2 Hk. apply E. lia.
Qed.

Lemma repeat_m_S {St} (n : nat) (f : nat -> M St unit) :
  repeat_m (S n) f = bind (f O) (fun _ => repeat_m n (fun k => f (S k))).
Proof. reflexivity. Qed.

Lemma iterations_done start stop step :
  0 < step -> stop <= start -> iterations start stop step = O.
Proof.
  intros Hs Hle. unfold iterations.
  assert ((stop - start + step - 1) / step <= 0); [|lia].
  assert ((stop - start + step - 1) / step < 1); [|lia].
  apply Z.div_lt_upper_bound; lia.
Qed.

Lemma iterations_step start stop step :
  0 < step -> start < stop ->
  iterations start stop step = S (iterations (start + step) stop step).
Proof.
  intros Hs Hlt. unfold iterations.
  replace (stop - start + step - 1) with (stop - (start + step) + step - 1 + 1 * step)
    by lia.
  rewrite Z.div_add by lia.
  rewrite Z2Nat.inj_add; [| |lia].
  - rewrite Nat.add_comm. reflexivity.
  - apply Z.div_pos; lia.
Qed.

Lemma for_up_repeat {St} (body : Z -> M St unit) stop step :
  0 < step ->
  forall fuel i s, (Z.to_nat (stop - i) <= fuel)%nat ->
    for_up fuel i stop step body s
    = repeat_m (iterations i stop step)
               (fun k => body (i + Z.of_nat k * step)) s.
Proof.
  intros Hs. induction fuel as [|fuel IH]; intros i s Hf.
  - cbn [for_up]. destruct (Z.ltb_spec i stop); [lia|].
    now rewrite iterations_done by lia.
  - cbn [for_up]. destruct (Z.ltb_spec i stop).
    + rewrite iterations_step by lia. rewrite repeat_m_S.
      replace (i + Z.of_nat 0 * step) with i by lia.
      unfold bind. destruct (body i s) as [[[] s1]|e]; [|reflexivity].
      rewrite IH by lia. apply repeat_m_ext. intros k s2 _.
      f_equal. lia.
    + now rewrite iterations_done by lia.
Qed.

(** A loop with a positive step runs its body once per iteration and does
    not run out of fuel. *)
Lemma for_repeat {St} (body : Z -> M St unit) start stop step :
  0 < step ->
  forall s, for_ start stop step body s
            = repeat_m (iterations start stop step)
                       (fun k => body (start + Z.of_nat k * step)) s.
Proof. intros Hs s. unfold for_. apply for_up_repeat; [assumption|lia]. Qed.

Lemma iterations_unit (n : Z) : iterations 0 n 1 = Z.to_nat n.
Proof. unfold iterations. f_equal. rewrite Z.div_1_r. lia. Qed.

Lemma iterations_exact (k step : Z) :
  0 < step -> 0 <= k -> iterations 0 (k * step) step = Z.to_nat k.
Proof.
  intros Hs Hk. unfold iterations. f_equal.
  replace (k * step - 0 + step - 1) with ((step - 1) + k * step) by lia.
  rewrite Z.div_add by lia. rewrite Z.div_small by lia. lia.
Qed.

(** Invariant rule: the body is total on the states the invariant allows. *)
Lemma repeat_m_inv {St} (I : nat -> St -> Prop) (n : nat)
      (f : nat -> M St unit) (s : St) :
  I O s ->
  (forall k s1, (k < n)%nat -> I k s1 ->
     exists s2, f k s1 = Ok (tt, s2) /\ I (S k) s2) ->
  exists s', repeat_m n f s = Ok (tt, s') /\ I n s'.
Proof.
  revert I f s. induction n as [|n IH]; intros I f s H0 Hstep.
  - exists s. split; [reflexivity|assumption].
  - destruct (Hstep O s) as (s1 & E1 & I1); [lia|assumption|].
    destruct (IH (fun k => I (S k)) (fun k => f (S k)) s1 I1) as (s' & E & I').
    + intros k s2 Hk Ik. apply Hstep; [lia|assumption].
    + exists s'. split; [|assumption].
      rewrite repeat_m_S. now rewrite (bind_ok _ _ _ _ _ E1).
Qed.

(** ** Buffers *)

Lemma upd_same {T} (b : buf T) k v : upd b k v k = v.
Proof. unfold upd. now rewrite Z.eqb_refl. Qed.

Lemma upd_other {T} (b : buf T) k v i : i <> k -> upd b k v i = b i.
Proof. intros H. unfold upd. destruct (Z.eqb_spec i k); [contradiction|reflexivity]. Qed.

Lemma write_list_outside {T} (l : list T) :
  forall (b : buf T) off i,
    (i < off \/ off + Z.of_nat (length l) <= i) -> write_list b off l i = b i.
Proof.
  induction l as [|v l IH]; intros b off i H; [reflexivity|].
  simpl in *. rewrite IH by lia. apply upd_other. lia.
Qed.

Lemma write_list_inside {T} (d : T) (l : list T) :
  forall (b : buf T) off k,
    (k < length l)%nat -> write_list b off l (off + Z.of_nat k) = nth k l d.
Proof.
  induction l as [|v l IH]; intros b off k H; [simpl in H; lia|].
  simpl in *. destruct k as [|k].
  - rewrite write_list_outside by lia.
    replace (off + Z.of_nat 0) with off by lia. apply upd_same.
  - replace (off + Z.of_nat (S k)) with (off + 1 + Z.of_nat k) by lia.
    apply IH. lia.
Qed.

Lemma read_n_length {T} (b : buf T) n : forall off, length (read_n b off n) = n.
Proof. induction n as [|n IH]; intros off; simpl; [reflexivity|now rewrite IH]. Qed.

Lemma read_n_nth {T} (d : T) (b : buf T) n :
  forall off k, (k < n)%nat -> nth k (read_n b off n) d = b (off + Z.of_nat k).
Proof.
  induction n as [|n IH]; intros off k H; [lia|].
  simpl. destruct k as [|k].
  - f_equal. lia.
  - rewrite IH by lia. f_equal. lia.
Qed.

Lemma read_strided_length {T} (b : buf T) stride n :
  forall off, length (read_strided b off stride n) = n.
Proof. induction n as [|n IH]; intros off; simpl; [reflexivity|now rewrite IH]. Qed.

Lemma read_strided_nth {T} (d : T) (b : buf T) stride n :
  forall off k, (k < n)%nat ->
    nth k (read_strided b off stride n) d = b (off + Z.of_nat k * stride).
Proof.
  induction n as [|n IH]; intros off k H; [lia|].
  simpl. destruct k as [|k].
  - f_equal. lia.
  - rewrite IH by lia. f_equal. lia.
Qed.

(** ** The alignment assertion *)

Lemma wrap64_mod8 x : wrap64 x mod 8 = x mod 8.
Proof.
  unfold wrap64. apply Z.mod_mod_divide. exists (2 ^ 61). reflexivity.
Qed.

(** C9.  When the block size and the number of data subcarriers are
    multiples of the cache-line width and the base subcarrier is a multiple
    of the block size, [max_sc_ite] is a multiple of the cache-line width and
    the assertion of [Launch] holds. *)
Theorem max_sc_ite_aligned (cfg : Config) (base_sc_id : Z) :
  (kSCsPerCacheline | DemulBlockSize cfg) ->
  (kSCsPerCacheline | OfdmDataNum cfg) ->
  (DemulBlockSize cfg | base_sc_id) ->
  max_sc_ite cfg base_sc_id mod kSCsPerCacheline = 0
  /\ launch_assertion cfg base_sc_id = true.
Proof.
  intros [b Hb] [o Ho] [k Hk].
  assert (H : max_sc_ite cfg base_sc_id mod kSCsPerCacheline = 0).
  { unfold max_sc_ite, kSCsPerCacheline in *.
    destruct (Z.min_spec (DemulBlockSize cfg) (wrap64 (OfdmDataNum cfg - base_sc_id)))
      as [[_ ->]|[_ ->]].
    - rewrite Hb. apply Z_mod_mult.
    - rewrite wrap64_mod8.
      replace (OfdmDataNum cfg - base_sc_id) with ((o - k * b) * 8) by lia.
      apply Z_mod_mult. }
  split; [assumption|]. unfold launch_assertion. now rewrite H.
Qed.

Lemma max_sc_ite_aligned_witness :
  let cfg := {| BsAntNum := 4; UeNum := 2; OfdmDataNum := 16;
                DemulBlockSize := 8; ClientUlPilotSymbols := 0;
                ModOrderBits := 2; Modulation := "QPSK";
                GetULSymbolIdx := fun s => s;
                GetTotalDataSymbolIdxUl := fun _ s => s;
                GetZfScId := fun s => s |} in
  max_sc_ite cfg 8 mod kSCsPerCacheline = 0
  /\ launch_assertion cfg 8 = true.
Proof.
  apply max_sc_ite_aligned.
  - exists 1. reflexivity.
  - exists 2. reflexivity.
  - exists 1. reflexivity.
Defined.

(** ** Gather/transpose unit *)

Lemma modify_ok {St} (f : St -> St) s : modify f s = Ok (tt, f s).
Proof. reflexivity. Qed.

(** Two subcarriers of one cache line lie in one transpose block. *)
Lemma same_block (T x j : Z) :
  0 < T -> (kSCsPerCacheline | T) -> (kSCsPerCacheline | x) ->
  0 <= j < kSCsPerCacheline ->
  (x + j) / T = x / T /\ (x + j) mod T = x mod T + j.
Proof.
  unfold kSCsPerCacheline. intros HT [t Ht] [m Hm] Hj.
  pose proof (Z.div_mod x T ltac:(lia)) as E.
  pose proof (Z.mod_pos_bound x T HT) as B.
  assert (D : (8 | x mod T)).
  { exists (m - t * (x / T)). nia. }
  destruct D as [r Hr].
  assert (Hq : (x + j) / T = x / T).
  { symmetry. apply (Z.div_unique_pos _ _ _ (x mod T + j)); nia. }
  split; [assumption|].
  symmetry. apply (Z.mod_unique_pos _ _ (x / T)); nia.
Qed.

Section GatherProofs.
Context {T : Type}.
Variable sym : Symbols.
Variable cfg : Config.
Variable data_buf : buf T.

Lemma gather_scalar_spec (base_sc_id i : Z) (gbuf : buf T) :
  exists s',
    gather_scalar sym cfg data_buf base_sc_id i 0
      {| g_src := 0; g_dst := 0; g_buf := gbuf |} = Ok (tt, s')
    /\ forall j a, 0 <= j < kSCsPerCacheline -> 0 <= a < BsAntNum cfg ->
         g_buf s' (j * BsAntNum cfg + a)
         = if kUsePartialTrans sym
           then data_buf (partial_transpose_block_base sym cfg base_sc_id i
                          + a * kTransposeBlockSize sym
                          + (base_sc_id + i + j) mod kTransposeBlockSize sym)
           else data_buf (a * OfdmDataNum cfg + base_sc_id + i + j).
Proof.
  unfold gather_scalar.
  set (B := BsAntNum cfg).
  set (val := fun j a : Z =>
    if kUsePartialTrans sym
    then data_buf (partial_transpose_block_base sym cfg base_sc_id i
                   + a * kTransposeBlockSize sym
                   + (base_sc_id + i + j) mod kTransposeBlockSize sym)
    else data_buf (a * OfdmDataNum cfg + base_sc_id + i + j)).
  rewrite for_repeat by lia. rewrite iterations_unit.
  destruct (repeat_m_inv
    (fun k s => g_dst s = Z.of_nat k * Z.of_nat (Z.to_nat B)
                /\ forall j a, 0 <= j < Z.of_nat k -> 0 <= a < B ->
                     g_buf s (j * B + a) = val j a)
    (Z.to_nat kSCsPerCacheline)
    (fun k => for_ 0 B 1 (fun ant_i => modify (fun s =>
       {| g_src := g_src s; g_dst := g_dst s + 1;
          g_buf := upd (g_buf s) (g_dst s) (val (0 + Z.of_nat k * 1) ant_i) |})))
    {| g_src := 0; g_dst := 0; g_buf := gbuf |}) as (s' & E & I).
  - cbn [g_dst g_buf]. split; [lia|]. intros j a Hj. lia.
  - intros k s1 Hk [Hd Hb].
    rewrite for_repeat by lia. rewrite iterations_unit.
    destruct (repeat_m_inv
      (fun m s => g_dst s = Z.of_nat k * Z.of_nat (Z.to_nat B) + Z.of_nat m
                  /\ (forall j a, 0 <= j < Z.of_nat k -> 0 <= a < B ->
                        g_buf s (j * B + a) = val j a)
                  /\ (forall a, 0 <= a < Z.of_nat m ->
                        g_buf s (Z.of_nat k * B + a) = val (Z.of_nat k) a))
      (Z.to_nat B)
      (fun m => modify (fun s =>
         {| g_src := g_src s; g_dst := g_dst s + 1;
            g_buf := upd (g_buf s) (g_dst s)
                         (val (0 + Z.of_nat k * 1) (0 + Z.of_nat m * 1)) |}))
      s1) as (s2 & E2 & I2d & I2a & I2b).
    + split; [lia|]. split; [assumption|]. intros a Ha. lia.
    + intros m s Hm (Id & Ia & Ib). eexists. split; [apply modify_ok|].
      cbn [g_dst g_buf]. rewrite Id.
      assert (HB : Z.of_nat (Z.to_nat B) = B) by lia. rewrite HB.
      split; [lia|]. split.
      * intros j a Hj Ha. rewrite upd_other by nia. now apply Ia.
      * intros a Ha.
        destruct (Z.eq_dec a (Z.of_nat m)) as [->|Hne].
        -- rewrite upd_same. f_equal; lia.
        -- rewrite upd_other by nia. apply Ib. lia.
    + exists s2. split; [exact E2|]. split; [lia|].
      intros j a Hj Ha.
      destruct (Z.eq_dec j (Z.of_nat k)) as [->|Hne].
      * apply I2b. lia.
      * apply I2a; lia.
  - exists s'. split; [exact E|]. destruct I as [_ I].
    intros j a Hj Ha. rewrite I; [reflexivity| |assumption].
    unfold kSCsPerCacheline in *. lia.
Qed.
End GatherProofs.

Section GatherKernelProofs.
Context {T : Type}.
Variable tbs : Z.
Variable B : Z.
Variable data_buf : buf T.

Lemma gather_avx2_pass :
  gather_avx2 tbs B data_buf
  = simd_pass tbs B 4 (fun src j => read_strided data_buf (src + j) tbs 4).
Proof. reflexivity. Qed.

Lemma gather_avx512_pass :
  gather_avx512 tbs B data_buf
  = simd_pass tbs B 8 (fun src j =>
      if tbs =? 1 then read_n data_buf (src + j * B) 8
      else read_strided data_buf (src + j) tbs 8).
Proof. reflexivity. Qed.

(** A vector pass whose width divides the number of antennas stores every
    register at an aligned address and fills row [j], column [a] from lane
    [a mod lanes] of the register of the group [a / lanes]. *)
Lemma simd_pass_spec (d : T) (lanes m : Z) (rx : Z -> Z -> list T)
      (src0 : Z) (gbuf : buf T) :
  0 < lanes -> 0 <= m -> B = m * lanes ->
  (forall src j, length (rx src j) = Z.to_nat lanes) ->
  exists s',
    simd_pass tbs B lanes rx {| g_src := src0; g_dst := 0; g_buf := gbuf |}
    = Ok (tt, s')
    /\ forall j a, 0 <= j < kSCsPerCacheline -> 0 <= a < B ->
         g_buf s' (j * B + a)
         = nth (Z.to_nat (a mod lanes))
               (rx (src0 + (a / lanes) * lanes * tbs) j) d.
Proof.
  intros Hl Hm HB Hlen. unfold simd_pass.
  set (V := fun j a : Z =>
    nth (Z.to_nat (a mod lanes)) (rx (src0 + (a / lanes) * lanes * tbs) j) d).
  rewrite for_repeat by lia.
  replace (iterations 0 B lanes) with (Z.to_nat m)
    by (rewrite HB; symmetry; apply iterations_exact; lia).
  destruct (repeat_m_inv
    (fun k s => g_src s = src0 + Z.of_nat k * lanes * tbs
                /\ g_dst s = Z.of_nat k * lanes
                /\ forall j a, 0 <= j < kSCsPerCacheline ->
                     0 <= a < Z.of_nat k * lanes ->
                     g_buf s (j * B + a) = V j a)
    (Z.to_nat m)
    (fun k =>
       for_ 0 kSCsPerCacheline 1 (fun j =>
         s <- get ;; store_ps lanes (g_dst s + j * B) (rx (g_src s) j)) ;;
       advance tbs lanes)
    {| g_src := src0; g_dst := 0; g_buf := gbuf |}) as (s' & E & I).
  - cbn [g_src g_dst g_buf]. split; [lia|]. split; [lia|]. intros; lia.
  - intros k s1 Hk (Is & Id & Ib).
    assert (Hkm : Z.of_nat k < m) by lia.
    destruct (repeat_m_inv
      (fun r s => g_src s = src0 + Z.of_nat k * lanes * tbs
                  /\ g_dst s = Z.of_nat k * lanes
                  /\ (forall j a, 0 <= j < kSCsPerCacheline ->
                        0 <= a < Z.of_nat k * lanes ->
                        g_buf s (j * B + a) = V j a)
                  /\ (forall j c, 0 <= j < Z.of_nat r ->
                        Z.of_nat k * lanes <= c < (Z.of_nat k + 1) * lanes ->
                        g_buf s (j * B + c) = V j c))
      (Z.to_nat kSCsPerCacheline)
      (fun r => s <- get ;;
                store_ps lanes (g_dst s + (0 + Z.of_nat r * 1) * B)
                         (rx (g_src s) (0 + Z.of_nat r * 1)))
      s1) as (s2 & E2 & I2s & I2d & I2a & I2b).
    + split; [assumption|]. split; [assumption|]. split; [assumption|].
      intros; lia.
    + intros r s Hr (Js & Jd & Ja & Jb).
      replace (0 + Z.of_nat r * 1) with (Z.of_nat r) by lia.
      unfold bind, get, store_ps.
      assert (Hal : (g_dst s + Z.of_nat r * B) mod lanes = 0).
      { rewrite Jd, HB.
        replace (Z.of_nat k * lanes + Z.of_nat r * (m * lanes))
          with ((Z.of_nat k + Z.of_nat r * m) * lanes) by lia.
        apply Z_mod_mult. }
      rewrite Hal. cbn [Z.eqb]. eexists. split; [reflexivity|].
      cbn [g_src g_dst g_buf]. split; [assumption|]. split; [assumption|].
      assert (HkB : (Z.of_nat k + 1) * lanes <= B) by nia.
      split.
      * intros j a Hj Ha. rewrite write_list_outside; [now apply Ja|].
        rewrite Hlen, Jd.
        destruct (Z_le_gt_dec j (Z.of_nat r)) as [Hjr|Hjr].
        -- left. destruct (Z.eq_dec j (Z.of_nat r)) as [->|Hne]; [lia|].
           assert (j * B + B <= Z.of_nat r * B) by nia. lia.
        -- right. assert (Z.of_nat r * B + B <= j * B) by nia. lia.
      * intros j c Hj Hc.
        destruct (Z.eq_dec j (Z.of_nat r)) as [->|Hne].
        -- replace (Z.of_nat r * B + c)
             with (g_dst s + Z.of_nat r * B
                   + Z.of_nat (Z.to_nat (c - Z.of_nat k * lanes))) by lia.
           rewrite (write_list_inside d) by (rewrite Hlen; lia).
           unfold V. rewrite Js.
           assert (Hq : c / lanes = Z.of_nat k).
           { symmetry. apply (Z.div_unique_pos _ _ _ (c - Z.of_nat k * lanes)); lia. }
           assert (Hr' : c mod lanes = c - Z.of_nat k * lanes).
           { symmetry. apply (Z.mod_unique_pos _ _ (Z.of_nat k)); lia. }
           now rewrite Hq, Hr'.
        -- rewrite write_list_outside; [apply Jb; lia|].
           rewrite Hlen, Jd. left.
           assert (j * B + B <= Z.of_nat r * B) by nia. lia.
    + unfold bind at 1.
      rewrite for_repeat by lia. rewrite iterations_unit.
      rewrite E2. unfold advance. rewrite modify_ok.
      eexists. split; [reflexivity|]. cbn [g_src g_dst g_buf].
      split; [rewrite I2s; lia|]. split; [rewrite I2d; lia|].
      intros j a Hj Ha.
      destruct (Z_lt_ge_dec a (Z.of_nat k * lanes)).
      * apply I2a; lia.
      * apply I2b; unfold kSCsPerCacheline in *; lia.
  - exists s'. split; [exact E|]. destruct I as (_ & _ & I).
    intros j a Hj Ha. apply I; lia.
Qed.
End GatherKernelProofs.

Lemma simd_pass_empty {T} (tbs B lanes : Z) (rx : Z -> Z -> list T) s :
  0 < lanes -> B <= 0 -> simd_pass tbs B lanes rx s = Ok (tt, s).
Proof.
  intros Hl HB. unfold simd_pass. rewrite for_repeat by lia.
  now rewrite iterations_done by lia.
Qed.

(** The vector pass reads what the layout prescribes.  [tbs] is the
    transpose block size, [x] the first subcarrier of the cache line. *)
Lemma simd_pass_layout {T} (d : T) (data_buf : buf T) (tbs B lanes x : Z)
      (rx : Z -> Z -> list T) (n : nat) (gbuf : buf T) :
  0 < lanes -> lanes = Z.of_nat n -> B mod lanes = 0 ->
  (forall src j, rx src j = read_strided data_buf (src + j) tbs n) ->
  exists s',
    simd_pass tbs B lanes rx
      {| g_src := (x / tbs) * (tbs * B) + x mod tbs; g_dst := 0; g_buf := gbuf |}
    = Ok (tt, s')
    /\ forall j a, 0 <= j < kSCsPerCacheline -> 0 <= a < B ->
         g_buf s' (j * B + a)
         = data_buf ((x / tbs) * (tbs * B) + x mod tbs + j + a * tbs).
Proof.
  intros Hl Hn Hdiv Hrx.
  destruct (Z_le_gt_dec B 0) as [HB|HB].
  - eexists. split; [now apply simd_pass_empty|]. intros; lia.
  - apply Z.mod_divide in Hdiv; [|lia]. destruct Hdiv as [m Hm].
    destruct (simd_pass_spec tbs B d lanes m rx
                ((x / tbs) * (tbs * B) + x mod tbs) gbuf) as (s' & E & V);
      [lia|nia|assumption| |].
    + intros src j. rewrite Hrx, read_strided_length. lia.
    + exists s'. split; [exact E|]. intros j a Hj Ha.
      rewrite V by assumption. rewrite Hrx.
      pose proof (Z.mod_pos_bound a lanes Hl) as Hb.
      rewrite read_strided_nth by lia. f_equal.
      pose proof (Z.div_mod a lanes ltac:(lia)) as Ea.
      rewrite Z2Nat.id by lia. nia.
Qed.

Lemma gather_stage_entries {T} (sym : Symbols) (cfg : Config)
        (data_buf : buf T) (base_sc_id i : Z) (gbuf : buf T) :
  0 < kTransposeBlockSize sym ->
  (kUsePartialTrans sym = true ->
     (kSCsPerCacheline | kTransposeBlockSize sym)
     /\ (kSCsPerCacheline | base_sc_id + i)) ->
  (AVX512F sym = true -> simd_guard sym cfg = true -> BsAntNum cfg mod 8 = 0) ->
  exists g,
    gather_stage sym cfg data_buf base_sc_id i gbuf = Ok g
    /\ forall j a, 0 <= j < kSCsPerCacheline -> 0 <= a < BsAntNum cfg ->
         g (j * BsAntNum cfg + a)
         = data_buf (layout_offset sym cfg (base_sc_id + i + j) a).
Proof.
  intros HT Hal Hfit. unfold gather_stage.
  destruct (simd_guard sym cfg) eqn:G.
  - unfold simd_guard in G. apply andb_prop in G. destruct G as [G Hpt].
    apply andb_prop in G. destruct G as [_ H4]. apply Z.eqb_eq in H4.
    destruct (Hal Hpt) as [HdT Hdx].
    assert (Hlay : forall j a, 0 <= j < kSCsPerCacheline ->
      (base_sc_id + i) / kTransposeBlockSize sym
        * (kTransposeBlockSize sym * BsAntNum cfg)
      + (base_sc_id + i) mod kTransposeBlockSize sym + j
      + a * kTransposeBlockSize sym
      = layout_offset sym cfg (base_sc_id + i + j) a).
    { intros j a Hj. unfold layout_offset. rewrite Hpt.
      destruct (same_block (kTransposeBlockSize sym) (base_sc_id + i) j)
        as [-> ->]; try assumption. lia. }
    unfold partial_transpose_block_base.
    destruct (AVX512F sym) eqn:A.
    + assert (H8 : BsAntNum cfg mod 8 = 0).
      { apply Hfit; reflexivity. }
      rewrite gather_avx512_pass.
      destruct (simd_pass_layout (data_buf 0) data_buf (kTransposeBlockSize sym)
                  (BsAntNum cfg) 8 (base_sc_id + i)
                  (fun src j =>
                     if kTransposeBlockSize sym =? 1
                     then read_n data_buf (src + j * BsAntNum cfg) 8
                     else read_strided data_buf (src + j)
                                       (kTransposeBlockSize sym) 8)
                  8%nat gbuf) as (s' & E & V); try lia.
      * intros src j. destruct (Z.eqb_spec (kTransposeBlockSize sym) 1) as [E1|];
          [|reflexivity].
        exfalso. destruct HdT as [t Ht]. unfold kSCsPerCacheline in Ht. lia.
      * rewrite E. exists (g_buf s'). split; [reflexivity|].
        intros j a Hj Ha. rewrite V by assumption. f_equal. now apply Hlay.
    + rewrite gather_avx2_pass.
      destruct (simd_pass_layout (data_buf 0) data_buf (kTransposeBlockSize sym)
                  (BsAntNum cfg) 4 (base_sc_id + i)
                  (fun src j => read_strided data_buf (src + j)
                                             (kTransposeBlockSize sym) 4)
                  4%nat gbuf) as (s' & E & V); try lia.
      * reflexivity.
      * rewrite E. exists (g_buf s'). split; [reflexivity|].
        intros j a Hj Ha. rewrite V by assumption. f_equal. now apply Hlay.
  - destruct (gather_scalar_spec sym cfg data_buf base_sc_id i gbuf)
      as (s' & E & V).
    rewrite E. exists (g_buf s'). split; [reflexivity|].
    intros j a Hj Ha. rewrite V by assumption. unfold layout_offset.
    destruct (kUsePartialTrans sym) eqn:Hpt; [|f_equal; lia].
    destruct (Hal eq_refl) as [HdT Hdx].
    destruct (same_block (kTransposeBlockSize sym) (base_sc_id + i) j)
      as [Hq Hr]; try assumption.
    unfold partial_transpose_block_base. rewrite Hq. reflexivity.
Qed.

(** C6.  After the gather of the cache line starting at subcarrier
    [base_sc_id + i], row [j], column [a] of the gathered buffer holds the
    sample of antenna [a] and subcarrier [s = base_sc_id + i + j]: the one
    at [a * OfdmDataNum + s] in the contiguous layout, the one at
    [block_base + a * T + s mod T] in the partial-transpose layout.  The
    cache line lies in one transpose block (the comment at lines 110-112),
    and the vector pass, where taken, has a width dividing the number of
    antennas. *)
Theorem gather_stage_layout {T} (sym : Symbols) (cfg : Config)
        (data_buf : buf T) (base_sc_id i : Z) (gbuf : buf T) :
  0 < kTransposeBlockSize sym ->
  (kUsePartialTrans sym = true ->
     (kSCsPerCacheline | kTransposeBlockSize sym)
     /\ (kSCsPerCacheline | base_sc_id + i)) ->
  (AVX512F sym = true -> simd_guard sym cfg = true -> BsAntNum cfg mod 8 = 0) ->
  exists g,
    gather_stage sym cfg data_buf base_sc_id i gbuf = Ok g
    /\ forall j a, 0 <= j < kSCsPerCacheline -> 0 <= a < BsAntNum cfg ->
         g (j * BsAntNum cfg + a)
         = data_buf (layout_offset sym cfg (base_sc_id + i + j) a).
Proof. apply gather_stage_entries. Qed.

Lemma gather_stage_layout_witness :
  exists g,
    gather_stage sample_symbols (sample_config 4 2 0 2) (fun k => k) 8 0
                 (fun _ => 0) = Ok g
    /\ forall j a, 0 <= j < kSCsPerCacheline -> 0 <= a < 4 ->
         g (j * 4 + a)
         = layout_offset sample_symbols (sample_config 4 2 0 2) (8 + 0 + j) a.
Proof.
  apply (gather_stage_layout sample_symbols (sample_config 4 2 0 2)
                             (fun k => k) 8 0 (fun _ => 0)).
  - reflexivity.
  - intros _. split; [exists 1; reflexivity | exists 1; reflexivity].
  - discriminate.
Defined.

(** Where the vector pass fits, and in every configuration that takes the
    scalar loop, the gathered buffer is the reference one. *)
Lemma gather_stage_reference {T} (sym : Symbols) (cfg : Config)
      (data_buf : buf T) (base_sc_id i : Z) (gbuf : buf T) :
  0 < kTransposeBlockSize sym ->
  (kUsePartialTrans sym = true ->
     (kSCsPerCacheline | kTransposeBlockSize sym)
     /\ (kSCsPerCacheline | base_sc_id + i)) ->
  (AVX512F sym = true -> simd_guard sym cfg = true -> BsAntNum cfg mod 8 = 0) ->
  exists g,
    gather_stage sym cfg data_buf base_sc_id i gbuf = Ok g
    /\ forall k, 0 <= k < kSCsPerCacheline * BsAntNum cfg ->
         g k = reference_gather sym cfg data_buf base_sc_id i gbuf k.
Proof.
  intros HT Hal Hfit.
  destruct (gather_stage_entries sym cfg data_buf base_sc_id i gbuf HT Hal Hfit)
    as (g & E & V).
  exists g. split; [exact E|]. intros k Hk.
  unfold reference_gather.
  destruct (Z.leb_spec 0 k); [|lia].
  destruct (Z.ltb_spec k (kSCsPerCacheline * BsAntNum cfg)); [|lia].
  cbn [andb].
  assert (HB : 0 < BsAntNum cfg) by (unfold kSCsPerCacheline in *; lia).
  pose proof (Z.div_mod k (BsAntNum cfg) ltac:(lia)) as Ek.
  pose proof (Z.mod_pos_bound k (BsAntNum cfg) HB) as Hm.
  rewrite <- V.
  - f_equal. lia.
  - split; [apply Z.div_pos; lia|].
    apply Z.div_lt_upper_bound; lia.
  - assumption.
Qed.

(** C5.  Built for AVX-512, with the partial-transpose layout and 12
    antennas, the gather takes the vector pass (12 is a multiple of 4), which
    moves 8 antennas at a time: the store of row 1 is at offset 12, which is
    not a multiple of the register width, and no scalar loop follows. *)
Theorem gather_avx512_twelve_antennas :
  simd_guard sample_symbols_avx512 (sample_config 12 2 0 2) = true
  /\ gather_stage sample_symbols_avx512 (sample_config 12 2 0 2)
                  (fun k => k) 0 0 (fun _ => 0) = Err Misaligned.
Proof. split; vm_compute; reflexivity. Qed.

(** The gather loop of Millipede has no guard on the number of antennas:
    with 6 antennas the store of row 1 is at offset 6. *)
Lemma millipede_gather_six_antennas :
  Millipede.gather_step (millipede_config_with 6) millipede_inputs 0 0 0
                        millipede_state
  = Err Misaligned.
Proof. vm_compute. reflexivity. Qed.

(** ** Lists of per-UE values *)

Lemma map2_length {A B C} (f : A -> B -> C) (l : list A) :
  forall l', length l' = length l -> length (map2 f l l') = length l.
Proof.
  induction l as [|a l IH]; intros [|b l'] H; simpl in *; try lia.
  now rewrite IH by lia.
Qed.

Lemma nth_map2 {A B C} (f : A -> B -> C) (da : A) (db : B) (dc : C)
      (l : list A) :
  forall l' k, (k < length l)%nat -> (k < length l')%nat ->
    nth k (map2 f l l') dc = f (nth k l da) (nth k l' db).
Proof.
  induction l as [|a l IH]; intros [|b l'] k H H'; simpl in *; try lia.
  destruct k as [|k]; [reflexivity|]. apply IH; lia.
Qed.

Lemma nth_repeat_same {A} (a : A) (n k : nat) : nth k (repeat a n) a = a.
Proof.
  revert k. induction n as [|n IH]; intros [|k]; simpl; auto.
Qed.

Lemma read_n_write_list {T} (l : list T) :
  forall (b : buf T) off, read_n (write_list b off l) off (length l) = l.
Proof.
  induction l as [|v l IH]; intros b off; [reflexivity|].
  simpl. rewrite IH. f_equal.
  rewrite write_list_outside by lia. apply upd_same.
Qed.

Lemma zrange_length lo hi : length (zrange lo hi) = Z.to_nat (hi - lo).
Proof. unfold zrange. now rewrite length_map, length_seq. Qed.

(** ** Phase correction *)

Section PhaseCorrectProofs.
Context {F : Type} {ops : FloatOps F}.
Variable cfg : Config.

Lemma theta_col_length pc s :
  length (theta_col cfg pc s) = Z.to_nat (UeNum cfg).
Proof. unfold theta_col. now rewrite length_map, read_n_length. Qed.

Lemma theta_col_nth pc s u :
  0 <= u < UeNum cfg ->
  nth (Z.to_nat u) (theta_col cfg pc s) f_zero
  = spec_theta (fun s' => pc (s' * UeNum cfg + u)) s.
Proof.
  intros Hu. unfold theta_col, spec_theta.
  rewrite (nth_indep _ f_zero (cx_arg cx_zero))
    by (rewrite length_map, read_n_length; lia).
  rewrite (map_nth cx_arg).
  rewrite read_n_nth by lia. now rewrite Z2Nat.id by lia.
Qed.

(** The sum of the column differences, one UE at a time. *)
Lemma theta_sum_nth pc u (l : list Z) :
  0 <= u < UeNum cfg ->
  forall init, length init = Z.to_nat (UeNum cfg) ->
    length (fold_left (fun acc s =>
               map2 f_add acc (map2 f_sub (theta_col cfg pc s)
                                           (theta_col cfg pc (s - 1)))) l init)
    = Z.to_nat (UeNum cfg)
    /\ nth (Z.to_nat u)
         (fold_left (fun acc s =>
               map2 f_add acc (map2 f_sub (theta_col cfg pc s)
                                           (theta_col cfg pc (s - 1)))) l init)
         f_zero
       = fold_left (fun sum s =>
               f_add sum (f_sub (spec_theta (fun s' => pc (s' * UeNum cfg + u)) s)
                                (spec_theta (fun s' => pc (s' * UeNum cfg + u))
                                            (s - 1))))
           l (nth (Z.to_nat u) init f_zero).
Proof.
  intros Hu. induction l as [|s l IH]; intros init Hlen.
  - split; [assumption|reflexivity].
  - cbn [fold_left].
    assert (Hd : length (map2 f_sub (theta_col cfg pc s) (theta_col cfg pc (s - 1)))
                 = Z.to_nat (UeNum cfg)).
    { rewrite map2_length; rewrite !theta_col_length; reflexivity. }
    destruct (IH (map2 f_add init
                    (map2 f_sub (theta_col cfg pc s) (theta_col cfg pc (s - 1)))))
      as [IHl IHn].
    { rewrite map2_length; lia. }
    split; [exact IHl|]. rewrite IHn. f_equal.
    rewrite (nth_map2 f_add f_zero f_zero) by lia.
    rewrite (nth_map2 f_sub f_zero f_zero)
      by (rewrite theta_col_length; lia).
    now rewrite !theta_col_nth by assumption.
Qed.

Lemma theta_inc_length pc : length (theta_inc cfg pc) = Z.to_nat (UeNum cfg).
Proof.
  unfold theta_inc. rewrite length_map.
  destruct (Z_lt_ge_dec 0 (UeNum cfg)) as [H|H].
  - apply (theta_sum_nth pc 0); [lia|apply repeat_length].
  - replace (Z.to_nat (UeNum cfg)) with O by lia. cbn [repeat].
    clear H. induction (zrange 1 (ClientUlPilotSymbols cfg)); auto.
Qed.

Lemma cur_theta_length idx pc :
  length (cur_theta cfg idx pc) = Z.to_nat (UeNum cfg).
Proof.
  unfold cur_theta. rewrite map2_length; rewrite ?length_map, ?theta_col_length;
    [reflexivity|now rewrite theta_inc_length].
Qed.

(** The angle the code computes for UE [u] is the one of the
    specification, as long as [P - 1] survives [static_cast<int>]. *)
Lemma cur_theta_nth idx pc u :
  0 <= u < UeNum cfg ->
  0 < ClientUlPilotSymbols cfg <= 2 ^ 31 ->
  nth (Z.to_nat u) (cur_theta cfg idx pc) f_zero
  = spec_theta_at (ClientUlPilotSymbols cfg)
                  (fun s => pc (s * UeNum cfg + u)) idx.
Proof.
  intros Hu HP. unfold cur_theta, spec_theta_at.
  rewrite (nth_map2 f_add f_zero f_zero)
    by (rewrite ?length_map, ?theta_col_length, ?theta_inc_length; lia).
  rewrite theta_col_nth by assumption. f_equal.
  rewrite (nth_indep _ f_zero (f_mul (f_of_Z idx) f_zero))
    by (rewrite length_map, theta_inc_length; lia).
  rewrite (map_nth (f_mul (f_of_Z idx))). f_equal.
  unfold theta_inc, spec_avg_increment.
  set (sum := fold_left _ _ (repeat f_zero _)).
  set (d := f_of_Z _).
  rewrite (nth_indep _ f_zero (f_div f_zero d)).
  2:{ rewrite length_map. subst sum.
      destruct (theta_sum_nth pc u (zrange 1 (ClientUlPilotSymbols cfg)) Hu
                  (repeat f_zero (Z.to_nat (UeNum cfg))) (repeat_length _ _))
        as [-> _]. lia. }
  rewrite (map_nth (fun x => f_div x d)). subst sum d.
  destruct (theta_sum_nth pc u (zrange 1 (ClientUlPilotSymbols cfg)) Hu
              (repeat f_zero (Z.to_nat (UeNum cfg))) (repeat_length _ _))
    as [_ ->].
  rewrite nth_repeat_same. f_equal. f_equal. f_equal.
  unfold wrap64, to_int.
  rewrite (Z.mod_small (ClientUlPilotSymbols cfg - 1)) by lia.
  rewrite Z.mod_small by lia. lia.
Qed.

Lemma phase_correct_length idx pc eq :
  length eq = Z.to_nat (UeNum cfg) ->
  length (phase_correct cfg idx pc eq) = Z.to_nat (UeNum cfg).
Proof.
  intros H. unfold phase_correct.
  rewrite map2_length; rewrite ?length_map, ?cur_theta_length; lia.
Qed.

Lemma phase_correct_nth idx pc eq u :
  0 <= u < UeNum cfg ->
  0 < ClientUlPilotSymbols cfg <= 2 ^ 31 ->
  length eq = Z.to_nat (UeNum cfg) ->
  nth (Z.to_nat u) (phase_correct cfg idx pc eq) cx_zero
  = spec_rotate (nth (Z.to_nat u) eq cx_zero)
                (spec_theta_at (ClientUlPilotSymbols cfg)
                               (fun s => pc (s * UeNum cfg + u)) idx).
Proof.
  intros Hu HP Hlen. unfold phase_correct, spec_rotate.
  rewrite (nth_map2 cx_mul cx_zero
             (mk_cx (f_cos (f_neg f_zero)) (f_sin (f_neg f_zero))))
    by (rewrite ?length_map, ?cur_theta_length; lia).
  f_equal.
  rewrite (map_nth (fun t => mk_cx (f_cos (f_neg t)) (f_sin (f_neg t)))).
  now rewrite cur_theta_nth.
Qed.
End PhaseCorrectProofs.

Section PhaseTrackProofs.
Context {F : Type} {ops : FloatOps F}.
Variable sym : Symbols.
Variable cfg : Config.
Variable inp : Inputs F.

Lemma read_mat_equaled_length total off (st : DoDemul F) :
  length (read_mat_equaled sym cfg total off st) = Z.to_nat (UeNum cfg).
Proof. unfold read_mat_equaled. apply read_n_length. Qed.

Lemma write_mat_equaled_read total off v (st : DoDemul F) :
  length v = Z.to_nat (UeNum cfg) ->
  exists st',
    write_mat_equaled sym total off v st = Ok (tt, st')
    /\ read_mat_equaled sym cfg total off st' = v
    /\ ue_spec_pilot_buffer_ st' = ue_spec_pilot_buffer_ st
    /\ demod_buffers_ st' = demod_buffers_ st.
Proof.
  intros Hlen. unfold write_mat_equaled, read_mat_equaled.
  eexists. split; [apply modify_ok|].
  destruct (kExportConstellation sym); cbn.
  - rewrite upd_same. rewrite <- Hlen. rewrite read_n_write_list. auto.
  - rewrite <- Hlen. rewrite read_n_write_list. auto.
Qed.

(** The correction branch of the phase tracker: what it leaves in
    [mat_equaled], and that it only reads the pilot-phase table. *)
Lemma phase_track_correct_step frame_id symbol_idx_ul cur_sc_id total off
      (st : DoDemul F) :
  0 < ClientUlPilotSymbols cfg ->
  ClientUlPilotSymbols cfg <= symbol_idx_ul ->
  exists st',
    phase_track sym cfg inp frame_id symbol_idx_ul cur_sc_id total off st
    = Ok (tt, st')
    /\ ue_spec_pilot_buffer_ st' = ue_spec_pilot_buffer_ st
    /\ read_mat_equaled sym cfg total off st'
       = phase_correct cfg symbol_idx_ul
           (ue_spec_pilot_buffer_ st (frame_id mod kFrameWnd sym))
           (read_mat_equaled sym cfg total off st).
Proof.
  intros HP Hidx. unfold phase_track.
  destruct (Z.ltb_spec symbol_idx_ul (ClientUlPilotSymbols cfg)); [lia|].
  destruct (Z.ltb_spec 0 (ClientUlPilotSymbols cfg)); [|lia].
  unfold bind at 1. unfold get.
  set (v := phase_correct cfg symbol_idx_ul _ _).
  destruct (write_mat_equaled_read total off v st) as (st1 & E1 & R1 & P1 & _).
  { apply phase_correct_length, read_mat_equaled_length. }
  unfold bind at 1. rewrite E1.
  destruct (symbol_idx_ul =? ClientUlPilotSymbols cfg).
  - destruct (kPrintPhyStats sym && (cur_sc_id =? 0)).
    + eexists. split; [reflexivity|]. split; [exact P1|].
      revert R1. unfold read_mat_equaled. cbn. auto.
    + eexists. split; [reflexivity|]. split; [exact P1|].
      revert R1. unfold read_mat_equaled. cbn. auto.
  - eexists. split; [reflexivity|]. auto.
Qed.
End PhaseTrackProofs.

(** C4.  For a data symbol ([symbol_idx_ul >= P], [P > 0]) the phase tracker
    multiplies the equalized value of every UE by [e^{-j theta}] with
    [theta = theta[0] + symbol_idx_ul * avg_increment], [theta[0]] the phase
    of the UE's first pilot accumulator and [avg_increment] the sum of the
    successive phase differences of its [P] accumulators divided by
    [max(1, P - 1)].  ([P - 1] fits an [int].) *)
Theorem phase_track_rotates {F : Type} {ops : FloatOps F}
        (sym : Symbols) (cfg : Config) (inp : Inputs F)
        (frame_id symbol_idx_ul cur_sc_id total off : Z) (st : DoDemul F) :
  0 < ClientUlPilotSymbols cfg <= 2 ^ 31 ->
  ClientUlPilotSymbols cfg <= symbol_idx_ul ->
  exists st',
    phase_track sym cfg inp frame_id symbol_idx_ul cur_sc_id total off st
    = Ok (tt, st')
    /\ ue_spec_pilot_buffer_ st' = ue_spec_pilot_buffer_ st
    /\ forall u, 0 <= u < UeNum cfg ->
         nth (Z.to_nat u) (read_mat_equaled sym cfg total off st') cx_zero
         = spec_rotate
             (nth (Z.to_nat u) (read_mat_equaled sym cfg total off st) cx_zero)
             (spec_theta_at (ClientUlPilotSymbols cfg)
                (fun s => ue_spec_pilot_buffer_ st (frame_id mod kFrameWnd sym)
                                                (s * UeNum cfg + u))
                symbol_idx_ul).
Proof.
  intros HP Hidx.
  destruct (phase_track_correct_step sym cfg inp frame_id symbol_idx_ul
              cur_sc_id total off st) as (st' & E & Hp & Hr); [lia|lia|].
  exists st'. split; [exact E|]. split; [exact Hp|].
  intros u Hu. rewrite Hr.
  apply phase_correct_nth; [assumption|assumption|].
  apply read_mat_equaled_length.
Qed.

Lemma phase_track_rotates_witness :
  exists st' : DoDemul R,
    phase_track sample_symbols (sample_config 4 2 1 2) (sample_inputs cx_zero)
                0 1 0 1 0 sample_state = Ok (tt, st').
Proof.
  destruct (phase_track_rotates sample_symbols (sample_config 4 2 1 2)
              (sample_inputs cx_zero) 0 1 0 1 0 (sample_state (F := R)))
    as (st' & E & _).
  - cbn. lia.
  - cbn. lia.
  - exists st'. exact E.
Defined.

(** ** Phase correction in exact arithmetic *)

Lemma map2_repeat_r {A B} (f : A -> B -> A) (c : B) (l : list A) :
  map2 f l (repeat c (length l)) = map (fun x => f x c) l.
Proof. induction l as [|a l IH]; simpl; [reflexivity|now rewrite IH]. Qed.

Lemma map_id_on {A} (f : A -> A) (l : list A) :
  (forall x, f x = x) -> map f l = l.
Proof. intros H. induction l as [|a l IH]; simpl; [reflexivity|now rewrite H, IH]. Qed.

Lemma Ratan2_imaginary_unit : Ratan2 1 0 = (PI / 2)%R.
Proof.
  unfold Ratan2.
  destruct (Rlt_dec 0 0) as [H|_]; [lra|].
  destruct (Rlt_dec 0 1) as [_|H]; [reflexivity|lra].
Qed.

Section ExactPhase.
Local Open Scope R_scope.
Variable cfg : Config.

Lemma theta_inc_single_pilot (pc : buf (complex_float R)) :
  ClientUlPilotSymbols cfg = 1%Z ->
  theta_inc cfg pc = repeat 0 (Z.to_nat (UeNum cfg)).
Proof.
  intros HP. unfold theta_inc. rewrite HP.
  change (zrange 1 1) with (@nil Z). cbn [fold_left].
  rewrite map_repeat. f_equal.
  change (to_int (wrap64 (1 - 1))) with 0%Z. cbn. lra.
Qed.

Lemma cur_theta_zero_increment idx (pc : buf (complex_float R)) :
  theta_inc cfg pc = repeat 0 (Z.to_nat (UeNum cfg)) ->
  cur_theta cfg idx pc = theta_col cfg pc 0.
Proof.
  intros H. unfold cur_theta. rewrite H, map_repeat.
  rewrite <- (theta_col_length cfg pc 0).
  rewrite map2_repeat_r. apply map_id_on. intros x. cbn. ring.
Qed.

Lemma phase_correct_zero_angle idx (pc : buf (complex_float R)) eq :
  cur_theta cfg idx pc = repeat 0 (Z.to_nat (UeNum cfg)) ->
  length eq = Z.to_nat (UeNum cfg) ->
  phase_correct cfg idx pc eq = eq.
Proof.
  intros H Hlen. unfold phase_correct. rewrite H, map_repeat, <- Hlen.
  rewrite map2_repeat_r. apply map_id_on. intros [a b].
  unfold cx_mul. cbn. rewrite Ropp_0, cos_0, sin_0. f_equal; ring.
Qed.
End ExactPhase.

(** C7, as stated, fails: with a single pilot symbol ([P = 1], average
    increment zero) whose accumulator is [j], the data symbol [1] is
    corrected to [-j]. *)
Lemma zero_increment_rotation_counterexample :
  let cfg := sample_config 4 1 1 2 in
  let pc : buf (complex_float R) := fun _ => mk_cx 0%R 1%R in
  theta_inc cfg pc = [0%R]
  /\ phase_correct cfg 1 pc [mk_cx 1%R 0%R] <> [mk_cx 1%R 0%R].
Proof.
  intros cfg pc. split.
  - apply (theta_inc_single_pilot cfg pc). reflexivity.
  - unfold phase_correct.
    rewrite (cur_theta_zero_increment cfg 1 pc)
      by (apply theta_inc_single_pilot; reflexivity).
    unfold theta_col. cbn. change (Pos.to_nat 1) with 1%nat. cbn.
    unfold cx_arg. cbn. rewrite Ratan2_imaginary_unit.
    rewrite cos_neg, sin_neg, cos_PI2, sin_PI2.
    unfold cx_mul. cbn. intros H. injection H as H1 H2. lra.
Qed.

(** C7, amended.  When the average increment is zero, as it is for
    [P = 1], the angle of the correction is [theta[0]] at every symbol; the
    correction leaves the symbols as they are when [theta[0]] is zero too. *)
Theorem zero_increment_rotation (cfg : Config) (idx : Z)
        (pc : buf (complex_float R)) (eq : list (complex_float R)) :
  ClientUlPilotSymbols cfg = 1
  \/ theta_inc cfg pc = repeat 0%R (Z.to_nat (UeNum cfg)) ->
  theta_inc cfg pc = repeat 0%R (Z.to_nat (UeNum cfg))
  /\ cur_theta cfg idx pc = theta_col cfg pc 0
  /\ (theta_col cfg pc 0 = repeat 0%R (Z.to_nat (UeNum cfg)) ->
      length eq = Z.to_nat (UeNum cfg) ->
      phase_correct cfg idx pc eq = eq).
Proof.
  intros H.
  assert (Hinc : theta_inc cfg pc = repeat 0%R (Z.to_nat (UeNum cfg))).
  { destruct H as [H|H]; [now apply theta_inc_single_pilot|assumption]. }
  split; [assumption|]. split; [now apply cur_theta_zero_increment|].
  intros H0 Hlen. apply phase_correct_zero_angle; [|assumption].
  now rewrite cur_theta_zero_increment.
Qed.

Lemma zero_increment_rotation_witness :
  let cfg := sample_config 4 1 1 2 in
  let pc : buf (complex_float R) := fun _ => mk_cx 0%R 1%R in
  theta_inc cfg pc = repeat 0%R 1
  /\ cur_theta cfg 3 pc = theta_col cfg pc 0.
Proof.
  intros cfg pc.
  destruct (zero_increment_rotation cfg 3 pc []) as (H1 & H2 & _).
  - left. reflexivity.
  - split; [exact H1|exact H2].
Defined.

(** ** The pilot-phase accumulators across frames *)

Lemma mod_neq (a b W : Z) : 0 < a - b < W -> a mod W <> b mod W.
Proof.
  intros H E.
  assert (H0 : (a - b) mod W = 0) by (rewrite Zminus_mod, E, Z.sub_diag; apply Zmod_0_l).
  rewrite Z.mod_small in H0 by lia. lia.
Qed.

Section PilotTraceProofs.
Context {F : Type} {ops : FloatOps F}.
Variable sym : Symbols.
Variable cfg : Config.
Variable inp : Inputs F.

Local Abbreviation U := (UeNum cfg).
Local Abbreviation P := (ClientUlPilotSymbols cfg).
Local Abbreviation W := (kFrameWnd sym).

Lemma shift_sc_length sc eq :
  length eq = Z.to_nat U -> length (shift_sc cfg inp sc eq) = Z.to_nat U.
Proof.
  intros H. unfold shift_sc, ue_pilot_col.
  rewrite length_map, map2_length; rewrite ?length_map, ?zrange_length; lia.
Qed.

Lemma reset_previous_frame_other f pilot r :
  r <> wrap64 (f - 1) mod W -> reset_previous_frame sym cfg f pilot r = pilot r.
Proof. intros H. unfold reset_previous_frame. now apply upd_other. Qed.

Lemma reset_previous_frame_zero f pilot s u :
  0 <= s < P -> 0 <= u < U ->
  reset_previous_frame sym cfg f pilot (wrap64 (f - 1) mod W) (s * U + u)
  = cx_zero.
Proof.
  intros Hs Hu. unfold reset_previous_frame. rewrite upd_same.
  replace (s * U + u) with (0 + Z.of_nat (Z.to_nat (s * U + u))) by nia.
  rewrite (write_list_inside cx_zero).
  - apply nth_repeat_same.
  - rewrite repeat_length. nia.
Qed.

(** One pilot subcarrier of a frame, seen from one accumulator. *)
Lemma run_pilot_task_entry f pilot t s u :
  pilot_task_ok cfg t -> is_reset_task t = false ->
  0 <= s -> 0 <= u < U ->
  run_pilot_task sym cfg inp f pilot t (f mod W) (s * U + u)
  = if pt_symbol_idx_ul t =? s
    then cx_add (pilot (f mod W) (s * U + u)) (contribution cfg inp t u)
    else pilot (f mod W) (s * U + u).
Proof.
  intros [Hidx Hlen] Hnr Hs Hu. unfold run_pilot_task, calc_phase_shift.
  unfold is_reset_task in Hnr. rewrite Hnr. rewrite upd_same.
  pose proof (shift_sc_length (pt_cur_sc_id t) _ Hlen) as Hsh.
  destruct (Z.eqb_spec (pt_symbol_idx_ul t) s) as [->|Hne].
  - replace (s * U + u) with (s * U + Z.of_nat (Z.to_nat u)) at 1 by lia.
    rewrite (write_list_inside cx_zero)
      by (rewrite map2_length; rewrite ?read_n_length; lia).
    rewrite (nth_map2 cx_add cx_zero cx_zero)
      by (rewrite ?read_n_length; lia).
    rewrite read_n_nth by lia. rewrite Z2Nat.id by lia. reflexivity.
  - apply write_list_outside.
    rewrite map2_length by (rewrite read_n_length; lia).
    rewrite read_n_length.
    destruct (Z_lt_ge_dec s (pt_symbol_idx_ul t)).
    + left. assert (s * U + U <= pt_symbol_idx_ul t * U) by nia. lia.
    + right. assert (pt_symbol_idx_ul t * U + U <= s * U) by nia. lia.
Qed.

Lemma calc_phase_shift_other f sidx sc eq pilot r :
  r <> f mod W -> r <> wrap64 (f - 1) mod W ->
  calc_phase_shift sym cfg inp f sidx sc eq pilot r = pilot r.
Proof.
  intros H1 H2. unfold calc_phase_shift. rewrite upd_other by assumption.
  destruct ((sidx =? 0) && (sc =? 0)); [|reflexivity].
  now apply reset_previous_frame_other.
Qed.

(** The tasks of frame [f] touch the slots of [f] and [f - 1] only. *)
Lemma run_pilot_tasks_other f tasks r :
  r <> f mod W -> r <> wrap64 (f - 1) mod W ->
  forall pilot, run_pilot_tasks sym cfg inp f tasks pilot r = pilot r.
Proof.
  intros H1 H2. unfold run_pilot_tasks.
  induction tasks as [|t tasks IH]; intros pilot; [reflexivity|].
  cbn [fold_left]. rewrite IH. unfold run_pilot_task.
  now apply calc_phase_shift_other.
Qed.

(** Tasks that do not reset leave every slot but the frame's own alone. *)
Lemma run_pilot_tasks_no_reset_other f tasks r :
  r <> f mod W ->
  Forall (fun t => is_reset_task t = false) tasks ->
  forall pilot, run_pilot_tasks sym cfg inp f tasks pilot r = pilot r.
Proof.
  intros H1 Hnr. unfold run_pilot_tasks.
  induction Hnr as [|t tasks Ht _ IH]; intros pilot; [reflexivity|].
  cbn [fold_left]. rewrite IH. unfold run_pilot_task, calc_phase_shift.
  unfold is_reset_task in Ht. rewrite Ht. now apply upd_other.
Qed.

(** Tasks that do not reset add their contributions, in order. *)
Lemma run_pilot_tasks_accumulate f tasks s u :
  0 <= s -> 0 <= u < U ->
  Forall (fun t => is_reset_task t = false) tasks ->
  Forall (pilot_task_ok cfg) tasks ->
  forall pilot,
    run_pilot_tasks sym cfg inp f tasks pilot (f mod W) (s * U + u)
    = accumulate cfg inp tasks s u (pilot (f mod W) (s * U + u)).
Proof.
  intros Hs Hu Hnr Hok. unfold run_pilot_tasks, accumulate.
  induction tasks as [|t tasks IH]; intros pilot; [reflexivity|].
  inversion Hnr as [|? ? Ht Hnr']; subst. inversion Hok as [|? ? Ho Hok']; subst.
  cbn [fold_left]. rewrite IH by assumption.
  now rewrite run_pilot_task_entry.
Qed.

(** The first task of a frame, seen from an accumulator of the frame's own
    slot: [x] is what the accumulator holds once the previous frame's slot
    has been reset. *)
Lemma run_reset_task_entry f pilot t s u x :
  pilot_task_ok cfg t -> is_reset_task t = true ->
  0 <= s < P -> 0 <= u < U ->
  reset_previous_frame sym cfg f pilot (f mod W) (s * U + u) = x ->
  run_pilot_task sym cfg inp f pilot t (f mod W) (s * U + u)
  = if pt_symbol_idx_ul t =? s
    then cx_add x (contribution cfg inp t u)
    else x.
Proof.
  intros [Hidx Hlen] Hr Hs Hu Hz. unfold run_pilot_task, calc_phase_shift.
  unfold is_reset_task in Hr. rewrite Hr. rewrite upd_same.
  pose proof (shift_sc_length (pt_cur_sc_id t) _ Hlen) as Hsh.
  destruct (Z.eqb_spec (pt_symbol_idx_ul t) s) as [->|Hne].
  - replace (s * U + u) with (s * U + Z.of_nat (Z.to_nat u)) at 1 by lia.
    rewrite (write_list_inside cx_zero)
      by (rewrite map2_length; rewrite ?read_n_length; lia).
    rewrite (nth_map2 cx_add cx_zero cx_zero)
      by (rewrite ?read_n_length; lia).
    rewrite read_n_nth by lia. rewrite Z2Nat.id by lia. now rewrite Hz.
  - rewrite write_list_outside; [exact Hz|].
    rewrite map2_length by (rewrite read_n_length; lia).
    rewrite read_n_length.
    destruct (Z_lt_ge_dec s (pt_symbol_idx_ul t)).
    + left. assert (s * U + U <= pt_symbol_idx_ul t * U) by nia. lia.
    + right. assert (pt_symbol_idx_ul t * U + U <= s * U) by nia. lia.
Qed.

(** A frame adds its contributions to what its slot holds, when its first
    task resets another slot. *)
Lemma pilot_pass_from f tasks pilot s u :
  pilot_pass_ok cfg tasks ->
  0 <= s < P -> 0 <= u < U ->
  wrap64 (f - 1) mod W <> f mod W ->
  run_pilot_tasks sym cfg inp f tasks pilot (f mod W) (s * U + u)
  = accumulate cfg inp tasks s u (pilot (f mod W) (s * U + u)).
Proof.
  intros [Hshape Hok] Hs Hu Hne.
  destruct tasks as [|t rest]; [contradiction|].
  destruct Hshape as [Hr Hnr]. inversion Hok as [|? ? Ho Hok']; subst.
  unfold run_pilot_tasks. cbn [fold_left].
  fold (run_pilot_tasks sym cfg inp f rest (run_pilot_task sym cfg inp f pilot t)).
  rewrite run_pilot_tasks_accumulate by (assumption || lia).
  unfold accumulate at 2. cbn [fold_left].
  fold (accumulate cfg inp rest s u
          (if pt_symbol_idx_ul t =? s
           then cx_add (pilot (f mod W) (s * U + u)) (contribution cfg inp t u)
           else pilot (f mod W) (s * U + u))).
  f_equal. apply run_reset_task_entry; try assumption.
  rewrite reset_previous_frame_other by (now apply not_eq_sym). reflexivity.
Qed.

(** A frame whose slot holds zeros, or is the slot its first task resets,
    ends its pilot symbols with its own contributions only. *)
Lemma pilot_pass_from_zero f tasks pilot s u :
  pilot_pass_ok cfg tasks ->
  0 <= s < P -> 0 <= u < U ->
  (wrap64 (f - 1) mod W = f mod W
   \/ pilot (f mod W) (s * U + u) = cx_zero) ->
  run_pilot_tasks sym cfg inp f tasks pilot (f mod W) (s * U + u)
  = accumulate cfg inp tasks s u cx_zero.
Proof.
  intros [Hshape Hok] Hs Hu Hz.
  destruct tasks as [|t rest]; [contradiction|].
  destruct Hshape as [Hr Hnr]. inversion Hok as [|? ? Ho Hok']; subst.
  unfold run_pilot_tasks. cbn [fold_left].
  fold (run_pilot_tasks sym cfg inp f rest (run_pilot_task sym cfg inp f pilot t)).
  rewrite run_pilot_tasks_accumulate by (assumption || lia).
  unfold accumulate at 2. cbn [fold_left].
  fold (accumulate cfg inp rest s u
          (if pt_symbol_idx_ul t =? s
           then cx_add cx_zero (contribution cfg inp t u) else cx_zero)).
  f_equal. apply run_reset_task_entry; try assumption.
  destruct Hz as [Hz|Hz].
  - rewrite <- Hz. now apply reset_previous_frame_zero.
  - destruct (Z.eq_dec (f mod W) (wrap64 (f - 1) mod W)) as [E|E].
    + rewrite E. now apply reset_previous_frame_zero.
    + now rewrite reset_previous_frame_other.
Qed.

(** The pilot symbols of a frame leave zeros in the previous frame's
    slot, when that is another slot. *)
Lemma pilot_pass_zeroes_previous f tasks pilot s u :
  pilot_pass_ok cfg tasks ->
  0 <= s < P -> 0 <= u < U ->
  wrap64 (f - 1) mod W <> f mod W ->
  run_pilot_tasks sym cfg inp f tasks pilot (wrap64 (f - 1) mod W) (s * U + u)
  = cx_zero.
Proof.
  intros [Hshape Hok] Hs Hu Hne.
  destruct tasks as [|t rest]; [contradiction|].
  destruct Hshape as [Hr Hnr].
  unfold run_pilot_tasks. cbn [fold_left].
  fold (run_pilot_tasks sym cfg inp f rest (run_pilot_task sym cfg inp f pilot t)).
  rewrite run_pilot_tasks_no_reset_other by assumption.
  unfold run_pilot_task, calc_phase_shift.
  unfold is_reset_task in Hr. rewrite Hr.
  rewrite upd_other by assumption.
  now apply reset_previous_frame_zero.
Qed.

Lemma run_frames_app f l1 l2 pilot :
  run_frames sym cfg inp f (l1 ++ l2) pilot
  = run_frames sym cfg inp (f + Z.of_nat (length l1)) l2
               (run_frames sym cfg inp f l1 pilot).
Proof.
  revert f pilot. induction l1 as [|p l1 IH]; intros f pilot.
  - cbn. f_equal. lia.
  - cbn [app run_frames length]. rewrite IH. f_equal. lia.
Qed.

(** Frames whose slots are others leave a slot as it is. *)
Lemma run_frames_other r passes :
  forall f pilot,
    (forall k, 0 <= k < Z.of_nat (length passes) ->
       r <> (f + k) mod W /\ r <> wrap64 (f + k - 1) mod W) ->
    run_frames sym cfg inp f passes pilot r = pilot r.
Proof.
  induction passes as [|p passes IH]; intros f pilot H; [reflexivity|].
  cbn [run_frames]. rewrite IH.
  - destruct (H 0) as [H1 H2]; [cbn [length]; lia|].
    replace (f + 0) with f in * by lia.
    now apply run_pilot_tasks_other.
  - intros k Hk. destruct (H (k + 1)) as [H1 H2]; [cbn [length]; lia|].
    replace (f + 1 + k) with (f + (k + 1)) by lia. auto.
Qed.

(** C1, amended.  The first pilot task of a frame zeroes the previous
    frame's slot.  After the pilot symbols of [kFrameWnd] consecutive frames
    [first], ..., [N = first + kFrameWnd - 1], processed in order, each frame
    starting with its task for symbol 0 and subcarrier 0, the accumulator of
    every pilot symbol [s] and UE [u] in the slot of frame [N] holds the
    contributions of frame [N], added in order from zero, whatever the slot
    held before. *)
Theorem pilot_accumulator_after_window
        (first : Z) (passes : list (list (pilot_task F)))
        (last_pass : list (pilot_task F))
        (pilot : Z -> buf (complex_float F)) (s u : Z) :
  1 <= first -> first + kFrameWnd sym <= 2 ^ 64 ->
  Z.of_nat (length passes) = kFrameWnd sym - 1 ->
  Forall (pilot_pass_ok cfg) (passes ++ [last_pass]) ->
  0 <= s < ClientUlPilotSymbols cfg -> 0 <= u < UeNum cfg ->
  run_frames sym cfg inp first (passes ++ [last_pass]) pilot
             ((first + kFrameWnd sym - 1) mod kFrameWnd sym)
             (s * UeNum cfg + u)
  = accumulate cfg inp last_pass s u cx_zero.
Proof.
  intros Hf Hmax Hlen Hok Hs Hu.
  assert (HW : 0 < W) by lia.
  apply Forall_app in Hok. destruct Hok as [Hoks Hlast].
  inversion Hlast as [|? ? Hl _]; subst.
  rewrite run_frames_app. cbn [run_frames].
  replace (first + Z.of_nat (length passes)) with (first + W - 1) by lia.
  set (N := first + W - 1).
  apply pilot_pass_from_zero; try assumption.
  destruct passes as [|p0 mid].
  - left. cbn [length] in Hlen. assert (W = 1) by lia.
    replace W with 1 by lia. now rewrite !Z.mod_1_r.
  - right. cbn [run_frames]. cbn [length] in Hlen.
    inversion Hoks as [|? ? Hp0 Hmid]; subst.
    assert (Ew : forall f, 1 <= f < 2 ^ 64 -> wrap64 (f - 1) = f - 1).
    { intros f H. unfold wrap64. apply Z.mod_small. lia. }
    assert (Er : N mod W = wrap64 (first - 1) mod W).
    { rewrite Ew by lia. subst N.
      replace (first + W - 1) with (first - 1 + 1 * W) by lia.
      apply Z_mod_plus_full. }
    rewrite run_frames_other.
    + rewrite Er. apply pilot_pass_zeroes_previous; try assumption.
      rewrite Ew by lia. apply not_eq_sym, mod_neq. lia.
    + intros k Hk. rewrite Er, !Ew by lia. split.
      * apply not_eq_sym, mod_neq. lia.
      * apply not_eq_sym, mod_neq. lia.
Qed.
End PilotTraceProofs.

Lemma cx_sign_unit_pilot :
  cx_sign (cx_mul (mk_cx 1%R 0%R) (cx_conj (mk_cx 1%R 0%R))) = mk_cx 1%R 0%R.
Proof.
  assert (E : cx_mul (mk_cx 1%R 0%R) (cx_conj (mk_cx 1%R 0%R)) = mk_cx 1%R 0%R).
  { unfold cx_mul, cx_conj. cbn. f_equal; ring. }
  rewrite E. unfold cx_sign, cx_abs. cbn.
  replace (1 * 1 + 0 * 0)%R with 1%R by ring. rewrite sqrt_1.
  destruct (Req_dec_T 1 0) as [H|_]; [lra|]. f_equal; field.
Qed.

(** C1, as stated, fails.  With a window of 40 slots, frames 0 and 40 share
    slot 0.  Frame 0 adds the contribution of its pilot subcarrier; the first
    pilot task of frame 40 resets slot 39, not slot 0, and the accumulator
    read by frame 40 holds the contributions of both frames. *)
Lemma reset_ordering_counterexample :
  let cfg := sample_config 4 1 1 2 in
  let inp := sample_inputs (mk_cx 1%R 0%R) in
  let pass := [ {| pt_symbol_idx_ul := 0; pt_cur_sc_id := 0;
                   pt_mat_equaled := [mk_cx 1%R 0%R] |} ] in
  let after_frame_0 :=
    run_pilot_tasks sample_symbols cfg inp 0 pass (fun _ _ => cx_zero) in
  let after_frame_40 :=
    run_pilot_tasks sample_symbols cfg inp 40 pass after_frame_0 in
  0 mod kFrameWnd sample_symbols = 40 mod kFrameWnd sample_symbols
  /\ pilot_pass_ok cfg pass
  /\ after_frame_40 (40 mod kFrameWnd sample_symbols) 0
     <> accumulate cfg inp pass 0 0 cx_zero.
Proof.
  intros cfg inp pass after_frame_0 after_frame_40.
  assert (Hok : pilot_pass_ok cfg pass).
  { split.
    - split; [reflexivity|constructor].
    - constructor; [|constructor]. split; [cbn; lia|reflexivity]. }
  split; [reflexivity|]. split; [exact Hok|].
  subst after_frame_40 after_frame_0.
  assert (Hs : 0 <= 0 < ClientUlPilotSymbols cfg) by (cbn; lia).
  assert (Hu : 0 <= 0 < UeNum cfg) by (cbn; lia).
  assert (H40 : wrap64 (40 - 1) mod kFrameWnd sample_symbols
                <> 40 mod kFrameWnd sample_symbols)
    by (vm_compute; discriminate).
  assert (H0 : wrap64 (0 - 1) mod kFrameWnd sample_symbols
               <> 0 mod kFrameWnd sample_symbols)
    by (vm_compute; discriminate).
  pose proof (pilot_pass_from sample_symbols cfg inp 40 pass
                (run_pilot_tasks sample_symbols cfg inp 0 pass
                                 (fun _ _ => cx_zero))
                0 0 Hok Hs Hu H40) as E40.
  pose proof (pilot_pass_from sample_symbols cfg inp 0 pass
                (fun _ _ => cx_zero) 0 0 Hok Hs Hu H0) as E0.
  change (0 * UeNum cfg + 0) with 0 in E40, E0.
  rewrite E40.
  change (40 mod kFrameWnd sample_symbols) with (0 mod kFrameWnd sample_symbols).
  rewrite E0.
  unfold accumulate, pass. cbn [fold_left pt_symbol_idx_ul Z.eqb].
  unfold contribution, shift_sc, ue_pilot_col. cbn.
  change (Pos.to_nat 1) with 1%nat. cbn.
  pose proof cx_sign_unit_pilot as Esign.
  change (@float_arith R R_FloatOps) with R_FloatArith in Esign.
  rewrite Esign. unfold cx_add. cbn.
  intros H. injection H as H1 H2. lra.
Qed.


Lemma pilot_accumulator_after_window_witness :
  let cfg := sample_config 4 1 1 2 in
  let inp := sample_inputs (mk_cx 1%R 0%R) in
  let pass := [ {| pt_symbol_idx_ul := 0; pt_cur_sc_id := 0;
                   pt_mat_equaled := [mk_cx 1%R 0%R] |} ] in
  run_frames sample_symbols cfg inp 1 (repeat pass 39 ++ [pass])
             (fun _ _ => mk_cx 1%R 1%R) 0 0
  = accumulate cfg inp pass 0 0 cx_zero.
Proof.
  intros cfg inp pass.
  assert (Hok : pilot_pass_ok cfg pass).
  { split.
    - split; [reflexivity|constructor].
    - constructor; [|constructor]. split; [cbn; lia|reflexivity]. }
  apply (pilot_accumulator_after_window sample_symbols cfg inp 1
           (repeat pass 39) pass (fun _ _ => mk_cx 1%R 1%R) 0 0).
  - lia.
  - cbn. lia.
  - rewrite repeat_length. reflexivity.
  - apply Forall_app. split.
    + apply Forall_forall. intros p Hp. apply repeat_spec in Hp. now subst.
    + constructor; [exact Hok|constructor].
  - cbn. lia.
  - cbn. lia.
Defined.

(** ** Total correctness rules *)

Lemma wp_ret {St A} (a : A) (st : St) (Q : A -> St -> Prop) :
  Q a st -> wp (ret a) st Q.
Proof. intros H. exists a, st. split; [reflexivity|assumption]. Qed.

Lemma wp_bind {St A B} (m : M St A) (k : A -> M St B) (st : St)
      (Q : B -> St -> Prop) :
  wp m st (fun a st' => wp (k a) st' Q) -> wp (bind m k) st Q.
Proof.
  intros (a & st1 & E & b & st2 & E2 & HQ).
  exists b, st2. split; [|assumption]. now rewrite (bind_ok _ _ _ _ _ E).
Qed.

Lemma wp_modify {St} (f : St -> St) (st : St) (Q : unit -> St -> Prop) :
  Q tt (f st) -> wp (modify f) st Q.
Proof. intros H. exists tt, (f st). split; [reflexivity|assumption]. Qed.

Lemma wp_get {St} (st : St) (Q : St -> St -> Prop) : Q st st -> wp get st Q.
Proof. intros H. exists st, st. split; [reflexivity|assumption]. Qed.

Lemma wp_gets {St A} (f : St -> A) (st : St) (Q : A -> St -> Prop) :
  Q (f st) st -> wp (gets f) st Q.
Proof. intros H. exists (f st), st. split; [reflexivity|assumption]. Qed.

Lemma wp_conseq {St A} (m : M St A) (st : St) (Q Q' : A -> St -> Prop) :
  wp m st Q -> (forall a st', Q a st' -> Q' a st') -> wp m st Q'.
Proof. intros (a & st' & E & H) HQ. exists a, st'. auto. Qed.

Lemma wp_repeat {St} (Inv : nat -> St -> Prop) (n : nat)
      (f : nat -> M St unit) (st : St) :
  Inv O st ->
  (forall k st1, (k < n)%nat -> Inv k st1 ->
     wp (f k) st1 (fun _ st2 => Inv (S k) st2)) ->
  wp (repeat_m n f) st (fun _ st' => Inv n st').
Proof.
  intros H0 Hstep.
  destruct (repeat_m_inv Inv n f st H0) as (st' & E & I).
  - intros k st1 Hk Ik. destruct (Hstep k st1 Hk Ik) as ([] & st2 & E2 & I2).
    eauto.
  - exists tt, st'. auto.
Qed.

(** A loop with a positive step, with an invariant indexed by the number of
    iterations done. *)
Lemma wp_for {St} (Inv : nat -> St -> Prop) (start stop step : Z)
      (body : Z -> M St unit) (st : St) :
  0 < step ->
  Inv O st ->
  (forall k st1, (k < iterations start stop step)%nat -> Inv k st1 ->
     wp (body (start + Z.of_nat k * step)) st1 (fun _ st2 => Inv (S k) st2)) ->
  wp (for_ start stop step body) st
     (fun _ st' => Inv (iterations start stop step) st').
Proof.
  intros Hs H0 Hstep. unfold wp. rewrite for_repeat by assumption.
  now apply wp_repeat.
Qed.

(** A loop whose body keeps a relation to the initial state. *)
Lemma wp_for_keep {St} (R : St -> Prop) (start stop step : Z)
      (body : Z -> M St unit) (st : St) :
  0 < step ->
  R st ->
  (forall i st1, R st1 -> wp (body i) st1 (fun _ st2 => R st2)) ->
  wp (for_ start stop step body) st (fun _ st' => R st').
Proof.
  intros Hs H0 Hstep.
  apply (wp_for (fun _ => R)); auto.
Qed.
Lemma gather_stage_total {T} (sym : Symbols) (cfg : Config)
      (data_buf : buf T) (base_sc_id i : Z) (gbuf : buf T) :
  (AVX512F sym = true -> simd_guard sym cfg = true -> BsAntNum cfg mod 8 = 0) ->
  exists g, gather_stage sym cfg data_buf base_sc_id i gbuf = Ok g.
Proof.
  intros Hfit. unfold gather_stage.
  destruct (simd_guard sym cfg) eqn:G.
  - unfold simd_guard in G. apply andb_prop in G. destruct G as [G Hpt].
    apply andb_prop in G. destruct G as [_ H4]. apply Z.eqb_eq in H4.
    assert (Hpass : forall lanes rx s0, 0 < lanes -> BsAntNum cfg mod lanes = 0 ->
              (forall src j, length (rx src j) = Z.to_nat lanes) ->
              exists s', simd_pass (kTransposeBlockSize sym) (BsAntNum cfg) lanes rx
                           {| g_src := s0; g_dst := 0; g_buf := gbuf |}
                         = Ok (tt, s')).
    { intros lanes rx s0 Hl Hdiv Hlen.
      destruct (Z_le_gt_dec (BsAntNum cfg) 0) as [HB|HB].
      - eexists. now apply simd_pass_empty.
      - apply Z.mod_divide in Hdiv; [|lia]. destruct Hdiv as [m Hm].
        destruct (simd_pass_spec (kTransposeBlockSize sym) (BsAntNum cfg)
                    (data_buf 0) lanes m rx s0 gbuf) as (s' & E & _);
          [lia|nia|assumption|assumption|].
        now exists s'. }
    destruct (AVX512F sym).
    + rewrite gather_avx512_pass.
      edestruct Hpass as (s' & E); [| |intros src j|rewrite E; eauto].
      * lia.
      * now apply Hfit.
      * destruct (kTransposeBlockSize sym =? 1);
          [apply read_n_length|apply read_strided_length].
    + rewrite gather_avx2_pass.
      edestruct Hpass as (s' & E); [| |intros src j|rewrite E; eauto].
      * lia.
      * assumption.
      * apply read_strided_length.
  - destruct (gather_scalar_spec sym cfg data_buf base_sc_id i gbuf)
      as (s' & E & _).
    rewrite E. eauto.
Qed.

(** ** [Launch] with an unsupported modulation order *)

Section LaunchProofs.
Context {F : Type} {ops : FloatOps F}.
Variable sym : Symbols.
Variable cfg : Config.
Variable inp : Inputs F.

Lemma wp_rdtsc (st : DoDemul F) (Q : Z -> DoDemul F -> Prop) :
  Q (WorkerRdtsc inp (tsc_reads_ st)) (set_tsc_reads_ (S (tsc_reads_ st)) st) ->
  wp (GetTime_WorkerRdtsc inp) st Q.
Proof. intros H. eexists _, _. split; [reflexivity|exact H]. Qed.

Ltac wp_step :=
  first [ apply wp_bind | apply wp_rdtsc | apply wp_get | apply wp_gets
        | apply wp_modify | apply wp_ret ]; cbv beta.

Lemma phase_track_same_output frame_id symbol_idx_ul cur_sc_id total off
      (st0 st1 : DoDemul F) :
  same_output st0 st1 ->
  wp (phase_track sym cfg inp frame_id symbol_idx_ul cur_sc_id total off) st1
     (fun _ st2 => same_output st0 st2).
Proof.
  intros H. unfold phase_track, write_mat_equaled.
  destruct (symbol_idx_ul <? ClientUlPilotSymbols cfg).
  - repeat wp_step. exact H.
  - destruct (0 <? ClientUlPilotSymbols cfg); [|wp_step; exact H].
    destruct (symbol_idx_ul =? ClientUlPilotSymbols cfg);
      [destruct (kPrintPhyStats sym && (cur_sc_id =? 0))|];
      repeat wp_step; destruct (kExportConstellation sym); exact H.
Qed.

Lemma equalize_sc_same_output frame_id symbol_idx_ul total frame_slot
      base_sc_id i j (st0 st1 : DoDemul F) :
  same_output st0 st1 ->
  wp (equalize_sc sym cfg inp frame_id symbol_idx_ul total frame_slot
                  base_sc_id i j) st1
     (fun _ st2 => same_output st0 st2).
Proof.
  intros H. unfold equalize_sc, write_mat_equaled.
  do 5 wp_step. wp_step. wp_step.
  eapply wp_conseq.
  - apply phase_track_same_output.
    destruct (kExportConstellation sym); exact H.
  - cbv beta. intros _ st2 H2. unfold add_task_duration, incr_task_count.
    repeat wp_step. exact H2.
Qed.

Lemma gather_step_same_output total base_sc_id i (st0 st1 : DoDemul F) :
  (AVX512F sym = true -> simd_guard sym cfg = true -> BsAntNum cfg mod 8 = 0) ->
  same_output st0 st1 ->
  wp (gather_step sym cfg inp total base_sc_id i) st1
     (fun _ st2 => same_output st0 st2).
Proof.
  intros Hfit H. unfold gather_step, add_task_duration.
  do 4 wp_step.
  destruct (gather_stage_total sym cfg (data_buffer_ inp total) base_sc_id i
              (data_gather_buffer_ (set_tsc_reads_ (S (tsc_reads_ st1)) st1)) Hfit)
    as (g & ->).
  repeat wp_step. exact H.
Qed.

Lemma equalize_block_same_output frame_id symbol_idx_ul total frame_slot
      base_sc_id (st0 st1 : DoDemul F) :
  (AVX512F sym = true -> simd_guard sym cfg = true -> BsAntNum cfg mod 8 = 0) ->
  same_output st0 st1 ->
  wp (equalize_block sym cfg inp frame_id symbol_idx_ul total frame_slot
                     base_sc_id) st1
     (fun _ st2 => same_output st0 st2).
Proof.
  intros Hfit H. unfold equalize_block.
  apply wp_for_keep; [reflexivity|exact H|].
  intros i st2 H2. wp_step.
  eapply wp_conseq;
    [apply (gather_step_same_output total base_sc_id i st0 st2 Hfit H2)|].
  cbv beta. intros _ st3 H3.
  apply wp_for_keep; [reflexivity|exact H3|].
  intros j st4 H4. apply equalize_sc_same_output. exact H4.
Qed.

Lemma transpose_loop_total (src : buf (complex_float F)) max_sc l :
  exists l', transpose_loop cfg src max_sc l = Ok (tt, l').
Proof.
  destruct (wp_for_keep (fun _ => True) 0 (max_sc / 4) 1
              (fun j => modify (fun l : transpose_locals (complex_float F) =>
                 {| t_equal_t_ptr := t_equal_t_ptr l + 4;
                    t_equal_ptr := t_equal_ptr l + UeNum cfg * 4;
                    t_buf := write_list (t_buf l) (t_equal_t_ptr l)
                               (read_strided src (t_equal_ptr l) (UeNum cfg) 4) |}))
              l) as ([] & l' & E & _).
  - reflexivity.
  - exact I.
  - intros i l1 _. now apply wp_modify.
  - exists l'. exact E.
Qed.

Lemma demod_ue_unsupported frame_slot symbol_idx_ul total base_sc_id max_sc i
      (st0 st1 : DoDemul F) (n : nat) :
  unsupported_modulation sym cfg ->
  same_equalization st0 st1 /\ demod_buffers_ st1 = demod_buffers_ st0
  /\ stdout_ st1 = repeat (unsupported_message cfg) n ++ stdout_ st0 ->
  wp (demod_ue sym cfg inp frame_slot symbol_idx_ul total base_sc_id max_sc i)
     st1
     (fun _ st2 =>
        same_equalization st0 st2 /\ demod_buffers_ st2 = demod_buffers_ st0
        /\ stdout_ st2 = repeat (unsupported_message cfg) (S n) ++ stdout_ st0).
Proof.
  intros (H2 & H4 & H6) (He & Hd & Hs). unfold demod_ue.
  wp_step. wp_step.
  match goal with
  | |- context [transpose_loop cfg ?src ?m ?l] =>
      destruct (transpose_loop_total src m l) as (l' & ->)
  end.
  wp_step. wp_step.
  destruct (Z.eqb_spec (ModOrderBits cfg) (kQpsk sym)); [contradiction|].
  destruct (Z.eqb_spec (ModOrderBits cfg) (kQaM16 sym)); [contradiction|].
  destruct (Z.eqb_spec (ModOrderBits cfg) (kQaM64 sym)); [contradiction|].
  wp_step. split; [exact He|]. split; [exact Hd|].
  cbn [stdout_ set_stdout_ set_equaled_buffer_temp_transposed_ repeat app].
  now rewrite Hs.
Qed.

Lemma same_equalization_refl (st : DoDemul F) : same_equalization st st.
Proof. unfold same_equalization. tauto. Qed.

Lemma demod_block_unsupported frame_slot symbol_idx_ul total base_sc_id
      (st1 : DoDemul F) :
  unsupported_modulation sym cfg ->
  wp (demod_block sym cfg inp frame_slot symbol_idx_ul total base_sc_id) st1
     (fun _ st2 =>
        same_equalization st1 st2 /\ demod_buffers_ st2 = demod_buffers_ st1
        /\ stdout_ st2
           = repeat (unsupported_message cfg) (Z.to_nat (UeNum cfg))
             ++ stdout_ st1).
Proof.
  intros Hun. unfold demod_block. rewrite <- iterations_unit.
  apply (wp_for (fun k st2 =>
           same_equalization st1 st2 /\ demod_buffers_ st2 = demod_buffers_ st1
           /\ stdout_ st2 = repeat (unsupported_message cfg) k ++ stdout_ st1)).
  - reflexivity.
  - split; [apply same_equalization_refl|]. split; reflexivity.
  - intros k st2 _ H. now apply demod_ue_unsupported.
Qed.

(** An unsupported modulation order: [Launch] runs to its end. *)
Lemma Launch_unsupported (tag : Z) (st : DoDemul F) :
  unsupported_modulation sym cfg ->
  NDEBUG sym = true \/ launch_assertion cfg (sc_id_ inp tag) = true ->
  (AVX512F sym = true -> simd_guard sym cfg = true -> BsAntNum cfg mod 8 = 0) ->
  wp (Launch sym cfg inp tag) st
     (fun ev st2 =>
        ev = {| event_type_ := kDemul; tags_ := tag |}
        /\ demod_buffers_ st2 = demod_buffers_ st
        /\ stdout_ st2
           = repeat (unsupported_message cfg) (Z.to_nat (UeNum cfg))
             ++ stdout_ st
        /\ exists st1,
             equalize_block sym cfg inp (frame_id_ inp tag)
               (GetULSymbolIdx cfg (symbol_id_ inp tag))
               (GetTotalDataSymbolIdxUl cfg (frame_id_ inp tag)
                  (GetULSymbolIdx cfg (symbol_id_ inp tag)))
               (frame_id_ inp tag mod kFrameWnd sym) (sc_id_ inp tag)
               (set_tsc_reads_ (S (tsc_reads_ st)) st) = Ok (tt, st1)
             /\ same_equalization st1 st2).
Proof.
  intros Hun Has Hfit. unfold Launch.
  wp_step. wp_step. wp_step.
  apply (wp_conseq _ _ (fun _ st' => st' = set_tsc_reads_ (S (tsc_reads_ st)) st)).
  { destruct (NDEBUG sym); [now apply wp_ret|].
    destruct Has as [Has|Has]; [discriminate|]. rewrite Has. now apply wp_ret. }
  intros _ st0 ->. wp_step.
  match goal with
  | |- wp (equalize_block _ _ _ ?a ?b ?c ?d ?e) ?s _ =>
      destruct (equalize_block_same_output a b c d e st s Hfit)
        as ([] & st1 & E1 & Hd1 & Hs1); [split; reflexivity|]
  end.
  exists tt, st1. split; [exact E1|].
  wp_step. wp_step. wp_step.
  eapply wp_conseq; [now apply demod_block_unsupported|].
  cbv beta. intros _ st2 (He & Hd & Hs).
  unfold add_task_duration. repeat wp_step.
  cbn in Hd1, Hs1, Hd, Hs.
  split; [reflexivity|]. split; [cbn; congruence|].
  split; [cbn; congruence|].
  exists st1. split; [exact E1|].
  destruct He as (H1 & H2 & H3 & H4 & H5 & H6 & H7 & H8).
  unfold same_equalization. cbn. auto 10.
Qed.
End LaunchProofs.

Lemma UeWorker_DoDemul_unsupported {F : Type} (sym : Symbols) (config_ : Config)
      (env : UeWorker.Env F) (tid_ tag : Z) (st : UeWorker.State) :
  unsupported_modulation sym config_ ->
  UeWorker.DoDemul sym config_ env tid_ tag st
  = if UeWorker.enqueue_succeeds env
    then Ok (tt, {| UeWorker.demod_buffer_ := UeWorker.demod_buffer_ st;
                    UeWorker.notify_queue_ :=
                      {| event_type_ := kDemul; tags_ := tag |}
                      :: UeWorker.notify_queue_ st;
                    UeWorker.stdout_ :=
                      UeWorker.unsupported_message config_ tid_
                      :: UeWorker.stdout_ st |})
    else Err RtAssertFail.
Proof.
  intros (H2 & H4 & H6). unfold UeWorker.DoDemul.
  destruct (Z.eqb_spec (ModOrderBits config_) (kQpsk sym)); [contradiction|].
  destruct (Z.eqb_spec (ModOrderBits config_) (kQaM16 sym)); [contradiction|].
  destruct (Z.eqb_spec (ModOrderBits config_) (kQaM64 sym)); [contradiction|].
  unfold bind, modify, raise.
  destruct (UeWorker.enqueue_succeeds env); reflexivity.
Qed.

(** C3, as stated, fails: with a modulation order of 3 bits, which is none
    of QPSK (2), 16-QAM (4) and 64-QAM (6), [Launch] does not stop with an
    error; it returns its completion event. *)
Lemma unsupported_modulation_not_fatal :
  unsupported_modulation sample_symbols (sample_config 4 2 0 3)
  /\ exists st' : DoDemul R,
       Launch sample_symbols (sample_config 4 2 0 3) (sample_inputs cx_zero) 0
              sample_state
       = Ok ({| event_type_ := kDemul; tags_ := 0 |}, st').
Proof.
  assert (Hun : unsupported_modulation sample_symbols (sample_config 4 2 0 3)).
  { unfold unsupported_modulation. cbn. lia. }
  split; [exact Hun|].
  destruct (Launch_unsupported sample_symbols (sample_config 4 2 0 3)
              (sample_inputs cx_zero) 0 (sample_state (F := R)) Hun)
    as (ev & st' & E & -> & _).
  - right. reflexivity.
  - discriminate.
  - exists st'. exact E.
Qed.

(** C3, amended.  With a modulation order that is none of QPSK, 16-QAM and
    64-QAM the task prints its message once per UE and goes on: [Launch]
    returns the [kDemul] event of the task and leaves the LLR buffers as they
    were, neither zero-filled nor partially written; [UeWorker::DoDemul]
    does the same and enqueues its completion event. *)
Theorem unsupported_modulation_logs_and_completes
        {F : Type} {ops : FloatOps F}
        (sym : Symbols) (cfg : Config) (inp : Inputs F)
        (tag : Z) (st : DoDemul F) :
  unsupported_modulation sym cfg ->
  NDEBUG sym = true \/ launch_assertion cfg (sc_id_ inp tag) = true ->
  (AVX512F sym = true -> simd_guard sym cfg = true -> BsAntNum cfg mod 8 = 0) ->
  (exists st2,
     Launch sym cfg inp tag st
     = Ok ({| event_type_ := kDemul; tags_ := tag |}, st2)
     /\ demod_buffers_ st2 = demod_buffers_ st
     /\ stdout_ st2
        = repeat (unsupported_message cfg) (Z.to_nat (UeNum cfg)) ++ stdout_ st)
  /\ (forall (env : UeWorker.Env F) (tid_ utag : Z) (ust : UeWorker.State),
        UeWorker.enqueue_succeeds env = true ->
        exists ust',
          UeWorker.DoDemul sym cfg env tid_ utag ust = Ok (tt, ust')
          /\ UeWorker.demod_buffer_ ust' = UeWorker.demod_buffer_ ust
          /\ UeWorker.notify_queue_ ust'
             = {| event_type_ := kDemul; tags_ := utag |}
               :: UeWorker.notify_queue_ ust
          /\ UeWorker.stdout_ ust'
             = UeWorker.unsupported_message cfg tid_ :: UeWorker.stdout_ ust).
Proof.
  intros Hun Has Hfit. split.
  - destruct (Launch_unsupported sym cfg inp tag st Hun Has Hfit)
      as (ev & st2 & E & -> & Hd & Hs & _).
    exists st2. auto.
  - intros env tid_ utag ust Henq.
    rewrite (UeWorker_DoDemul_unsupported sym cfg env tid_ utag ust Hun), Henq.
    eexists. split; [reflexivity|]. cbn. auto.
Qed.

Lemma unsupported_modulation_logs_and_completes_witness :
  exists st2 : DoDemul R,
    Launch sample_symbols (sample_config 4 2 0 3) (sample_inputs cx_zero) 0
           sample_state
    = Ok ({| event_type_ := kDemul; tags_ := 0 |}, st2)
    /\ demod_buffers_ st2 = demod_buffers_ (sample_state (F := R)).
Proof.
  destruct (unsupported_modulation_logs_and_completes
              sample_symbols (sample_config 4 2 0 3) (sample_inputs cx_zero) 0
              (sample_state (F := R)))
    as [(st2 & E & Hd & _) _].
  - unfold unsupported_modulation. cbn. lia.
  - right. reflexivity.
  - discriminate.
  - exists st2. split; [exact E|exact Hd].
Defined.

(** C10.  With a modulation order that matches no kernel, [Launch] stores
    nothing into the LLR buffers, leaves in place what gather, equalization
    and phase tracking did ([st1] is the state at the end of the loop over
    cache lines), and returns the [kDemul] event with the tag of the task. *)
Theorem launch_unsupported_modulation
        {F : Type} {ops : FloatOps F}
        (sym : Symbols) (cfg : Config) (inp : Inputs F)
        (tag : Z) (st : DoDemul F) :
  unsupported_modulation sym cfg ->
  NDEBUG sym = true \/ launch_assertion cfg (sc_id_ inp tag) = true ->
  (AVX512F sym = true -> simd_guard sym cfg = true -> BsAntNum cfg mod 8 = 0) ->
  exists st1 st2,
    equalize_block sym cfg inp (frame_id_ inp tag)
      (GetULSymbolIdx cfg (symbol_id_ inp tag))
      (GetTotalDataSymbolIdxUl cfg (frame_id_ inp tag)
         (GetULSymbolIdx cfg (symbol_id_ inp tag)))
      (frame_id_ inp tag mod kFrameWnd sym) (sc_id_ inp tag)
      (set_tsc_reads_ (S (tsc_reads_ st)) st) = Ok (tt, st1)
    /\ Launch sym cfg inp tag st
       = Ok ({| event_type_ := kDemul; tags_ := tag |}, st2)
    /\ demod_buffers_ st2 = demod_buffers_ st
    /\ same_equalization st1 st2.
Proof.
  intros Hun Has Hfit.
  destruct (Launch_unsupported sym cfg inp tag st Hun Has Hfit)
    as (ev & st2 & E & -> & Hd & _ & st1 & E1 & He).
  exists st1, st2. auto.
Qed.

Lemma launch_unsupported_modulation_witness :
  exists st2 : DoDemul R,
    Launch sample_symbols (sample_config 4 2 0 3) (sample_inputs cx_zero) 8
           sample_state
    = Ok ({| event_type_ := kDemul; tags_ := 8 |}, st2)
    /\ demod_buffers_ st2 = demod_buffers_ (sample_state (F := R)).
Proof.
  destruct (launch_unsupported_modulation
              sample_symbols (sample_config 4 2 0 3) (sample_inputs cx_zero) 8
              (sample_state (F := R)))
    as (st1 & st2 & _ & E & Hd & _).
  - unfold unsupported_modulation. cbn. lia.
  - right. reflexivity.
  - discriminate.
  - exists st2. split; [exact E|exact Hd].
Defined.

(** ** The export flag *)

(** C8.  Millipede, built with [USE_LDPC] and [EXPORT_CONSTELLATION]: the
    equalized symbols, all equal to 4, go to the export buffer, and the
    soft demodulation reads the scratch buffer, which the task never wrote:
    the LLR bytes are those of the zeros the scratch buffer held.  Built
    without [EXPORT_CONSTELLATION], the same task gives the LLR bytes of the
    equalized symbols. *)
Theorem millipede_export_changes_llr :
  Millipede.exported
    (Millipede.launch (millipede_flags true) millipede_config
                      millipede_inputs 0 millipede_state) 0 0 2
  = Ok [mk_cx 4 0; mk_cx 4 0]
  /\ Millipede.soft_llr
       (Millipede.launch (millipede_flags true) millipede_config
                         millipede_inputs 0 millipede_state) 0 0 8
     = Ok [0; 0; 0; 0; 0; 0; 0; 0]
  /\ Millipede.soft_llr
       (Millipede.launch (millipede_flags false) millipede_config
                         millipede_inputs 0 millipede_state) 0 0 8
     = Ok [4; 0; 4; 0; 4; 0; 4; 0].
Proof. repeat split; vm_compute; reflexivity. Qed.

Lemma rel_res_bind {St A B} (R R' : St -> St -> Prop)
      (m1 m2 : M St A) (k1 k2 : A -> M St B) (s1 s2 : St) :
  rel_res R (m1 s1) (m2 s2) ->
  (forall a t1 t2, R t1 t2 -> rel_res R' (k1 a t1) (k2 a t2)) ->
  rel_res R' (bind m1 k1 s1) (bind m2 k2 s2).
Proof.
  intros H Hk. unfold bind.
  destruct (m1 s1) as [[a1 t1]|e1], (m2 s2) as [[a2 t2]|e2]; cbn in H;
    try contradiction.
  - destruct H as [-> H]. now apply Hk.
  - exact H.
Qed.

Lemma rel_res_repeat {St} (Inv : nat -> St -> St -> Prop) (n : nat) :
  forall (f g : nat -> M St unit) (s1 s2 : St),
    Inv O s1 s2 ->
    (forall k t1 t2, (k < n)%nat -> Inv k t1 t2 ->
       rel_res (Inv (S k)) (f k t1) (g k t2)) ->
    rel_res (Inv n) (repeat_m n f s1) (repeat_m n g s2).
Proof.
  revert Inv. induction n as [|n IH]; intros Inv f g s1 s2 H0 Hstep.
  - cbn. auto.
  - rewrite !repeat_m_S.
    apply (rel_res_bind (Inv 1%nat)).
    + apply Hstep; [lia|assumption].
    + intros [] t1 t2 H1.
      apply (IH (fun k => Inv (S k))); [assumption|].
      intros k u1 u2 Hk. apply Hstep. lia.
Qed.

Lemma rel_res_for {St} (Inv : nat -> St -> St -> Prop) (start stop step : Z)
      (f g : Z -> M St unit) (s1 s2 : St) :
  0 < step ->
  Inv O s1 s2 ->
  (forall k t1 t2, (k < iterations start stop step)%nat -> Inv k t1 t2 ->
     rel_res (Inv (S k)) (f (start + Z.of_nat k * step) t1)
                          (g (start + Z.of_nat k * step) t2)) ->
  rel_res (Inv (iterations start stop step))
          (for_ start stop step f s1) (for_ start stop step g s2).
Proof.
  intros Hs H0 Hstep. rewrite !for_repeat by assumption.
  now apply rel_res_repeat.
Qed.

Lemma read_n_ext {T} (b b' : buf T) (n : nat) :
  forall off off',
    (forall k, (k < n)%nat -> b (off + Z.of_nat k) = b' (off' + Z.of_nat k)) ->
    read_n b off n = read_n b' off' n.
Proof.
  induction n as [|n IH]; intros off off' H; [reflexivity|].
  cbn [read_n]. f_equal.
  - specialize (H O ltac:(lia)). now rewrite !Z.add_0_r in H.
  - apply IH. intros k Hk. specialize (H (S k) ltac:(lia)).
    replace (off + 1 + Z.of_nat k) with (off + Z.of_nat (S k)) by lia.
    replace (off' + 1 + Z.of_nat k) with (off' + Z.of_nat (S k)) by lia.
    exact H.
Qed.

Lemma read_strided_ext {T} (b b' : buf T) (stride : Z) (n : nat) :
  forall off off',
    (forall k, (k < n)%nat ->
       b (off + Z.of_nat k * stride) = b' (off' + Z.of_nat k * stride)) ->
    read_strided b off stride n = read_strided b' off' stride n.
Proof.
  induction n as [|n IH]; intros off off' H; [reflexivity|].
  cbn [read_strided]. f_equal.
  - specialize (H O ltac:(lia)).
    now replace (off + Z.of_nat 0 * stride) with off in H by lia;
      replace (off' + Z.of_nat 0 * stride) with off' in H by lia.
  - apply IH. intros k Hk. specialize (H (S k) ltac:(lia)).
    replace (off + stride + Z.of_nat k * stride)
      with (off + Z.of_nat (S k) * stride) by lia.
    replace (off' + stride + Z.of_nat k * stride)
      with (off' + Z.of_nat (S k) * stride) by lia.
    exact H.
Qed.
Lemma rel_res_ret {St A} (R : St -> St -> Prop) (a : A) (s1 s2 : St) :
  R s1 s2 -> rel_res R (ret a s1) (ret a s2).
Proof. intros H. cbn. auto. Qed.

Lemma rel_res_modify {St} (R : St -> St -> Prop) (f g : St -> St) (s1 s2 : St) :
  R (f s1) (g s2) -> rel_res R (modify f s1) (modify g s2).
Proof. intros H. cbn. auto. Qed.

Lemma rel_res_weaken {St A} (R R' : St -> St -> Prop) (r1 r2 : result (A * St)) :
  rel_res R r1 r2 -> (forall s1 s2, R s1 s2 -> R' s1 s2) -> rel_res R' r1 r2.
Proof.
  intros H HR. destruct r1 as [[a1 s1]|e1], r2 as [[a2 s2]|e2]; cbn in *;
    try contradiction; intuition.
Qed.

Lemma bind_get {St B} (k : St -> M St B) (s : St) : bind get k s = k s s.
Proof. reflexivity. Qed.

Section ExportProofs.
Context {F : Type} {ops : FloatOps F}.
Variable sym : Symbols.
Variable cfg : Config.
Variable inp : Inputs F.
Variable total : Z.
Variable base : Z.

Local Abbreviation symE := (with_export true sym).
Local Abbreviation symT := (with_export false sym).
Local Abbreviation U := (UeNum cfg).
Local Abbreviation Um := (Z.of_nat (Z.to_nat (UeNum cfg))).
Local Abbreviation Rel := (export_rel cfg total base).

Lemma export_rel_rdtsc K (st_e st_t : DoDemul F) :
  Rel K st_e st_t ->
  rel_res (Rel K) (GetTime_WorkerRdtsc inp st_e) (GetTime_WorkerRdtsc inp st_t).
Proof.
  intros H. pose proof H as (H1 & H2 & H3 & H4 & H5 & H6 & H7 & H8 & H9).
  unfold GetTime_WorkerRdtsc. cbn. rewrite H8. split; [reflexivity|].
  unfold export_rel. cbn. tauto.
Qed.

(** Writing the same values at the two places of a row. *)
Lemma export_rel_write K K' z0 (v : list (complex_float F)) (st_e st_t : DoDemul F) :
  Rel K st_e st_t ->
  z0 <= K ->
  K' <= z0 + Z.of_nat (length v) \/ K' <= K ->
  rel_res (Rel K')
    (write_mat_equaled symE total (base * U + z0) v st_e)
    (write_mat_equaled symT total z0 v st_t).
Proof.
  intros (H1 & H2 & H3 & H4 & H5 & H6 & H7 & H8 & H9) Hz HK.
  unfold write_mat_equaled. apply rel_res_modify. cbn.
  unfold export_rel. cbn. repeat (split; [assumption|]).
  intros z Hzr. rewrite upd_same.
  destruct (Z_lt_ge_dec z z0) as [Hlt|Hge].
  - rewrite !write_list_outside by lia. apply H9. lia.
  - destruct (Z_lt_ge_dec z (z0 + Z.of_nat (length v))) as [Hin|Hout].
    + replace (base * U + z) with (base * U + z0 + Z.of_nat (Z.to_nat (z - z0)))
        by lia.
      replace z with (z0 + Z.of_nat (Z.to_nat (z - z0))) at 2 by lia.
      rewrite !(write_list_inside cx_zero) by lia. reflexivity.
    + rewrite !write_list_outside by lia. apply H9. lia.
Qed.

Lemma export_rel_read m K (st_e st_t : DoDemul F) :
  Rel K st_e st_t -> 0 <= m -> (m + 1) * Um <= K ->
  read_mat_equaled symE cfg total (base * U + m * U) st_e
  = read_mat_equaled symT cfg total (m * U) st_t.
Proof.
  intros (H1 & H2 & H3 & H4 & H5 & H6 & H7 & H8 & H9) Hm HK.
  unfold read_mat_equaled. cbn. apply read_n_ext. intros k Hk.
  rewrite <- Z.add_assoc. apply H9. nia.
Qed.

Lemma phase_track_export frame_id symbol_idx_ul cur_sc_id m K
      (st_e st_t : DoDemul F) :
  Rel K st_e st_t -> 0 <= m -> (m + 1) * Um <= K ->
  rel_res (Rel K)
    (phase_track symE cfg inp frame_id symbol_idx_ul cur_sc_id total
                 (base * U + m * U) st_e)
    (phase_track symT cfg inp frame_id symbol_idx_ul cur_sc_id total
                 (m * U) st_t).
Proof.
  intros H Hm HK. pose proof (export_rel_read m K st_e st_t H Hm HK) as Hread.
  pose proof H as (H1 & H2 & H3 & H4 & H5 & H6 & H7 & H8 & H9).
  unfold phase_track.
  change (kFrameWnd symE) with (kFrameWnd sym).
  change (kFrameWnd symT) with (kFrameWnd sym).
  change (kPrintPhyStats symE) with (kPrintPhyStats sym).
  change (kPrintPhyStats symT) with (kPrintPhyStats sym).
  destruct (symbol_idx_ul <? ClientUlPilotSymbols cfg).
  - unfold bind, gets. rewrite Hread. apply rel_res_modify.
    unfold export_rel. cbn. rewrite H3. tauto.
  - destruct (0 <? ClientUlPilotSymbols cfg); [|now apply rel_res_ret].
    rewrite !bind_get. cbv beta. rewrite Hread, H3.
    set (v := phase_correct cfg symbol_idx_ul _ _).
    eapply rel_res_bind.
    + apply (export_rel_write K K (m * U) v st_e st_t H); [nia|lia].
    + intros [] t_e t_t Ht.
      pose proof Ht as (T1 & T2 & T3 & T4 & T5 & T6 & T7 & T8 & T9).
      destruct (symbol_idx_ul =? ClientUlPilotSymbols cfg);
        [|now apply rel_res_ret].
      eapply rel_res_bind.
      * apply rel_res_modify. unfold export_rel. cbn. rewrite T6.
        instantiate (1 := Rel K). unfold export_rel. tauto.
      * intros [] u_e u_t Hu.
        pose proof Hu as (V1 & V2 & V3 & V4 & V5 & V6 & V7 & V8 & V9).
        destruct (kPrintPhyStats sym && (cur_sc_id =? 0));
          [|now apply rel_res_ret].
        apply rel_res_modify. unfold export_rel. cbn. rewrite V6. tauto.
Qed.

Lemma gather_stage_with_export (b : bool) (data_buf : buf (complex_float F))
      base_sc_id i g :
  gather_stage (with_export b sym) cfg data_buf base_sc_id i g
  = gather_stage sym cfg data_buf base_sc_id i g.
Proof. reflexivity. Qed.

Ltac rel_fields H :=
  let H1 := fresh in let H2 := fresh in let H3 := fresh in let H4 := fresh in
  let H5 := fresh in let H6 := fresh in let H7 := fresh in let H8 := fresh in
  let H9 := fresh in
  pose proof H as (H1 & H2 & H3 & H4 & H5 & H6 & H7 & H8 & H9);
  unfold export_rel; cbn;
  rewrite ?H1, ?H2, ?H3, ?H4, ?H5, ?H6, ?H7, ?H8;
  repeat (split; [reflexivity|]); exact H9.

Lemma add_task_duration_export k d K (st_e st_t : DoDemul F) :
  Rel K st_e st_t ->
  rel_res (Rel K) (add_task_duration k d st_e) (add_task_duration k d st_t).
Proof. intros H. apply rel_res_modify. rel_fields H. Qed.

Lemma incr_task_count_export K (st_e st_t : DoDemul F) :
  Rel K st_e st_t ->
  rel_res (Rel K) (incr_task_count st_e) (incr_task_count st_t).
Proof. intros H. apply rel_res_modify. rel_fields H. Qed.

Lemma mat_vec_length (A x : buf (complex_float F)) xoff rows cols :
  length (mat_vec A x xoff rows cols) = Z.to_nat rows.
Proof. unfold mat_vec. rewrite length_map, zrange_length. f_equal. lia. Qed.

Lemma equalize_sc_export frame_id symbol_idx_ul frame_slot i j
      (st_e st_t : DoDemul F) :
  0 <= i + j ->
  Rel ((i + j) * Um) st_e st_t ->
  rel_res (Rel ((i + j + 1) * Um))
    (equalize_sc symE cfg inp frame_id symbol_idx_ul total frame_slot base i j st_e)
    (equalize_sc symT cfg inp frame_id symbol_idx_ul total frame_slot base i j st_t).
Proof.
  intros Hm H. unfold equalize_sc, equal_off. cbn [kExportConstellation with_export].
  replace ((base + i + j) * U) with (base * U + (i + j) * U) by lia.
  replace ((base + i + j - base) * U) with ((i + j) * U) by (f_equal; lia).
  eapply rel_res_bind; [apply export_rel_rdtsc; exact H|].
  intros start_tsc2 t_e t_t Ht. rewrite !bind_get. cbv beta.
  pose proof Ht as (T1 & _). rewrite T1.
  eapply rel_res_bind.
  { apply (export_rel_write _ ((i + j + 1) * Um) ((i + j) * U) _ t_e t_t Ht).
    - nia.
    - rewrite mat_vec_length. lia. }
  intros [] u_e u_t Hu.
  eapply rel_res_bind.
  { apply (phase_track_export frame_id symbol_idx_ul (base + i + j) (i + j)
             _ u_e u_t Hu); lia. }
  intros [] v_e v_t Hv.
  eapply rel_res_bind; [apply export_rel_rdtsc; exact Hv|].
  intros start_tsc3 w_e w_t Hw.
  eapply rel_res_bind; [apply add_task_duration_export; exact Hw|].
  intros [] x_e x_t Hx. now apply incr_task_count_export.
Qed.

Lemma gather_step_export i K (st_e st_t : DoDemul F) :
  Rel K st_e st_t ->
  rel_res (Rel K) (gather_step symE cfg inp total base i st_e)
                  (gather_step symT cfg inp total base i st_t).
Proof.
  intros H. unfold gather_step.
  eapply rel_res_bind; [apply export_rel_rdtsc; exact H|].
  intros start_tsc0 t_e t_t Ht. rewrite !bind_get. cbv beta.
  pose proof Ht as (T1 & _). rewrite T1, !gather_stage_with_export.
  destruct (gather_stage sym cfg (data_buffer_ inp total) base i
                         (data_gather_buffer_ t_t)) as [g|e]; [|reflexivity].
  eapply rel_res_bind.
  { apply rel_res_modify. instantiate (1 := Rel K). rel_fields Ht. }
  intros [] u_e u_t Hu.
  eapply rel_res_bind; [apply export_rel_rdtsc; exact Hu|].
  intros t v_e v_t Hv. now apply add_task_duration_export.
Qed.

Lemma equalize_block_export frame_id symbol_idx_ul frame_slot
      (st_e st_t : DoDemul F) :
  Rel 0 st_e st_t ->
  rel_res (Rel (Z.of_nat (iterations 0 (max_sc_ite cfg base) kSCsPerCacheline)
                * kSCsPerCacheline * Um))
    (equalize_block symE cfg inp frame_id symbol_idx_ul total frame_slot base st_e)
    (equalize_block symT cfg inp frame_id symbol_idx_ul total frame_slot base st_t).
Proof.
  intros H. unfold equalize_block.
  apply (rel_res_for (fun k => Rel (Z.of_nat k * kSCsPerCacheline * Um)));
    [reflexivity|exact H|].
  intros k t_e t_t _ Ht.
  eapply rel_res_bind; [apply gather_step_export; exact Ht|].
  intros [] u_e u_t Hu.
  eapply rel_res_weaken.
  - apply (rel_res_for
             (fun j => Rel ((0 + Z.of_nat k * kSCsPerCacheline + Z.of_nat j) * Um)));
      [reflexivity| |].
    + replace ((0 + Z.of_nat k * kSCsPerCacheline + Z.of_nat 0) * Um)
        with (Z.of_nat k * kSCsPerCacheline * Um) by lia. exact Hu.
    + intros j v_e v_t _ Hv.
      replace ((0 + Z.of_nat k * kSCsPerCacheline + Z.of_nat (S j)) * Um)
        with ((0 + Z.of_nat k * kSCsPerCacheline + (0 + Z.of_nat j * 1) + 1) * Um)
        by lia.
      apply equalize_sc_export; [unfold kSCsPerCacheline; lia|].
      replace (0 + Z.of_nat k * kSCsPerCacheline + (0 + Z.of_nat j * 1))
        with (0 + Z.of_nat k * kSCsPerCacheline + Z.of_nat j) by lia.
      exact Hv.
  - intros s1 s2. rewrite iterations_unit.
    replace ((0 + Z.of_nat k * kSCsPerCacheline
              + Z.of_nat (Z.to_nat kSCsPerCacheline)) * Um)
      with (Z.of_nat (S k) * kSCsPerCacheline * Um)
      by (unfold kSCsPerCacheline; lia).
    auto.
Qed.

Lemma transpose_loop_export (src_e src_t : buf (complex_float F)) max_sc i K
      (tbuf : buf (complex_float F)) :
  0 <= i < U -> max_sc * Um <= K ->
  (forall z, 0 <= z < K -> src_e (base * U + z) = src_t z) ->
  rel_res (fun l_e l_t => t_buf l_e = t_buf l_t)
    (transpose_loop cfg src_e max_sc
       {| t_equal_t_ptr := 0; t_equal_ptr := base * U + i; t_buf := tbuf |})
    (transpose_loop cfg src_t max_sc
       {| t_equal_t_ptr := 0; t_equal_ptr := i; t_buf := tbuf |}).
Proof.
  intros Hi HK Hsrc. unfold transpose_loop.
  eapply rel_res_weaken.
  - apply (rel_res_for (fun j l_e l_t =>
             t_equal_t_ptr l_e = t_equal_t_ptr l_t
             /\ t_buf l_e = t_buf l_t
             /\ t_equal_ptr l_t = i + Z.of_nat j * (U * 4)
             /\ t_equal_ptr l_e = base * U + t_equal_ptr l_t));
      [reflexivity|cbn; repeat split; try reflexivity; lia|].
    intros j l_e l_t Hj (E1 & E2 & E3 & E4).
    apply rel_res_modify. cbn [t_equal_t_ptr t_equal_ptr t_buf].
    rewrite E1, E2, E4, E3.
    split; [reflexivity|]. split; [|split; lia].
    f_equal. apply read_strided_ext. intros k Hk.
    rewrite <- Z.add_assoc. apply Hsrc.
    rewrite iterations_unit in Hj.
    assert (Hq : Z.of_nat j + 1 <= max_sc / 4) by lia.
    assert (Hmax : 4 * (max_sc / 4) <= max_sc)
      by (apply Z.mul_div_le; lia).
    nia.
  - cbv beta. intros l_e l_t (_ & E & _). exact E.
Qed.

Lemma demod_ue_export frame_slot symbol_idx_ul max_sc i K
      (st_e st_t : DoDemul F) :
  Rel K st_e st_t -> 0 <= i < U -> max_sc * Um <= K ->
  rel_res (Rel K)
    (demod_ue symE cfg inp frame_slot symbol_idx_ul total base max_sc i st_e)
    (demod_ue symT cfg inp frame_slot symbol_idx_ul total base max_sc i st_t).
Proof.
  intros H Hi HK. unfold demod_ue. rewrite !bind_get. cbv beta.
  cbn [kExportConstellation with_export kQpsk kQaM16 kQaM64].
  pose proof H as (H1 & H2 & H3 & H4 & H5 & H6 & H7 & H8 & H9).
  rewrite H2.
  pose proof (transpose_loop_export (equal_buffer_ st_e total)
                (equaled_buffer_temp_ st_t) max_sc i K
                (equaled_buffer_temp_transposed_ st_t) Hi HK H9) as Ht.
  destruct (transpose_loop cfg (equal_buffer_ st_e total) max_sc _)
    as [[[] l_e]|e1],
    (transpose_loop cfg (equaled_buffer_temp_ st_t) max_sc _)
    as [[[] l_t]|e2]; cbn in Ht; try contradiction.
  - destruct Ht as [_ Ht]. rewrite Ht.
    eapply rel_res_bind.
    { apply rel_res_modify. instantiate (1 := Rel K). rel_fields H. }
    intros [] u_e u_t Hu.
    unfold write_demod.
    destruct (ModOrderBits cfg =? kQpsk sym);
      [apply rel_res_modify; rel_fields Hu|].
    destruct (ModOrderBits cfg =? kQaM16 sym);
      [apply rel_res_modify; rel_fields Hu|].
    destruct (ModOrderBits cfg =? kQaM64 sym);
      [apply rel_res_modify; rel_fields Hu|].
    apply rel_res_modify; rel_fields Hu.
  - exact Ht.
Qed.

Lemma demod_block_export frame_slot symbol_idx_ul K (st_e st_t : DoDemul F) :
  Rel K st_e st_t -> max_sc_ite cfg base * Um <= K ->
  rel_res (Rel K)
    (demod_block symE cfg inp frame_slot symbol_idx_ul total base st_e)
    (demod_block symT cfg inp frame_slot symbol_idx_ul total base st_t).
Proof.
  intros H HK. unfold demod_block.
  apply (rel_res_for (fun _ => Rel K)); [reflexivity|exact H|].
  intros k t_e t_t Hk Ht. rewrite iterations_unit in Hk.
  apply demod_ue_export; [exact Ht|lia|exact HK].
Qed.
End ExportProofs.

Lemma iterations_cover (stop step : Z) :
  0 < step -> stop <= Z.of_nat (iterations 0 stop step) * step.
Proof.
  intros Hs. unfold iterations.
  destruct (Z_le_gt_dec stop 0) as [H|H].
  - assert (0 <= Z.of_nat (Z.to_nat ((stop - 0 + step - 1) / step)) * step) by nia.
    lia.
  - rewrite Z2Nat.id by (apply Z.div_pos; lia).
    pose proof (Z.div_mod (stop - 0 + step - 1) step ltac:(lia)) as E.
    pose proof (Z.mod_pos_bound (stop - 0 + step - 1) step Hs) as B.
    nia.
Qed.

(** X15.  In [DoDemul::Launch] the export flag changes where the equalized
    symbols are kept and nothing else: the two builds fail alike or return
    the same event, with the same LLR buffers and the same state apart from
    the two stores of the equalized symbols. *)
Lemma Launch_export_equivalent {F : Type} {ops : FloatOps F}
      (sym : Symbols) (cfg : Config) (inp : Inputs F) (tag : Z)
      (st : DoDemul F) :
  rel_res (fun st_e st_t =>
             demod_buffers_ st_e = demod_buffers_ st_t
             /\ equaled_buffer_temp_transposed_ st_e
                = equaled_buffer_temp_transposed_ st_t
             /\ ue_spec_pilot_buffer_ st_e = ue_spec_pilot_buffer_ st_t
             /\ duration_stat_ st_e = duration_stat_ st_t
             /\ phy_stats_ st_e = phy_stats_ st_t
             /\ stdout_ st_e = stdout_ st_t)
    (Launch (with_export true sym) cfg inp tag st)
    (Launch (with_export false sym) cfg inp tag st).
Proof.
  unfold Launch.
  cbn [kFrameWnd NDEBUG with_export].
  set (frame_id := frame_id_ inp tag).
  set (base := sc_id_ inp tag).
  set (sidx := GetULSymbolIdx cfg (symbol_id_ inp tag)).
  set (total := GetTotalDataSymbolIdxUl cfg frame_id sidx).
  set (K := Z.of_nat (iterations 0 (max_sc_ite cfg base) kSCsPerCacheline)
            * kSCsPerCacheline * Z.of_nat (Z.to_nat (UeNum cfg))).
  assert (H0 : export_rel cfg total base 0 st st).
  { unfold export_rel. repeat (split; [reflexivity|]). intros z Hz. lia. }
  eapply rel_res_bind; [apply export_rel_rdtsc; exact H0|].
  intros start_tsc t_e t_t Ht.
  eapply rel_res_bind.
  { instantiate (1 := export_rel cfg total base 0).
    destruct (NDEBUG sym); [now apply rel_res_ret|].
    destruct (launch_assertion cfg base); [now apply rel_res_ret|reflexivity]. }
  intros [] u_e u_t Hu.
  eapply rel_res_bind; [apply equalize_block_export; exact Hu|].
  fold K. intros [] v_e v_t Hv.
  eapply rel_res_bind; [apply export_rel_rdtsc; exact Hv|].
  intros start_tsc3 w_e w_t Hw.
  eapply rel_res_bind.
  { apply demod_block_export; [exact Hw|].
    subst K. pose proof (iterations_cover (max_sc_ite cfg base) kSCsPerCacheline
                           ltac:(reflexivity)).
    nia. }
  intros [] x_e x_t Hx.
  eapply rel_res_bind; [apply export_rel_rdtsc; exact Hx|].
  intros t3 y_e y_t Hy.
  eapply rel_res_bind; [apply add_task_duration_export; exact Hy|].
  intros [] z_e z_t Hz.
  eapply rel_res_bind; [apply export_rel_rdtsc; exact Hz|].
  intros t0 a_e a_t Ha.
  eapply rel_res_bind; [apply add_task_duration_export; exact Ha|].
  intros [] b_e b_t Hb.
  apply rel_res_ret. unfold export_rel in Hb. tauto.
Qed.

(** ** Millipede: the soft demodulation under [EXPORT_CONSTELLATION] *)

Section MillipedeExport.
Context {F : Type} {arith : FloatArith F}.
Variable flags : Millipede.Flags.
Variable cfg : Millipede.Config.
Variable inp : Millipede.Inputs F.
Variable data precoder : Z -> buf (complex_float F).
Hypothesis Hexport : Millipede.EXPORT_CONSTELLATION flags = true.
Hypothesis Hldpc : Millipede.USE_LDPC flags = true.

Local Abbreviation inp' := (Millipede.with_data inp data precoder).
Local Abbreviation Same := (@Millipede.same_scratch F).

Ltac same_fields H :=
  let H1 := fresh in let H2 := fresh in let H3 := fresh in let H4 := fresh in
  let H5 := fresh in let H6 := fresh in let H7 := fresh in
  pose proof H as (H1 & H2 & H3 & H4 & H5 & H6 & H7);
  unfold Millipede.same_scratch; cbn;
  rewrite ?H1, ?H2, ?H3, ?H4, ?H5, ?H6, ?H7;
  repeat split; reflexivity.

Lemma millipede_rdtsc (st1 st2 : Millipede.DoDemul F) :
  Same st1 st2 ->
  rel_res Same (Millipede.rdtsc inp st1) (Millipede.rdtsc inp' st2).
Proof.
  intros H. pose proof H as (_ & _ & _ & _ & _ & H6 & _).
  unfold Millipede.rdtsc. cbn. rewrite H6. split; [reflexivity|].
  same_fields H.
Qed.

Lemma millipede_add_task_duration k d (st1 st2 : Millipede.DoDemul F) :
  Same st1 st2 ->
  rel_res Same (Millipede.add_task_duration k d st1)
               (Millipede.add_task_duration k d st2).
Proof. intros H. apply rel_res_modify. same_fields H. Qed.

(** Whether a vector pass faults does not depend on the samples. *)
Lemma simd_pass_any_data {T} (tbs B lanes : Z) (rx rx' : Z -> Z -> list T)
      (l l' : gather_locals T) :
  0 < lanes ->
  g_src l = g_src l' -> g_dst l = g_dst l' ->
  rel_res (fun m m' => g_src m = g_src m' /\ g_dst m = g_dst m')
          (simd_pass tbs B lanes rx l) (simd_pass tbs B lanes rx' l').
Proof.
  intros Hl Hs Hd. unfold simd_pass.
  eapply rel_res_weaken.
  - apply (rel_res_for (fun _ m m' => g_src m = g_src m' /\ g_dst m = g_dst m'));
      [assumption|auto|].
    intros k m m' _ [Es Ed].
    eapply rel_res_bind.
    + apply (rel_res_for
               (fun _ m m' => g_src m = g_src m' /\ g_dst m = g_dst m'));
        [reflexivity|auto|].
      intros j n n' _ [Fs Fd]. rewrite !bind_get. cbv beta.
      unfold store_ps. rewrite Fd.
      destruct (_ mod lanes =? 0); cbn; auto.
    + intros [] n n' [Fs Fd]. apply rel_res_modify. cbn. now rewrite Fs, Fd.
  - auto.
Qed.

Lemma millipede_gather_step total base i (st1 st2 : Millipede.DoDemul F) :
  Same st1 st2 ->
  rel_res Same (Millipede.gather_step cfg inp total base i st1)
               (Millipede.gather_step cfg inp' total base i st2).
Proof.
  intros H. unfold Millipede.gather_step. rewrite !bind_get. cbv beta.
  rewrite !gather_avx2_pass.
  match goal with
  | |- rel_res _ (match simd_pass ?t ?b ?n ?rx ?l with _ => _ end _)
                 (match simd_pass _ _ _ ?rx' ?l' with _ => _ end _) =>
      pose proof (simd_pass_any_data t b n rx rx' l l' ltac:(lia)
                    eq_refl eq_refl) as Hp;
      destruct (simd_pass t b n rx l) as [[[] m]|e],
               (simd_pass t b n rx' l') as [[[] m']|e'];
      cbn in Hp; try contradiction
  end.
  - apply rel_res_modify. same_fields H.
  - exact Hp.
Qed.

Lemma millipede_equalize_sc frame total base i j
      (st1 st2 : Millipede.DoDemul F) :
  Same st1 st2 ->
  rel_res Same (Millipede.equalize_sc flags cfg inp frame total base i j st1)
               (Millipede.equalize_sc flags cfg inp' frame total base i j st2).
Proof.
  intros H. unfold Millipede.equalize_sc. rewrite Hexport, Hldpc.
  eapply (rel_res_bind Same); [now apply millipede_rdtsc|].
  intros t2 s1 s2 H1. rewrite !bind_get. cbv beta.
  eapply (rel_res_bind Same).
  { apply rel_res_modify. same_fields H1. }
  intros [] u1 u2 H2.
  eapply (rel_res_bind Same); [now apply millipede_rdtsc|].
  intros t3 v1 v2 H3.
  eapply (rel_res_bind Same); [now apply millipede_add_task_duration|].
  intros [] w1 w2 H4.
  eapply (rel_res_bind Same); [now apply rel_res_ret|].
  intros [] x1 x2 H5.
  eapply (rel_res_bind Same); [now apply millipede_rdtsc|].
  intros t4 y1 y2 H6.
  eapply (rel_res_bind Same); [now apply millipede_add_task_duration|].
  intros [] z1 z2 H7.
  apply rel_res_modify. same_fields H7.
Qed.

Lemma millipede_equalize_block frame total base
      (st1 st2 : Millipede.DoDemul F) :
  Same st1 st2 ->
  rel_res Same (Millipede.equalize_block flags cfg inp frame total base st1)
               (Millipede.equalize_block flags cfg inp' frame total base st2).
Proof.
  intros H. unfold Millipede.equalize_block.
  eapply rel_res_weaken.
  - apply (rel_res_for (fun _ => Same)); [reflexivity|exact H|].
    intros i s1 s2 _ H1.
    eapply (rel_res_bind Same); [now apply millipede_rdtsc|].
    intros t1 u1 u2 H2.
    eapply (rel_res_bind Same); [now apply millipede_gather_step|].
    intros [] v1 v2 H3.
    eapply (rel_res_bind Same); [now apply millipede_rdtsc|].
    intros t2 w1 w2 H4.
    eapply (rel_res_bind Same); [now apply millipede_add_task_duration|].
    intros [] x1 x2 H5.
    eapply rel_res_weaken.
    + apply (rel_res_for (fun _ => Same)); [reflexivity|exact H5|].
      intros j y1 y2 _ H6. now apply millipede_equalize_sc.
    + auto.
  - auto.
Qed.

Lemma millipede_soft_demod_ue total base max_sc i
      (st1 st2 : Millipede.DoDemul F) :
  Same st1 st2 ->
  rel_res Same (Millipede.soft_demod_ue cfg inp total base max_sc i st1)
               (Millipede.soft_demod_ue cfg inp' total base max_sc i st2).
Proof.
  intros H. unfold Millipede.soft_demod_ue. rewrite !bind_get. cbv beta.
  pose proof H as (E1 & E2 & _ & _ & _ & _ & E7).
  rewrite E1, E2, E7.
  destruct (Millipede.transpose_loop _ _ _ _) as [[[] l]|e]; [|reflexivity].
  eapply (rel_res_bind Same).
  { apply rel_res_modify. same_fields H. }
  intros [] s1 s2 H1.
  eapply (rel_res_bind Same).
  { apply rel_res_modify. same_fields H1. }
  intros [] u1 u2 H2.
  destruct (0 <? _).
  - apply rel_res_modify. same_fields H2.
  - now apply rel_res_ret.
Qed.

Lemma millipede_soft_demod_block total base
      (st1 st2 : Millipede.DoDemul F) :
  Same st1 st2 ->
  rel_res Same (Millipede.soft_demod_block flags cfg inp total base st1)
               (Millipede.soft_demod_block flags cfg inp' total base st2).
Proof.
  intros H. unfold Millipede.soft_demod_block. rewrite Hldpc.
  eapply (rel_res_bind Same).
  { apply rel_res_modify. same_fields H. }
  intros [] s1 s2 H1.
  eapply rel_res_weaken.
  - apply (rel_res_for (fun _ => Same)); [reflexivity|exact H1|].
    intros i u1 u2 _ H2. now apply millipede_soft_demod_ue.
  - auto.
Qed.

(** With [EXPORT_CONSTELLATION] and [USE_LDPC], nothing a Millipede task
    leaves behind apart from the gathered samples and the export buffer
    depends on the received samples or on the precoders: the soft bits
    are those of the scratch buffer as it was before the task. *)
Lemma millipede_launch_ignores_data tag (st : Millipede.DoDemul F) :
  rel_res Same (Millipede.launch flags cfg inp tag st)
               (Millipede.launch flags cfg inp' tag st).
Proof.
  assert (H : Same st st) by (repeat split).
  unfold Millipede.launch.
  eapply (rel_res_bind Same); [now apply millipede_rdtsc|].
  intros t1 s1 s2 H1.
  eapply (rel_res_bind Same); [now apply millipede_equalize_block|].
  intros [] u1 u2 H2.
  eapply (rel_res_bind Same); [now apply millipede_soft_demod_block|].
  intros [] v1 v2 H3.
  eapply (rel_res_bind Same); [now apply millipede_rdtsc|].
  intros t2 w1 w2 H4.
  eapply (rel_res_bind Same); [now apply millipede_add_task_duration|].
  intros [] x1 x2 H5.
  now apply rel_res_ret.
Qed.
End MillipedeExport.

(** The statement on the soft bits alone: two Millipede tasks that differ
    in the received samples and the precoders only, and that both return,
    leave the same LLR bytes. *)
Lemma millipede_soft_bits_ignore_data {F : Type} {arith : FloatArith F}
      (flags : Millipede.Flags) (cfg : Millipede.Config)
      (inp : Millipede.Inputs F) (data precoder : Z -> buf (complex_float F))
      (tag : Z) (st s1 s2 : Millipede.DoDemul F) (e1 e2 : EventData) :
  Millipede.EXPORT_CONSTELLATION flags = true ->
  Millipede.USE_LDPC flags = true ->
  Millipede.launch flags cfg inp tag st = Ok (e1, s1) ->
  Millipede.launch flags cfg (Millipede.with_data inp data precoder) tag st
    = Ok (e2, s2) ->
  Millipede.demod_soft_buffer_ s1 = Millipede.demod_soft_buffer_ s2.
Proof.
  intros He Hl H1 H2.
  pose proof (millipede_launch_ignores_data flags cfg inp data precoder
                He Hl tag st) as H.
  rewrite H1, H2 in H. cbn in H. unfold Millipede.same_scratch in H. tauto.
Qed.

(** ** Partial correctness rules *)

Lemma hoare_ret {St A} (P : St -> Prop) (a : A) (Q : A -> St -> Prop) :
  (forall s, P s -> Q a s) -> hoare P (ret a) Q.
Proof. intros H s b s' HP E. injection E as <- <-. auto. Qed.

Lemma hoare_bind {St A B} (P : St -> Prop) (R : A -> St -> Prop)
      (Q : B -> St -> Prop) (m : M St A) (k : A -> M St B) :
  hoare P m R -> (forall a, hoare (R a) (k a) Q) -> hoare P (bind m k) Q.
Proof.
  intros Hm Hk s b s' HP E.
  apply bind_inv in E. destruct E as (a & s1 & E1 & E2).
  exact (Hk a s1 b s' (Hm s a s1 HP E1) E2).
Qed.

Lemma hoare_modify {St} (P : St -> Prop) (f : St -> St)
      (Q : unit -> St -> Prop) :
  (forall s, P s -> Q tt (f s)) -> hoare P (modify f) Q.
Proof. intros H s [] s' HP E. injection E as <-. auto. Qed.

Lemma hoare_get {St} (P : St -> Prop) (Q : St -> St -> Prop) :
  (forall s, P s -> Q s s) -> hoare P get Q.
Proof. intros H s a s' HP E. injection E as <- <-. auto. Qed.

Lemma hoare_gets {St A} (P : St -> Prop) (f : St -> A) (Q : A -> St -> Prop) :
  (forall s, P s -> Q (f s) s) -> hoare P (gets f) Q.
Proof. intros H s a s' HP E. injection E as <- <-. auto. Qed.

Lemma hoare_raise {St A} (P : St -> Prop) (e : error) (Q : A -> St -> Prop) :
  hoare P (raise e) Q.
Proof. intros s a s' _ E. discriminate. Qed.

Lemma hoare_conseq {St A} (P P' : St -> Prop) (Q Q' : A -> St -> Prop)
      (m : M St A) :
  hoare P m Q -> (forall s, P' s -> P s) -> (forall a s, Q a s -> Q' a s) ->
  hoare P' m Q'.
Proof. intros H HP HQ s a s' HP' E. eauto. Qed.

Lemma hoare_repeat {St} (I : nat -> St -> Prop) (n : nat) :
  forall (f : nat -> M St unit),
    (forall k, (k < n)%nat -> hoare (I k) (f k) (fun _ => I (S k))) ->
    hoare (I O) (repeat_m n f) (fun _ => I n).
Proof.
  revert I. induction n as [|n IH]; intros I f Hstep s [] s' H0 E.
  - injection E as <-. exact H0.
  - rewrite repeat_m_S in E. apply bind_inv in E.
    destruct E as ([] & s1 & E1 & E2).
    apply (IH (fun k => I (S k)) (fun k => f (S k))) in E2; [exact E2| |].
    + intros k Hk. apply Hstep. lia.
    + exact (Hstep O ltac:(lia) s tt s1 H0 E1).
Qed.

(** A loop with a positive step, with an invariant indexed by the number of
    iterations done. *)
Lemma hoare_for {St} (I : nat -> St -> Prop) (start stop step : Z)
      (body : Z -> M St unit) :
  0 < step ->
  (forall k, (k < iterations start stop step)%nat ->
     hoare (I k) (body (start + Z.of_nat k * step)) (fun _ => I (S k))) ->
  hoare (I O) (for_ start stop step body)
        (fun _ => I (iterations start stop step)).
Proof.
  intros Hs Hstep s a s' H0 E. rewrite for_repeat in E by assumption.
  exact (hoare_repeat I _ _ Hstep s a s' H0 E).
Qed.

Lemma hoare_for_keep {St} (I : St -> Prop) (start stop step : Z)
      (body : Z -> M St unit) :
  0 < step ->
  (forall i, start <= i < stop -> hoare I (body i) (fun _ => I)) ->
  hoare I (for_ start stop step body) (fun _ => I).
Proof.
  intros Hs Hstep. apply (hoare_for (fun _ => I)); [assumption|].
  intros k Hk. apply Hstep.
  destruct (Z_lt_le_dec start stop) as [Hlt|Hge];
    [|rewrite iterations_done in Hk by lia; lia].
  split; [nia|].
  unfold iterations in Hk.
  assert (Hq : Z.of_nat k < (stop - start + step - 1) / step).
  { apply Nat2Z.inj_lt in Hk. rewrite Z2Nat.id in Hk; [lia|].
    apply Z.div_pos; lia. }
  assert (Hm : step * ((stop - start + step - 1) / step)
               <= stop - start + step - 1).
  { apply Z.mul_div_le. lia. }
  nia.
Qed.

(** ** Failures *)

Lemma fails_only_ret {St A} (E : error -> Prop) (a : A) :
  fails_only E (ret a : M St A).
Proof. intros s e H. discriminate. Qed.

Lemma fails_only_modify {St} (E : error -> Prop) (f : St -> St) :
  fails_only E (modify f).
Proof. intros s e H. discriminate. Qed.

Lemma fails_only_get {St} (E : error -> Prop) : fails_only E (get : M St St).
Proof. intros s e H. discriminate. Qed.

Lemma fails_only_gets {St A} (E : error -> Prop) (f : St -> A) :
  fails_only E (gets f).
Proof. intros s e H. discriminate. Qed.

Lemma fails_only_raise {St A} (E : error -> Prop) (e : error) :
  E e -> fails_only E (raise e : M St A).
Proof. intros He s e' H. injection H as <-. exact He. Qed.

Lemma fails_only_bind {St A B} (E : error -> Prop) (m : M St A)
      (k : A -> M St B) :
  fails_only E m -> (forall a, fails_only E (k a)) -> fails_only E (bind m k).
Proof.
  intros Hm Hk s e H. unfold bind in H.
  destruct (m s) as [[a s1]|e1] eqn:E1.
  - exact (Hk a s1 e H).
  - injection H as <-. exact (Hm s e1 E1).
Qed.

Lemma fails_only_repeat {St} (E : error -> Prop) (n : nat) :
  forall f : nat -> M St unit,
    (forall k, fails_only E (f k)) -> fails_only E (repeat_m n f).
Proof.
  induction n as [|n IH]; intros f Hf.
  - apply fails_only_ret.
  - rewrite repeat_m_S. apply fails_only_bind; [apply Hf|].
    intros _. apply IH. intros k. apply Hf.
Qed.

(** A loop with a positive step fails only where its body does: it does not
    run out of fuel. *)
Lemma fails_only_for {St} (E : error -> Prop) (start stop step : Z)
      (body : Z -> M St unit) :
  0 < step -> (forall i, fails_only E (body i)) ->
  fails_only E (for_ start stop step body).
Proof.
  intros Hs Hb s e H. rewrite for_repeat in H by assumption.
  revert s e H. apply fails_only_repeat. intros k. apply Hb.
Qed.

(** ** [Launch]: return and failures *)

Section LaunchTotal.
Context {F : Type} {ops : FloatOps F}.
Variable sym : Symbols.
Variable cfg : Config.
Variable inp : Inputs F.

Ltac wp_next :=
  first [ apply wp_bind | apply wp_rdtsc | apply wp_get | apply wp_gets
        | apply wp_modify | apply wp_ret ]; cbv beta.

Lemma demod_ue_total frame_slot symbol_idx_ul total base_sc_id max_sc i
      (st : DoDemul F) :
  wp (demod_ue sym cfg inp frame_slot symbol_idx_ul total base_sc_id max_sc i)
     st (fun _ _ => True).
Proof.
  unfold demod_ue. wp_next. wp_next.
  match goal with
  | |- context [transpose_loop cfg ?src ?m ?l] =>
      destruct (transpose_loop_total cfg src m l) as (l' & ->)
  end.
  wp_next. wp_next. unfold write_demod.
  destruct (ModOrderBits cfg =? kQpsk sym); [now wp_next|].
  destruct (ModOrderBits cfg =? kQaM16 sym); [now wp_next|].
  destruct (ModOrderBits cfg =? kQaM64 sym); now wp_next.
Qed.

Lemma demod_block_total frame_slot symbol_idx_ul total base_sc_id
      (st : DoDemul F) :
  wp (demod_block sym cfg inp frame_slot symbol_idx_ul total base_sc_id) st
     (fun _ _ => True).
Proof.
  unfold demod_block. apply wp_for_keep; [reflexivity|exact I|].
  intros i st1 _. apply demod_ue_total.
Qed.

Lemma Launch_total (tag : Z) (st : DoDemul F) :
  NDEBUG sym = true \/ launch_assertion cfg (sc_id_ inp tag) = true ->
  (AVX512F sym = true -> simd_guard sym cfg = true -> BsAntNum cfg mod 8 = 0) ->
  wp (Launch sym cfg inp tag) st
     (fun ev _ => ev = {| event_type_ := kDemul; tags_ := tag |}).
Proof.
  intros Has Hfit. unfold Launch.
  wp_next. wp_next. wp_next.
  apply (wp_conseq _ _ (fun _ _ => True)).
  { destruct (NDEBUG sym); [now apply wp_ret|].
    destruct Has as [Has|Has]; [discriminate|]. rewrite Has. now apply wp_ret. }
  intros _ st0 _. wp_next.
  eapply wp_conseq.
  { apply (equalize_block_same_output sym cfg inp _ _ _ _ _ st0 st0 Hfit).
    split; reflexivity. }
  cbv beta. intros _ st1 _. wp_next. wp_next. wp_next.
  eapply wp_conseq; [apply demod_block_total|].
  cbv beta. intros _ st2 _. unfold add_task_duration.
  repeat wp_next. reflexivity.
Qed.

Lemma store_ps_fails {T} (lanes off : Z) (v : list T) :
  fails_only (fun e => e = Misaligned) (store_ps lanes off v).
Proof.
  intros s e H. unfold store_ps in H.
  destruct (off mod lanes =? 0); [discriminate|]. now injection H as <-.
Qed.

Lemma simd_pass_fails {T} (tbs B lanes : Z) (rx : Z -> Z -> list T) :
  0 < lanes ->
  fails_only (fun e => e = Misaligned) (simd_pass tbs B lanes rx).
Proof.
  intros Hl. unfold simd_pass. apply fails_only_for; [assumption|].
  intros ant_i. apply fails_only_bind.
  - apply fails_only_for; [reflexivity|]. intros j.
    apply fails_only_bind; [apply fails_only_get|].
    intros s. apply store_ps_fails.
  - intros _. apply fails_only_modify.
Qed.

Lemma gather_scalar_fails {T} (data_buf : buf T) base_sc_id i ant_start :
  fails_only (fun e => e = Misaligned)
             (gather_scalar sym cfg data_buf base_sc_id i ant_start).
Proof.
  unfold gather_scalar. apply fails_only_for; [reflexivity|]. intros j.
  apply fails_only_for; [reflexivity|]. intros a. apply fails_only_modify.
Qed.

(** The gather fails only by a misaligned store, and only in the vector
    pass. *)
Lemma gather_stage_fails {T} (data_buf : buf T) base_sc_id i gbuf e :
  gather_stage sym cfg data_buf base_sc_id i gbuf = Err e ->
  e = Misaligned /\ simd_guard sym cfg = true.
Proof.
  unfold gather_stage. destruct (simd_guard sym cfg).
  - destruct (AVX512F sym).
    + rewrite gather_avx512_pass.
      match goal with
      | |- context [simd_pass ?t ?b ?n ?rx ?l] =>
          destruct (simd_pass t b n rx l) as [[[] s]|e'] eqn:E
      end; [discriminate|].
      intros H. injection H as <-. split; [|reflexivity].
      refine (simd_pass_fails _ _ 8 _ _ _ _ E). lia.
    + rewrite gather_avx2_pass.
      match goal with
      | |- context [simd_pass ?t ?b ?n ?rx ?l] =>
          destruct (simd_pass t b n rx l) as [[[] s]|e'] eqn:E
      end; [discriminate|].
      intros H. injection H as <-. split; [|reflexivity].
      refine (simd_pass_fails _ _ 4 _ _ _ _ E). lia.
  - match goal with
    | |- context [gather_scalar ?a ?b ?c ?d ?e0 ?f ?l] =>
        destruct (gather_scalar a b c d e0 f l) as [[[] s]|e'] eqn:E
    end; [discriminate|].
    intros H. injection H as <-.
    pose proof (gather_scalar_fails _ _ _ _ _ _ E). split; [assumption|].
    exfalso.
    destruct (gather_scalar_spec sym cfg data_buf base_sc_id i gbuf)
      as (s' & E' & _).
    congruence.
Qed.

Lemma rdtsc_fails (E : error -> Prop) :
  fails_only E (GetTime_WorkerRdtsc inp).
Proof. intros s e H. discriminate. Qed.

Lemma phase_track_fails (E : error -> Prop) frame_id symbol_idx_ul cur_sc_id
      total off :
  fails_only E
    (phase_track sym cfg inp frame_id symbol_idx_ul cur_sc_id total off).
Proof.
  unfold phase_track, write_mat_equaled.
  destruct (symbol_idx_ul <? ClientUlPilotSymbols cfg).
  { apply fails_only_bind; [apply fails_only_gets|].
    intros m. apply fails_only_modify. }
  destruct (0 <? ClientUlPilotSymbols cfg); [|apply fails_only_ret].
  apply fails_only_bind; [apply fails_only_get|]. intros st.
  apply fails_only_bind; [apply fails_only_modify|]. intros _.
  destruct (symbol_idx_ul =? ClientUlPilotSymbols cfg); [|apply fails_only_ret].
  apply fails_only_bind; [apply fails_only_modify|]. intros _.
  destruct (kPrintPhyStats sym && (cur_sc_id =? 0));
    [apply fails_only_modify|apply fails_only_ret].
Qed.

Lemma equalize_sc_fails (E : error -> Prop) frame_id symbol_idx_ul total
      frame_slot base_sc_id i j :
  fails_only E (equalize_sc sym cfg inp frame_id symbol_idx_ul total
                            frame_slot base_sc_id i j).
Proof.
  unfold equalize_sc, write_mat_equaled, add_task_duration, incr_task_count.
  apply fails_only_bind; [apply rdtsc_fails|]. intros t2.
  apply fails_only_bind; [apply fails_only_get|]. intros st.
  apply fails_only_bind; [apply fails_only_modify|]. intros _.
  apply fails_only_bind; [apply phase_track_fails|]. intros _.
  apply fails_only_bind; [apply rdtsc_fails|]. intros t3.
  apply fails_only_bind; [apply fails_only_modify|]. intros _.
  apply fails_only_modify.
Qed.

Lemma gather_step_fails total base_sc_id i :
  fails_only (fun e => e = Misaligned /\ simd_guard sym cfg = true)
             (gather_step sym cfg inp total base_sc_id i).
Proof.
  unfold gather_step, add_task_duration.
  apply fails_only_bind; [apply rdtsc_fails|]. intros t0.
  apply fails_only_bind; [apply fails_only_get|]. intros st.
  destruct (gather_stage sym cfg (data_buffer_ inp total) base_sc_id i
              (data_gather_buffer_ st)) as [g|e] eqn:E.
  - apply fails_only_bind; [apply fails_only_modify|]. intros _.
    apply fails_only_bind; [apply rdtsc_fails|]. intros t.
    apply fails_only_modify.
  - apply fails_only_raise. exact (gather_stage_fails _ _ _ _ _ E).
Qed.

Lemma equalize_block_fails frame_id symbol_idx_ul total frame_slot base_sc_id :
  fails_only (fun e => e = Misaligned /\ simd_guard sym cfg = true)
             (equalize_block sym cfg inp frame_id symbol_idx_ul total
                             frame_slot base_sc_id).
Proof.
  unfold equalize_block. apply fails_only_for; [reflexivity|]. intros i.
  apply fails_only_bind; [apply gather_step_fails|]. intros _.
  apply fails_only_for; [reflexivity|]. intros j. apply equalize_sc_fails.
Qed.

Lemma demod_block_fails (E : error -> Prop) frame_slot symbol_idx_ul total
      base_sc_id :
  fails_only E
    (demod_block sym cfg inp frame_slot symbol_idx_ul total base_sc_id).
Proof.
  intros s e H.
  destruct (demod_block_total frame_slot symbol_idx_ul total base_sc_id s)
    as (a & s' & E' & _).
  congruence.
Qed.

Lemma Launch_fails (tag : Z) (st : DoDemul F) (e : error) :
  Launch sym cfg inp tag st = Err e ->
  (e = AssertFail /\ NDEBUG sym = false
   /\ launch_assertion cfg (sc_id_ inp tag) = false)
  \/ (e = Misaligned /\ simd_guard sym cfg = true).
Proof.
  unfold Launch. intros H.
  unfold bind at 1 in H. cbn [GetTime_WorkerRdtsc] in H.
  unfold bind at 1 in H.
  destruct (NDEBUG sym) eqn:N.
  - right. cbn [ret] in H.
    revert H.
    match goal with
    | |- ?m ?s = Err e -> _ =>
        assert (Hf : fails_only
                       (fun e => e = Misaligned /\ simd_guard sym cfg = true) m)
    end.
    { apply fails_only_bind; [apply equalize_block_fails|]. intros _.
      apply fails_only_bind; [apply rdtsc_fails|]. intros t3.
      apply fails_only_bind; [apply demod_block_fails|]. intros _.
      apply fails_only_bind; [apply rdtsc_fails|]. intros t.
      apply fails_only_bind; [apply fails_only_modify|]. intros _.
      apply fails_only_bind; [apply rdtsc_fails|]. intros t0.
      apply fails_only_bind; [apply fails_only_modify|]. intros _.
      apply fails_only_ret. }
    intros H. exact (Hf _ _ H).
  - unfold assert_ in H.
    destruct (launch_assertion cfg (sc_id_ inp tag)) eqn:A.
    + right. cbn [ret] in H.
      revert H.
      match goal with
      | |- ?m ?s = Err e -> _ =>
          assert (Hf : fails_only
                         (fun e => e = Misaligned /\ simd_guard sym cfg = true) m)
      end.
      { apply fails_only_bind; [apply equalize_block_fails|]. intros _.
        apply fails_only_bind; [apply rdtsc_fails|]. intros t3.
        apply fails_only_bind; [apply demod_block_fails|]. intros _.
        apply fails_only_bind; [apply rdtsc_fails|]. intros t.
        apply fails_only_bind; [apply fails_only_modify|]. intros _.
        apply fails_only_bind; [apply rdtsc_fails|]. intros t0.
        apply fails_only_bind; [apply fails_only_modify|]. intros _.
        apply fails_only_ret. }
      intros H. exact (Hf _ _ H).
    + left. cbn in H. injection H as <-. auto.
Qed.
End LaunchTotal.

Lemma iterations_lt (start stop step : Z) (k : nat) :
  0 < step -> (k < iterations start stop step)%nat ->
  start + Z.of_nat k * step < stop.
Proof.
  intros Hs Hk.
  destruct (Z_lt_le_dec start stop) as [Hlt|Hge];
    [|rewrite iterations_done in Hk by lia; lia].
  unfold iterations in Hk.
  assert (Hq : Z.of_nat k < (stop - start + step - 1) / step).
  { apply Nat2Z.inj_lt in Hk. rewrite Z2Nat.id in Hk; [lia|].
    apply Z.div_pos; lia. }
  assert (Hm : step * ((stop - start + step - 1) / step)
               <= stop - start + step - 1).
  { apply Z.mul_div_le. lia. }
  nia.
Qed.

(** A loop whose body keeps an invariant, whatever the iteration. *)
Lemma hoare_for_each {St} (I : St -> Prop) (start stop step : Z)
      (body : Z -> M St unit) :
  0 < step ->
  (forall k, 0 <= k -> start + k * step < stop ->
     hoare I (body (start + k * step)) (fun _ => I)) ->
  hoare I (for_ start stop step body) (fun _ => I).
Proof.
  intros Hs Hstep. apply (hoare_for (fun _ => I)); [assumption|].
  intros k Hk. apply Hstep; [lia|]. now apply iterations_lt.
Qed.

Lemma hoare_seq {St A B} (I : St -> Prop) (Q : B -> St -> Prop)
      (m : M St A) (k : A -> M St B) :
  hoare I m (fun _ => I) -> (forall a, hoare I (k a) Q) ->
  hoare I (bind m k) Q.
Proof. intros Hm Hk. eapply hoare_bind; [exact Hm|exact Hk]. Qed.

Lemma hoare_read {St B} (I : St -> Prop) (Q : B -> St -> Prop)
      (k : St -> M St B) :
  (forall x, hoare I (k x) Q) -> hoare I (bind get k) Q.
Proof.
  intros Hk. eapply hoare_bind; [|exact Hk].
  apply hoare_get. auto.
Qed.

Lemma hoare_keep_modify {St} (I : St -> Prop) (f : St -> St) :
  (forall s, I s -> I (f s)) -> hoare I (modify f) (fun _ => I).
Proof. intros H. apply hoare_modify. exact H. Qed.

Lemma hoare_keep_ret {St A} (I : St -> Prop) (a : A) :
  hoare I (ret a) (fun _ => I).
Proof. apply hoare_ret. auto. Qed.

(** ** What the stages of [Launch] keep

    An invariant kept by each update a task makes is kept by the task. *)

Section LaunchKeeps.
Context {F : Type} {ops : FloatOps F}.
Variable sym : Symbols.
Variable cfg : Config.
Variable inp : Inputs F.
Variable frame_id symbol_idx_ul total frame_slot base_sc_id : Z.
Variable I : DoDemul F -> Prop.

Local Abbreviation U := (UeNum cfg).
Local Abbreviation P := (ClientUlPilotSymbols cfg).

Hypothesis I_tsc : forall v st, I st -> I (set_tsc_reads_ v st).
Hypothesis I_duration : forall k d,
  hoare I (add_task_duration (F := F) k d) (fun _ => I).
Hypothesis I_count : hoare I (incr_task_count (F := F)) (fun _ => I).
Hypothesis I_gather : forall g st, I st -> I (set_data_gather_buffer_ g st).
Hypothesis I_equal : forall c v,
  in_task cfg base_sc_id c -> (length v <= Z.to_nat U)%nat ->
  hoare I (write_mat_equaled sym total (equal_off sym cfg c base_sc_id) v)
        (fun _ => I).
Hypothesis I_pilot : forall c m st,
  symbol_idx_ul < P -> in_task cfg base_sc_id c -> I st ->
  I (set_ue_spec_pilot_buffer_
       (calc_phase_shift sym cfg inp frame_id symbol_idx_ul c m
                         (ue_spec_pilot_buffer_ st)) st).
Hypothesis I_stats : forall x st,
  0 < P -> symbol_idx_ul = P -> I st ->
  I (set_phy_stats_ (x :: phy_stats_ st) st).
Hypothesis I_transposed : forall v st,
  I st -> I (set_equaled_buffer_temp_transposed_ v st).
Hypothesis I_demod : forall i llr,
  0 <= i < U ->
  hoare I (write_demod frame_slot symbol_idx_ul i
                       (ModOrderBits cfg * base_sc_id) llr)
        (fun _ => I).
Hypothesis I_stdout : forall st,
  unsupported_modulation sym cfg -> I st ->
  I (set_stdout_ (unsupported_message cfg :: stdout_ st) st).

Lemma rdtsc_keeps : hoare I (GetTime_WorkerRdtsc inp) (fun _ => I).
Proof.
  intros s a s' HI E. unfold GetTime_WorkerRdtsc in E.
  injection E as <- <-. now apply I_tsc.
Qed.

Lemma phase_track_keeps c :
  in_task cfg base_sc_id c ->
  hoare I (phase_track sym cfg inp frame_id symbol_idx_ul c total
                       (equal_off sym cfg c base_sc_id))
        (fun _ => I).
Proof.
  intros Hc. unfold phase_track.
  destruct (Z.ltb_spec symbol_idx_ul P) as [Hlt|Hge].
  { apply hoare_seq; [apply hoare_gets; intros s Hs; exact Hs|].
    intros m. apply hoare_keep_modify. intros s Hs. now apply I_pilot. }
  destruct (Z.ltb_spec 0 P) as [HP|HP]; [|apply hoare_keep_ret].
  apply hoare_read. intros st.
  apply hoare_seq.
  { apply I_equal; [assumption|].
    unfold phase_correct. rewrite map2_length.
    - unfold read_mat_equaled. rewrite read_n_length. lia.
    - rewrite length_map, cur_theta_length.
      unfold read_mat_equaled. rewrite read_n_length. lia. }
  intros _.
  destruct (Z.eqb_spec symbol_idx_ul P) as [HeqP|]; [|apply hoare_keep_ret].
  apply hoare_seq.
  { apply hoare_keep_modify. intros s Hs. now apply I_stats. }
  intros _.
  destruct (kPrintPhyStats sym && (c =? 0)); [|apply hoare_keep_ret].
  apply hoare_keep_modify. intros s Hs. now apply I_stats.
Qed.

Lemma equalize_sc_keeps k j :
  0 <= k -> kSCsPerCacheline * k < max_sc_ite cfg base_sc_id ->
  0 <= j < kSCsPerCacheline ->
  hoare I (equalize_sc sym cfg inp frame_id symbol_idx_ul total frame_slot
                       base_sc_id (kSCsPerCacheline * k) j)
        (fun _ => I).
Proof.
  intros Hk Hlt Hj.
  assert (Hc : in_task cfg base_sc_id (base_sc_id + kSCsPerCacheline * k + j))
    by (exists k, j; auto).
  unfold equalize_sc.
  apply hoare_seq; [apply rdtsc_keeps|]. intros t2.
  apply hoare_read. intros st.
  apply hoare_seq.
  { apply I_equal; [assumption|]. rewrite mat_vec_length. lia. }
  intros _.
  apply hoare_seq; [now apply phase_track_keeps|]. intros _.
  apply hoare_seq; [apply rdtsc_keeps|]. intros t3.
  apply hoare_seq; [apply I_duration|]. intros _.
  apply I_count.
Qed.

Lemma gather_step_keeps i :
  hoare I (gather_step sym cfg inp total base_sc_id i) (fun _ => I).
Proof.
  unfold gather_step.
  apply hoare_seq; [apply rdtsc_keeps|]. intros t0.
  apply hoare_read. intros st.
  destruct (gather_stage sym cfg (data_buffer_ inp total) base_sc_id i
              (data_gather_buffer_ st)) as [g|e]; [|apply hoare_raise].
  apply hoare_seq.
  { apply hoare_keep_modify. intros s Hs. now apply I_gather. }
  intros _.
  apply hoare_seq; [apply rdtsc_keeps|]. intros t.
  apply I_duration.
Qed.

Lemma equalize_block_keeps :
  hoare I (equalize_block sym cfg inp frame_id symbol_idx_ul total frame_slot
                          base_sc_id)
        (fun _ => I).
Proof.
  unfold equalize_block. apply hoare_for_each; [reflexivity|].
  intros k Hk Hlt. rewrite Z.add_0_l in *.
  apply hoare_seq; [apply gather_step_keeps|]. intros _.
  apply hoare_for_each; [reflexivity|].
  intros j Hj Hjlt. rewrite Z.add_0_l, Z.mul_1_r in *.
  rewrite (Z.mul_comm k). apply equalize_sc_keeps; [lia| |lia].
  rewrite Z.mul_comm. exact Hlt.
Qed.

Lemma demod_ue_keeps max_sc i :
  0 <= i < U ->
  hoare I (demod_ue sym cfg inp frame_slot symbol_idx_ul total base_sc_id
                    max_sc i)
        (fun _ => I).
Proof.
  intros Hi. unfold demod_ue. apply hoare_read. intros st.
  match goal with
  | |- context [transpose_loop cfg ?src ?m ?l] =>
      destruct (transpose_loop cfg src m l) as [[[] l']|e]
  end; [|apply hoare_raise].
  apply hoare_seq.
  { apply hoare_keep_modify. intros s Hs. now apply I_transposed. }
  intros _.
  destruct (Z.eqb_spec (ModOrderBits cfg) (kQpsk sym)); [now apply I_demod|].
  destruct (Z.eqb_spec (ModOrderBits cfg) (kQaM16 sym)); [now apply I_demod|].
  destruct (Z.eqb_spec (ModOrderBits cfg) (kQaM64 sym)); [now apply I_demod|].
  apply hoare_keep_modify. intros s Hs. apply I_stdout; [|assumption].
  unfold unsupported_modulation. auto.
Qed.

Lemma demod_block_keeps :
  hoare I (demod_block sym cfg inp frame_slot symbol_idx_ul total base_sc_id)
        (fun _ => I).
Proof.
  unfold demod_block. apply hoare_for_each; [reflexivity|].
  intros i Hi Hlt. apply demod_ue_keeps. lia.
Qed.
End LaunchKeeps.

(** The invariant rule for a whole task. *)
Lemma Launch_keeps {F : Type} {ops : FloatOps F}
      (sym : Symbols) (cfg : Config) (inp : Inputs F) (tag : Z)
      (I : DoDemul F -> Prop) :
  let frame_id := frame_id_ inp tag in
  let base_sc_id := sc_id_ inp tag in
  let symbol_idx_ul := GetULSymbolIdx cfg (symbol_id_ inp tag) in
  let total := GetTotalDataSymbolIdxUl cfg frame_id symbol_idx_ul in
  let frame_slot := frame_id mod kFrameWnd sym in
  (forall v st, I st -> I (set_tsc_reads_ v st)) ->
  (forall k d, hoare I (add_task_duration (F := F) k d) (fun _ => I)) ->
  hoare I (incr_task_count (F := F)) (fun _ => I) ->
  (forall g st, I st -> I (set_data_gather_buffer_ g st)) ->
  (forall c v,
     in_task cfg base_sc_id c -> (length v <= Z.to_nat (UeNum cfg))%nat ->
     hoare I (write_mat_equaled sym total (equal_off sym cfg c base_sc_id) v)
           (fun _ => I)) ->
  (forall c m st,
     symbol_idx_ul < ClientUlPilotSymbols cfg -> in_task cfg base_sc_id c ->
     I st ->
     I (set_ue_spec_pilot_buffer_
          (calc_phase_shift sym cfg inp frame_id symbol_idx_ul c m
                            (ue_spec_pilot_buffer_ st)) st)) ->
  (forall x st,
     0 < ClientUlPilotSymbols cfg -> symbol_idx_ul = ClientUlPilotSymbols cfg ->
     I st -> I (set_phy_stats_ (x :: phy_stats_ st) st)) ->
  (forall v st, I st -> I (set_equaled_buffer_temp_transposed_ v st)) ->
  (forall i llr,
     0 <= i < UeNum cfg ->
     hoare I (write_demod frame_slot symbol_idx_ul i
                          (ModOrderBits cfg * base_sc_id) llr)
           (fun _ => I)) ->
  (forall st,
     unsupported_modulation sym cfg -> I st ->
     I (set_stdout_ (unsupported_message cfg :: stdout_ st) st)) ->
  hoare I (Launch sym cfg inp tag) (fun _ => I).
Proof.
  intros frame_id base_sc_id symbol_idx_ul total frame_slot
         Htsc Hdur Hcnt Hgat Heq Hpil Hst Htr Hdem Hout.
  unfold Launch.
  apply hoare_seq; [now apply rdtsc_keeps|]. intros start_tsc.
  apply hoare_seq.
  { destruct (NDEBUG sym); [apply hoare_keep_ret|].
    unfold assert_. destruct (launch_assertion cfg (sc_id_ inp tag));
      [apply hoare_keep_ret|apply hoare_raise]. }
  intros _.
  apply hoare_seq.
  { now apply (equalize_block_keeps sym cfg inp frame_id symbol_idx_ul total
                 frame_slot base_sc_id I). }
  intros _.
  apply hoare_seq; [now apply rdtsc_keeps|]. intros start_tsc3.
  apply hoare_seq.
  { now apply (demod_block_keeps sym cfg inp symbol_idx_ul total frame_slot
                 base_sc_id I). }
  intros _.
  apply hoare_seq; [now apply rdtsc_keeps|]. intros t3.
  apply hoare_seq; [apply Hdur|]. intros _.
  apply hoare_seq; [now apply rdtsc_keeps|]. intros t0.
  apply hoare_seq; [apply Hdur|]. intros _.
  apply hoare_keep_ret.
Qed.

(** ** [Launch]: what a task returns and how it fails *)

(** X1.  A task whose block passes the alignment check (or whose check is
    compiled out) and whose vector gather, where taken, has a width that
    divides the number of antennas runs to its end and returns
    [EventData(EventType::kDemul, tag)], whatever the modulation order, the
    symbol and the contents of the buffers. *)
Theorem Launch_returns_event {F : Type} {ops : FloatOps F}
        (sym : Symbols) (cfg : Config) (inp : Inputs F)
        (tag : Z) (st : DoDemul F) :
  NDEBUG sym = true \/ launch_assertion cfg (sc_id_ inp tag) = true ->
  (AVX512F sym = true -> simd_guard sym cfg = true -> BsAntNum cfg mod 8 = 0) ->
  exists st',
    Launch sym cfg inp tag st
    = Ok ({| event_type_ := kDemul; tags_ := tag |}, st').
Proof.
  intros Has Hfit.
  destruct (Launch_total sym cfg inp tag st Has Hfit) as (ev & st' & E & ->).
  now exists st'.
Qed.

Lemma Launch_returns_event_witness :
  exists st' : DoDemul R,
    Launch sample_symbols (sample_config 4 2 1 4) (sample_inputs cx_zero) 8
           sample_state
    = Ok ({| event_type_ := kDemul; tags_ := 8 |}, st').
Proof.
  apply (Launch_returns_event sample_symbols (sample_config 4 2 1 4)
           (sample_inputs cx_zero) 8 (sample_state (F := R))).
  - right. reflexivity.
  - discriminate.
Defined.

(** X2.  The only ways a task fails: the alignment assertion, exactly when
    it is compiled in and [max_sc_ite] is not a multiple of the cache-line
    width; and a misaligned vector store, only in a build for AVX-512 that
    takes the vector gather with a number of antennas that is not a multiple
    of 8.  No loop of the task runs without end. *)
Theorem Launch_failure_modes {F : Type} {ops : FloatOps F}
        (sym : Symbols) (cfg : Config) (inp : Inputs F)
        (tag : Z) (st : DoDemul F) (e : error) :
  Launch sym cfg inp tag st = Err e ->
  (e = AssertFail /\ NDEBUG sym = false
   /\ max_sc_ite cfg (sc_id_ inp tag) mod kSCsPerCacheline <> 0)
  \/ (e = Misaligned /\ AVX512F sym = true /\ simd_guard sym cfg = true
      /\ BsAntNum cfg mod 8 <> 0).
Proof.
  intros H. destruct (Launch_fails sym cfg inp tag st e H)
    as [(-> & N & A)|(-> & G)].
  - left. split; [reflexivity|]. split; [assumption|].
    unfold launch_assertion in A. now apply Z.eqb_neq.
  - right. split; [reflexivity|].
    destruct (AVX512F sym) eqn:A.
    + split; [reflexivity|]. split; [assumption|]. intros H8.
      assert (Has : NDEBUG sym = true
                    \/ launch_assertion cfg (sc_id_ inp tag) = true).
      { destruct (NDEBUG sym) eqn:N; [now left|right].
        destruct (launch_assertion cfg (sc_id_ inp tag)) eqn:L; [reflexivity|].
        exfalso. unfold Launch, bind, assert_ in H.
        cbn [GetTime_WorkerRdtsc] in H. rewrite N, L in H. discriminate. }
      destruct (Launch_total sym cfg inp tag st Has) as (ev & st' & E & _).
      * intros _ _. exact H8.
      * congruence.
    + exfalso.
      assert (Has : NDEBUG sym = true
                    \/ launch_assertion cfg (sc_id_ inp tag) = true).
      { destruct (NDEBUG sym) eqn:N; [now left|right].
        destruct (launch_assertion cfg (sc_id_ inp tag)) eqn:L; [reflexivity|].
        exfalso. unfold Launch, bind, assert_ in H.
        cbn [GetTime_WorkerRdtsc] in H. rewrite N, L in H. discriminate. }
      destruct (Launch_total sym cfg inp tag st Has) as (ev & st' & E & _).
      * intros A'. rewrite A in A'. discriminate.
      * congruence.
Qed.

Lemma Launch_failure_modes_witness :
  (AssertFail = AssertFail /\ NDEBUG sample_symbols = false
   /\ max_sc_ite (sample_config 4 2 1 4)
                 (sc_id_ (sample_inputs (F := R) cx_zero) 12)
      mod kSCsPerCacheline <> 0)
  \/ (AssertFail = Misaligned /\ AVX512F sample_symbols = true
      /\ simd_guard sample_symbols (sample_config 4 2 1 4) = true
      /\ BsAntNum (sample_config 4 2 1 4) mod 8 <> 0).
Proof.
  apply (Launch_failure_modes sample_symbols (sample_config 4 2 1 4)
           (sample_inputs cx_zero) 12 (sample_state (F := R)) AssertFail).
  reflexivity.
Defined.

(** X3.  Built for AVX-512 with the partial-transpose layout, the gather
    faults for every number of antennas that is 4 more than a multiple of 8:
    the guard lets it take the vector pass, and the store of the second row
    of the first group of 8 antennas is at an address that is not a multiple
    of the register width. *)
Theorem gather_avx512_misaligned {T : Type} (sym : Symbols) (cfg : Config)
        (data_buf : buf T) (base_sc_id i : Z) (gbuf : buf T) :
  AVX512F sym = true -> kUsePartialTrans sym = true ->
  0 < BsAntNum cfg -> BsAntNum cfg mod 8 = 4 ->
  gather_stage sym cfg data_buf base_sc_id i gbuf = Err Misaligned.
Proof.
  intros A Hpt HB H8. unfold gather_stage.
  assert (H4 : BsAntNum cfg mod 4 = 0).
  { rewrite <- (Z.mod_mod_divide (BsAntNum cfg) 8 4) by (exists 2; reflexivity).
    now rewrite H8. }
  unfold simd_guard. rewrite Hpt, A. rewrite (proj2 (Z.eqb_eq _ _) H4).
  cbn [kUseSIMDGather andb].
  unfold gather_avx512, for_ at 1.
  destruct (Z.to_nat (BsAntNum cfg - 0)) as [|fuel] eqn:Efuel; [lia|].
  cbn [for_up]. destruct (Z.ltb_spec 0 (BsAntNum cfg)); [|lia].
  unfold bind at 1. unfold bind at 1.
  unfold for_, kSCsPerCacheline. change (Z.to_nat (8 - 0)) with 8%nat.
  cbn [for_up]. change (0 <? 8) with true. cbv iota.
  unfold bind at 1. unfold bind at 1. cbn [get g_dst g_src g_buf].
  unfold store_ps at 1. cbn [g_dst g_src g_buf].
  rewrite Z.mul_0_l, Z.add_0_l. change (0 mod 8 =? 0) with true. cbv iota.
  change (0 + 1 <? 8) with true. cbv iota.
  unfold bind at 1. unfold bind at 1. cbn [get g_dst g_src g_buf].
  unfold store_ps at 1. cbn [g_dst g_src g_buf].
  rewrite Z.add_0_l, Z.mul_1_l.
  rewrite H8. reflexivity.
Qed.

Lemma gather_avx512_misaligned_witness :
  gather_stage sample_symbols_avx512 (sample_config 20 2 0 2)
               (fun k => k) 0 0 (fun _ => 0) = Err Misaligned.
Proof.
  apply gather_avx512_misaligned; [reflexivity|reflexivity|reflexivity|].
  reflexivity.
Defined.

(** ** [Launch]: what a task leaves untouched *)

Ltac keep_field :=
  first
    [ progress (intros; cbn; assumption)
    | intros;
      unfold write_mat_equaled, write_demod, add_task_duration,
        incr_task_count;
      apply hoare_keep_modify; intros;
      try match goal with
          | |- context [if kExportConstellation ?s then _ else _] =>
              destruct (kExportConstellation s)
          end;
      cbn; assumption ].

(** X5.  A task of a data symbol (uplink symbol index not below the number
    of pilot symbols, which covers every task when no pilot symbol is
    configured) leaves the pilot-phase accumulators of every frame slot as
    they were. *)
Theorem Launch_data_symbol_keeps_pilot_table {F : Type} {ops : FloatOps F}
        (sym : Symbols) (cfg : Config) (inp : Inputs F)
        (tag : Z) (st st' : DoDemul F) (ev : EventData) :
  ClientUlPilotSymbols cfg <= GetULSymbolIdx cfg (symbol_id_ inp tag) ->
  Launch sym cfg inp tag st = Ok (ev, st') ->
  ue_spec_pilot_buffer_ st' = ue_spec_pilot_buffer_ st.
Proof.
  intros Hdata E.
  refine (Launch_keeps sym cfg inp tag
            (fun s => ue_spec_pilot_buffer_ s = ue_spec_pilot_buffer_ st)
            _ _ _ _ _ _ _ _ _ _ st ev st' eq_refl E); try keep_field.
  intros c m s Hlt. lia.
Qed.

Lemma Launch_data_symbol_keeps_pilot_table_witness :
  exists st' : DoDemul R,
    Launch sample_symbols (sample_config 4 2 1 4) (sample_inputs cx_zero)
           (2 ^ 16 + 8) sample_state
    = Ok ({| event_type_ := kDemul; tags_ := 2 ^ 16 + 8 |}, st')
    /\ ue_spec_pilot_buffer_ st' = ue_spec_pilot_buffer_ (sample_state (F := R)).
Proof.
  destruct (Launch_total sample_symbols (sample_config 4 2 1 4)
              (sample_inputs cx_zero) (2 ^ 16 + 8) (sample_state (F := R)))
    as (ev & st' & E & ->).
  - right. reflexivity.
  - discriminate.
  - exists st'. split; [exact E|].
    refine (Launch_data_symbol_keeps_pilot_table
              sample_symbols (sample_config 4 2 1 4) (sample_inputs cx_zero)
              (2 ^ 16 + 8) _ _ _ _ E).
    vm_compute. discriminate.
Defined.

(** X6.  A task touches the pilot-phase accumulators of its own frame slot
    and, if it is the task of pilot symbol 0 that starts at subcarrier 0,
    those of the slot [(frame_id - 1) % kFrameWnd]; those of every other
    slot are left as they were. *)
Theorem Launch_pilot_slots {F : Type} {ops : FloatOps F}
        (sym : Symbols) (cfg : Config) (inp : Inputs F)
        (tag : Z) (st st' : DoDemul F) (ev : EventData) (r : Z) :
  0 <= sc_id_ inp tag ->
  r <> frame_id_ inp tag mod kFrameWnd sym ->
  r <> wrap64 (frame_id_ inp tag - 1) mod kFrameWnd sym
  \/ GetULSymbolIdx cfg (symbol_id_ inp tag) <> 0
  \/ 0 < sc_id_ inp tag ->
  Launch sym cfg inp tag st = Ok (ev, st') ->
  ue_spec_pilot_buffer_ st' r = ue_spec_pilot_buffer_ st r.
Proof.
  intros Hbase Hown Hprev E.
  refine (Launch_keeps sym cfg inp tag
            (fun s => ue_spec_pilot_buffer_ s r = ue_spec_pilot_buffer_ st r)
            _ _ _ _ _ _ _ _ _ _ st ev st' eq_refl E); try keep_field.
  intros c m s _ (k & j & Hk & _ & Hj & ->) Hs.
  cbn [ue_spec_pilot_buffer_ set_ue_spec_pilot_buffer_].
  unfold calc_phase_shift. rewrite upd_other by assumption.
  destruct (Z.eqb_spec (GetULSymbolIdx cfg (symbol_id_ inp tag)) 0) as [H0|];
    [|exact Hs].
  destruct (Z.eqb_spec (sc_id_ inp tag + kSCsPerCacheline * k + j) 0) as [Hc|];
    [|exact Hs].
  cbn [andb]. unfold reset_previous_frame. rewrite upd_other; [exact Hs|].
  unfold kSCsPerCacheline in *. destruct Hprev as [H|[H|H]]; [exact H|lia|lia].
Qed.

Lemma Launch_pilot_slots_witness :
  exists st' : DoDemul R,
    Launch sample_symbols (sample_config 4 2 1 4) (sample_inputs cx_zero) 8
           sample_state
    = Ok ({| event_type_ := kDemul; tags_ := 8 |}, st')
    /\ ue_spec_pilot_buffer_ st' 39
       = ue_spec_pilot_buffer_ (sample_state (F := R)) 39.
Proof.
  destruct (Launch_total sample_symbols (sample_config 4 2 1 4)
              (sample_inputs cx_zero) 8 (sample_state (F := R)))
    as (ev & st' & E & ->).
  - right. reflexivity.
  - discriminate.
  - exists st'. split; [exact E|].
    refine (Launch_pilot_slots
              sample_symbols (sample_config 4 2 1 4) (sample_inputs cx_zero)
              8 _ _ _ 39 _ _ _ E).
    + vm_compute. discriminate.
    + vm_compute. discriminate.
    + right. right. reflexivity.
Defined.

(** X7.  The EVM statistics are called by the tasks of the first data
    symbol only (uplink symbol index equal to the number of pilot symbols,
    with at least one pilot symbol): every other task leaves them as they
    were. *)
Theorem Launch_evm_first_data_symbol_only {F : Type} {ops : FloatOps F}
        (sym : Symbols) (cfg : Config) (inp : Inputs F)
        (tag : Z) (st st' : DoDemul F) (ev : EventData) :
  ClientUlPilotSymbols cfg <= 0
  \/ GetULSymbolIdx cfg (symbol_id_ inp tag) <> ClientUlPilotSymbols cfg ->
  Launch sym cfg inp tag st = Ok (ev, st') ->
  phy_stats_ st' = phy_stats_ st.
Proof.
  intros Hnot E.
  refine (Launch_keeps sym cfg inp tag
            (fun s => phy_stats_ s = phy_stats_ st)
            _ _ _ _ _ _ _ _ _ _ st ev st' eq_refl E); try keep_field.
  intros x s HP Heq. lia.
Qed.

Lemma Launch_evm_first_data_symbol_only_witness :
  exists st' : DoDemul R,
    Launch sample_symbols (sample_config 4 2 1 4) (sample_inputs cx_zero) 8
           sample_state
    = Ok ({| event_type_ := kDemul; tags_ := 8 |}, st')
    /\ phy_stats_ st' = phy_stats_ (sample_state (F := R)).
Proof.
  destruct (Launch_total sample_symbols (sample_config 4 2 1 4)
              (sample_inputs cx_zero) 8 (sample_state (F := R)))
    as (ev & st' & E & ->).
  - right. reflexivity.
  - discriminate.
  - exists st'. split; [exact E|].
    refine (Launch_evm_first_data_symbol_only
              sample_symbols (sample_config 4 2 1 4) (sample_inputs cx_zero)
              8 _ _ _ _ E).
    right. vm_compute. discriminate.
Defined.

(** X8.  A task stores LLR bytes only in the rows
    [demod_buffers_[frame_id % kFrameWnd][symbol_idx_ul][i]] of the UEs
    [0 <= i < UeNum]: the row of every other frame slot, symbol or UE index
    is left as it was. *)
Theorem Launch_llr_rows {F : Type} {ops : FloatOps F}
        (sym : Symbols) (cfg : Config) (inp : Inputs F)
        (tag : Z) (st st' : DoDemul F) (ev : EventData) (slot symbol ue : Z) :
  slot <> frame_id_ inp tag mod kFrameWnd sym
  \/ symbol <> GetULSymbolIdx cfg (symbol_id_ inp tag)
  \/ ue < 0 \/ UeNum cfg <= ue ->
  Launch sym cfg inp tag st = Ok (ev, st') ->
  demod_buffers_ st' slot symbol ue = demod_buffers_ st slot symbol ue.
Proof.
  intros Hrow E.
  refine (Launch_keeps sym cfg inp tag
            (fun s => demod_buffers_ s slot symbol ue
                      = demod_buffers_ st slot symbol ue)
            _ _ _ _ _ _ _ _ _ _ st ev st' eq_refl E); try keep_field.
  intros i llr Hi. unfold write_demod. apply hoare_keep_modify.
  intros s Hs. cbn.
  destruct (Z.eq_dec slot (frame_id_ inp tag mod kFrameWnd sym)) as [->|Hs1];
    [|now rewrite upd_other].
  rewrite upd_same.
  destruct (Z.eq_dec symbol (GetULSymbolIdx cfg (symbol_id_ inp tag)))
    as [->|Hs2]; [|now rewrite upd_other].
  rewrite upd_same. rewrite upd_other; [exact Hs|].
  destruct Hrow as [H|[H|H]]; [congruence|congruence|lia].
Qed.

Lemma Launch_llr_rows_witness :
  exists st' : DoDemul R,
    Launch sample_symbols (sample_config 4 2 1 4) (sample_inputs cx_zero) 8
           sample_state
    = Ok ({| event_type_ := kDemul; tags_ := 8 |}, st')
    /\ demod_buffers_ st' 0 0 2 = demod_buffers_ (sample_state (F := R)) 0 0 2.
Proof.
  destruct (Launch_total sample_symbols (sample_config 4 2 1 4)
              (sample_inputs cx_zero) 8 (sample_state (F := R)))
    as (ev & st' & E & ->).
  - right. reflexivity.
  - discriminate.
  - exists st'. split; [exact E|].
    refine (Launch_llr_rows
              sample_symbols (sample_config 4 2 1 4) (sample_inputs cx_zero)
              8 _ _ _ 0 0 2 _ E).
    right. right. right. vm_compute. discriminate.
Defined.

(** X9.  Where a task of an aligned block writes equalized symbols.  With
    [kExportConstellation], only row [total_data_symbol_idx_ul] of the
    export buffer, at the offsets of its own subcarriers,
    [base_sc_id * UeNum] up to [(base_sc_id + max_sc_ite) * UeNum], and
    never the scratch buffer; without it, only the first
    [max_sc_ite * UeNum] entries of the scratch buffer, and never the export
    buffer. *)
Theorem Launch_equalized_region {F : Type} {ops : FloatOps F}
        (sym : Symbols) (cfg : Config) (inp : Inputs F)
        (tag : Z) (st st' : DoDemul F) (ev : EventData) :
  let base_sc_id := sc_id_ inp tag in
  let total :=
    GetTotalDataSymbolIdxUl cfg (frame_id_ inp tag)
                            (GetULSymbolIdx cfg (symbol_id_ inp tag)) in
  max_sc_ite cfg base_sc_id mod kSCsPerCacheline = 0 ->
  Launch sym cfg inp tag st = Ok (ev, st') ->
  (kExportConstellation sym = true ->
     equaled_buffer_temp_ st' = equaled_buffer_temp_ st
     /\ forall row z,
          row <> total \/ z < base_sc_id * UeNum cfg
          \/ (base_sc_id + max_sc_ite cfg base_sc_id) * UeNum cfg <= z ->
          equal_buffer_ st' row z = equal_buffer_ st row z)
  /\ (kExportConstellation sym = false ->
        equal_buffer_ st' = equal_buffer_ st
        /\ forall z,
             z < 0 \/ max_sc_ite cfg base_sc_id * UeNum cfg <= z ->
             equaled_buffer_temp_ st' z = equaled_buffer_temp_ st z).
Proof.
  intros base_sc_id total Hal E.
  refine (Launch_keeps sym cfg inp tag
            (fun s =>
               (kExportConstellation sym = true ->
                  equaled_buffer_temp_ s = equaled_buffer_temp_ st
                  /\ forall row z,
                       row <> total \/ z < base_sc_id * UeNum cfg
                       \/ (base_sc_id + max_sc_ite cfg base_sc_id) * UeNum cfg
                          <= z ->
                       equal_buffer_ s row z = equal_buffer_ st row z)
               /\ (kExportConstellation sym = false ->
                     equal_buffer_ s = equal_buffer_ st
                     /\ forall z,
                          z < 0 \/ max_sc_ite cfg base_sc_id * UeNum cfg <= z ->
                          equaled_buffer_temp_ s z = equaled_buffer_temp_ st z))
            _ _ _ _ _ _ _ _ _ _ st ev st' _ E); try keep_field.
  - intros c v (k & j & Hk & Hlt & Hj & ->) Hlen.
    unfold write_mat_equaled, equal_off. apply hoare_keep_modify.
    subst base_sc_id total.
    set (base := sc_id_ inp tag) in *.
    set (total := GetTotalDataSymbolIdxUl cfg (frame_id_ inp tag)
                    (GetULSymbolIdx cfg (symbol_id_ inp tag))) in *.
    assert (Hin : kSCsPerCacheline * k + j < max_sc_ite cfg base).
    { unfold kSCsPerCacheline in *.
      pose proof (Z.div_mod (max_sc_ite cfg base) 8 ltac:(lia)) as D.
      rewrite Hal in D. lia. }
    assert (Hnn : 0 <= kSCsPerCacheline * k + j)
      by (unfold kSCsPerCacheline in *; lia).
    intros s [He Ht]. destruct (kExportConstellation sym) eqn:X.
    + split; [|discriminate]. intros _. destruct (He eq_refl) as [He1 He2].
      split; [exact He1|]. intros row z Hz.
      cbn [equal_buffer_ set_equal_buffer_].
      destruct (Z.eq_dec row total) as [->|Hr];
        [|rewrite upd_other by assumption; apply He2; auto].
      rewrite upd_same. rewrite write_list_outside; [apply He2; auto|].
      destruct (Z_lt_le_dec (UeNum cfg) 0) as [Hneg|Hpos].
      * assert (length v = 0)%nat by lia. lia.
      * destruct Hz as [Hz|[Hz|Hz]]; [congruence|left; nia|right; nia].
    + split; [discriminate|]. intros _. destruct (Ht eq_refl) as [Ht1 Ht2].
      split; [exact Ht1|]. intros z Hz.
      cbn [equaled_buffer_temp_ set_equaled_buffer_temp_].
      rewrite write_list_outside; [apply Ht2; auto|].
      destruct (Z_lt_le_dec (UeNum cfg) 0) as [Hneg|Hpos].
      * assert (length v = 0)%nat by lia. lia.
      * destruct Hz as [Hz|Hz]; [left; nia|right; nia].
  - cbv beta. split; intros _; split; reflexivity.
Qed.

Lemma Launch_equalized_region_witness :
  exists st' : DoDemul R,
    Launch sample_symbols (sample_config 4 2 1 4) (sample_inputs cx_zero) 8
           sample_state
    = Ok ({| event_type_ := kDemul; tags_ := 8 |}, st')
    /\ equal_buffer_ st' = equal_buffer_ (sample_state (F := R))
    /\ equaled_buffer_temp_ st' 16
       = equaled_buffer_temp_ (sample_state (F := R)) 16.
Proof.
  destruct (Launch_total sample_symbols (sample_config 4 2 1 4)
              (sample_inputs cx_zero) 8 (sample_state (F := R)))
    as (ev & st' & E & ->).
  - right. reflexivity.
  - discriminate.
  - exists st'. split; [exact E|].
    destruct (Launch_equalized_region
                sample_symbols (sample_config 4 2 1 4) (sample_inputs cx_zero)
                8 _ _ _ eq_refl E) as [_ H].
    destruct (H eq_refl) as [H1 H2]. split; [exact H1|].
    apply H2. right. vm_compute. discriminate.
Defined.

(** ** [Launch]: the task counter *)

Section LaunchCount.
Context {F : Type} {ops : FloatOps F}.
Variable sym : Symbols.
Variable cfg : Config.
Variable inp : Inputs F.

Local Abbreviation count := (fun st : DoDemul F => task_count_ (duration_stat_ st)).

Lemma wrap64_succ (c : Z) (n : nat) :
  wrap64 (wrap64 (c + Z.of_nat n) + 1) = wrap64 (c + Z.of_nat (S n)).
Proof.
  unfold wrap64. rewrite Z.add_mod_idemp_l by lia. f_equal. lia.
Qed.

Lemma equalize_sc_count frame_id symbol_idx_ul total frame_slot base_sc_id
      k j (c : Z) :
  0 <= k -> kSCsPerCacheline * k < max_sc_ite cfg base_sc_id ->
  0 <= j < kSCsPerCacheline ->
  hoare (fun st => count st = c)
        (equalize_sc sym cfg inp frame_id symbol_idx_ul total frame_slot
                     base_sc_id (kSCsPerCacheline * k) j)
        (fun _ st => count st = wrap64 (c + 1)).
Proof.
  intros Hk Hlt Hj.
  assert (Hc : in_task cfg base_sc_id (base_sc_id + kSCsPerCacheline * k + j))
    by (exists k, j; auto).
  unfold equalize_sc.
  apply hoare_seq; [apply rdtsc_keeps; keep_field|]. intros t2.
  apply hoare_read. intros st.
  apply hoare_seq; [keep_field|]. intros _.
  apply hoare_seq.
  { apply (phase_track_keeps sym cfg inp frame_id symbol_idx_ul total
             base_sc_id (fun st => count st = c)); keep_field. }
  intros _.
  apply hoare_seq; [apply rdtsc_keeps; keep_field|]. intros t3.
  apply hoare_seq; [keep_field|]. intros _.
  unfold incr_task_count. apply hoare_modify. intros s Hs. cbn.
  now rewrite Hs.
Qed.

Lemma equalize_block_count frame_id symbol_idx_ul total frame_slot base_sc_id
      (c : Z) :
  0 <= c < 2 ^ 64 ->
  hoare (fun st => count st = c)
        (equalize_block sym cfg inp frame_id symbol_idx_ul total frame_slot
                        base_sc_id)
        (fun _ st =>
           count st
           = wrap64 (c + 8 * Z.of_nat (iterations 0 (max_sc_ite cfg base_sc_id)
                                                  kSCsPerCacheline))).
Proof.
  intros Hc. unfold equalize_block.
  eapply hoare_conseq.
  - apply (hoare_for (fun n st => count st = wrap64 (c + 8 * Z.of_nat n)));
      [reflexivity|].
    intros n Hn. apply iterations_lt in Hn; [|reflexivity].
    rewrite Z.add_0_l in *. rewrite (Z.mul_comm _ kSCsPerCacheline) in *.
    apply (hoare_seq (fun st => count st = wrap64 (c + 8 * Z.of_nat n))).
    { apply (gather_step_keeps sym cfg inp total base_sc_id
               (fun st => count st = wrap64 (c + 8 * Z.of_nat n)));
        keep_field. }
    intros _.
    eapply hoare_conseq.
    + apply (hoare_for
               (fun m st =>
                  count st = wrap64 (c + 8 * Z.of_nat n + Z.of_nat m)));
        [reflexivity|].
      intros m Hm. apply iterations_lt in Hm; [|reflexivity].
      rewrite Z.add_0_l, Z.mul_1_r in *.
      eapply hoare_conseq.
      * apply (equalize_sc_count frame_id symbol_idx_ul total frame_slot
                 base_sc_id (Z.of_nat n) (Z.of_nat m)
                 (wrap64 (c + 8 * Z.of_nat n + Z.of_nat m)));
          unfold kSCsPerCacheline in *; lia.
      * intros s Hs. exact Hs.
      * cbv beta. intros _ s Hs. rewrite Hs. apply wrap64_succ.
    + cbv beta. intros s Hs. rewrite Hs. f_equal. lia.
    + cbv beta. intros _ s Hs. rewrite Hs. rewrite iterations_unit.
      f_equal. unfold kSCsPerCacheline. lia.
  - cbv beta. intros s Hs. rewrite Hs. unfold wrap64.
    rewrite Z.mul_0_r, Z.add_0_r. symmetry. apply Z.mod_small. exact Hc.
  - cbv beta. intros _ s Hs. exact Hs.
Qed.

Lemma Launch_count (tag : Z) (c : Z) :
  0 <= c < 2 ^ 64 ->
  hoare (fun st => count st = c) (Launch sym cfg inp tag)
        (fun _ st =>
           count st
           = wrap64 (c + 8 * Z.of_nat (iterations 0
                                         (max_sc_ite cfg (sc_id_ inp tag))
                                         kSCsPerCacheline))).
Proof.
  intros Hc. unfold Launch.
  apply hoare_seq; [apply rdtsc_keeps; keep_field|]. intros start_tsc.
  apply hoare_seq.
  { destruct (NDEBUG sym); [apply hoare_keep_ret|].
    unfold assert_. destruct (launch_assertion cfg (sc_id_ inp tag));
      [apply hoare_keep_ret|apply hoare_raise]. }
  intros _.
  eapply hoare_bind; [now apply equalize_block_count|]. intros u. cbv beta.
  apply hoare_seq; [apply rdtsc_keeps; keep_field|]. intros start_tsc3.
  apply hoare_seq.
  { apply (demod_block_keeps sym cfg inp); keep_field. }
  intros _.
  apply hoare_seq; [apply rdtsc_keeps; keep_field|]. intros t3.
  apply hoare_seq; [keep_field|]. intros _.
  apply hoare_seq; [apply rdtsc_keeps; keep_field|]. intros t0.
  apply hoare_seq; [keep_field|]. intros _.
  apply hoare_keep_ret.
Qed.
End LaunchCount.

(** X4.  A task that runs to its end adds to the task counter of its
    duration statistics the number of subcarriers of the cache lines it went
    through, 8 per started line: [max_sc_ite] rounded up to a multiple of 8,
    which is [max_sc_ite] itself for a block that passes the alignment
    check.  The counter is a [size_t] and wraps. *)
Theorem Launch_task_count {F : Type} {ops : FloatOps F}
        (sym : Symbols) (cfg : Config) (inp : Inputs F)
        (tag : Z) (st : DoDemul F) :
  NDEBUG sym = true \/ launch_assertion cfg (sc_id_ inp tag) = true ->
  (AVX512F sym = true -> simd_guard sym cfg = true -> BsAntNum cfg mod 8 = 0) ->
  0 <= DemulBlockSize cfg ->
  0 <= task_count_ (duration_stat_ st) < 2 ^ 64 ->
  exists st',
    Launch sym cfg inp tag st
    = Ok ({| event_type_ := kDemul; tags_ := tag |}, st')
    /\ task_count_ (duration_stat_ st')
       = wrap64 (task_count_ (duration_stat_ st)
                 + 8 * ((max_sc_ite cfg (sc_id_ inp tag) + 7) / 8))
    /\ (launch_assertion cfg (sc_id_ inp tag) = true ->
        task_count_ (duration_stat_ st')
        = wrap64 (task_count_ (duration_stat_ st)
                  + max_sc_ite cfg (sc_id_ inp tag))).
Proof.
  intros Has Hfit Hblock Hc.
  destruct (Launch_total sym cfg inp tag st Has Hfit) as (ev & st' & E & ->).
  exists st'. split; [exact E|].
  pose proof (Launch_count sym cfg inp tag _ Hc st _ st' eq_refl E) as H.
  cbv beta in H.
  assert (Hmax : 0 <= max_sc_ite cfg (sc_id_ inp tag)).
  { unfold max_sc_ite, wrap64.
    pose proof (Z.mod_pos_bound (OfdmDataNum cfg - sc_id_ inp tag) (2 ^ 64)
                  ltac:(lia)). lia. }
  assert (Hit : Z.of_nat (iterations 0 (max_sc_ite cfg (sc_id_ inp tag))
                                     kSCsPerCacheline)
                = (max_sc_ite cfg (sc_id_ inp tag) + 7) / 8).
  { unfold iterations, kSCsPerCacheline. rewrite Z2Nat.id.
    - f_equal. lia.
    - apply Z.div_pos; lia. }
  rewrite Hit in H. split; [exact H|].
  intros Hal. rewrite H. f_equal. f_equal.
  unfold launch_assertion, kSCsPerCacheline in Hal. apply Z.eqb_eq in Hal.
  pose proof (Z.div_mod (max_sc_ite cfg (sc_id_ inp tag)) 8 ltac:(lia)) as D.
  rewrite Hal in D.
  replace (max_sc_ite cfg (sc_id_ inp tag) + 7)
    with (7 + (max_sc_ite cfg (sc_id_ inp tag) / 8) * 8) by lia.
  rewrite Z.div_add by lia. rewrite (Z.div_small 7 8) by lia. lia.
Qed.

Lemma Launch_task_count_witness :
  exists st' : DoDemul R,
    Launch sample_symbols (sample_config 4 2 1 4) (sample_inputs cx_zero) 8
           sample_state
    = Ok ({| event_type_ := kDemul; tags_ := 8 |}, st')
    /\ task_count_ (duration_stat_ st') = 8.
Proof.
  destruct (Launch_task_count sample_symbols (sample_config 4 2 1 4)
              (sample_inputs cx_zero) 8 (sample_state (F := R)))
    as (st' & E & H & _).
  - right. reflexivity.
  - discriminate.
  - cbn. lia.
  - cbn. lia.
  - exists st'. split; [exact E|]. rewrite H. reflexivity.
Defined.

(** ** The reset of the previous frame at frame 0 *)

(** X10.  At frame 0 the index [frame_id - 1] of the slot that the first
    pilot task resets wraps around as a [size_t]: the slot whose
    accumulators are zeroed is [(2^64 - 1) % kFrameWnd], and the last slot
    of the window, [kFrameWnd - 1], is left as it was unless [kFrameWnd]
    divides [2^64]. *)
Theorem reset_at_frame_zero {F : Type} {ops : FloatOps F}
        (sym : Symbols) (cfg : Config) (inp : Inputs F)
        (mat_equaled : list (complex_float F))
        (pilot : Z -> buf (complex_float F)) :
  1 < kFrameWnd sym ->
  2 ^ 64 mod kFrameWnd sym <> 0 ->
  let pilot' := calc_phase_shift sym cfg inp 0 0 0 mat_equaled pilot in
  pilot' (kFrameWnd sym - 1) = pilot (kFrameWnd sym - 1)
  /\ ((2 ^ 64 - 1) mod kFrameWnd sym <> 0 ->
      forall s u, 0 <= s < ClientUlPilotSymbols cfg -> 0 <= u < UeNum cfg ->
        pilot' ((2 ^ 64 - 1) mod kFrameWnd sym) (s * UeNum cfg + u) = cx_zero).
Proof.
  intros HW Hnd pilot'. subst pilot'.
  assert (Hprev : wrap64 (0 - 1) mod kFrameWnd sym
                  = (2 ^ 64 - 1) mod kFrameWnd sym) by reflexivity.
  assert (Hlast : (2 ^ 64 - 1) mod kFrameWnd sym <> kFrameWnd sym - 1).
  { intros H. apply Hnd.
    replace (2 ^ 64) with ((2 ^ 64 - 1) + 1) by lia.
    rewrite Z.add_mod by lia. rewrite H.
    rewrite (Z.mod_small 1) by lia.
    replace (kFrameWnd sym - 1 + 1) with (kFrameWnd sym) by lia.
    apply Z.mod_same. lia. }
  assert (H0 : 0 mod kFrameWnd sym = 0) by (apply Z.mod_0_l; lia).
  split.
  - apply calc_phase_shift_other.
    + rewrite H0. lia.
    + rewrite Hprev. congruence.
  - intros Hne s u Hs Hu. unfold calc_phase_shift.
    change ((0 =? 0) && (0 =? 0)) with true. cbv iota.
    rewrite H0. rewrite upd_other by assumption.
    rewrite <- Hprev. now apply reset_previous_frame_zero.
Qed.

Lemma reset_at_frame_zero_witness :
  let pilot : Z -> buf (complex_float R) := fun _ _ => mk_cx 1%R 0%R in
  let pilot' :=
    calc_phase_shift sample_symbols (sample_config 4 2 1 4)
                     (sample_inputs cx_zero) 0 0 0 [cx_zero; cx_zero] pilot in
  pilot' 39 = pilot 39 /\ pilot' 15 0 = cx_zero.
Proof.
  intros pilot pilot'.
  destruct (reset_at_frame_zero sample_symbols (sample_config 4 2 1 4)
              (sample_inputs cx_zero) [cx_zero; cx_zero] pilot) as [H1 H2].
  - cbn. lia.
  - vm_compute. discriminate.
  - split; [exact H1|].
    apply (H2 ltac:(vm_compute; discriminate) 0 0); cbn; lia.
Defined.

(** ** Phase tracking in exact arithmetic *)

Section ExactTracking.
Local Open Scope R_scope.
Variable cfg : Config.

Lemma telescope (g : Z -> R) (lo : Z) (n : nat) :
  forall (a : nat) (init : R),
    fold_left (fun sum s => sum + (g s - g (s - 1)%Z))
              (map (fun k => (lo + Z.of_nat k)%Z) (seq a n)) init
    = init + g (lo + Z.of_nat a + Z.of_nat n - 1)%Z
      - g (lo + Z.of_nat a - 1)%Z.
Proof.
  induction n as [|n IH]; intros a init.
  - cbn [seq map fold_left].
    replace (lo + Z.of_nat a + Z.of_nat 0 - 1)%Z
      with (lo + Z.of_nat a - 1)%Z by lia.
    ring.
  - cbn [seq map fold_left]. rewrite IH.
    replace (lo + Z.of_nat (S a) + Z.of_nat n - 1)%Z
      with (lo + Z.of_nat a + Z.of_nat (S n) - 1)%Z by lia.
    replace (lo + Z.of_nat (S a) - 1)%Z with (lo + Z.of_nat a)%Z by lia.
    ring.
Qed.

Lemma theta_inc_exact (pc : buf (complex_float R)) (u : Z) :
  (0 <= u < UeNum cfg)%Z ->
  (2 <= ClientUlPilotSymbols cfg <= 2 ^ 31)%Z ->
  nth (Z.to_nat u) (theta_inc cfg pc) 0
  = (cx_arg (pc ((ClientUlPilotSymbols cfg - 1) * UeNum cfg + u)%Z)
     - cx_arg (pc u))
    / IZR (ClientUlPilotSymbols cfg - 1).
Proof.
  intros Hu HP. unfold theta_inc.
  set (sum := fold_left _ _ (repeat f_zero _)).
  set (d := f_of_Z _).
  assert (Hsum := theta_sum_nth cfg pc u (zrange 1 (ClientUlPilotSymbols cfg))
                    Hu (repeat f_zero (Z.to_nat (UeNum cfg)))
                    (repeat_length _ _)).
  fold sum in Hsum. destruct Hsum as [Hlen Hnth].
  rewrite (nth_indep _ 0 (f_div 0 d)) by (rewrite length_map; lia).
  rewrite (map_nth (fun x => f_div x d)).
  change (@f_zero R (@float_arith R R_FloatOps)) with 0 in Hnth.
  rewrite Hnth. rewrite nth_repeat_same.
  unfold zrange.
  change (fun sum0 s =>
            f_add sum0
              (f_sub (spec_theta (fun s' => pc (s' * UeNum cfg + u)%Z) s)
                     (spec_theta (fun s' => pc (s' * UeNum cfg + u)%Z)
                                 (s - 1)%Z)))
    with (fun sum0 s =>
            sum0 + (spec_theta (fun s' => pc (s' * UeNum cfg + u)%Z) s
                    - spec_theta (fun s' => pc (s' * UeNum cfg + u)%Z)
                                 (s - 1)%Z)).
  rewrite (telescope (spec_theta (fun s' => pc (s' * UeNum cfg + u)%Z))).
  unfold spec_theta. subst d. cbn [f_div f_of_Z R_FloatOps].
  replace (to_int (wrap64 (ClientUlPilotSymbols cfg - 1)))
    with (ClientUlPilotSymbols cfg - 1)%Z.
  2:{ unfold wrap64, to_int.
      rewrite (Z.mod_small (ClientUlPilotSymbols cfg - 1)) by lia.
      rewrite Z.mod_small by lia. lia. }
  rewrite Z.max_r by lia.
  rewrite Z2Nat.id by lia.
  replace (1 + Z.of_nat 0 + (ClientUlPilotSymbols cfg - 1) - 1)%Z
    with (ClientUlPilotSymbols cfg - 1)%Z by lia.
  replace (1 + Z.of_nat 0 - 1)%Z with 0%Z by lia.
  rewrite Z.mul_0_l, Z.add_0_l. f_equal. ring.
Qed.
End ExactTracking.

(** X11.  In exact arithmetic, with at least two pilot symbols, the average
    phase increment of a UE is the phase of its last pilot accumulator minus
    the phase of its first one, divided by [P - 1]: the differences of the
    accumulators in between cancel.  The angle the correction would use at
    symbol [P - 1] is therefore the phase of the last accumulator. *)
Theorem theta_inc_telescopes (cfg : Config) (pc : buf (complex_float R))
        (u : Z) :
  0 <= u < UeNum cfg ->
  2 <= ClientUlPilotSymbols cfg <= 2 ^ 31 ->
  let P := ClientUlPilotSymbols cfg in
  nth (Z.to_nat u) (theta_inc cfg pc) 0%R
  = Rdiv (Rminus (cx_arg (pc ((P - 1) * UeNum cfg + u))) (cx_arg (pc u)))
         (IZR (P - 1))
  /\ nth (Z.to_nat u) (cur_theta cfg (P - 1) pc) 0%R
     = cx_arg (pc ((P - 1) * UeNum cfg + u)).
Proof.
  intros Hu HP P. split; [now apply theta_inc_exact|].
  unfold cur_theta.
  rewrite (nth_map2 f_add 0%R 0%R)
    by (rewrite ?length_map, ?theta_col_length, ?theta_inc_length; lia).
  rewrite (nth_indep (map _ (theta_inc cfg pc)) 0%R
                     (f_mul (f_of_Z (P - 1)) 0%R))
    by (rewrite length_map, theta_inc_length; lia).
  rewrite (map_nth (f_mul (f_of_Z (P - 1)))).
  rewrite theta_inc_exact by assumption.
  change (@f_zero R (@float_arith R R_FloatOps)) with 0%R.
  pose proof (theta_col_nth cfg pc 0 u Hu) as H0.
  change (@f_zero R (@float_arith R R_FloatOps)) with 0%R in H0.
  rewrite H0. unfold spec_theta. rewrite Z.mul_0_l, Z.add_0_l.
  cbn [f_add f_mul f_of_Z R_FloatOps R_FloatArith float_arith].
  fold P.
  assert (IZR (P - 1) <> 0%R).
  { apply not_0_IZR. subst P. lia. }
  field. assumption.
Qed.

Lemma theta_inc_telescopes_witness :
  let cfg := sample_config 4 2 3 4 in
  let pc : buf (complex_float R) := fun _ => mk_cx 0%R 1%R in
  nth 0 (cur_theta cfg 2 pc) 0%R = cx_arg (pc 4).
Proof.
  intros cfg pc.
  destruct (theta_inc_telescopes cfg pc 0) as [_ H].
  - cbn. lia.
  - cbn. lia.
  - exact H.
Defined.

(** X12.  In exact arithmetic the phase correction is a rotation: it leaves
    the modulus of every equalized symbol as it was. *)
Theorem phase_correct_keeps_modulus (cfg : Config) (symbol_idx_ul : Z)
        (pc : buf (complex_float R)) (mat_equaled : list (complex_float R))
        (u : nat) :
  length mat_equaled = Z.to_nat (UeNum cfg) ->
  (u < length mat_equaled)%nat ->
  let x := nth u mat_equaled cx_zero in
  let x' := nth u (phase_correct cfg symbol_idx_ul pc mat_equaled) cx_zero in
  (re x' * re x' + im x' * im x' = re x * re x + im x * im x)%R.
Proof.
  intros Hlen Hu x x'. subst x x'. unfold phase_correct.
  match goal with
  | |- context [map ?f (cur_theta _ _ _)] => set (rot := f)
  end.
  rewrite (nth_map2 cx_mul cx_zero (rot 0%R))
    by (rewrite ?length_map, ?cur_theta_length; lia).
  set (x := nth u mat_equaled cx_zero).
  rewrite (map_nth rot).
  set (t := nth u (cur_theta cfg symbol_idx_ul pc) 0%R).
  subst rot. cbv beta.
  cbn [cx_mul re im f_cos f_sin f_neg f_sub f_add f_mul R_FloatOps
       R_FloatArith float_arith].
  pose proof (sin2_cos2 (- t)) as H. unfold Rsqr in H.
  replace ((re x * cos (- t) - im x * sin (- t))
           * (re x * cos (- t) - im x * sin (- t))
           + (re x * sin (- t) + im x * cos (- t))
             * (re x * sin (- t) + im x * cos (- t)))%R
    with ((re x * re x + im x * im x)
          * (sin (- t) * sin (- t) + cos (- t) * cos (- t)))%R by ring.
  rewrite H. ring.
Qed.

Lemma phase_correct_keeps_modulus_witness :
  let cfg := sample_config 4 1 1 2 in
  let pc : buf (complex_float R) := fun _ => mk_cx 0%R 1%R in
  let x' := nth 0 (phase_correct cfg 1 pc [mk_cx 3%R 4%R]) cx_zero in
  (re x' * re x' + im x' * im x' = 3 * 3 + 4 * 4)%R.
Proof.
  intros cfg pc.
  apply (phase_correct_keeps_modulus cfg 1 pc [mk_cx 3%R 4%R] 0).
  - reflexivity.
  - cbn. lia.
Defined.

Lemma cx_sign_unit (a : complex_float R) :
  cx_sign a = cx_zero
  \/ (re (cx_sign a) * re (cx_sign a) + im (cx_sign a) * im (cx_sign a) = 1)%R.
Proof.
  destruct a as [x y]. unfold cx_sign, cx_abs.
  cbn [re im f_sqrt f_add f_mul f_div f_is_zero R_FloatOps R_FloatArith
       float_arith].
  set (r := sqrt (x * x + y * y)).
  assert (Hnn : (0 <= x * x + y * y)%R) by nra.
  destruct (Req_dec_T r 0) as [Hr|Hr].
  - left. apply sqrt_eq_0 in Hr; [|exact Hnn].
    assert (x = 0%R) by nra. assert (y = 0%R) by nra. subst. reflexivity.
  - right. cbn [re im].
    assert (Hsq : (r * r = x * x + y * y)%R) by (apply sqrt_sqrt; exact Hnn).
    field_simplify_eq; [|exact Hr]. nra.
Qed.

(** X13.  In exact arithmetic every contribution of a pilot subcarrier to a
    pilot-phase accumulator, [sign(mat_equaled % conj(pilot))], has modulus
    1, or is zero when the equalized symbol or the pilot is: the
    accumulators add up directions and are blind to the amplitude of the
    equalized symbols. *)
Theorem shift_sc_unit_modulus (cfg : Config) (inp : Inputs R) (cur_sc_id : Z)
        (mat_equaled : list (complex_float R)) :
  Forall (fun c => c = cx_zero \/ (re c * re c + im c * im c = 1)%R)
         (shift_sc cfg inp cur_sc_id mat_equaled).
Proof.
  unfold shift_sc. apply Forall_map. apply Forall_forall.
  intros a _. apply cx_sign_unit.
Qed.

(** ** The soft-demodulation stage *)

Section DemodStage.
Context {F : Type} {ops : FloatOps F}.
Variable sym : Symbols.
Variable cfg : Config.
Variable inp : Inputs F.

(** The transposition of one UE: four subcarriers per iteration, read with
    stride [UeNum] and stored side by side. *)
Lemma transpose_loop_spec (src : buf (complex_float F)) (max_sc : Z)
      (l0 : transpose_locals (complex_float F)) :
  exists l',
    transpose_loop cfg src max_sc l0 = Ok (tt, l')
    /\ forall z,
         t_buf l' z
         = if (t_equal_t_ptr l0 <=? z)
              && (z <? t_equal_t_ptr l0 + 4 * (max_sc / 4))
           then src (t_equal_ptr l0 + (z - t_equal_t_ptr l0) * UeNum cfg)
           else t_buf l0 z.
Proof.
  unfold transpose_loop.
  set (p0 := t_equal_t_ptr l0). set (e0 := t_equal_ptr l0).
  destruct (wp_for
    (fun j l =>
       t_equal_t_ptr l = p0 + 4 * Z.of_nat j
       /\ t_equal_ptr l = e0 + Z.of_nat j * (UeNum cfg * 4)
       /\ forall z,
            t_buf l z
            = if (p0 <=? z) && (z <? p0 + 4 * Z.of_nat j)
              then src (e0 + (z - p0) * UeNum cfg)
              else t_buf l0 z)
    0 (max_sc / 4) 1
    (fun j => modify (fun l : transpose_locals (complex_float F) =>
       {| t_equal_t_ptr := t_equal_t_ptr l + 4;
          t_equal_ptr := t_equal_ptr l + UeNum cfg * 4;
          t_buf := write_list (t_buf l) (t_equal_t_ptr l)
                     (read_strided src (t_equal_ptr l) (UeNum cfg) 4) |}))
    l0) as ([] & l' & E & Hp & He & Hb).
  - reflexivity.
  - split; [subst p0; lia|]. split; [subst e0; lia|].
    intros z. destruct (Z.leb_spec p0 z), (Z.ltb_spec z (p0 + 4 * Z.of_nat 0));
      try reflexivity; lia.
  - intros j l Hj (Hp & He & Hb). apply wp_modify.
    cbn [t_equal_t_ptr t_equal_ptr t_buf]. rewrite Hp, He.
    split; [lia|]. split; [lia|]. intros z.
    destruct (Z_lt_ge_dec z (p0 + 4 * Z.of_nat j)) as [Hlo|Hlo].
    + rewrite write_list_outside by lia. rewrite Hb.
      destruct (Z.leb_spec p0 z), (Z.ltb_spec z (p0 + 4 * Z.of_nat j)),
               (Z.ltb_spec z (p0 + 4 * Z.of_nat (S j)));
        try reflexivity; lia.
    + destruct (Z_lt_ge_dec z (p0 + 4 * Z.of_nat j + 4)) as [Hhi|Hhi].
      * replace z with (p0 + 4 * Z.of_nat j
                        + Z.of_nat (Z.to_nat (z - p0 - 4 * Z.of_nat j)))
          at 1 by lia.
        rewrite (write_list_inside (src 0))
          by (rewrite read_strided_length; lia).
        rewrite read_strided_nth by lia.
        destruct (Z.leb_spec p0 z), (Z.ltb_spec z (p0 + 4 * Z.of_nat (S j)));
          try lia.
        cbn [andb]. f_equal. rewrite Z2Nat.id by lia. lia.
      * rewrite write_list_outside
          by (rewrite read_strided_length; lia).
        rewrite Hb.
        destruct (Z.leb_spec p0 z), (Z.ltb_spec z (p0 + 4 * Z.of_nat j)),
                 (Z.ltb_spec z (p0 + 4 * Z.of_nat (S j)));
          try reflexivity; lia.
  - exists l'. split; [exact E|]. intros z. rewrite Hb.
    rewrite iterations_unit.
    destruct (Z_lt_ge_dec (max_sc / 4) 0) as [Hneg|Hpos].
    + replace (Z.of_nat (Z.to_nat (max_sc / 4))) with 0 by lia.
      destruct (Z.leb_spec p0 z), (Z.ltb_spec z (p0 + 4 * 0)),
               (Z.ltb_spec z (p0 + 4 * (max_sc / 4)));
        try reflexivity; lia.
    + rewrite Z2Nat.id by lia. reflexivity.
Qed.

Variable frame_slot symbol_idx_ul total base_sc_id : Z.
Variable K : buf (complex_float F) -> Z -> list Z.
Hypothesis HK : selected_kernel sym cfg inp = Some K.
Variable st0 : DoDemul F.

Local Abbreviation max_sc := (max_sc_ite cfg base_sc_id).
Local Abbreviation off := (ModOrderBits cfg * base_sc_id).

Local Abbreviation demod_inv :=
  (demod_inv sym cfg frame_slot symbol_idx_ul total base_sc_id K st0).

Lemma demod_ue_step (n : nat) (st : DoDemul F) :
  demod_inv n st ->
  wp (demod_ue sym cfg inp frame_slot symbol_idx_ul total base_sc_id max_sc
               (Z.of_nat n)) st
     (fun _ st' => demod_inv (S n) st').
Proof.
  intros (He & Ht & Hz & Hrest & Hdone). unfold demod_ue.
  apply wp_bind. apply wp_get. cbv beta.
  match goal with
  | |- context [transpose_loop cfg ?src ?m ?l] =>
      destruct (transpose_loop_spec src m l) as (l' & -> & Hl)
  end.
  cbn [t_equal_t_ptr t_equal_ptr t_buf] in Hl.
  apply wp_bind. apply wp_modify. cbv beta.
  assert (Htb : forall z,
            t_buf l' z
            = ue_symbols sym cfg total base_sc_id max_sc (Z.of_nat n) st0 z).
  { intros z. rewrite Hl. unfold ue_symbols.
    rewrite Z.add_0_l, Z.sub_0_r.
    destruct (Z.leb_spec 0 z), (Z.ltb_spec z (4 * (max_sc / 4)));
      cbn [andb]; try (apply Hz; lia).
    destruct (kExportConstellation sym).
    - rewrite He. f_equal. lia.
    - rewrite Ht. f_equal. lia. }
  assert (Hfinal : forall llr,
    wp (write_demod frame_slot symbol_idx_ul (Z.of_nat n) off llr)
       (set_equaled_buffer_temp_transposed_ (t_buf l') st)
       (fun _ st' =>
          equal_buffer_ st' = equal_buffer_ st0
          /\ equaled_buffer_temp_ st' = equaled_buffer_temp_ st0
          /\ (forall z, z < 0 \/ 4 * (max_sc / 4) <= z ->
                equaled_buffer_temp_transposed_ st' z
                = equaled_buffer_temp_transposed_ st0 z)
          /\ (forall i, Z.of_nat (S n) <= i ->
                demod_buffers_ st' frame_slot symbol_idx_ul i
                = demod_buffers_ st0 frame_slot symbol_idx_ul i)
          /\ (forall i, 0 <= i < Z.of_nat n ->
                exists tb,
                  (forall z,
                     tb z = ue_symbols sym cfg total base_sc_id max_sc i st0 z)
                  /\ forall z,
                       demod_buffers_ st' frame_slot symbol_idx_ul i z
                       = write_list
                           (demod_buffers_ st0 frame_slot symbol_idx_ul i)
                           off (K tb max_sc) z)
          /\ forall z,
               demod_buffers_ st' frame_slot symbol_idx_ul (Z.of_nat n) z
               = write_list
                   (demod_buffers_ st0 frame_slot symbol_idx_ul (Z.of_nat n))
                   off llr z)).
  { intros llr. unfold write_demod. apply wp_modify.
    cbn [equal_buffer_ equaled_buffer_temp_ equaled_buffer_temp_transposed_
         demod_buffers_ set_demod_buffers_ set_equaled_buffer_temp_transposed_].
    split; [exact He|]. split; [exact Ht|]. split.
    { intros z Hout. rewrite Hl. rewrite Z.add_0_l.
      destruct (Z.leb_spec 0 z), (Z.ltb_spec z (4 * (max_sc / 4)));
        cbn [andb]; try (apply Hz; lia). lia. }
    split.
    { intros i Hi. rewrite !upd_same. rewrite upd_other by lia.
      apply Hrest. lia. }
    split.
    { intros i Hi. rewrite !upd_same. rewrite upd_other by lia.
      now apply Hdone. }
    intros z. rewrite !upd_same. rewrite Hrest by lia. reflexivity. }
  assert (Hwrap : forall llr,
    llr = K (t_buf l') max_sc ->
    wp (write_demod frame_slot symbol_idx_ul (Z.of_nat n) off llr)
       (set_equaled_buffer_temp_transposed_ (t_buf l') st)
       (fun _ st' => demod_inv (S n) st')).
  { intros llr ->. eapply wp_conseq; [apply Hfinal|].
    cbv beta. intros _ st' (H1 & H2 & H3 & H4 & H5 & H6).
    unfold demod_inv. split; [exact H1|]. split; [exact H2|].
    split; [exact H3|]. split; [exact H4|].
    intros i Hi. destruct (Z.eq_dec i (Z.of_nat n)) as [->|Hne].
    - exists (t_buf l'). split; [exact Htb|exact H6].
    - apply H5. lia. }
  unfold selected_kernel in HK.
  destruct (ModOrderBits cfg =? kQpsk sym).
  { apply Hwrap. now injection HK as <-. }
  destruct (ModOrderBits cfg =? kQaM16 sym).
  { apply Hwrap. now injection HK as <-. }
  destruct (ModOrderBits cfg =? kQaM64 sym).
  { apply Hwrap. now injection HK as <-. }
  discriminate.
Qed.

Lemma demod_block_spec :
  wp (demod_block sym cfg inp frame_slot symbol_idx_ul total base_sc_id) st0
     (fun _ st' => demod_inv (Z.to_nat (UeNum cfg)) st').
Proof.
  unfold demod_block. rewrite <- iterations_unit.
  apply (wp_for demod_inv); [reflexivity| |].
  - unfold demod_inv. split; [reflexivity|]. split; [reflexivity|].
    split; [reflexivity|]. split; [reflexivity|]. intros i Hi. lia.
  - intros n st _ Hinv. rewrite Z.add_0_l, Z.mul_1_r.
    now apply demod_ue_step.
Qed.
End DemodStage.

(** X14.  The soft-demodulation stage, for a modulation order that has a
    kernel: for every UE [i] the kernel is called on the equalized symbols
    of that UE, one per subcarrier of the task in the order of the
    subcarriers ([max_sc_ite] of them, a multiple of 4), and the LLR bytes
    it returns are stored in [demod_buffers_[frame_slot][symbol_idx_ul][i]]
    from offset [ModOrderBits * base_sc_id] on; the rest of that row is left
    as it was. *)
Theorem demod_block_llr {F : Type} {ops : FloatOps F}
        (sym : Symbols) (cfg : Config) (inp : Inputs F)
        (frame_slot symbol_idx_ul total base_sc_id : Z)
        (K : buf (complex_float F) -> Z -> list Z) (st : DoDemul F) (i : Z) :
  selected_kernel sym cfg inp = Some K ->
  0 <= i < UeNum cfg ->
  exists st' tb,
    demod_block sym cfg inp frame_slot symbol_idx_ul total base_sc_id st
    = Ok (tt, st')
    /\ (forall z,
          tb z = ue_symbols sym cfg total base_sc_id
                            (max_sc_ite cfg base_sc_id) i st z)
    /\ forall z,
         demod_buffers_ st' frame_slot symbol_idx_ul i z
         = write_list (demod_buffers_ st frame_slot symbol_idx_ul i)
                      (ModOrderBits cfg * base_sc_id)
                      (K tb (max_sc_ite cfg base_sc_id)) z.
Proof.
  intros HK Hi.
  destruct (demod_block_spec sym cfg inp frame_slot symbol_idx_ul total
              base_sc_id K HK st) as ([] & st' & E & _ & _ & _ & _ & Hdone).
  destruct (Hdone i ltac:(lia)) as (tb & Htb & Hrow).
  exists st', tb. auto.
Qed.

Lemma demod_block_llr_witness :
  exists (st' : DoDemul R) tb,
    demod_block sample_symbols (sample_config 4 2 1 4) (sample_inputs cx_zero)
                0 1 1 8 sample_state = Ok (tt, st')
    /\ (forall z,
          tb z = ue_symbols sample_symbols (sample_config 4 2 1 4) 1 8
                            (max_sc_ite (sample_config 4 2 1 4) 8) 1
                            sample_state z)
    /\ forall z,
         demod_buffers_ st' 0 1 1 z
         = write_list (demod_buffers_ (sample_state (F := R)) 0 1 1)
                      (4 * 8)
                      (Demod16qamSoftAvx2 (sample_inputs cx_zero) tb
                         (max_sc_ite (sample_config 4 2 1 4) 8)) z.
Proof.
  apply (demod_block_llr sample_symbols (sample_config 4 2 1 4)
           (sample_inputs cx_zero) 0 1 1 8
           (Demod16qamSoftAvx2 (sample_inputs cx_zero))
           (sample_state (F := R)) 1).
  - reflexivity.
  - cbn. lia.
Defined.

(** ** [UeWorker::DoDemul] *)

(** X16.  [UeWorker::DoDemul], whatever the modulation order: when the
    enqueue succeeds it ends with its completion event,
    [EventData(EventType::kDemul, tag)] with the tag it was given, put once
    on the notify queue on top of what was there, and it has written no LLR
    row other than [demod_buffer_[frame_id % kFrameWnd][dl_symbol_id][ant_id]];
    when the enqueue fails, [RtAssert] stops it. *)
Theorem UeWorker_DoDemul_completion {F : Type} (sym : Symbols)
        (config_ : Config) (env : UeWorker.Env F) (tid_ tag : Z)
        (st : UeWorker.State) :
  (UeWorker.enqueue_succeeds env = true ->
   exists st',
     UeWorker.DoDemul sym config_ env tid_ tag st = Ok (tt, st')
     /\ UeWorker.notify_queue_ st'
        = {| event_type_ := kDemul; tags_ := tag |}
          :: UeWorker.notify_queue_ st
     /\ forall slot symbol ant,
          slot <> UeWorker.frame_id_ env tag mod kFrameWnd sym
          \/ symbol <> UeWorker.GetDLSymbolIdx env (UeWorker.symbol_id_ env tag)
          \/ ant <> UeWorker.ant_id_ env tag ->
          UeWorker.demod_buffer_ st' slot symbol ant
          = UeWorker.demod_buffer_ st slot symbol ant)
  /\ (UeWorker.enqueue_succeeds env = false ->
      UeWorker.DoDemul sym config_ env tid_ tag st = Err RtAssertFail).
Proof.
  unfold UeWorker.DoDemul, UeWorker.write_demod.
  set (slot0 := UeWorker.frame_id_ env tag mod kFrameWnd sym).
  set (sym0 := UeWorker.GetDLSymbolIdx env (UeWorker.symbol_id_ env tag)).
  set (ant0 := UeWorker.ant_id_ env tag).
  assert (Hrow : forall (cube : Z -> Z -> Z -> buf Z) row slot symbol ant,
            slot <> slot0 \/ symbol <> sym0 \/ ant <> ant0 ->
            upd cube slot0 (upd (cube slot0) sym0 (upd (cube slot0 sym0) ant0 row))
                slot symbol ant
            = cube slot symbol ant).
  { intros cube row slot symbol ant H.
    destruct (Z.eq_dec slot slot0) as [->|]; [|now rewrite upd_other].
    rewrite upd_same.
    destruct (Z.eq_dec symbol sym0) as [->|]; [|now rewrite upd_other].
    rewrite upd_same. rewrite upd_other; [reflexivity|].
    destruct H as [H|[H|H]]; congruence. }
  split; intros Henq; rewrite Henq.
  - destruct (ModOrderBits config_ =? kQpsk sym);
      [|destruct (ModOrderBits config_ =? kQaM16 sym);
        [|destruct (ModOrderBits config_ =? kQaM64 sym)]];
      (eexists; split; [reflexivity|]; split; [reflexivity|];
       intros slot symbol ant H; cbn [UeWorker.demod_buffer_];
       first [now apply Hrow | reflexivity]).
  - destruct (ModOrderBits config_ =? kQpsk sym);
      [|destruct (ModOrderBits config_ =? kQaM16 sym);
        [|destruct (ModOrderBits config_ =? kQaM64 sym)]];
      reflexivity.
Qed.

(** ** Millipede: return, failure and counters *)

Section MillipedeLaunch.
Context {F : Type} {arith : FloatArith F}.
Variable flags : Millipede.Flags.
Variable cfg : Millipede.Config.
Variable inp : Millipede.Inputs F.

Lemma millipede_wp_rdtsc (st : Millipede.DoDemul F)
      (Q : Z -> Millipede.DoDemul F -> Prop) :
  Q (Millipede.worker_rdtsc inp (Millipede.tsc_reads st))
    (Millipede.set_tsc_reads (S (Millipede.tsc_reads st)) st) ->
  wp (Millipede.rdtsc inp) st Q.
Proof. intros H. eexists _, _. split; [reflexivity|exact H]. Qed.

Ltac mwp :=
  first [ apply wp_bind | apply millipede_wp_rdtsc | apply wp_get
        | apply wp_gets | apply wp_modify | apply wp_ret ]; cbv beta.

Lemma millipede_gather_total total base i (st : Millipede.DoDemul F) :
  Millipede.BS_ANT_NUM cfg mod 4 = 0 ->
  wp (Millipede.gather_step cfg inp total base i) st (fun _ _ => True).
Proof.
  intros H4. unfold Millipede.gather_step. mwp. mwp.
  rewrite gather_avx2_pass.
  match goal with
  | |- context [simd_pass ?t ?b ?n ?rx {| g_src := ?s0; g_dst := 0; g_buf := ?g |}] =>
      assert (Hp : exists s', simd_pass t b n rx
                                {| g_src := s0; g_dst := 0; g_buf := g |}
                              = Ok (tt, s'))
  end.
  { destruct (Z_le_gt_dec (Millipede.BS_ANT_NUM cfg) 0) as [HB|HB].
    - eexists. apply simd_pass_empty; lia.
    - apply Z.mod_divide in H4; [|lia]. destruct H4 as [m Hm].
      edestruct (simd_pass_spec (Millipede.transpose_block_size cfg)
                   (Millipede.BS_ANT_NUM cfg)
                   (Millipede.data_buffer_ inp total 0) 4 m)
        as (s' & E & _); [lia|nia|exact Hm| |eexists; exact E].
      intros src j. apply read_strided_length. }
  destruct Hp as (s' & ->). now mwp.
Qed.

Lemma millipede_equalize_sc_total frame total base i j
      (st : Millipede.DoDemul F) :
  wp (Millipede.equalize_sc flags cfg inp frame total base i j) st
     (fun _ _ => True).
Proof.
  unfold Millipede.equalize_sc, Millipede.add_task_duration,
    Millipede.incr_task_count.
  mwp. mwp. mwp. mwp. mwp.
  destruct (Millipede.EXPORT_CONSTELLATION flags); mwp;
    mwp; mwp; mwp; mwp; mwp;
    (destruct (Millipede.USE_LDPC flags); mwp; repeat mwp; exact I).
Qed.

Lemma millipede_transpose_total (src : buf (complex_float F)) max_sc l :
  exists l', Millipede.transpose_loop cfg src max_sc l = Ok (tt, l').
Proof.
  unfold Millipede.transpose_loop.
  match goal with
  | |- exists l', for_ ?a ?b ?c ?body l = _ =>
      destruct (wp_for_keep (fun _ => True) a b c body l)
        as ([] & l' & E & _)
  end.
  - reflexivity.
  - exact I.
  - intros i l1 _. now apply wp_modify.
  - exists l'. exact E.
Qed.

Lemma millipede_soft_demod_total total base (st : Millipede.DoDemul F) :
  wp (Millipede.soft_demod_block flags cfg inp total base) st
     (fun _ _ => True).
Proof.
  unfold Millipede.soft_demod_block.
  destruct (Millipede.USE_LDPC flags); [|now apply wp_ret].
  mwp. mwp. apply wp_for_keep; [reflexivity|exact I|].
  intros i st1 _. unfold Millipede.soft_demod_ue. mwp. mwp.
  match goal with
  | |- context [Millipede.transpose_loop cfg ?src ?m ?l] =>
      destruct (millipede_transpose_total src m l) as (l' & ->)
  end.
  mwp. mwp. mwp. mwp.
  destruct (0 <? _); now mwp.
Qed.

Lemma millipede_launch_total (tag : Z) (st : Millipede.DoDemul F) :
  Millipede.BS_ANT_NUM cfg mod 4 = 0 ->
  wp (Millipede.launch flags cfg inp tag) st
     (fun ev _ => ev = {| event_type_ := kDemul; tags_ := tag |}).
Proof.
  intros H4. unfold Millipede.launch. mwp. mwp. mwp.
  apply (wp_conseq _ _ (fun _ _ => True)).
  { unfold Millipede.equalize_block.
    apply wp_for_keep; [reflexivity|exact I|].
    intros i st1 _. mwp. mwp. mwp.
    eapply wp_conseq; [now apply millipede_gather_total|].
    cbv beta. intros _ st2 _. mwp. mwp. mwp.
    unfold Millipede.add_task_duration. mwp.
    apply wp_for_keep; [reflexivity|exact I|].
    intros j st3 _. apply millipede_equalize_sc_total. }
  intros _ st1 _. mwp.
  eapply wp_conseq; [apply millipede_soft_demod_total|].
  cbv beta. intros _ st2 _. unfold Millipede.add_task_duration.
  repeat mwp. reflexivity.
Qed.

(** The vector pass of Millipede with a number of antennas that is not a
    multiple of 4: the store of the second row is misaligned. *)
Lemma gather_avx2_misaligned {T : Type} (tbs B : Z) (data_buf : buf T)
      (src : Z) (gbuf : buf T) :
  0 < B -> B mod 4 <> 0 ->
  gather_avx2 tbs B data_buf {| g_src := src; g_dst := 0; g_buf := gbuf |}
  = Err Misaligned.
Proof.
  intros HB H4. unfold gather_avx2, for_ at 1.
  destruct (Z.to_nat (B - 0)) as [|fuel] eqn:Efuel; [lia|].
  cbn [for_up]. destruct (Z.ltb_spec 0 B); [|lia].
  unfold bind at 1. unfold bind at 1.
  unfold for_, kSCsPerCacheline. change (Z.to_nat (8 - 0)) with 8%nat.
  cbn [for_up]. change (0 <? 8) with true. cbv iota.
  unfold bind at 1. unfold bind at 1. cbn [get g_dst g_src g_buf].
  unfold store_ps at 1. cbn [g_dst g_src g_buf].
  rewrite Z.mul_0_l, Z.add_0_l. change (0 mod 4 =? 0) with true. cbv iota.
  change (0 + 1 <? 8) with true. cbv iota.
  unfold bind at 1. unfold bind at 1. cbn [get g_dst g_src g_buf].
  unfold store_ps at 1. cbn [g_dst g_src g_buf].
  rewrite Z.add_0_l, Z.mul_1_l.
  destruct (Z.eqb_spec (B mod 4) 0); [contradiction|reflexivity].
Qed.
End MillipedeLaunch.

(** X22.  Millipede's [launch] runs to its end and returns
    [Event_data(EventType::kDemul, tag)] whenever the number of antennas is
    a multiple of 4, with or without [USE_LDPC] and
    [EXPORT_CONSTELLATION]. *)
Theorem millipede_launch_returns {F : Type} {arith : FloatArith F}
        (flags : Millipede.Flags) (cfg : Millipede.Config)
        (inp : Millipede.Inputs F) (tag : Z) (st : Millipede.DoDemul F) :
  Millipede.BS_ANT_NUM cfg mod 4 = 0 ->
  exists st',
    Millipede.launch flags cfg inp tag st
    = Ok ({| event_type_ := kDemul; tags_ := tag |}, st').
Proof.
  intros H4.
  destruct (millipede_launch_total flags cfg inp tag st H4)
    as (ev & st' & E & ->).
  now exists st'.
Qed.

Lemma millipede_launch_returns_witness :
  exists st',
    Millipede.launch (millipede_flags true) millipede_config millipede_inputs
                     0 millipede_state
    = Ok ({| event_type_ := kDemul; tags_ := 0 |}, st').
Proof.
  apply (millipede_launch_returns (millipede_flags true) millipede_config
           millipede_inputs 0 millipede_state).
  reflexivity.
Defined.

(** X23.  Millipede's gather loop has no guard on the number of antennas:
    with a positive number of antennas that is not a multiple of 4, every
    task that has at least one cache line to go through faults on the
    aligned store of the second row of its first line. *)
Theorem millipede_launch_misaligned {F : Type} {arith : FloatArith F}
        (flags : Millipede.Flags) (cfg : Millipede.Config)
        (inp : Millipede.Inputs F) (tag : Z) (st : Millipede.DoDemul F) :
  0 < Millipede.BS_ANT_NUM cfg ->
  Millipede.BS_ANT_NUM cfg mod 4 <> 0 ->
  8 <= Millipede.max_sc_ite cfg (Millipede.sc_id inp tag) ->
  Millipede.launch flags cfg inp tag st = Err Misaligned.
Proof.
  intros HB H4 Hmax. unfold Millipede.launch.
  unfold bind at 1. cbn [Millipede.rdtsc].
  unfold bind at 1. unfold Millipede.equalize_block, for_.
  set (q := Z.quot (Millipede.max_sc_ite cfg (Millipede.sc_id inp tag)) 8).
  assert (Hq : 1 <= q).
  { subst q. apply Z.quot_le_lower_bound; lia. }
  destruct (Z.to_nat (q - 0)) as [|fuel] eqn:Efuel; [lia|].
  cbn [for_up]. destruct (Z.ltb_spec 0 q); [|lia].
  unfold bind at 1. unfold bind at 1. cbn [Millipede.rdtsc].
  unfold bind at 1. unfold Millipede.gather_step.
  unfold bind at 1. cbn [get].
  rewrite gather_avx2_misaligned by assumption. reflexivity.
Qed.

Lemma millipede_launch_misaligned_witness :
  Millipede.launch (millipede_flags true) (millipede_config_with 6)
                   millipede_inputs 0 millipede_state
  = Err Misaligned.
Proof.
  apply millipede_launch_misaligned.
  - reflexivity.
  - vm_compute. discriminate.
  - vm_compute. discriminate.
Defined.

(** ** Millipede: what a task keeps *)

Section MillipedeKeeps.
Context {F : Type} {arith : FloatArith F}.
Variable flags : Millipede.Flags.
Variable cfg : Millipede.Config.
Variable inp : Millipede.Inputs F.
Variable I : Millipede.DoDemul F -> Prop.

Hypothesis I_tsc : forall v st, I st -> I (Millipede.set_tsc_reads v st).
Hypothesis I_duration : forall k d,
  hoare I (Millipede.add_task_duration (F := F) k d) (fun _ => I).
Hypothesis I_count : hoare I (Millipede.incr_task_count (F := F)) (fun _ => I).
Hypothesis I_spm : forall v st, I st -> I (Millipede.set_spm_buffer v st).
Hypothesis I_export : forall v st,
  Millipede.EXPORT_CONSTELLATION flags = true -> I st ->
  I (Millipede.set_equal_buffer_ v st).
Hypothesis I_scratch : forall v st,
  Millipede.EXPORT_CONSTELLATION flags = false -> I st ->
  I (Millipede.set_equaled_buffer_temp v st).
Hypothesis I_hard : forall v st,
  Millipede.USE_LDPC flags = false -> I st ->
  I (Millipede.set_demod_hard_buffer_ v st).
Hypothesis I_soft : forall v st,
  Millipede.USE_LDPC flags = true -> I st ->
  I (Millipede.set_demod_soft_buffer_ v st).
Hypothesis I_transposed : forall v p st,
  Millipede.USE_LDPC flags = true -> I st ->
  I (Millipede.set_transposed v p st).

Lemma millipede_rdtsc_keeps : hoare I (Millipede.rdtsc inp) (fun _ => I).
Proof.
  intros s a s' HI E. unfold Millipede.rdtsc in E.
  injection E as <- <-. now apply I_tsc.
Qed.

Lemma millipede_equalize_sc_keeps frame total base i j :
  hoare I (Millipede.equalize_sc flags cfg inp frame total base i j)
        (fun _ => I).
Proof.
  unfold Millipede.equalize_sc.
  apply hoare_seq; [apply millipede_rdtsc_keeps|]. intros t2.
  apply hoare_read. intros st.
  apply hoare_seq.
  { destruct (Millipede.EXPORT_CONSTELLATION flags) eqn:X;
      apply hoare_keep_modify; intros s Hs; auto. }
  intros _.
  apply hoare_seq; [apply millipede_rdtsc_keeps|]. intros t3.
  apply hoare_seq; [apply I_duration|]. intros _.
  apply hoare_seq.
  { destruct (Millipede.USE_LDPC flags) eqn:L; [apply hoare_keep_ret|].
    apply hoare_keep_modify. intros s Hs. auto. }
  intros _.
  apply hoare_seq; [apply millipede_rdtsc_keeps|]. intros t.
  apply hoare_seq; [apply I_duration|]. intros _.
  apply I_count.
Qed.

Lemma millipede_gather_step_keeps total base i :
  hoare I (Millipede.gather_step cfg inp total base i) (fun _ => I).
Proof.
  unfold Millipede.gather_step. apply hoare_read. intros st.
  match goal with
  | |- context [gather_avx2 ?t ?b ?d ?l] =>
      destruct (gather_avx2 t b d l) as [[[] l']|e]
  end; [|apply hoare_raise].
  apply hoare_keep_modify. intros s Hs. now apply I_spm.
Qed.

Lemma millipede_soft_demod_keeps total base :
  hoare I (Millipede.soft_demod_block flags cfg inp total base) (fun _ => I).
Proof.
  unfold Millipede.soft_demod_block.
  destruct (Millipede.USE_LDPC flags) eqn:L; [|apply hoare_keep_ret].
  apply hoare_seq.
  { apply hoare_keep_modify. intros s Hs. now apply I_transposed. }
  intros _. apply hoare_for_each; [reflexivity|].
  intros i Hi Hlt. unfold Millipede.soft_demod_ue.
  apply hoare_read. intros st.
  match goal with
  | |- context [Millipede.transpose_loop cfg ?src ?m ?l] =>
      destruct (Millipede.transpose_loop cfg src m l) as [[[] l']|e]
  end; [|apply hoare_raise].
  apply hoare_seq.
  { apply hoare_keep_modify. intros s Hs. now apply I_transposed. }
  intros _.
  apply hoare_seq.
  { apply hoare_keep_modify. intros s Hs. now apply I_soft. }
  intros _.
  destruct (0 <? _); [|apply hoare_keep_ret].
  apply hoare_keep_modify. intros s Hs. now apply I_soft.
Qed.

Lemma millipede_launch_keeps tag :
  hoare I (Millipede.launch flags cfg inp tag) (fun _ => I).
Proof.
  unfold Millipede.launch.
  apply hoare_seq; [apply millipede_rdtsc_keeps|]. intros start_tsc.
  apply hoare_seq.
  { unfold Millipede.equalize_block. apply hoare_for_each; [reflexivity|].
    intros i Hi Hlt.
    apply hoare_seq; [apply millipede_rdtsc_keeps|]. intros t1.
    apply hoare_seq; [apply millipede_gather_step_keeps|]. intros _.
    apply hoare_seq; [apply millipede_rdtsc_keeps|]. intros t.
    apply hoare_seq; [apply I_duration|]. intros _.
    apply hoare_for_each; [reflexivity|].
    intros j Hj Hjlt. apply millipede_equalize_sc_keeps. }
  intros _.
  apply hoare_seq; [apply millipede_soft_demod_keeps|]. intros _.
  apply hoare_seq; [apply millipede_rdtsc_keeps|]. intros t.
  apply hoare_seq; [apply I_duration|]. intros _.
  apply hoare_keep_ret.
Qed.
End MillipedeKeeps.

Ltac millipede_keep :=
  first
    [ progress (intros; cbn; assumption)
    | intros; unfold Millipede.add_task_duration, Millipede.incr_task_count;
      apply hoare_keep_modify; intros; cbn; assumption
    | intros; congruence ].

(** X24.  In Millipede the two demodulations exclude each other: built with
    [USE_LDPC], a task writes no hard decision; built without it, a task
    writes no LLR byte and leaves the transposed buffer alone. *)
Theorem millipede_hard_or_soft {F : Type} {arith : FloatArith F}
        (flags : Millipede.Flags) (cfg : Millipede.Config)
        (inp : Millipede.Inputs F) (tag : Z)
        (st st' : Millipede.DoDemul F) (ev : EventData) :
  Millipede.launch flags cfg inp tag st = Ok (ev, st') ->
  (Millipede.USE_LDPC flags = true ->
     Millipede.demod_hard_buffer_ st' = Millipede.demod_hard_buffer_ st)
  /\ (Millipede.USE_LDPC flags = false ->
        Millipede.demod_soft_buffer_ st' = Millipede.demod_soft_buffer_ st
        /\ Millipede.equaled_buffer_temp_transposed st'
           = Millipede.equaled_buffer_temp_transposed st).
Proof.
  intros E. split; intros L.
  - refine (millipede_launch_keeps flags cfg inp
              (fun s => Millipede.demod_hard_buffer_ s
                        = Millipede.demod_hard_buffer_ st)
              _ _ _ _ _ _ _ _ _ tag st ev st' eq_refl E); millipede_keep.
  - refine (millipede_launch_keeps flags cfg inp
              (fun s => Millipede.demod_soft_buffer_ s
                        = Millipede.demod_soft_buffer_ st
                        /\ Millipede.equaled_buffer_temp_transposed s
                           = Millipede.equaled_buffer_temp_transposed st)
              _ _ _ _ _ _ _ _ _ tag st ev st' (conj eq_refl eq_refl) E);
      millipede_keep.
Qed.

Lemma millipede_hard_or_soft_witness :
  exists st',
    Millipede.launch (millipede_flags true) millipede_config millipede_inputs
                     0 millipede_state
    = Ok ({| event_type_ := kDemul; tags_ := 0 |}, st')
    /\ Millipede.demod_hard_buffer_ st'
       = Millipede.demod_hard_buffer_ millipede_state.
Proof.
  destruct (millipede_launch_total (millipede_flags true) millipede_config
              millipede_inputs 0 millipede_state eq_refl)
    as (ev & st' & E & ->).
  exists st'. split; [exact E|].
  destruct (millipede_hard_or_soft (millipede_flags true) millipede_config
              millipede_inputs 0 millipede_state st' _ E) as [H _].
  apply H. reflexivity.
Defined.

Section MillipedeCount.
Context {F : Type} {arith : FloatArith F}.
Variable flags : Millipede.Flags.
Variable cfg : Millipede.Config.
Variable inp : Millipede.Inputs F.

Local Abbreviation mcount :=
  (fun st : Millipede.DoDemul F => task_count_ (Millipede.duration_stat st)).

Lemma millipede_equalize_sc_count frame total base i j (c : Z) :
  hoare (fun st => mcount st = c)
        (Millipede.equalize_sc flags cfg inp frame total base i j)
        (fun _ st => mcount st = wrap64 (c + 1)).
Proof.
  unfold Millipede.equalize_sc.
  apply hoare_seq; [apply millipede_rdtsc_keeps; millipede_keep|]. intros t2.
  apply hoare_read. intros st.
  apply hoare_seq.
  { destruct (Millipede.EXPORT_CONSTELLATION flags);
      apply hoare_keep_modify; intros s Hs; exact Hs. }
  intros _.
  apply hoare_seq; [apply millipede_rdtsc_keeps; millipede_keep|]. intros t3.
  apply hoare_seq; [millipede_keep|]. intros _.
  apply hoare_seq.
  { destruct (Millipede.USE_LDPC flags); [apply hoare_keep_ret|].
    apply hoare_keep_modify. intros s Hs. exact Hs. }
  intros _.
  apply hoare_seq; [apply millipede_rdtsc_keeps; millipede_keep|]. intros t.
  apply hoare_seq; [millipede_keep|]. intros _.
  unfold Millipede.incr_task_count. apply hoare_modify. intros s Hs. cbn.
  now rewrite Hs.
Qed.

Lemma millipede_launch_count (tag : Z) (c : Z) :
  0 <= c < 2 ^ 64 ->
  hoare (fun st => mcount st = c) (Millipede.launch flags cfg inp tag)
        (fun _ st =>
           mcount st
           = wrap64 (c + 8 * Z.of_nat
                       (iterations 0
                          (Z.quot (Millipede.max_sc_ite cfg
                                     (Millipede.sc_id inp tag)) 8) 1))).
Proof.
  intros Hc. unfold Millipede.launch.
  apply hoare_seq; [apply millipede_rdtsc_keeps; millipede_keep|].
  intros start_tsc.
  eapply hoare_bind.
  { unfold Millipede.equalize_block.
    eapply hoare_conseq.
    - apply (hoare_for (fun n st => mcount st = wrap64 (c + 8 * Z.of_nat n)));
        [reflexivity|].
      intros n Hn.
      apply (hoare_seq (fun st => mcount st = wrap64 (c + 8 * Z.of_nat n)));
        [apply millipede_rdtsc_keeps; millipede_keep|]. intros t1.
      apply (hoare_seq (fun st => mcount st = wrap64 (c + 8 * Z.of_nat n)));
        [apply millipede_gather_step_keeps; millipede_keep|]. intros _.
      apply (hoare_seq (fun st => mcount st = wrap64 (c + 8 * Z.of_nat n)));
        [apply millipede_rdtsc_keeps; millipede_keep|]. intros t.
      apply (hoare_seq (fun st => mcount st = wrap64 (c + 8 * Z.of_nat n)));
        [millipede_keep|]. intros _.
      eapply hoare_conseq.
      + apply (hoare_for
                 (fun m st =>
                    mcount st = wrap64 (c + 8 * Z.of_nat n + Z.of_nat m)));
          [reflexivity|].
        intros m Hm.
        eapply hoare_conseq.
        * apply (millipede_equalize_sc_count _ _ _ _ _
                   (wrap64 (c + 8 * Z.of_nat n + Z.of_nat m))).
        * intros s Hs. exact Hs.
        * cbv beta. intros _ s Hs. rewrite Hs. apply wrap64_succ.
      + cbv beta. intros s Hs. rewrite Hs. f_equal. lia.
      + cbv beta. intros _ s Hs. rewrite Hs. rewrite iterations_unit.
        f_equal. lia.
    - cbv beta. intros s Hs. rewrite Hs. unfold wrap64.
      rewrite Z.mul_0_r, Z.add_0_r. symmetry. apply Z.mod_small. exact Hc.
    - cbv beta. intros a s Hs. exact Hs. }
  intros u. cbv beta.
  apply hoare_seq.
  { apply (millipede_soft_demod_keeps flags cfg inp); millipede_keep. }
  intros _.
  apply hoare_seq; [apply millipede_rdtsc_keeps; millipede_keep|]. intros t.
  apply hoare_seq; [millipede_keep|]. intros _.
  apply hoare_keep_ret.
Qed.
End MillipedeCount.

(** X25.  Millipede has no alignment check: a task goes through
    [max_sc_ite / 8] cache lines, the quotient rounded down, and counts 8
    subcarriers for each, so that a task that returns has added
    [max_sc_ite] rounded down to a multiple of 8 to the task counter; the
    subcarriers past the last whole line are not counted. *)
Theorem millipede_task_count {F : Type} {arith : FloatArith F}
        (flags : Millipede.Flags) (cfg : Millipede.Config)
        (inp : Millipede.Inputs F) (tag : Z) (st : Millipede.DoDemul F) :
  Millipede.BS_ANT_NUM cfg mod 4 = 0 ->
  0 <= Millipede.max_sc_ite cfg (Millipede.sc_id inp tag) ->
  0 <= task_count_ (Millipede.duration_stat st) < 2 ^ 64 ->
  exists st',
    Millipede.launch flags cfg inp tag st
    = Ok ({| event_type_ := kDemul; tags_ := tag |}, st')
    /\ task_count_ (Millipede.duration_stat st')
       = wrap64 (task_count_ (Millipede.duration_stat st)
                 + 8 * (Millipede.max_sc_ite cfg (Millipede.sc_id inp tag) / 8)).
Proof.
  intros H4 Hmax Hc.
  destruct (millipede_launch_total flags cfg inp tag st H4)
    as (ev & st' & E & ->).
  exists st'. split; [exact E|].
  rewrite (millipede_launch_count flags cfg inp tag _ Hc st _ st' eq_refl E).
  f_equal. f_equal. f_equal. rewrite iterations_unit.
  rewrite Z.quot_div_nonneg by lia. rewrite Z2Nat.id; [reflexivity|].
  apply Z.div_pos; lia.
Qed.

Lemma millipede_task_count_witness :
  exists st',
    Millipede.launch (millipede_flags true) millipede_config millipede_inputs
                     0 millipede_state
    = Ok ({| event_type_ := kDemul; tags_ := 0 |}, st')
    /\ task_count_ (Millipede.duration_stat st') = 8.
Proof.
  destruct (millipede_task_count (millipede_flags true) millipede_config
              millipede_inputs 0 millipede_state)
    as (st' & E & H).
  - reflexivity.
  - vm_compute. discriminate.
  - cbn. lia.
  - exists st'. split; [exact E|]. rewrite H. reflexivity.
Defined.

(** ** The uplink tasks of the client worker *)

Lemma zrange_snoc (lo hi : Z) :
  lo <= hi -> zrange lo (hi + 1) = zrange lo hi ++ [hi].
Proof.
  intros H. unfold zrange.
  replace (Z.to_nat (hi + 1 - lo)) with (S (Z.to_nat (hi - lo))) by lia.
  rewrite seq_S, map_app. cbn [map Nat.add]. f_equal. f_equal. lia.
Qed.

Lemma zrange_empty (lo : Z) : zrange lo lo = [].
Proof. unfold zrange. now rewrite Z.sub_diag. Qed.

Lemma map_seq_from {A} (g : nat -> A) (b : nat) :
  forall a, map g (seq a b) = map (fun k => g (a + k)%nat) (seq 0 b).
Proof.
  induction b as [|b IH]; intros a; [reflexivity|].
  cbn [seq map]. f_equal; [f_equal; lia|].
  rewrite IH. rewrite <- (seq_shift b 0), map_map.
  apply map_ext. intros k. f_equal. lia.
Qed.

Lemma zrange_app (lo mid hi : Z) :
  lo <= mid <= hi -> zrange lo hi = zrange lo mid ++ zrange mid hi.
Proof.
  intros H. unfold zrange.
  replace (Z.to_nat (hi - lo))
    with (Z.to_nat (mid - lo) + Z.to_nat (hi - mid))%nat by lia.
  rewrite seq_app, map_app. f_equal.
  rewrite map_seq_from. apply map_ext. intros k. lia.
Qed.

Section UeTasksProofs.
Context {F : Type} {arith : FloatArith F}.
Variable sym : Symbols.
Variable env : UeTasks.Env F.

Local Abbreviation C := (UeTasks.NumChannels env).
Local Abbreviation N := (UeTasks.NumBlocksInSymbol env).

Lemma post_ok (ev : UeTasks.EventData) (st : UeTasks.State F)
      (Q : unit -> UeTasks.State F -> Prop) :
  UeTasks.enqueue_succeeds env = true ->
  Q tt (UeTasks.set_notify_queue_ (ev :: UeTasks.notify_queue_ st) st) ->
  wp (UeTasks.post env ev) st Q.
Proof.
  intros Henq HQ. unfold UeTasks.post. rewrite Henq. now apply wp_modify.
Qed.

(** The code blocks of one antenna, in increasing order. *)
Lemma launch_blocks_encoder (f s base : Z) (st : UeTasks.State F) :
  0 <= N ->
  wp (for_ 0 N 1 (fun cb_id =>
        modify (fun st =>
          UeTasks.set_encoder_launched
            (UeTasks.FrmSymCb env f s (cb_id + base)
             :: UeTasks.encoder_launched st) st)))
     st
     (fun _ st' =>
        st' = UeTasks.set_encoder_launched
                (rev (map (UeTasks.FrmSymCb env f s) (zrange base (base + N)))
                 ++ UeTasks.encoder_launched st) st).
Proof.
  intros HN.
  eapply wp_conseq.
  - apply (wp_for
             (fun n st' =>
                st' = UeTasks.set_encoder_launched
                        (rev (map (UeTasks.FrmSymCb env f s)
                                  (zrange base (base + Z.of_nat n)))
                         ++ UeTasks.encoder_launched st) st));
      [reflexivity| |].
    + rewrite Z.add_0_r, zrange_empty. destruct st. reflexivity.
    + intros n st1 Hn ->. apply wp_modify.
      unfold UeTasks.set_encoder_launched.
      cbn [UeTasks.encoder_launched UeTasks.modul_buffer_
           UeTasks.ifft_buffer_ UeTasks.tx_data_ UeTasks.decoder_launched
           UeTasks.notify_queue_].
      f_equal.
      replace (base + Z.of_nat (S n)) with (base + Z.of_nat n + 1) by lia.
      rewrite zrange_snoc by lia. rewrite map_app, rev_app_distr.
      cbn [map rev app]. f_equal. f_equal. lia.
  - cbv beta. intros _ st' ->. rewrite iterations_unit.
    now rewrite Z2Nat.id by lia.
Qed.

Lemma DoEncodeUe_spec (tag : Z) (st : UeTasks.State F) :
  UeTasks.enqueue_succeeds env = true -> 0 <= C -> 0 <= N ->
  let f := UeTasks.frame_id_ env tag in
  let s := UeTasks.symbol_id_ env tag in
  let ue := UeTasks.ue_id_ env tag in
  UeTasks.DoEncodeUe env tag st
  = Ok (tt,
        UeTasks.set_notify_queue_
          ({| UeTasks.event_type_ := UeTasks.kEncode;
              UeTasks.tags_ := UeTasks.FrmSymUe env f s ue |}
           :: UeTasks.notify_queue_ st)
          (UeTasks.set_encoder_launched
             (rev (map (UeTasks.FrmSymCb env f s)
                       (zrange (ue * C * N) ((ue + 1) * C * N)))
              ++ UeTasks.encoder_launched st) st)).
Proof.
  intros Henq HC HN f s ue.
  assert (H : wp (UeTasks.DoEncodeUe env tag) st
                 (fun _ st' =>
                    st' = UeTasks.set_notify_queue_
                            ({| UeTasks.event_type_ := UeTasks.kEncode;
                                UeTasks.tags_ := UeTasks.FrmSymUe env f s ue |}
                             :: UeTasks.notify_queue_ st)
                            (UeTasks.set_encoder_launched
                               (rev (map (UeTasks.FrmSymCb env f s)
                                         (zrange (ue * C * N)
                                                 ((ue + 1) * C * N)))
                                ++ UeTasks.encoder_launched st) st))).
  { unfold UeTasks.DoEncodeUe. fold f s ue. apply wp_bind.
    eapply wp_conseq.
    - apply (wp_for
               (fun n st' =>
                  st' = UeTasks.set_encoder_launched
                          (rev (map (UeTasks.FrmSymCb env f s)
                                    (zrange (ue * C * N)
                                            (ue * C * N + Z.of_nat n * N)))
                           ++ UeTasks.encoder_launched st) st));
        [reflexivity| |].
      + rewrite Z.mul_0_l, Z.add_0_r, zrange_empty. destruct st. reflexivity.
      + intros n st1 Hn ->. rewrite Z.add_0_l, Z.mul_1_r.
        eapply wp_conseq.
        * apply (launch_blocks_encoder f s ((ue * C + Z.of_nat n) * N)).
          exact HN.
        * cbv beta. intros _ st2 ->.
          unfold UeTasks.set_encoder_launched.
          cbn [UeTasks.encoder_launched UeTasks.modul_buffer_
               UeTasks.ifft_buffer_ UeTasks.tx_data_ UeTasks.decoder_launched
               UeTasks.notify_queue_].
          f_equal. rewrite app_assoc, <- rev_app_distr, <- map_app. f_equal.
          f_equal. f_equal.
          rewrite (zrange_app (ue * C * N) ((ue * C + Z.of_nat n) * N)
                              (ue * C * N + Z.of_nat (S n) * N)) by nia.
          f_equal; f_equal; lia.
    - cbv beta. intros _ st1 ->. apply post_ok; [exact Henq|].
      rewrite iterations_unit, Z2Nat.id by lia.
      unfold UeTasks.set_notify_queue_, UeTasks.set_encoder_launched.
      cbn [UeTasks.encoder_launched UeTasks.modul_buffer_
           UeTasks.ifft_buffer_ UeTasks.tx_data_ UeTasks.decoder_launched
           UeTasks.notify_queue_].
      f_equal. f_equal. f_equal. f_equal. f_equal. lia. }
  destruct H as ([] & st' & E & ->). exact E.
Qed.

Lemma DoDecodeUe_spec (tag : Z) (st : UeTasks.State F) :
  UeTasks.enqueue_succeeds env = true -> 0 <= N ->
  let f := UeTasks.frame_id_ env tag in
  let s := UeTasks.symbol_id_ env tag in
  let ant := UeTasks.ant_id_ env tag in
  UeTasks.DoDecodeUe env tag st
  = Ok (tt,
        UeTasks.set_notify_queue_
          ({| UeTasks.event_type_ := UeTasks.kDecode;
              UeTasks.tags_ := UeTasks.FrmSymUe env f s ant |}
           :: UeTasks.notify_queue_ st)
          (UeTasks.set_decoder_launched
             (rev (map (UeTasks.FrmSymCb env f s)
                       (zrange (ant * N) ((ant + 1) * N)))
              ++ UeTasks.decoder_launched st) st)).
Proof.
  intros Henq HN f s ant.
  assert (H : wp (UeTasks.DoDecodeUe env tag) st
                 (fun _ st' =>
                    st' = UeTasks.set_notify_queue_
                            ({| UeTasks.event_type_ := UeTasks.kDecode;
                                UeTasks.tags_ := UeTasks.FrmSymUe env f s ant |}
                             :: UeTasks.notify_queue_ st)
                            (UeTasks.set_decoder_launched
                               (rev (map (UeTasks.FrmSymCb env f s)
                                         (zrange (ant * N) ((ant + 1) * N)))
                                ++ UeTasks.decoder_launched st) st))).
  { unfold UeTasks.DoDecodeUe. fold f s ant. apply wp_bind.
    eapply wp_conseq.
    - apply (wp_for
               (fun n st' =>
                  st' = UeTasks.set_decoder_launched
                          (rev (map (UeTasks.FrmSymCb env f s)
                                    (zrange (ant * N) (ant * N + Z.of_nat n)))
                           ++ UeTasks.decoder_launched st) st));
        [reflexivity| |].
      + rewrite Z.add_0_r, zrange_empty. destruct st. reflexivity.
      + intros n st1 Hn ->. apply wp_modify.
        unfold UeTasks.set_decoder_launched.
        cbn [UeTasks.encoder_launched UeTasks.modul_buffer_
             UeTasks.ifft_buffer_ UeTasks.tx_data_ UeTasks.decoder_launched
             UeTasks.notify_queue_].
        f_equal.
        replace (ant * N + Z.of_nat (S n)) with (ant * N + Z.of_nat n + 1)
          by lia.
        rewrite zrange_snoc by lia. rewrite map_app, rev_app_distr.
        cbn [map rev app]. f_equal. f_equal. lia.
    - cbv beta. intros _ st1 ->. apply post_ok; [exact Henq|].
      rewrite iterations_unit, Z2Nat.id by lia.
      unfold UeTasks.set_notify_queue_, UeTasks.set_decoder_launched.
      cbn [UeTasks.encoder_launched UeTasks.modul_buffer_
           UeTasks.ifft_buffer_ UeTasks.tx_data_ UeTasks.decoder_launched
           UeTasks.notify_queue_].
      f_equal. f_equal. f_equal. f_equal. f_equal. lia. }
  destruct H as ([] & st' & E & ->). exact E.
Qed.

End UeTasksProofs.

(** X17.  [UeWorker::DoEncodeUe] for user [ue_id] calls the encoder once for
    each code block of each channel of the user: the block indices
    [cb_id + ant_id * NumBlocksInSymbol], taken over the two nested loops,
    are the consecutive integers from [ue_id * NumChannels *
    NumBlocksInSymbol] up to (not including) [(ue_id + 1) * NumChannels *
    NumBlocksInSymbol], in increasing order, so that the blocks of two users
    never overlap.  It then posts one [kEncode] event tagged
    [FrmSymUe(frame_id, symbol_id, ue_id)] and changes nothing else. *)
Theorem DoEncodeUe_launches {F : Type} (env : UeTasks.Env F) (tag : Z)
        (st : UeTasks.State F) :
  UeTasks.enqueue_succeeds env = true ->
  0 <= UeTasks.NumChannels env -> 0 <= UeTasks.NumBlocksInSymbol env ->
  let f := UeTasks.frame_id_ env tag in
  let s := UeTasks.symbol_id_ env tag in
  let ue := UeTasks.ue_id_ env tag in
  let blocks := UeTasks.NumChannels env * UeTasks.NumBlocksInSymbol env in
  UeTasks.DoEncodeUe env tag st
  = Ok (tt,
        UeTasks.set_notify_queue_
          ({| UeTasks.event_type_ := UeTasks.kEncode;
              UeTasks.tags_ := UeTasks.FrmSymUe env f s ue |}
           :: UeTasks.notify_queue_ st)
          (UeTasks.set_encoder_launched
             (rev (map (UeTasks.FrmSymCb env f s)
                       (zrange (ue * blocks) ((ue + 1) * blocks)))
              ++ UeTasks.encoder_launched st) st)).
Proof.
  intros Henq HC HN f s ue blocks.
  rewrite (DoEncodeUe_spec env tag st Henq HC HN). fold f s ue.
  subst blocks. now rewrite !Z.mul_assoc.
Qed.

Lemma DoEncodeUe_launches_witness :
  exists st',
    UeTasks.DoEncodeUe sample_ue_env 1 sample_ue_state = Ok (tt, st')
    /\ UeTasks.encoder_launched st' = [11; 10; 9; 8; 7; 6].
Proof.
  eexists. split.
  - apply (DoEncodeUe_launches sample_ue_env 1 sample_ue_state);
      [reflexivity|cbn; lia|cbn; lia].
  - reflexivity.
Defined.

(** X18.  [UeWorker::DoDecodeUe] for antenna [ant_id] calls the decoder once
    for each code block of the antenna, the block indices
    [ant_id * NumBlocksInSymbol] up to (not including)
    [(ant_id + 1) * NumBlocksInSymbol] in increasing order, then posts one
    [kDecode] event tagged [FrmSymUe(frame_id, symbol_id, ant_id)], and
    changes nothing else. *)
Theorem DoDecodeUe_launches {F : Type} (env : UeTasks.Env F) (tag : Z)
        (st : UeTasks.State F) :
  UeTasks.enqueue_succeeds env = true ->
  0 <= UeTasks.NumBlocksInSymbol env ->
  let f := UeTasks.frame_id_ env tag in
  let s := UeTasks.symbol_id_ env tag in
  let ant := UeTasks.ant_id_ env tag in
  let N := UeTasks.NumBlocksInSymbol env in
  UeTasks.DoDecodeUe env tag st
  = Ok (tt,
        UeTasks.set_notify_queue_
          ({| UeTasks.event_type_ := UeTasks.kDecode;
              UeTasks.tags_ := UeTasks.FrmSymUe env f s ant |}
           :: UeTasks.notify_queue_ st)
          (UeTasks.set_decoder_launched
             (rev (map (UeTasks.FrmSymCb env f s)
                       (zrange (ant * N) ((ant + 1) * N)))
              ++ UeTasks.decoder_launched st) st)).
Proof.
  intros Henq HN f s ant N. exact (DoDecodeUe_spec env tag st Henq HN).
Qed.


Lemma DoDecodeUe_launches_witness :
  exists st',
    UeTasks.DoDecodeUe sample_ue_env 2 sample_ue_state = Ok (tt, st')
    /\ UeTasks.decoder_launched st' = [8; 7; 6].
Proof.
  eexists. split.
  - apply (DoDecodeUe_launches sample_ue_env 2 sample_ue_state);
      [reflexivity|cbn; lia].
  - reflexivity.
Defined.

Section UeModulProofs.
Context {F : Type} {arith : FloatArith F}.
Variable sym : Symbols.
Variable env : UeTasks.Env F.

Local Abbreviation C := (UeTasks.NumChannels env).
Local Abbreviation Nd := (UeTasks.OfdmDataNum env).

Lemma DoModul_spec (tag : Z) (st : UeTasks.State F) :
  UeTasks.enqueue_succeeds env = true -> 0 <= C -> 0 <= Nd ->
  exists st',
    UeTasks.DoModul env tag st = Ok (tt, st')
    /\ (forall row z,
          UeTasks.modul_buffer_ st' row z = modulated env tag st row z)
    /\ UeTasks.notify_queue_ st'
       = {| UeTasks.event_type_ := UeTasks.kModul; UeTasks.tags_ := tag |}
         :: UeTasks.notify_queue_ st
    /\ UeTasks.ifft_buffer_ st' = UeTasks.ifft_buffer_ st
    /\ UeTasks.tx_data_ st' = UeTasks.tx_data_ st
    /\ UeTasks.encoder_launched st' = UeTasks.encoder_launched st
    /\ UeTasks.decoder_launched st' = UeTasks.decoder_launched st.
Proof.
  intros Henq HC HN.
  set (f := UeTasks.frame_id_ env tag).
  set (ue := UeTasks.ue_id_ env tag).
  set (sidx := UeTasks.GetULSymbolIdx env (UeTasks.symbol_id_ env tag)).
  set (total := UeTasks.GetTotalDataSymbolIdxUl env f sidx).
  set (V := fun z =>
              UeTasks.ModSingleUint8 env
                (UeTasks.to_uint8
                   (UeTasks.GetEncodedBuf env f sidx (z / Nd) (z mod Nd)))).
  set (Inv := fun (hi : Z) (st' : UeTasks.State F) =>
                (forall row z,
                   UeTasks.modul_buffer_ st' row z
                   = if (row =? total) && (ue * C * Nd <=? z) && (z <? hi)
                     then V z else UeTasks.modul_buffer_ st row z)
                /\ same_but_modul st st').
  assert (H : wp (UeTasks.DoModul env tag) st
                 (fun _ st' =>
                    (forall row z,
                       UeTasks.modul_buffer_ st' row z
                       = modulated env tag st row z)
                    /\ UeTasks.notify_queue_ st'
                       = {| UeTasks.event_type_ := UeTasks.kModul;
                            UeTasks.tags_ := tag |}
                         :: UeTasks.notify_queue_ st
                    /\ UeTasks.ifft_buffer_ st' = UeTasks.ifft_buffer_ st
                    /\ UeTasks.tx_data_ st' = UeTasks.tx_data_ st
                    /\ UeTasks.encoder_launched st'
                       = UeTasks.encoder_launched st
                    /\ UeTasks.decoder_launched st'
                       = UeTasks.decoder_launched st)).
  { unfold UeTasks.DoModul. fold f ue sidx total. apply wp_bind.
    eapply wp_conseq.
    - apply (wp_for (fun n => Inv ((ue * C + Z.of_nat n) * Nd)));
        [reflexivity| |].
      + split; [|unfold same_but_modul; tauto].
        intros row z.
        destruct (row =? total), (Z.leb_spec (ue * C * Nd) z),
                 (Z.ltb_spec z ((ue * C + Z.of_nat 0) * Nd));
          cbn [andb]; try reflexivity; lia.
      + intros n st1 Hn Hinv. rewrite Z.add_0_l, Z.mul_1_r.
        eapply wp_conseq.
        * apply (wp_for
                   (fun m => Inv ((ue * C + Z.of_nat n) * Nd + Z.of_nat m)));
            [reflexivity| |].
          -- rewrite Z.add_0_r. exact Hinv.
          -- intros m st2 Hm [Hbuf Hsame]. rewrite iterations_unit in Hm.
             apply wp_modify. rewrite Z.add_0_l, Z.mul_1_r. split.
             ++ intros row z. cbn [UeTasks.modul_buffer_ UeTasks.set_modul_buffer_].
                set (p := (ue * C + Z.of_nat n) * Nd + Z.of_nat m).
                destruct (Z.eq_dec row total) as [->|Hrow].
                ** rewrite upd_same.
                   destruct (Z.eq_dec z p) as [->|Hz].
                   --- rewrite upd_same. rewrite Z.eqb_refl.
                       destruct (Z.leb_spec (ue * C * Nd) p); [|subst p; nia].
                       destruct (Z.ltb_spec p
                                   ((ue * C + Z.of_nat n) * Nd + Z.of_nat (S m)));
                         [|subst p; lia].
                       cbn [andb]. unfold V. f_equal. f_equal.
                       assert (Hq : p / Nd = ue * C + Z.of_nat n).
                       { subst p. rewrite Z.add_comm, Z.div_add by lia.
                         rewrite Z.div_small by lia. lia. }
                       assert (Hr : p mod Nd = Z.of_nat m).
                       { subst p. rewrite Z.add_comm, Z.mod_add by lia.
                         apply Z.mod_small. lia. }
                       now rewrite Hq, Hr.
                   --- rewrite upd_other by assumption. rewrite Hbuf.
                       rewrite Z.eqb_refl.
                       destruct (Z.leb_spec (ue * C * Nd) z),
                         (Z.ltb_spec z ((ue * C + Z.of_nat n) * Nd + Z.of_nat m)),
                         (Z.ltb_spec z
                            ((ue * C + Z.of_nat n) * Nd + Z.of_nat (S m)));
                         cbn [andb]; try reflexivity; subst p; lia.
                ** rewrite upd_other by assumption. rewrite Hbuf.
                   destruct (Z.eqb_spec row total); [contradiction|reflexivity].
             ++ destruct Hsame as (H1 & H2 & H3 & H4 & H5).
                unfold same_but_modul. cbn. auto.
        * cbv beta. intros _ st2 Hinv2. rewrite iterations_unit in Hinv2.
          rewrite Z2Nat.id in Hinv2 by lia.
          replace ((ue * C + Z.of_nat (S n)) * Nd)
            with ((ue * C + Z.of_nat n) * Nd + Nd) by lia.
          exact Hinv2.
    - cbv beta. intros _ st1 [Hbuf (H1 & H2 & H3 & H4 & H5)].
      apply post_ok; [exact Henq|].
      cbn [UeTasks.modul_buffer_ UeTasks.ifft_buffer_ UeTasks.tx_data_
           UeTasks.encoder_launched UeTasks.decoder_launched
           UeTasks.notify_queue_ UeTasks.set_notify_queue_].
      split; [|rewrite H5; auto].
      intros row z. rewrite Hbuf. unfold modulated.
      fold f ue sidx total. rewrite iterations_unit, Z2Nat.id by lia.
      replace ((ue * C + C) * Nd) with ((ue + 1) * C * Nd) by lia.
      reflexivity. }
  destruct H as ([] & st' & E & H). exists st'. split; [exact E|exact H].
Qed.

Lemma DoIfft_spec (tag : Z) (st : UeTasks.State F) :
  UeTasks.enqueue_succeeds env = true ->
  let f := UeTasks.frame_id_ env tag in
  let s := UeTasks.symbol_id_ env tag in
  let ue := UeTasks.ue_id_ env tag in
  let ul := UeTasks.GetULSymbolIdx env s in
  let total := (f mod kFrameWnd sym) * UeTasks.NumULSyms env + ul in
  exists st',
    UeTasks.DoIfft sym env tag st = Ok (tt, st')
    /\ UeTasks.modul_buffer_ st' = UeTasks.modul_buffer_ st
    /\ UeTasks.notify_queue_ st'
       = {| UeTasks.event_type_ := UeTasks.kIFFT;
            UeTasks.tags_ := UeTasks.FrmSymUe env f s ue |}
         :: UeTasks.notify_queue_ st
    /\ (forall ch, 0 <= ch < C ->
          UeTasks.ifft_buffer_ st' (total * UeTasks.UeAntNum env + ue * C + ch)
          = UeTasks.IFFT env
              (UeTasks.ifft_input env ul total (ue * C + ch) st)
              (UeTasks.OfdmCaNum env))
    /\ (forall row,
          row < total * UeTasks.UeAntNum env + ue * C
          \/ total * UeTasks.UeAntNum env + ue * C + C <= row ->
          UeTasks.ifft_buffer_ st' row = UeTasks.ifft_buffer_ st row).
Proof.
  intros Henq f s ue ul total.
  set (base := total * UeTasks.UeAntNum env + ue * C).
  set (Inv := fun (n : nat) (st' : UeTasks.State F) =>
                UeTasks.modul_buffer_ st' = UeTasks.modul_buffer_ st
                /\ UeTasks.notify_queue_ st' = UeTasks.notify_queue_ st
                /\ (forall ch, 0 <= ch < Z.of_nat n ->
                      UeTasks.ifft_buffer_ st' (base + ch)
                      = UeTasks.IFFT env
                          (UeTasks.ifft_input env ul total (ue * C + ch) st)
                          (UeTasks.OfdmCaNum env))
                /\ (forall row, row < base \/ base + Z.of_nat n <= row ->
                      UeTasks.ifft_buffer_ st' row
                      = UeTasks.ifft_buffer_ st row)).
  assert (H : wp (UeTasks.DoIfft sym env tag) st
                 (fun _ st' =>
                    UeTasks.modul_buffer_ st' = UeTasks.modul_buffer_ st
                    /\ UeTasks.notify_queue_ st'
                       = {| UeTasks.event_type_ := UeTasks.kIFFT;
                            UeTasks.tags_ := UeTasks.FrmSymUe env f s ue |}
                         :: UeTasks.notify_queue_ st
                    /\ (forall ch, 0 <= ch < C ->
                          UeTasks.ifft_buffer_ st' (base + ch)
                          = UeTasks.IFFT env
                              (UeTasks.ifft_input env ul total (ue * C + ch) st)
                              (UeTasks.OfdmCaNum env))
                    /\ (forall row, row < base \/ base + C <= row ->
                          UeTasks.ifft_buffer_ st' row
                          = UeTasks.ifft_buffer_ st row))).
  { unfold UeTasks.DoIfft. fold f s ue ul total. apply wp_bind.
    eapply wp_conseq.
    - apply (wp_for Inv); [reflexivity| |].
      + unfold Inv. split; [reflexivity|]. split; [reflexivity|].
        split; [intros ch Hch; lia|reflexivity].
      + intros n st1 Hn (Hm & Hq & Hdone & Hrest).
        rewrite iterations_unit in Hn. rewrite Z.add_0_l, Z.mul_1_r.
        apply wp_bind. apply wp_get. cbv beta.
        apply wp_bind. apply wp_modify. cbv beta. apply wp_modify.
        assert (Hin : UeTasks.ifft_input env ul total (ue * C + Z.of_nat n) st1
                      = UeTasks.ifft_input env ul total (ue * C + Z.of_nat n) st).
        { unfold UeTasks.ifft_input. rewrite Hm.
          replace (total * UeTasks.UeAntNum env + (ue * C + Z.of_nat n))
            with (base + Z.of_nat n) by (subst base; lia).
          rewrite (Hrest (base + Z.of_nat n)) by lia. reflexivity. }
        unfold Inv.
        cbn [UeTasks.modul_buffer_ UeTasks.ifft_buffer_ UeTasks.notify_queue_
             UeTasks.set_ifft_buffer_ UeTasks.set_tx_data_].
        replace (total * UeTasks.UeAntNum env + (ue * C + Z.of_nat n))
          with (base + Z.of_nat n) by (subst base; lia).
        split; [exact Hm|]. split; [exact Hq|]. split.
        * intros ch Hch. destruct (Z.eq_dec ch (Z.of_nat n)) as [->|Hne].
          -- rewrite upd_same. now rewrite Hin.
          -- rewrite upd_other by lia. apply Hdone. lia.
        * intros row Hrow. rewrite upd_other by lia. apply Hrest. lia.
    - cbv beta. intros _ st1 (Hm & Hq & Hdone & Hrest).
      rewrite iterations_unit in Hdone, Hrest.
      apply post_ok; [exact Henq|].
      cbn [UeTasks.modul_buffer_ UeTasks.ifft_buffer_ UeTasks.notify_queue_
           UeTasks.set_notify_queue_].
      split; [exact Hm|]. split; [now rewrite Hq|]. split.
      + intros ch Hch. apply Hdone. lia.
      + intros row Hrow. apply Hrest. lia. }
  destruct H as ([] & st' & E & H1 & H2 & H3 & H4).
  exists st'. split; [exact E|]. split; [exact H1|]. split; [exact H2|].
  split.
  - intros ch Hch. exact (H3 ch Hch).
  - intros row Hrow. apply H4. subst base. lia.
Qed.

(** The symbol [DoIfft] hands to the IFFT: zeros below the data band, the
    data band, and zeros from [OfdmDataStop] on. *)
Lemma ifft_input_layout (ul total ant : Z) (st : UeTasks.State F) (k : Z) :
  0 <= UeTasks.OfdmDataStart env -> 0 <= Nd ->
  UeTasks.OfdmDataStop env = UeTasks.OfdmDataStart env + Nd ->
  UeTasks.ifft_input env ul total ant st k
  = if (0 <=? k) && (k <? UeTasks.OfdmDataStart env) then cx_zero
    else if (UeTasks.OfdmDataStart env <=? k)
            && (k <? UeTasks.OfdmDataStop env) then
      if ul <? UeTasks.ClientUlPilotSymbols env
      then UeTasks.UeSpecificPilot env ant (k - UeTasks.OfdmDataStart env)
      else UeTasks.modul_buffer_ st total
             (ant * Nd + (k - UeTasks.OfdmDataStart env))
    else if (UeTasks.OfdmDataStop env <=? k)
            && (k <? UeTasks.OfdmDataStop env + UeTasks.OfdmDataStart env)
    then cx_zero
    else UeTasks.ifft_buffer_ st (total * UeTasks.UeAntNum env + ant) k.
Proof.
  intros Hs Hn Hstop. unfold UeTasks.ifft_input, UeTasks.memset_zero,
    UeTasks.memcpy.
  set (S0 := UeTasks.OfdmDataStart env) in *.
  set (S1 := UeTasks.OfdmDataStop env) in *.
  set (row := UeTasks.ifft_buffer_ st (total * UeTasks.UeAntNum env + ant)).
  assert (Hz : forall (b : buf (complex_float F)) p n z,
            0 <= n -> p <= z < p + n ->
            write_list b p (repeat cx_zero (Z.to_nat n)) z = cx_zero).
  { intros b p n z Hn0 Hz.
    replace z with (p + Z.of_nat (Z.to_nat (z - p))) by lia.
    rewrite (write_list_inside cx_zero) by (rewrite repeat_length; lia).
    apply nth_repeat_same. }
  assert (Hc : forall (b src : buf (complex_float F)) p q n z,
            0 <= n -> p <= z < p + n ->
            write_list b p (read_n src q (Z.to_nat n)) z = src (q + (z - p))).
  { intros b src p q n z Hn0 Hz'.
    replace z with (p + Z.of_nat (Z.to_nat (z - p))) at 1 by lia.
    rewrite (write_list_inside cx_zero) by (rewrite read_n_length; lia).
    rewrite read_n_nth by lia. f_equal. lia. }
  destruct (Z.leb_spec 0 k), (Z.ltb_spec k S0), (Z.leb_spec S0 k),
           (Z.ltb_spec k S1), (Z.leb_spec S1 k), (Z.ltb_spec k (S1 + S0));
    cbn [andb]; try lia.
  - (* below the band *)
    rewrite write_list_outside by (rewrite repeat_length; lia).
    destruct (ul <? UeTasks.ClientUlPilotSymbols env);
      rewrite write_list_outside by (rewrite read_n_length; lia);
      apply Hz; lia.
  - (* in the band *)
    rewrite write_list_outside by (rewrite repeat_length; lia).
    destruct (ul <? UeTasks.ClientUlPilotSymbols env);
      rewrite Hc by lia; f_equal; lia.
  - (* the upper zeros *)
    apply Hz; lia.
  - (* past them *)
    rewrite write_list_outside by (rewrite repeat_length; lia).
    destruct (ul <? UeTasks.ClientUlPilotSymbols env);
      rewrite write_list_outside by (rewrite read_n_length; lia);
      rewrite write_list_outside by (rewrite repeat_length; lia);
      reflexivity.
  - (* negative offsets *)
    rewrite write_list_outside by (rewrite repeat_length; lia).
    destruct (ul <? UeTasks.ClientUlPilotSymbols env);
      rewrite write_list_outside by (rewrite read_n_length; lia);
      rewrite write_list_outside by (rewrite repeat_length; lia);
      reflexivity.
Qed.
End UeModulProofs.

(** X19.  [UeWorker::DoModul] writes, in the row
    [GetTotalDataSymbolIdxUl(frame_id, ul_symbol_idx)] of [modul_buffer_],
    the entries of the channels of its user and no other: entry
    [ant_id * OfdmDataNum + sc] receives the constellation point of the
    encoded byte [sc] of antenna [ant_id], read as a [uint8_t]; the entries
    of other users, the other rows and the other buffers are left as they
    were, and one [kModul] event with the tag of the task is posted. *)
Theorem DoModul_writes {F : Type} (env : UeTasks.Env F) (tag : Z)
        (st : UeTasks.State F) :
  UeTasks.enqueue_succeeds env = true ->
  0 <= UeTasks.NumChannels env -> 0 <= UeTasks.OfdmDataNum env ->
  exists st',
    UeTasks.DoModul env tag st = Ok (tt, st')
    /\ (forall row z,
          UeTasks.modul_buffer_ st' row z = modulated env tag st row z)
    /\ UeTasks.notify_queue_ st'
       = {| UeTasks.event_type_ := UeTasks.kModul; UeTasks.tags_ := tag |}
         :: UeTasks.notify_queue_ st
    /\ UeTasks.ifft_buffer_ st' = UeTasks.ifft_buffer_ st
    /\ UeTasks.tx_data_ st' = UeTasks.tx_data_ st
    /\ UeTasks.encoder_launched st' = UeTasks.encoder_launched st
    /\ UeTasks.decoder_launched st' = UeTasks.decoder_launched st.
Proof. apply DoModul_spec. Qed.

Lemma DoModul_writes_witness :
  exists st',
    UeTasks.DoModul sample_ue_env (2 ^ 16 + 1) sample_ue_state = Ok (tt, st')
    /\ UeTasks.modul_buffer_ st' 1 16 = mk_cx 1 0
    /\ UeTasks.modul_buffer_ st' 1 15 = mk_cx 0 0.
Proof.
  destruct (DoModul_writes sample_ue_env (2 ^ 16 + 1) sample_ue_state)
    as (st' & E & H & _).
  - reflexivity.
  - cbn. lia.
  - cbn. lia.
  - exists st'. split; [exact E|]. rewrite !H. split; reflexivity.
Defined.

(** X20.  The symbol [UeWorker::DoIfft] hands to the IFFT for each channel
    of its user, when the data band ends where the upper guard band starts
    ([OfdmDataStop = OfdmDataStart + OfdmDataNum]): zeros in the first
    [OfdmDataStart] entries, the data band (the pilot of the antenna for a
    pilot symbol, the modulated symbols of the antenna otherwise), then
    [OfdmDataStart] zeros from [OfdmDataStop] on; entries past those, if the
    buffer has any, keep what they held.  The transformed symbol replaces
    row [total_ul_symbol_id * UeAntNum + ant_id] of [ifft_buffer_], the rows
    of other antennas are left as they were, and one [kIFFT] event is
    posted. *)
Theorem DoIfft_symbol_layout {F : Type} {arith : FloatArith F}
        (sym : Symbols) (env : UeTasks.Env F) (tag : Z)
        (st : UeTasks.State F) :
  UeTasks.enqueue_succeeds env = true ->
  0 <= UeTasks.OfdmDataStart env -> 0 <= UeTasks.OfdmDataNum env ->
  UeTasks.OfdmDataStop env
  = UeTasks.OfdmDataStart env + UeTasks.OfdmDataNum env ->
  let f := UeTasks.frame_id_ env tag in
  let s := UeTasks.symbol_id_ env tag in
  let ue := UeTasks.ue_id_ env tag in
  let ul := UeTasks.GetULSymbolIdx env s in
  let total := (f mod kFrameWnd sym) * UeTasks.NumULSyms env + ul in
  let first := total * UeTasks.UeAntNum env + ue * UeTasks.NumChannels env in
  exists st',
    UeTasks.DoIfft sym env tag st = Ok (tt, st')
    /\ UeTasks.notify_queue_ st'
       = {| UeTasks.event_type_ := UeTasks.kIFFT;
            UeTasks.tags_ := UeTasks.FrmSymUe env f s ue |}
         :: UeTasks.notify_queue_ st
    /\ (forall row,
          row < first \/ first + UeTasks.NumChannels env <= row ->
          UeTasks.ifft_buffer_ st' row = UeTasks.ifft_buffer_ st row)
    /\ forall ch, 0 <= ch < UeTasks.NumChannels env ->
         let ant := ue * UeTasks.NumChannels env + ch in
         exists input,
           UeTasks.ifft_buffer_ st' (first + ch)
           = UeTasks.IFFT env input (UeTasks.OfdmCaNum env)
           /\ forall k,
                input k
                = if (0 <=? k) && (k <? UeTasks.OfdmDataStart env)
                  then cx_zero
                  else if (UeTasks.OfdmDataStart env <=? k)
                          && (k <? UeTasks.OfdmDataStop env) then
                    if ul <? UeTasks.ClientUlPilotSymbols env
                    then UeTasks.UeSpecificPilot env ant
                           (k - UeTasks.OfdmDataStart env)
                    else UeTasks.modul_buffer_ st total
                           (ant * UeTasks.OfdmDataNum env
                            + (k - UeTasks.OfdmDataStart env))
                  else if (UeTasks.OfdmDataStop env <=? k)
                          && (k <? UeTasks.OfdmDataStop env
                                   + UeTasks.OfdmDataStart env)
                  then cx_zero
                  else UeTasks.ifft_buffer_ st (first + ch) k.
Proof.
  intros Henq Hs Hn Hstop f s ue ul total first.
  destruct (DoIfft_spec sym env tag st Henq)
    as (st' & E & _ & Hq & Hdone & Hrest).
  exists st'. split; [exact E|]. split; [exact Hq|].
  split; [exact Hrest|].
  intros ch Hch ant.
  exists (UeTasks.ifft_input env ul total ant st).
  split; [exact (Hdone ch Hch)|].
  intros k. rewrite (ifft_input_layout env ul total ant st k Hs Hn Hstop).
  subst first ant.
  replace (total * UeTasks.UeAntNum env
           + (ue * UeTasks.NumChannels env + ch))
    with (total * UeTasks.UeAntNum env + ue * UeTasks.NumChannels env + ch)
    by lia.
  reflexivity.
Qed.

Lemma DoIfft_symbol_layout_witness :
  exists st',
    UeTasks.DoIfft sample_symbols sample_ue_env 1 sample_ue_state
    = Ok (tt, st')
    /\ UeTasks.notify_queue_ st'
       = [{| UeTasks.event_type_ := UeTasks.kIFFT; UeTasks.tags_ := 1 |}].
Proof.
  destruct (DoIfft_symbol_layout sample_symbols sample_ue_env 1
              sample_ue_state) as (st' & E & Hq & _).
  - reflexivity.
  - cbn. lia.
  - cbn. lia.
  - reflexivity.
  - exists st'. split; [exact E|]. rewrite Hq. reflexivity.
Defined.

(** X21.  [DoModul] followed by [DoIfft] for the same tag, on a data
    symbol, when the row that [GetTotalDataSymbolIdxUl] gives is the one
    [DoIfft] computes, [(frame_id % kFrameWnd) * NumULSyms + ul_symbol_id]:
    for each channel of the user, subcarrier [sc] of the data band of the
    symbol handed to the IFFT is the constellation point of encoded byte
    [sc] of the antenna. *)
Theorem DoModul_then_DoIfft {F : Type} {arith : FloatArith F}
        (sym : Symbols) (env : UeTasks.Env F) (tag : Z)
        (st : UeTasks.State F) :
  UeTasks.enqueue_succeeds env = true ->
  0 <= UeTasks.OfdmDataStart env -> 0 <= UeTasks.OfdmDataNum env ->
  UeTasks.OfdmDataStop env
  = UeTasks.OfdmDataStart env + UeTasks.OfdmDataNum env ->
  let f := UeTasks.frame_id_ env tag in
  let ue := UeTasks.ue_id_ env tag in
  let ul := UeTasks.GetULSymbolIdx env (UeTasks.symbol_id_ env tag) in
  let total := (f mod kFrameWnd sym) * UeTasks.NumULSyms env + ul in
  UeTasks.GetTotalDataSymbolIdxUl env f ul = total ->
  UeTasks.ClientUlPilotSymbols env <= ul ->
  exists st1 st2,
    UeTasks.DoModul env tag st = Ok (tt, st1)
    /\ UeTasks.DoIfft sym env tag st1 = Ok (tt, st2)
    /\ forall ch, 0 <= ch < UeTasks.NumChannels env ->
         let ant := ue * UeTasks.NumChannels env + ch in
         exists input,
           UeTasks.ifft_buffer_ st2 (total * UeTasks.UeAntNum env + ant)
           = UeTasks.IFFT env input (UeTasks.OfdmCaNum env)
           /\ forall sc, 0 <= sc < UeTasks.OfdmDataNum env ->
                input (UeTasks.OfdmDataStart env + sc)
                = UeTasks.ModSingleUint8 env
                    (UeTasks.to_uint8
                       (UeTasks.GetEncodedBuf env f ul ant sc)).
Proof.
  intros Henq Hs Hn Hstop f ue ul total Hrow Hdata.
  destruct (Z_lt_ge_dec (UeTasks.NumChannels env) 0) as [HC|HC].
  - (* no channel: both loops are empty *)
    assert (E1 : exists st1, UeTasks.DoModul env tag st = Ok (tt, st1)).
    { unfold UeTasks.DoModul, bind. rewrite for_repeat by lia.
      rewrite iterations_unit.
      replace (Z.to_nat (UeTasks.NumChannels env)) with O by lia.
      cbn [repeat_m ret]. unfold UeTasks.post. rewrite Henq.
      eexists. reflexivity. }
    destruct E1 as (st1 & E1).
    destruct (DoIfft_spec sym env tag st1 Henq) as (st2 & E2 & _).
    exists st1, st2. split; [exact E1|]. split; [exact E2|].
    intros ch Hch. lia.
  - destruct (DoModul_spec env tag st Henq ltac:(lia) Hn)
      as (st1 & E1 & Hm & _).
    destruct (DoIfft_spec sym env tag st1 Henq)
      as (st2 & E2 & _ & _ & Hdone & _).
    exists st1, st2. split; [exact E1|]. split; [exact E2|].
    intros ch Hch ant.
    exists (UeTasks.ifft_input env ul total ant st1).
    split.
    { subst ant. rewrite Z.add_assoc. exact (Hdone ch Hch). }
    intros sc Hsc.
    rewrite (ifft_input_layout env ul total ant st1 _ Hs Hn Hstop).
    destruct (Z.leb_spec 0 (UeTasks.OfdmDataStart env + sc)); [|lia].
    destruct (Z.ltb_spec (UeTasks.OfdmDataStart env + sc)
                         (UeTasks.OfdmDataStart env)); [lia|].
    destruct (Z.leb_spec (UeTasks.OfdmDataStart env)
                         (UeTasks.OfdmDataStart env + sc)); [|lia].
    destruct (Z.ltb_spec (UeTasks.OfdmDataStart env + sc)
                         (UeTasks.OfdmDataStop env)); [|lia].
    cbn [andb].
    destruct (Z.ltb_spec ul (UeTasks.ClientUlPilotSymbols env)); [lia|].
    rewrite Hm. unfold modulated. fold f ue ul. rewrite Hrow.
    rewrite Z.eqb_refl.
    replace (ant * UeTasks.OfdmDataNum env
             + (UeTasks.OfdmDataStart env + sc - UeTasks.OfdmDataStart env))
      with (sc + ant * UeTasks.OfdmDataNum env) by lia.
    assert (Hlo : ue * UeTasks.NumChannels env * UeTasks.OfdmDataNum env
                  <= sc + ant * UeTasks.OfdmDataNum env) by (subst ant; nia).
    assert (Hhi : sc + ant * UeTasks.OfdmDataNum env
                  < (ue + 1) * UeTasks.NumChannels env
                    * UeTasks.OfdmDataNum env) by (subst ant; nia).
    destruct (Z.leb_spec
                (ue * UeTasks.NumChannels env * UeTasks.OfdmDataNum env)
                (sc + ant * UeTasks.OfdmDataNum env)); [|lia].
    destruct (Z.ltb_spec (sc + ant * UeTasks.OfdmDataNum env)
                ((ue + 1) * UeTasks.NumChannels env
                 * UeTasks.OfdmDataNum env)); [|lia].
    cbn [andb]. f_equal. f_equal.
    rewrite Z.div_add by lia. rewrite Z.mod_add by lia.
    rewrite Z.div_small by lia. rewrite Z.mod_small by lia.
    rewrite Z.add_0_l. reflexivity.
Qed.

Lemma DoModul_then_DoIfft_witness :
  exists st1 st2,
    UeTasks.DoModul sample_ue_env (2 ^ 16 + 1) sample_ue_state = Ok (tt, st1)
    /\ UeTasks.DoIfft sample_symbols sample_ue_env (2 ^ 16 + 1) st1
       = Ok (tt, st2)
    /\ exists input,
         UeTasks.ifft_buffer_ st2 6 = input
         /\ input 4 = mk_cx 1 0.
Proof.
  destruct (DoModul_then_DoIfft sample_symbols sample_ue_env (2 ^ 16 + 1)
              sample_ue_state) as (st1 & st2 & E1 & E2 & H).
  - reflexivity.
  - cbn. lia.
  - cbn. lia.
  - reflexivity.
  - reflexivity.
  - vm_compute. discriminate.
  - exists st1, st2. split; [exact E1|]. split; [exact E2|].
    destruct (H 0 ltac:(cbn; lia)) as (input & Hrow & Hin).
    exists input. split; [exact Hrow|].
    apply (Hin 0). cbn. lia.
Defined.
(** ** Millipede: [DemulSingleSC] *)

Section SingleSCProofs.
Context {F : Type} {arith : FloatArith F}.
Variable cfg : Millipede.Config.
Variable inp : Millipede.Inputs F.
Variable demul_events_per_symbol : Z.
Variable data_symbol_num_perframe : Z.
Variable demod_16qam_hard_loop : list (complex_float F) -> list Z.
Variable tid : Z.

Local Abbreviation B := (Millipede.BS_ANT_NUM cfg).
Local Abbreviation T := (Millipede.transpose_block_size cfg).

Lemma wp_on_worker {A} (m : M (Millipede.DoDemul F) A)
      (s : Millipede.SingleSC F) (Q : A -> Millipede.SingleSC F -> Prop) :
  wp m (Millipede.worker s)
     (fun a w => Q a {| Millipede.worker := w;
                        Millipede.printed := Millipede.printed s |}) ->
  wp (Millipede.on_worker m) s Q.
Proof.
  intros (a & w & E & HQ). eexists a, _. split; [|exact HQ].
  unfold Millipede.on_worker. now rewrite E.
Qed.

(** The gather of one subcarrier: every store is one register further than
    the last one, and so aligned, whatever the number of antennas. *)
Lemma gather_single_spec (data_buf : buf (complex_float F)) (src : Z)
      (gbuf : buf (complex_float F)) :
  exists l',
    Millipede.gather_single cfg data_buf
      {| g_src := src; g_dst := 0; g_buf := gbuf |} = Ok (tt, l')
    /\ forall a,
         g_buf l' a
         = if (0 <=? a) && (a <? 4 * Z.of_nat (iterations 0 B 4))
           then data_buf (src + a * T) else gbuf a.
Proof.
  unfold Millipede.gather_single.
  destruct (wp_for
    (fun k l =>
       g_src l = src + 4 * Z.of_nat k * T
       /\ g_dst l = 4 * Z.of_nat k
       /\ forall a,
            g_buf l a
            = if (0 <=? a) && (a <? 4 * Z.of_nat k)
              then data_buf (src + a * T) else gbuf a)
    0 B 4
    (fun _ : Z =>
       s <- get ;;
       store_ps 4 (g_dst s) (read_strided data_buf (g_src s) T 4) ;;
       advance T 4)
    {| g_src := src; g_dst := 0; g_buf := gbuf |})
    as ([] & l' & E & _ & _ & Hb).
  - reflexivity.
  - cbn [g_src g_dst g_buf]. split; [lia|]. split; [lia|].
    intros a.
    destruct (Z.leb_spec 0 a), (Z.ltb_spec a (4 * Z.of_nat 0));
      try reflexivity; lia.
  - intros k l Hk (Hs & Hd & Hb).
    apply wp_bind. apply wp_get. cbv beta.
    apply wp_bind. unfold store_ps. rewrite Hd.
    replace ((4 * Z.of_nat k) mod 4) with 0
      by (rewrite Z.mul_comm, Z_mod_mult; reflexivity).
    change (0 =? 0) with true. cbv iota.
    eexists tt, _. split; [reflexivity|].
    unfold advance. apply wp_modify.
    cbn [g_src g_dst g_buf]. rewrite Hs, Hd.
    split; [lia|]. split; [lia|]. intros a.
    destruct (Z_lt_ge_dec a (4 * Z.of_nat k)) as [Hlo|Hlo].
    + rewrite write_list_outside by lia. rewrite Hb.
      destruct (Z.leb_spec 0 a), (Z.ltb_spec a (4 * Z.of_nat k)),
               (Z.ltb_spec a (4 * Z.of_nat (S k)));
        try reflexivity; lia.
    + destruct (Z_lt_ge_dec a (4 * Z.of_nat k + 4)) as [Hhi|Hhi].
      * replace a with (4 * Z.of_nat k
                        + Z.of_nat (Z.to_nat (a - 4 * Z.of_nat k)))
          at 1 by lia.
        rewrite (write_list_inside (data_buf 0))
          by (rewrite read_strided_length; lia).
        rewrite read_strided_nth by lia.
        destruct (Z.leb_spec 0 a), (Z.ltb_spec a (4 * Z.of_nat (S k)));
          try lia.
        cbn [andb]. f_equal. rewrite Z2Nat.id by lia. lia.
      * rewrite write_list_outside
          by (rewrite read_strided_length; lia).
        rewrite Hb.
        destruct (Z.leb_spec 0 a), (Z.ltb_spec a (4 * Z.of_nat k)),
                 (Z.ltb_spec a (4 * Z.of_nat (S k)));
          try reflexivity; lia.
  - exists l'. split; [exact E|exact Hb].
Qed.

Lemma print_loop_total (n : Z) (body : Z -> list Millipede.out_item)
      (get_items : Millipede.SingleSC F -> Z -> list Millipede.out_item)
      (s : Millipede.SingleSC F) :
  wp (for_ 0 n 1 (fun ue_idx =>
        s <- get ;; Millipede.print (get_items s ue_idx)))
     s (fun _ s' => Millipede.worker s' = Millipede.worker s).
Proof.
  apply wp_for_keep; [reflexivity|reflexivity|].
  intros i s1 H1. apply wp_bind. apply wp_get. cbv beta.
  unfold Millipede.print. apply wp_modify. exact H1.
Qed.
End SingleSCProofs.

(** X27.  Millipede's [DemulSingleSC] returns for every number of antennas:
    its gather stores one register after the other, so that no store is
    misaligned (unlike the gather of [launch]).  It equalizes the one
    subcarrier [sc_id] of data symbol [total_data_symbol_id], always into
    the export buffer, whatever [EXPORT_CONSTELLATION] is, takes the hard
    decisions of [demod_16qam_hard_loop] on the result, whatever [USE_LDPC]
    is, stores them at the same offset of the hard buffer, counts one
    subcarrier, leaves the LLR buffer alone and returns
    [Event_data(EventType::kDemul, offset)]. *)
Theorem DemulSingleSC_returns {F : Type} {arith : FloatArith F}
        (cfg : Millipede.Config) (inp : Millipede.Inputs F)
        (demul_events_per_symbol data_symbol_num_perframe : Z)
        (demod_16qam_hard_loop : list (complex_float F) -> list Z)
        (tid offset : Z) (st : Millipede.SingleSC F) :
  let sc_id := Millipede.single_sc_id cfg demul_events_per_symbol offset in
  let total :=
    Millipede.single_total_data_symbol_id demul_events_per_symbol offset in
  let frame_id := Z.quot total data_symbol_num_perframe in
  let U := Millipede.UE_NUM cfg in
  exists st',
    Millipede.DemulSingleSC cfg inp demul_events_per_symbol
      data_symbol_num_perframe demod_16qam_hard_loop tid offset st
    = Ok ({| event_type_ := kDemul; tags_ := offset |}, st')
    /\ (forall a, 0 <= a < Millipede.BS_ANT_NUM cfg ->
          Millipede.spm_buffer (Millipede.worker st') a
          = Millipede.data_buffer_ inp total
              (Millipede.single_cur_sc_offset cfg demul_events_per_symbol
                                              offset
               + a * Millipede.transpose_block_size cfg))
    /\ (forall z,
          Millipede.equal_buffer_ (Millipede.worker st') total z
          = write_list (Millipede.equal_buffer_ (Millipede.worker st) total)
              (sc_id * U)
              (mat_vec (Millipede.precoder_buffer_ inp
                          (frame_id * Millipede.OFDM_DATA_NUM cfg + sc_id))
                       (Millipede.spm_buffer (Millipede.worker st')) 0 U
                       (Millipede.BS_ANT_NUM cfg)) z)
    /\ (forall z,
          Millipede.demod_hard_buffer_ (Millipede.worker st') total z
          = write_list
              (Millipede.demod_hard_buffer_ (Millipede.worker st) total)
              (sc_id * U)
              (demod_16qam_hard_loop
                 (mat_vec (Millipede.precoder_buffer_ inp
                             (frame_id * Millipede.OFDM_DATA_NUM cfg + sc_id))
                          (Millipede.spm_buffer (Millipede.worker st')) 0 U
                          (Millipede.BS_ANT_NUM cfg))) z)
    /\ Millipede.demod_soft_buffer_ (Millipede.worker st')
       = Millipede.demod_soft_buffer_ (Millipede.worker st)
    /\ task_count_ (Millipede.duration_stat (Millipede.worker st'))
       = wrap64 (task_count_ (Millipede.duration_stat (Millipede.worker st))
                 + 1).
Proof.
  intros sc_id total frame_id U.
  assert (H : wp (Millipede.DemulSingleSC cfg inp demul_events_per_symbol
                    data_symbol_num_perframe demod_16qam_hard_loop tid offset)
                 st
                 (fun ev st' =>
                    ev = {| event_type_ := kDemul; tags_ := offset |}
                    /\ (forall a, 0 <= a < Millipede.BS_ANT_NUM cfg ->
                          Millipede.spm_buffer (Millipede.worker st') a
                          = Millipede.data_buffer_ inp total
                              (Millipede.single_cur_sc_offset cfg
                                 demul_events_per_symbol offset
                               + a * Millipede.transpose_block_size cfg))
                    /\ (forall z,
                          Millipede.equal_buffer_ (Millipede.worker st') total z
                          = write_list
                              (Millipede.equal_buffer_ (Millipede.worker st)
                                                       total)
                              (sc_id * U)
                              (mat_vec
                                 (Millipede.precoder_buffer_ inp
                                    (frame_id * Millipede.OFDM_DATA_NUM cfg
                                     + sc_id))
                                 (Millipede.spm_buffer (Millipede.worker st'))
                                 0 U (Millipede.BS_ANT_NUM cfg)) z)
                    /\ (forall z,
                          Millipede.demod_hard_buffer_ (Millipede.worker st')
                                                       total z
                          = write_list
                              (Millipede.demod_hard_buffer_
                                 (Millipede.worker st) total)
                              (sc_id * U)
                              (demod_16qam_hard_loop
                                 (mat_vec
                                    (Millipede.precoder_buffer_ inp
                                       (frame_id * Millipede.OFDM_DATA_NUM cfg
                                        + sc_id))
                                    (Millipede.spm_buffer
                                       (Millipede.worker st'))
                                    0 U (Millipede.BS_ANT_NUM cfg))) z)
                    /\ Millipede.demod_soft_buffer_ (Millipede.worker st')
                       = Millipede.demod_soft_buffer_ (Millipede.worker st)
                    /\ task_count_
                         (Millipede.duration_stat (Millipede.worker st'))
                       = wrap64
                           (task_count_
                              (Millipede.duration_stat (Millipede.worker st))
                            + 1))).
  { unfold Millipede.DemulSingleSC. fold sc_id total frame_id U.
    apply wp_bind. apply wp_on_worker. apply millipede_wp_rdtsc. cbv beta.
    apply wp_bind. apply wp_get. cbv beta.
    match goal with
    | |- context [Millipede.gather_single cfg ?d
                    {| g_src := ?s0; g_dst := 0; g_buf := ?g |}] =>
        destruct (gather_single_spec cfg d s0 g) as (l & -> & Hl)
    end.
    cbn [Millipede.worker Millipede.printed Millipede.spm_buffer
         Millipede.set_tsc_reads] in Hl.
    apply wp_bind. apply wp_on_worker. apply wp_modify. cbv beta.
    apply wp_bind. apply wp_on_worker. apply wp_modify. cbv beta.
    apply wp_bind. apply wp_on_worker. apply wp_modify. cbv beta.
    apply wp_bind. unfold Millipede.print at 1. apply wp_modify. cbv beta.
    apply wp_bind.
    eapply wp_conseq.
    { apply (print_loop_total (Millipede.UE_NUM cfg) (fun _ => [])
               (fun s ue_idx =>
                  [Millipede.OutByte
                     (Millipede.demod_hard_buffer_ (Millipede.worker s) total
                        (sc_id * Millipede.UE_NUM cfg + ue_idx));
                   Millipede.OutStr "  "])). }
    cbv beta. intros _ s1 Hw.
    apply wp_bind. unfold Millipede.print. apply wp_modify. cbv beta.
    apply wp_bind. apply wp_on_worker. apply millipede_wp_rdtsc. cbv beta.
    apply wp_bind. apply wp_on_worker.
    unfold Millipede.add_task_duration. apply wp_modify. cbv beta.
    apply wp_bind. apply wp_on_worker. apply millipede_wp_rdtsc. cbv beta.
    apply wp_bind. apply wp_on_worker. apply wp_modify. cbv beta.
    apply wp_bind. apply wp_on_worker.
    unfold Millipede.incr_task_count. apply wp_modify. cbv beta.
    apply wp_ret.
    cbn [Millipede.worker Millipede.printed]. rewrite Hw.
    cbn [Millipede.worker Millipede.printed Millipede.spm_buffer
         Millipede.equal_buffer_ Millipede.demod_hard_buffer_
         Millipede.demod_soft_buffer_ Millipede.duration_stat
         Millipede.set_tsc_reads Millipede.set_spm_buffer
         Millipede.set_equal_buffer_ Millipede.set_demod_hard_buffer_
         Millipede.set_duration_stat task_count_].
    split; [reflexivity|]. split.
    { intros a Ha. rewrite Hl.
      destruct (Z.leb_spec 0 a); [|lia].
      destruct (Z.ltb_spec a
                  (4 * Z.of_nat (iterations 0 (Millipede.BS_ANT_NUM cfg) 4)));
        [reflexivity|].
      exfalso.
      pose proof (iterations_cover (Millipede.BS_ANT_NUM cfg) 4 ltac:(lia)).
      lia. }
    split; [intros z; now rewrite upd_same|].
    split; [intros z; now rewrite upd_same|].
    split; reflexivity. }
  destruct H as (ev & st' & E & -> & H).
  exists st'. split; [exact E|exact H].
Qed.

(** X26.  Millipede built with [EXPORT_CONSTELLATION] and [USE_LDPC]: the
    equalized symbols go to the export buffer, and the soft demodulation
    reads the scratch buffer that the task did not write.  So two tasks
    that start in the same state and differ in the received samples and in
    the precoders only both return, with the same LLR buffer, the same
    hard-decision buffer and the same counters. *)
Theorem millipede_export_llr_ignores_samples
        {F : Type} {arith : FloatArith F}
        (flags : Millipede.Flags) (cfg : Millipede.Config)
        (inp : Millipede.Inputs F) (data precoder : Z -> buf (complex_float F))
        (tag : Z) (st : Millipede.DoDemul F) :
  Millipede.EXPORT_CONSTELLATION flags = true ->
  Millipede.USE_LDPC flags = true ->
  Millipede.BS_ANT_NUM cfg mod 4 = 0 ->
  exists s1 s2,
    Millipede.launch flags cfg inp tag st
    = Ok ({| event_type_ := kDemul; tags_ := tag |}, s1)
    /\ Millipede.launch flags cfg (Millipede.with_data inp data precoder)
                        tag st
       = Ok ({| event_type_ := kDemul; tags_ := tag |}, s2)
    /\ Millipede.demod_soft_buffer_ s1 = Millipede.demod_soft_buffer_ s2
    /\ Millipede.demod_hard_buffer_ s1 = Millipede.demod_hard_buffer_ s2
    /\ Millipede.duration_stat s1 = Millipede.duration_stat s2.
Proof.
  intros He Hl H4.
  destruct (millipede_launch_total flags cfg inp tag st H4)
    as (e1 & s1 & E1 & ->).
  destruct (millipede_launch_total flags cfg
              (Millipede.with_data inp data precoder) tag st H4)
    as (e2 & s2 & E2 & ->).
  exists s1, s2. split; [exact E1|]. split; [exact E2|].
  pose proof (millipede_launch_ignores_data flags cfg inp data precoder
                He Hl tag st) as H.
  rewrite E1, E2 in H. cbn in H. unfold Millipede.same_scratch in H. tauto.
Qed.

Lemma millipede_export_llr_ignores_samples_witness :
  exists s1 s2,
    Millipede.launch (millipede_flags true) millipede_config millipede_inputs
                     0 millipede_state
    = Ok ({| event_type_ := kDemul; tags_ := 0 |}, s1)
    /\ Millipede.launch (millipede_flags true) millipede_config
         (Millipede.with_data millipede_inputs
            (fun _ _ => mk_cx 3 5) (fun _ _ => mk_cx 2 7))
         0 millipede_state
       = Ok ({| event_type_ := kDemul; tags_ := 0 |}, s2)
    /\ Millipede.demod_soft_buffer_ s1 = Millipede.demod_soft_buffer_ s2
    /\ Millipede.demod_hard_buffer_ s1 = Millipede.demod_hard_buffer_ s2
    /\ Millipede.duration_stat s1 = Millipede.duration_stat s2.
Proof.
  apply (millipede_export_llr_ignores_samples (millipede_flags true)
           millipede_config millipede_inputs
           (fun _ _ => mk_cx 3 5) (fun _ _ => mk_cx 2 7) 0 millipede_state);
    reflexivity.
Defined.

(** ** The equalization kernel *)

Lemma fold_left_ext {A B} (f g : A -> B -> A) (l : list B) :
  (forall a b, f a b = g a b) ->
  forall a, fold_left f l a = fold_left g l a.
Proof.
  intros H. induction l as [|b l IH]; intros a; [reflexivity|].
  cbn [fold_left]. rewrite H. apply IH.
Qed.

Lemma zrange_nth (lo hi : Z) (k : nat) :
  (k < Z.to_nat (hi - lo))%nat -> nth k (zrange lo hi) 0 = lo + Z.of_nat k.
Proof.
  intros H. unfold zrange.
  rewrite (nth_indep _ 0 ((fun k => lo + Z.of_nat k) O))
    by (rewrite length_map, length_seq; exact H).
  rewrite (map_nth (fun k => lo + Z.of_nat k)), seq_nth by exact H.
  reflexivity.
Qed.

(** Entry [u] of the product is accumulated from zero over the columns of
    the column-major matrix. *)
Lemma mat_vec_entry {F : Type} {arith : FloatArith F}
      (A x : buf (complex_float F)) (xoff rows cols u : Z) :
  0 <= u < rows ->
  nth (Z.to_nat u) (mat_vec A x xoff rows cols) cx_zero
  = fold_left (fun acc a => cx_add acc (cx_mul (A (a * rows + u))
                                               (x (xoff + a))))
              (zrange 0 cols) cx_zero.
Proof.
  intros Hu. unfold mat_vec.
  set (f := fun u0 => fold_left _ (zrange 0 cols) cx_zero).
  rewrite (nth_indep _ cx_zero (f 0))
    by (rewrite length_map, zrange_length; lia).
  rewrite (map_nth f), zrange_nth by lia.
  unfold f. rewrite Z2Nat.id, Z.add_0_l by lia. reflexivity.
Qed.

Section EqualizationKernel.
Context {F : Type} {ops : FloatOps F}.
Variable sym : Symbols.
Variable cfg : Config.
Variable inp : Inputs F.

(** What the phase tracker leaves at [equal_ptr]. *)
Lemma phase_track_tracked frame_id symbol_idx_ul cur_sc_id total off
      (st : DoDemul F) :
  exists st',
    phase_track sym cfg inp frame_id symbol_idx_ul cur_sc_id total off st
    = Ok (tt, st')
    /\ read_mat_equaled sym cfg total off st'
       = tracked sym cfg frame_id symbol_idx_ul (ue_spec_pilot_buffer_ st)
                 (read_mat_equaled sym cfg total off st).
Proof.
  unfold tracked.
  destruct (Z.ltb_spec symbol_idx_ul (ClientUlPilotSymbols cfg)) as [Hp|Hp].
  - unfold phase_track.
    destruct (Z.ltb_spec symbol_idx_ul (ClientUlPilotSymbols cfg)); [|lia].
    eexists. split; [reflexivity|].
    unfold read_mat_equaled. destruct (kExportConstellation sym); reflexivity.
  - destruct (Z.ltb_spec 0 (ClientUlPilotSymbols cfg)) as [H0|H0].
    + destruct (phase_track_correct_step sym cfg inp frame_id symbol_idx_ul
                  cur_sc_id total off st H0 Hp) as (st' & E & _ & Hr).
      exists st'. split; [exact E|exact Hr].
    + unfold phase_track.
      destruct (Z.ltb_spec symbol_idx_ul (ClientUlPilotSymbols cfg)); [lia|].
      destruct (Z.ltb_spec 0 (ClientUlPilotSymbols cfg)); [lia|].
      exists st. split; reflexivity.
Qed.

Lemma equalize_product_direct total frame_slot base_sc_id i j
      (st : DoDemul F) :
  exists st1,
    equalize_product false sym cfg inp total frame_slot base_sc_id i j st
    = Ok (tt, st1)
    /\ read_mat_equaled sym cfg total
         (equal_off sym cfg (base_sc_id + i + j) base_sc_id) st1
       = mat_vec (ul_zf_matrices_ inp frame_slot
                    (GetZfScId cfg (base_sc_id + i + j)))
                 (data_gather_buffer_ st) (j * BsAntNum cfg)
                 (UeNum cfg) (BsAntNum cfg)
    /\ ue_spec_pilot_buffer_ st1 = ue_spec_pilot_buffer_ st.
Proof.
  unfold equalize_product.
  destruct (write_mat_equaled_read sym cfg total
              (equal_off sym cfg (base_sc_id + i + j) base_sc_id)
              (mat_vec (ul_zf_matrices_ inp frame_slot
                          (GetZfScId cfg (base_sc_id + i + j)))
                       (data_gather_buffer_ st) (j * BsAntNum cfg)
                       (UeNum cfg) (BsAntNum cfg)) st
              (mat_vec_length _ _ _ _ _))
    as (st1 & E & Hr & Hp & _).
  exists st1. split; [|split; assumption].
  unfold bind, get. exact E.
Qed.

(** The loop body at line 181 is the product followed by the phase
    tracker and the counters. *)
Lemma equalize_sc_unfold frame_id symbol_idx_ul total frame_slot
      base_sc_id i j (st : DoDemul F) :
  equalize_sc sym cfg inp frame_id symbol_idx_ul total frame_slot
              base_sc_id i j st
  = (start_tsc2 <- GetTime_WorkerRdtsc inp ;;
     equalize_product false sym cfg inp total frame_slot base_sc_id i j ;;
     phase_track sym cfg inp frame_id symbol_idx_ul (base_sc_id + i + j)
                 total (equal_off sym cfg (base_sc_id + i + j) base_sc_id) ;;
     start_tsc3 <- GetTime_WorkerRdtsc inp ;;
     add_task_duration 2 (wrap64 (start_tsc3 - start_tsc2)) ;;
     incr_task_count) st.
Proof. reflexivity. Qed.

Lemma equalize_sc_tracked frame_id symbol_idx_ul total frame_slot
      base_sc_id i j (st : DoDemul F) :
  exists st',
    equalize_sc sym cfg inp frame_id symbol_idx_ul total frame_slot
                base_sc_id i j st
    = Ok (tt, st')
    /\ read_mat_equaled sym cfg total
         (equal_off sym cfg (base_sc_id + i + j) base_sc_id) st'
       = tracked sym cfg frame_id symbol_idx_ul (ue_spec_pilot_buffer_ st)
           (mat_vec (ul_zf_matrices_ inp frame_slot
                       (GetZfScId cfg (base_sc_id + i + j)))
                    (data_gather_buffer_ st) (j * BsAntNum cfg)
                    (UeNum cfg) (BsAntNum cfg)).
Proof.
  rewrite equalize_sc_unfold.
  set (st0 := set_tsc_reads_ (S (tsc_reads_ st)) st).
  destruct (equalize_product_direct total frame_slot base_sc_id i j st0)
    as (st1 & E1 & Hr1 & Hp1).
  destruct (phase_track_tracked frame_id symbol_idx_ul (base_sc_id + i + j)
              total (equal_off sym cfg (base_sc_id + i + j) base_sc_id) st1)
    as (st2 & E2 & Hr2).
  eexists. split.
  - unfold bind at 1. unfold GetTime_WorkerRdtsc at 1. fold st0.
    unfold bind at 1. rewrite E1.
    unfold bind at 1. rewrite E2.
    reflexivity.
  - rewrite Hr1, Hp1 in Hr2.
    change (ue_spec_pilot_buffer_ st0) with (ue_spec_pilot_buffer_ st) in Hr2.
    change (data_gather_buffer_ st0) with (data_gather_buffer_ st) in Hr2.
    rewrite <- Hr2.
    unfold read_mat_equaled. destruct (kExportConstellation sym); reflexivity.
Qed.
End EqualizationKernel.

Section MillipedeKernel.
Context {F : Type} {arith : FloatArith F}.
Variable flags : Millipede.Flags.
Variable cfg : Millipede.Config.
Variable inp : Millipede.Inputs F.

Lemma mat_vec_rows (A x : buf (complex_float F)) xoff rows cols :
  length (mat_vec A x xoff rows cols) = Z.to_nat rows.
Proof. unfold mat_vec. rewrite length_map, zrange_length. f_equal. lia. Qed.

Lemma millipede_equalize_sc_product frame total base_sc_id i j
      (st : Millipede.DoDemul F) :
  let cur_sc_id := i * 8 + j + base_sc_id in
  let precoder_offset :=
    (frame mod Millipede.TASK_BUFFER_FRAME_NUM flags)
    * Millipede.OFDM_DATA_NUM cfg + cur_sc_id in
  let precoder_offset :=
    if Millipede.freq_orthogonal_pilot cfg
    then precoder_offset - cur_sc_id mod Millipede.UE_NUM cfg
    else precoder_offset in
  exists st',
    Millipede.equalize_sc flags cfg inp frame total base_sc_id i j st
    = Ok (tt, st')
    /\ (if Millipede.EXPORT_CONSTELLATION flags
        then read_n (Millipede.equal_buffer_ st' total)
                    (cur_sc_id * Millipede.UE_NUM cfg)
                    (Z.to_nat (Millipede.UE_NUM cfg))
        else read_n (Millipede.equaled_buffer_temp st')
                    ((cur_sc_id - base_sc_id) * Millipede.UE_NUM cfg)
                    (Z.to_nat (Millipede.UE_NUM cfg)))
       = mat_vec (Millipede.precoder_buffer_ inp precoder_offset)
                 (Millipede.spm_buffer st) (j * Millipede.BS_ANT_NUM cfg)
                 (Millipede.UE_NUM cfg) (Millipede.BS_ANT_NUM cfg).
Proof.
  intros cur_sc_id po0 po.
  unfold Millipede.equalize_sc. fold cur_sc_id po0 po.
  set (v := mat_vec (Millipede.precoder_buffer_ inp po)
                    (Millipede.spm_buffer st)
                    (j * Millipede.BS_ANT_NUM cfg) (Millipede.UE_NUM cfg)
                    (Millipede.BS_ANT_NUM cfg)).
  assert (Hlen : length v = Z.to_nat (Millipede.UE_NUM cfg))
    by apply mat_vec_rows.
  rewrite <- Hlen.
  destruct (Millipede.EXPORT_CONSTELLATION flags),
           (Millipede.USE_LDPC flags);
    (eexists; split; [reflexivity|]);
    cbn -[mat_vec read_n write_list wrap64 upd Z.mul Z.add Z.sub];
    rewrite ?upd_same; apply read_n_write_list.
Qed.
End MillipedeKernel.

Section ExactKernel.
Variable cfg : Config.

(** Over the real numbers the kernel created with [alpha = 1] and
    [beta = 0] leaves the product in the first [UeNum] entries of [C]. *)
Lemma mkl_jit_cgemm_exact (A x C : buf (complex_float R)) (xoff : Z) :
  read_n (mkl_jit_cgemm_ cfg A (fun a => x (xoff + a)) C) 0
         (Z.to_nat (UeNum cfg))
  = mat_vec A x xoff (UeNum cfg) (BsAntNum cfg).
Proof.
  unfold mkl_jit_cgemm_, jit_cgemm.
  change (zrange 0 1) with [0]. cbn [fold_left].
  rewrite Z.mul_0_l.
  set (l := map _ (zrange 0 (UeNum cfg))).
  assert (Hl : length l = Z.to_nat (UeNum cfg)).
  { unfold l. rewrite length_map, zrange_length. f_equal. lia. }
  rewrite <- Hl, read_n_write_list.
  unfold l, mat_vec. apply map_ext. intros r.
  unfold cgemm_entry.
  rewrite (fold_left_ext _
             (fun acc a => cx_add acc (cx_mul (A (a * UeNum cfg + r))
                                              (x (xoff + a)))))
    by (intros acc a; now rewrite Z.mul_0_l, Z.add_0_l).
  match goal with
  | |- context [fold_left ?f ?l0 ?a0] => generalize (fold_left f l0 a0)
  end.
  intros [sr si]. generalize (C (0 * UeNum cfg + r)). intros [cr ci].
  unfold cx_add, cx_mul. cbn. f_equal; ring.
Qed.

Lemma fold_left_cx_sum (f : Z -> complex_float R) (l : list Z) :
  forall acc,
    fold_left (fun acc a => cx_add acc (f a)) l acc
    = mk_cx (re acc + Rsum (fun a => re (f a)) l)%R
            (im acc + Rsum (fun a => im (f a)) l)%R.
Proof.
  induction l as [|b l IH]; intros [ar ai].
  - cbn. f_equal; ring.
  - cbn [fold_left]. rewrite IH. cbn. fold (Rsum (fun a => re (f a)) l).
    fold (Rsum (fun a => im (f a)) l). f_equal; ring.
Qed.

(** Armadillo's product, entry by entry, is the direct mathematical
    product. *)
Lemma mat_vec_exact (A x : buf (complex_float R)) (xoff rows cols u : Z) :
  0 <= u < rows ->
  nth (Z.to_nat u) (mat_vec A x xoff rows cols) cx_zero
  = spec_product_entry A (fun a => x (xoff + a)) rows cols u.
Proof.
  intros Hu. rewrite mat_vec_entry by exact Hu.
  rewrite (fold_left_cx_sum
             (fun a => cx_mul (A (a * rows + u)) (x (xoff + a)))).
  unfold spec_product_entry. cbn. f_equal; ring.
Qed.

Lemma rel_err_within_refl (eps : R) (a : complex_float R) :
  (0 <= eps)%R -> rel_err_within eps a a.
Proof.
  intros He. unfold rel_err_within.
  replace ((re a - re a) * (re a - re a) + (im a - im a) * (im a - im a))%R
    with 0%R by ring.
  rewrite sqrt_0. apply Rmult_le_pos; [exact He|apply sqrt_pos].
Qed.

Lemma equalize_product_builds (sym : Symbols) (inp : Inputs R)
      (total frame_slot base_sc_id i j : Z) (st : DoDemul R) :
  equalize_product true sym cfg inp total frame_slot base_sc_id i j st
  = equalize_product false sym cfg inp total frame_slot base_sc_id i j st.
Proof.
  unfold equalize_product, bind, get. cbv beta iota zeta.
  now rewrite (mkl_jit_cgemm_exact _ (data_gather_buffer_ st) _
                 (j * BsAntNum cfg)).
Qed.
End ExactKernel.


(** ** The equalized vectors a task leaves *)

Lemma fold_left_ext_in {A B} (f g : A -> B -> A) (l : list B) :
  (forall a b, In b l -> f a b = g a b) ->
  forall a, fold_left f l a = fold_left g l a.
Proof.
  induction l as [|b l IH]; intros H a; [reflexivity|].
  cbn [fold_left]. rewrite H by (left; reflexivity).
  apply IH. intros a' b' Hin. apply H. now right.
Qed.

Lemma In_zrange (lo hi a : Z) : In a (zrange lo hi) -> lo <= a < hi.
Proof.
  unfold zrange. rewrite in_map_iff. intros (k & <- & Hk).
  apply in_seq in Hk. lia.
Qed.

(** The product reads the [cols] entries of the vector and no other. *)
Lemma mat_vec_ext {F : Type} {arith : FloatArith F}
      (A x x' : buf (complex_float F)) (xoff xoff' rows cols : Z) :
  (forall a, 0 <= a < cols -> x (xoff + a) = x' (xoff' + a)) ->
  mat_vec A x xoff rows cols = mat_vec A x' xoff' rows cols.
Proof.
  intros H. unfold mat_vec. apply map_ext. intros u.
  apply fold_left_ext_in. intros acc a Ha.
  apply In_zrange in Ha. now rewrite H.
Qed.

Section EqualizedVectors.
Context {F : Type} {ops : FloatOps F}.
Variable sym : Symbols.
Variable cfg : Config.
Variable inp : Inputs F.
Variable frame_id symbol_idx_ul total frame_slot base_sc_id : Z.

Local Abbreviation U := (UeNum cfg).
Local Abbreviation P := (ClientUlPilotSymbols cfg).
Local Abbreviation Un := (Z.of_nat (Z.to_nat (UeNum cfg))).
Local Abbreviation read := (read_mat_equaled sym cfg total).

(** What a step that stores at most [UeNum] entries at [off] keeps: the
    vectors stored elsewhere, the gathered samples and, on a data symbol,
    the pilot accumulators. *)
Local Abbreviation keeps off st st' :=
  ((forall off', off' + Un <= off \/ off + Un <= off' ->
      read off' st' = read off' st)
   /\ data_gather_buffer_ st' = data_gather_buffer_ st
   /\ (P <= symbol_idx_ul ->
       ue_spec_pilot_buffer_ st' = ue_spec_pilot_buffer_ st)).

Lemma read_same off (st st' : DoDemul F) :
  equal_buffer_ st' = equal_buffer_ st ->
  equaled_buffer_temp_ st' = equaled_buffer_temp_ st ->
  read off st' = read off st.
Proof. intros H1 H2. unfold read_mat_equaled. now rewrite H1, H2. Qed.

Lemma write_mat_equaled_spec off v (st : DoDemul F) :
  length v = Z.to_nat U ->
  exists st',
    write_mat_equaled sym total off v st = Ok (tt, st')
    /\ read off st' = v
    /\ (forall off', off' + Un <= off \/ off + Un <= off' ->
          read off' st' = read off' st)
    /\ data_gather_buffer_ st' = data_gather_buffer_ st
    /\ ue_spec_pilot_buffer_ st' = ue_spec_pilot_buffer_ st
    /\ phy_stats_ st' = phy_stats_ st.
Proof.
  intros Hlen. unfold write_mat_equaled, read_mat_equaled.
  eexists. split; [apply modify_ok|].
  destruct (kExportConstellation sym); cbn.
  - rewrite upd_same. split.
    { rewrite <- Hlen. apply read_n_write_list. }
    split; [|auto].
    intros off' Hoff. apply read_n_ext. intros k Hk.
    apply write_list_outside. lia.
  - split.
    { rewrite <- Hlen. apply read_n_write_list. }
    split; [|auto].
    intros off' Hoff. apply read_n_ext. intros k Hk.
    apply write_list_outside. lia.
Qed.

Lemma phase_track_spec cur_sc_id off (st : DoDemul F) :
  exists st',
    phase_track sym cfg inp frame_id symbol_idx_ul cur_sc_id total off st
    = Ok (tt, st')
    /\ read off st'
       = tracked sym cfg frame_id symbol_idx_ul (ue_spec_pilot_buffer_ st)
                 (read off st)
    /\ keeps off st st'.
Proof.
  unfold tracked, phase_track.
  destruct (Z.ltb_spec symbol_idx_ul P) as [Hp|Hp].
  - eexists. split; [reflexivity|]. cbn.
    split; [now apply read_same|].
    split; [intros; now apply read_same|].
    split; [reflexivity|lia].
  - destruct (Z.ltb_spec 0 P) as [H0|H0].
    + unfold bind at 1. unfold get.
      set (v := phase_correct cfg symbol_idx_ul _ _).
      destruct (write_mat_equaled_spec off v st)
        as (st1 & E1 & R1 & K1 & G1 & P1 & _).
      { apply phase_correct_length, read_mat_equaled_length. }
      unfold bind at 1. rewrite E1.
      destruct (symbol_idx_ul =? P);
        [destruct (kPrintPhyStats sym && (cur_sc_id =? 0))|];
        (eexists; split; [reflexivity|]); cbn;
        (split; [rewrite <- R1; now apply read_same|]);
        (split; [intros off' Hoff; rewrite <- (K1 off' Hoff);
                 now apply read_same|]);
        (split; [exact G1|intros _; exact P1]).
    + exists st. split; [reflexivity|]. repeat split; reflexivity.
Qed.

(** One subcarrier: the loop body at line 181. *)
Lemma equalize_sc_spec i j (st : DoDemul F) :
  exists st',
    equalize_sc sym cfg inp frame_id symbol_idx_ul total frame_slot
                base_sc_id i j st
    = Ok (tt, st')
    /\ read (equal_off sym cfg (base_sc_id + i + j) base_sc_id) st'
       = tracked sym cfg frame_id symbol_idx_ul (ue_spec_pilot_buffer_ st)
           (mat_vec (ul_zf_matrices_ inp frame_slot
                       (GetZfScId cfg (base_sc_id + i + j)))
                    (data_gather_buffer_ st) (j * BsAntNum cfg)
                    U (BsAntNum cfg))
    /\ keeps (equal_off sym cfg (base_sc_id + i + j) base_sc_id) st st'.
Proof.
  rewrite equalize_sc_unfold.
  set (off := equal_off sym cfg (base_sc_id + i + j) base_sc_id).
  set (st0 := set_tsc_reads_ (S (tsc_reads_ st)) st).
  set (v := mat_vec (ul_zf_matrices_ inp frame_slot
                       (GetZfScId cfg (base_sc_id + i + j)))
                    (data_gather_buffer_ st) (j * BsAntNum cfg)
                    U (BsAntNum cfg)).
  destruct (write_mat_equaled_spec off v st0 (mat_vec_length _ _ _ _ _))
    as (st1 & E1 & R1 & K1 & G1 & P1 & _).
  destruct (phase_track_spec (base_sc_id + i + j) off st1)
    as (st2 & E2 & R2 & K2 & G2 & P2).
  eexists. split.
  - unfold bind at 1. unfold GetTime_WorkerRdtsc at 1. fold st0.
    unfold bind at 1. unfold equalize_product, bind at 1, get at 1.
    fold off. change (data_gather_buffer_ st0) with (data_gather_buffer_ st).
    fold v. rewrite E1.
    unfold bind at 1. rewrite E2.
    reflexivity.
  - split; [|split; [|split]].
    + rewrite R1, P1 in R2.
      change (ue_spec_pilot_buffer_ st0) with (ue_spec_pilot_buffer_ st)
        in R2.
      rewrite <- R2. now apply read_same.
    + intros off' Hoff.
      transitivity (read off' st2); [now apply read_same|].
      rewrite (K2 off' Hoff), (K1 off' Hoff). now apply read_same.
    + cbn. rewrite G2, G1. reflexivity.
    + intros Hp. cbn. rewrite (P2 Hp), P1. reflexivity.
Qed.

Variable st_init : DoDemul F.

(** The vector a task leaves for subcarrier [c]. *)
Local Abbreviation expected c :=
  (tracked sym cfg frame_id symbol_idx_ul (ue_spec_pilot_buffer_ st_init)
           (equalized_of sym cfg inp frame_slot total c)).

Local Abbreviation pilot_ok s :=
  (P <= symbol_idx_ul ->
   ue_spec_pilot_buffer_ s = ue_spec_pilot_buffer_ st_init).

Local Abbreviation done_upto hi s :=
  (forall c, base_sc_id <= c < hi ->
     read (equal_off sym cfg c base_sc_id) s = expected c).

Lemma equal_off_apart c c' :
  c' < c ->
  equal_off sym cfg c' base_sc_id + Un <= equal_off sym cfg c base_sc_id
  \/ equal_off sym cfg c base_sc_id + Un <= equal_off sym cfg c' base_sc_id.
Proof.
  intros H. unfold equal_off.
  destruct (Z_le_gt_dec 0 U) as [HU|HU].
  - left. rewrite Z2Nat.id by exact HU.
    destruct (kExportConstellation sym); nia.
  - right. replace Un with 0 by lia.
    destruct (kExportConstellation sym); nia.
Qed.

Lemma tracked_pilot (p p' : Z -> buf (complex_float F)) v :
  (P <= symbol_idx_ul -> p = p') ->
  tracked sym cfg frame_id symbol_idx_ul p v
  = tracked sym cfg frame_id symbol_idx_ul p' v.
Proof.
  intros H. unfold tracked.
  destruct (Z.ltb_spec symbol_idx_ul P); [reflexivity|].
  rewrite H by assumption. reflexivity.
Qed.

Hypothesis block_size : 0 < kTransposeBlockSize sym.
Hypothesis block_aligned :
  kUsePartialTrans sym = true ->
  (kSCsPerCacheline | kTransposeBlockSize sym)
  /\ (kSCsPerCacheline | base_sc_id).
Hypothesis vector_width :
  AVX512F sym = true -> simd_guard sym cfg = true -> BsAntNum cfg mod 8 = 0.

(** Step 1 for the cache line [k]. *)
Lemma gather_step_spec (k : nat) (st : DoDemul F) :
  let i := Z.of_nat k * kSCsPerCacheline in
  exists st',
    gather_step sym cfg inp total base_sc_id i st = Ok (tt, st')
    /\ (forall j a, 0 <= j < kSCsPerCacheline -> 0 <= a < BsAntNum cfg ->
          data_gather_buffer_ st' (j * BsAntNum cfg + a)
          = data_buffer_ inp total
              (layout_offset sym cfg (base_sc_id + i + j) a))
    /\ equal_buffer_ st' = equal_buffer_ st
    /\ equaled_buffer_temp_ st' = equaled_buffer_temp_ st
    /\ ue_spec_pilot_buffer_ st' = ue_spec_pilot_buffer_ st.
Proof.
  intros i.
  destruct (gather_stage_entries sym cfg (data_buffer_ inp total) base_sc_id i
              (data_gather_buffer_ st) block_size)
    as (g & Eg & Hg); [|exact vector_width|].
  { intros Hpt. destruct (block_aligned Hpt) as [H1 [q Hq]].
    split; [exact H1|]. exists (q + Z.of_nat k). unfold i. lia. }
  unfold gather_step.
  unfold bind at 1. unfold GetTime_WorkerRdtsc at 1.
  unfold bind at 1. unfold get at 1.
  change (data_gather_buffer_ (set_tsc_reads_ (S (tsc_reads_ st)) st))
    with (data_gather_buffer_ st).
  rewrite Eg.
  eexists. split; [reflexivity|].
  cbn. repeat split; try reflexivity. exact Hg.
Qed.

(** The loop over the subcarriers of the cache line [k]. *)
Lemma equalize_line_spec (k : nat) (st : DoDemul F) :
  let i := Z.of_nat k * kSCsPerCacheline in
  (forall j a, 0 <= j < kSCsPerCacheline -> 0 <= a < BsAntNum cfg ->
     data_gather_buffer_ st (j * BsAntNum cfg + a)
     = data_buffer_ inp total (layout_offset sym cfg (base_sc_id + i + j) a)) ->
  pilot_ok st ->
  done_upto (base_sc_id + i) st ->
  wp (for_ 0 kSCsPerCacheline 1 (fun j =>
        equalize_sc sym cfg inp frame_id symbol_idx_ul total frame_slot
                    base_sc_id i j))
     st
     (fun _ st' => pilot_ok st' /\ done_upto (base_sc_id + i + 8) st').
Proof.
  intros i Hg Hp Hd.
  eapply wp_conseq.
  - apply (wp_for
             (fun (n : nat) (s : DoDemul F) =>
                data_gather_buffer_ s = data_gather_buffer_ st
                /\ pilot_ok s
                /\ done_upto (base_sc_id + i + Z.of_nat n) s));
      [reflexivity| |].
    + split; [reflexivity|]. split; [exact Hp|].
      intros c Hc. apply Hd. lia.
    + intros n s Hn (Gs & Ps & Ds).
      change (iterations 0 kSCsPerCacheline 1) with 8%nat in Hn.
      rewrite Z.add_0_l, Z.mul_1_r.
      destruct (equalize_sc_spec i (Z.of_nat n) s)
        as (s' & E & R & K & G & Pk).
      exists tt, s'. split; [exact E|].
      split; [now rewrite G|].
      split; [intros H; now rewrite (Pk H), (Ps H)|].
      intros c Hc.
      destruct (Z.eq_dec c (base_sc_id + i + Z.of_nat n)) as [->|Hne].
      * rewrite R. unfold equalized_of.
        rewrite (tracked_pilot _ (ue_spec_pilot_buffer_ st_init)) by exact Ps.
        f_equal. apply mat_vec_ext. intros a Ha.
        rewrite Gs, Z.add_0_l. apply Hg; [|exact Ha].
        unfold kSCsPerCacheline. lia.
      * rewrite K; [apply Ds; lia|].
        apply equal_off_apart. lia.
  - cbv beta. intros _ s (_ & Ps & Ds).
    change (iterations 0 kSCsPerCacheline 1) with 8%nat in Ds.
    split; [exact Ps|exact Ds].
Qed.

(** The loop over the cache lines (lines 104-267). *)
Lemma equalize_block_spec :
  wp (equalize_block sym cfg inp frame_id symbol_idx_ul total frame_slot
                     base_sc_id)
     st_init
     (fun _ st' =>
        forall c, in_task cfg base_sc_id c ->
          read (equal_off sym cfg c base_sc_id) st' = expected c).
Proof.
  unfold equalize_block.
  eapply wp_conseq.
  - apply (wp_for
             (fun (k : nat) (s : DoDemul F) =>
                pilot_ok s
                /\ done_upto (base_sc_id + Z.of_nat k * kSCsPerCacheline) s));
      [reflexivity| |].
    + split; [reflexivity|]. intros c Hc. lia.
    + intros k s Hk (Ps & Ds). rewrite Z.add_0_l.
      apply wp_bind.
      destruct (gather_step_spec k s) as (s1 & E1 & G1 & B1 & T1 & P1).
      exists tt, s1. split; [exact E1|].
      eapply wp_conseq.
      * apply (equalize_line_spec k s1 G1).
        { intros H. rewrite P1. now apply Ps. }
        { intros c Hc. rewrite <- (Ds c Hc). now apply read_same. }
      * cbv beta. intros _ s2 (P2 & D2). split; [exact P2|].
        intros c Hc. apply D2. unfold kSCsPerCacheline in *. lia.
  - cbv beta. intros _ s (_ & Ds) c (k & j & Hk & Hlt & Hj & ->).
    apply Ds.
    pose proof (iterations_cover (max_sc_ite cfg base_sc_id)
                  kSCsPerCacheline ltac:(reflexivity)) as Hc.
    unfold kSCsPerCacheline in *. lia.
Qed.
End EqualizedVectors.



(** ** [UeWorker::DoDemul]: the row that is demodulated *)

(** The reduction of the [size_t] subtraction cancels in the reduction of
    the row offset. *)
Lemma wrap64_row (t u a : Z) :
  wrap64 (wrap64 t * u + a) = (t * u + a) mod 2 ^ 64.
Proof.
  unfold wrap64.
  rewrite <- Z.add_mod_idemp_l by lia.
  rewrite Z.mul_mod_idemp_l by lia.
  rewrite Z.add_mod_idemp_l by lia.
  reflexivity.
Qed.

(** X29.  [UeWorker::DoDemul] with a modulation order that has a kernel:
    the kernel is given [OfdmDataNum] subcarriers of row [offset] of
    [equal_buffer_], and its LLR bytes are stored from the start of
    [demod_buffer_[frame_slot][dl_symbol_id][ant_id]], the rest of the row
    being left as it was.  The row is
    [(total * UeAntNum + ant_id) mod 2^64], where
    [total = frame_slot * NumDlDataSyms + dl_symbol_id -
    ClientDlPilotSymbols] is taken in the integers: when the [size_t]
    subtraction wraps, at a downlink symbol before the data symbols, the
    wrap cancels in the reduction of the product and the sum. *)
Theorem UeWorker_DoDemul_llr {F : Type} (sym : Symbols) (config_ : Config)
        (env : UeWorker.Env F) (tid_ tag : Z) (st : UeWorker.State)
        (K : buf (complex_float F) -> Z -> list Z) :
  ue_selected_kernel sym config_ env = Some K ->
  UeWorker.enqueue_succeeds env = true ->
  let frame_slot := UeWorker.frame_id_ env tag mod kFrameWnd sym in
  let dl_symbol_id :=
    UeWorker.GetDLSymbolIdx env (UeWorker.symbol_id_ env tag) in
  let ant_id := UeWorker.ant_id_ env tag in
  let total :=
    frame_slot * UeWorker.NumDlDataSyms env + dl_symbol_id
    - UeWorker.ClientDlPilotSymbols env in
  let offset := (total * UeWorker.UeAntNum env + ant_id) mod 2 ^ 64 in
  exists st',
    UeWorker.DoDemul sym config_ env tid_ tag st = Ok (tt, st')
    /\ forall z,
         UeWorker.demod_buffer_ st' frame_slot dl_symbol_id ant_id z
         = write_list (UeWorker.demod_buffer_ st frame_slot dl_symbol_id ant_id)
                      0
                      (K (UeWorker.equal_buffer_ env offset)
                         (OfdmDataNum config_)) z.
Proof.
  intros HK Henq frame_slot dl_symbol_id ant_id total offset.
  unfold UeWorker.DoDemul, UeWorker.write_demod.
  fold frame_slot dl_symbol_id ant_id. rewrite Henq.
  rewrite wrap64_row. fold total offset. rewrite Z.mul_0_r.
  unfold ue_selected_kernel in HK.
  destruct (ModOrderBits config_ =? kQpsk sym);
    [|destruct (ModOrderBits config_ =? kQaM16 sym);
      [|destruct (ModOrderBits config_ =? kQaM64 sym);
        [|discriminate]]];
    injection HK as <-;
    (eexists; split; [reflexivity|]);
    intros z; cbn [UeWorker.demod_buffer_];
    now rewrite !upd_same.
Qed.

Lemma UeWorker_DoDemul_llr_witness :
  exists st',
    UeWorker.DoDemul sample_symbols (sample_config 4 2 1 2)
                     sample_worker_env 0 5 sample_worker_state
    = Ok (tt, st')
    /\ UeWorker.demod_buffer_ st' 0 0 5 0 = 1.
Proof.
  destruct (UeWorker_DoDemul_llr sample_symbols (sample_config 4 2 1 2)
              sample_worker_env 0 5 sample_worker_state
              (UeWorker.DemodQpskSoftSse sample_worker_env)
              eq_refl eq_refl)
    as (st' & E & H).
  exists st'. split; [exact E|].
  rewrite H. reflexivity.
Defined.
